(* ===== verification/_CoqProject ===== *)
-Q . S2P
Prelude.v
PyStr.v
Reports.v
Py.v
Effects.v
Json.v
Documents.v
Struct.v
IpAddr.v
Control.v
Journal.v
Signals.v
Preflight.v
Tun.v
Nft.v
Shlex.v
Iptables.v
HostNetwork.v
Config.v
Arguments.v
Runtime.v
Connections.v
Lifecycle.v
Service.v
Handlers.v
Progress.v
Packets.v
Benchmark.v
Bridges.v
Capacity.v
Logs.v
Hosted.v
HighBdp.v
Sessions.v
KernelService.v
ServiceInvariants.v
ServiceWakeups.v
