(* ===== verification/Prelude.v ===== *)
(** * A verification of tcpcc

    tcpcc terminates public TCP connections inside a hosted Linux network stack
    and bridges each to one local backend.  This library models the Python
    tools that run it on a host, [tools/tcpcc_control.py], [tools/tcpcc_host.py]
    and [tools/tcpcc_cli.py], the deciding parts of the programs under
    [scripts] that test and measure it, and, of the hosted kernel in C, the
    session registry of [bridge.c] and the service of [service.c], and proves
    what they promise.

    ** The program

    - [tcpcc_control.py] speaks the binary control protocol of the hosted
      kernel over the pipes of its process.
    - [tcpcc_host.py] owns host state: it inspects prerequisites (preflight),
      recognises what earlier instances left behind (ownership), creates a TUN
      queue, steers the public endpoint into it with nftables or iptables, and
      undoes all of it; a journal remembers what is to be undone, and a signal
      manager turns SIGINT and SIGTERM into a request to stop.
    - [tcpcc_cli.py] is the service: it reads the command line, validates a
      configuration, acquires the host network, runs the hosted kernel as a
      child process, accepts and bridges connections, drains and unwinds.
    - The scripts drive the hosted kernel and judge what they see: the control
      and TUN tests check packets, bridges and statistics and print telemetry;
      the capacity and high-BDP programs measure; the hosted report reads the
      logs of a run and decides whether it meets its scenario.
    - The hosted kernel ([linux-overlay/arch/tcpcc]) can accept and bridge by
      itself: a service thread serves up to 64 listeners, and the control calls
      start, drain, stop and inspect it; each bridge is a session with a handle.

    ** How code is modelled

    Pure code is a function; code that raises returns [res] (file [Py]), and
    code with effects is a computation of the monad [M S] (file [Effects]) with
    a private state [S], exceptions, and the trace of every call to the outside:
    a system call, a child process, a pipe, a library, the clock, a signal, an
    emitted line.  The environment [Env] answers a call as an arbitrary function
    of the trace so far, or makes it fail with any exception, so a theorem
    without a hypothesis on the environment covers every host, every hosted
    kernel and every failure.  Where a property needs the outside to behave,
    the law is a named hypothesis on the environment ([SignalLaw]:
    [signal.signal] returns the handler it replaces; [time_passes]: the clock is
    monotonic, and shows that a join which timed out has taken its timeout;
    [signal_pending]: a signal is pending until it has been reported once;
    [arrivals_bounded]; the laws of an nftables transport), and a witness shows
    an environment that obeys it.  The judgements [wp], [acts], [does], [emits],
    [throws], [steps], [keeps] and [ends] of [Effects] say what a computation
    does to state and trace, which calls it makes, what it raises, which
    invariant it keeps, and that it ends; each has a tactic of its name driven
    by a hint database.  [ran] names the piece of a trace that is a run of a
    given computation, where a theorem cuts a run into its parts.

    A Python object with mutable fields is a record in the state; objects that
    are shared (the resources a journal closes, the stop request a runtime
    polls) live once in the state of the computation that shares them, and code
    of one component runs on its part of the state through [zoom].  Dynamic
    values whose type the code inspects are [pyval].  Strings are Latin-1
    strings ([PyStr] says why that is enough); floats are rationals; the order in
    which Python lists a set is an arbitrary function of the past ([SetOrder]).

    The service of the hosted kernel is concurrent: it is a function from a
    label and a state to the next state, one label per thread or callback, in
    steps of a critical section; a label carries what sockets and memory answer.
    [reachable] is what its interleavings reach from boot, and a theorem about
    a reachable state is proved by an invariant that every label keeps.

    ** Files

    - [Prelude]: notation, tactics, generic lemmas.  [PyStr]: [str] and [int].
      [Py]: values, exception classes with their messages, results.
      [Effects]: calls, environments, the monad and its logic.
    - Library models, as far as the tools use them: [Json] ([json]), [Struct]
      ([struct]), [IpAddr] ([ipaddress]), [Shlex] ([shlex.split]).
    - [Control]: tcpcc_control.py, whole: records, encoders and decoders, the
      bounded read, [ControlClient]; and the abstract channel its clients see.
    - [Reports], [Documents]: the report classes of tcpcc_host.py and their
      JSON.  [Preflight]: the checks and [collect_preflight].  [Journal]:
      [OwnershipJournal].  [Tun]: [TunConfig], [TunQueue], [create_tun_queue].
      [Nft]: DNAT configuration, markers, ownership, leases and the two nftables
      transports.  [Iptables]: the iptables backend.  [HostNetwork]:
      [acquire_host_network] and its lease, over all of these.  [Signals]:
      [ShutdownSignals].
    - [Config]: endpoints, [ServiceConfig], [validate_kernel_image],
      [config_from_namespace] and the derived configurations of tcpcc_cli.py.
      [Arguments]: [build_parser], with [argparse] and [pathlib] as far as it
      uses them; which number a text stands for ([float]) is a parameter.
      [Runtime]: [HostedKernelRuntime], definitions only.  [Connections] and
      [Lifecycle]: its properties while serving, and at start and stop.
      [Service]: [run_service] and [main].  [Handlers] and [Progress]: that a
      run gives the signal handlers back, and that it comes to an end.
    - [Packets] (run-tcpcc-control-test.py): checksums, echo requests and
      replies.  [Bridges] (the same and run-tcpcc-tun-test.py): responses,
      bridge handles, tokens and results, exact socket reads.  [Benchmark]
      (run-tcpcc-high-bdp-iperf.py): scenarios, the reports of iperf, tc and
      tcpcc, the verdict.  [Capacity] (run-tcpcc-capacity-discovery.py): levels,
      process figures, the gates on idling and memory.  [Logs]: the telemetry
      line of the TUN test and the parsers of logs, with the regular expressions
      as scanners.  [Hosted] (collect-m7-hosted-report.py): the acceptance checks.
      [HighBdp] (run-tcpcc-high-bdp-iperf.py): names, topology, children, captures,
      rounds of measurements, the report, the cleanup, and [main] after the options.
    - [Sessions] (bridge.c): slots, generations, handles and event tokens.
      [KernelService] (service.c): its state, its operations, the steps of its
      threads.  [ServiceInvariants]: phases, counters and lists in every reachable
      state, and the entries that connections point to.  [ServiceWakeups]: drains,
      stops and wake-ups, the theorems, and runs.

    A definition has the name of what it models, without leading underscore; a
    long method is cut into named parts, each mapped to its lines.

    ** What is shown

    - The service ([Service]): whatever happens during start-up, service or
      clean-up, the hosted kernel is stopped, then the steering withdrawn, then
      the TUN descriptor closed, each by one call and none elsewhere; the exit
      status and the last message say whether there was an error, and which.
      Every signal has its former handler again, or the run ended in the error of
      the call that was to restore it ([Handlers]), and a run that is asked once to
      stop ends ([Progress]); the witness there runs the whole service, from
      acquisition to the last event, on a sample host.
    - The runtime ([Connections], [Lifecycle]): the bridges it counts are the
      bridges there are, no accepted socket leaks, the admission limit holds,
      polls and shutdown end, shutdown happens once and closes what its state
      holds, and a started runtime listens as configured.
    - The host network ([HostNetwork], [Journal], [Tun], [Nft], [Iptables],
      [Preflight]): acquisition is a transaction that says what went wrong and what
      could not be undone, inspection changes nothing and reports exactly what it
      saw, leases undo exactly what was installed, once.
    - The protocol ([Control]): encoders and decoders are inverse and accept
      exactly the well-formed records; reads are exact and end; the pipe client
      sends each request once, reads one record, and refines the abstract channel.
    - Validation ([Arguments], [Config], [Nft], [Tun], [Documents]): the command
      line gives the settings written on it or exits; accepted configurations
      are canonical, texts read back to what was written, the kernel image check
      is exactly the format it stands for.
    - The tests ([Packets], [Bridges]): an echo request is well formed, a flipped
      bit is noticed, the wait for replies ends exactly when all are answered, and
      a bridge result is accepted exactly when it is the one expected, by the
      decoders of [Control].
    - The measurements ([Benchmark], [Capacity], [Logs], [Hosted]): scenarios and
      levels are accepted exactly when in range and read back; each verdict holds
      exactly when its criteria do; and the telemetry the TUN test prints reaches
      the hosted report unchanged.  The benchmark ([HighBdp]) ends on a clock that
      advances, builds the planned topology in order, measures every case once
      in every round, whatever happens runs a cleanup that stops the children it
      knows and deletes the namespaces, and returns 0 only on a report whose gates
      pass.
    - The hosted kernel ([Sessions], [ServiceWakeups]): the registry implements a
      table of handles, and the handle of a joined session finds nothing until
      2047 more have been started; in every interleaving the service counts the connections there
      are, uses no listener after freeing it (but for a connection queued at a start
      that fails, which [failed_start_dangles] runs), loses no wake-up, cancels every
      session on a stop, and has none left when a drain or a stop returns; its
      counters are what the decoder of [Control] reads.

    ** Bounds

    Loops that the outside ends take a number of turns as argument and return
    [OutOfFuel] beyond it; [OutOfFuel] means that the code is still running.
    [poll_once_ends] and [shutdown_ends] give numbers of turns that suffice; the
    exact read ([read_exact_fd_exact]) needs as many turns as bytes.  [serve]
    runs until a signal arrives: [run_service_ends] needs as many polls as pass
    before it, and the other theorems hold for any number.  The JSON scanner and
    the searches of [Logs] recurse on the length of the text, and
    [recv_exact_delivers] needs one turn per byte.  [wait_service_active] and
    [await_replies] recurse on the list of what was observed.  The waits of
    [HighBdp] sleep a twentieth of a second and give up after at most 20 seconds:
    more than 400 turns suffice.  The transition system of the service has no
    bound; integers of the kernel wrap at their width ([u32], [u64]).

    ** Not modelled

    Of the hosted kernel (linux-overlay, C), connecting, pumping bytes and
    dispatching events in bridge.c, the control loop, the device and the port of
    Linux itself: a session of the service ends with some result, sockets and
    memory answer anything they may, and to the Python tools the kernel is an
    arbitrary environment on the control channel.  That a thread is scheduled
    again is not stated; [no_wakeup_lost] is what the code owes the scheduler.
    The native command line (native, C) is another program, which the Python
    tools do not use.
    Of the other scripts, what sets up namespaces, devices and cgroups, starts
    programs, moves data and writes documents is not modelled, nor are the shell
    scripts and the remaining tests, which are sequences of calls of other
    programs.  The scripts compute with floats; here they are exact, so rounding
    at a threshold is not covered.  The texts that [argparse] prints, the help
    and the usage errors, are not modelled.
    Constructor parameters that replace a collaborator for tests (runners,
    factories) have their default value. *)

From Stdlib Require Export Ascii ZArith Lia.
From stdpp Require Export base tactics list strings gmap list_numbers.

#[global] Set Default Goal Selector "!".

(** ** Tactics *)

(** Splits every conditional and match of the goal and of the hypotheses,
    closing the branches that contradict an equation. *)
Ltac crush_match :=
  repeat (case_match; simplify_eq/=; try done).

(** Turns the boolean comparisons of the context into propositions. *)
Ltac bool_to_prop :=
  repeat match goal with
  | H : (_ && _)%bool = true |- _ => apply andb_true_iff in H as [? ?]
  | H : (_ || _)%bool = false |- _ => apply orb_false_iff in H as [? ?]
  | H : negb _ = true |- _ => apply negb_true_iff in H
  | H : negb _ = false |- _ => apply negb_false_iff in H
  | H : bool_decide _ = true |- _ => apply bool_decide_eq_true in H
  | H : bool_decide _ = false |- _ => apply bool_decide_eq_false in H
  | H : (_ <=? _)%Z = true |- _ => apply Z.leb_le in H
  | H : (_ <=? _)%Z = false |- _ => apply Z.leb_gt in H
  | H : (_ <? _)%Z = true |- _ => apply Z.ltb_lt in H
  | H : (_ <? _)%Z = false |- _ => apply Z.ltb_ge in H
  | H : (_ =? _)%Z = true |- _ => apply Z.eqb_eq in H
  | H : (_ =? _)%Z = false |- _ => apply Z.eqb_neq in H
  | H : (_ <=? _)%nat = true |- _ => apply Nat.leb_le in H
  | H : (_ <=? _)%nat = false |- _ => apply Nat.leb_gt in H
  | H : (_ <? _)%nat = true |- _ => apply Nat.ltb_lt in H
  | H : (_ <? _)%nat = false |- _ => apply Nat.ltb_ge in H
  | H : (_ =? _)%nat = true |- _ => apply Nat.eqb_eq in H
  | H : (_ =? _)%nat = false |- _ => apply Nat.eqb_neq in H
  end.

(** Case analysis on a character, all 256 of them, each closed by computation. *)
Ltac by_char c := destruct c as [[] [] [] [] [] [] [] []]; vm_compute; try done.

Create HintDb tcpcc discriminated.
Create Rewrite HintDb str.

(** ** Strings as lists of characters *)

Lemma str_app_nil_r (s : string) : s +:+ EmptyString = s.
Proof. induction s as [|c s IH]; [done|]. change (String c (s +:+ EmptyString) = String c s). by rewrite IH. Qed.

Lemma str_app_cons (c : ascii) (s t : string) : String c s +:+ t = String c (s +:+ t).
Proof. reflexivity. Qed.

Lemma str_app_nil_l (t : string) : EmptyString +:+ t = t.
Proof. reflexivity. Qed.

Lemma str_app_assoc (s t u : string) : (s +:+ t) +:+ u = s +:+ (t +:+ u).
Proof. induction s as [|c s IH]; [done|]. by rewrite !str_app_cons, IH. Qed.

Lemma str_length_app (s t : string) :
  String.length (s +:+ t) = String.length s + String.length t.
Proof. induction s as [|c s IH]; [done|]. rewrite str_app_cons. cbn. by rewrite IH. Qed.

Lemma str_app_inj_l (s t u : string) : s +:+ t = s +:+ u -> t = u.
Proof.
  induction s as [|c s IH]; [done|]. rewrite !str_app_cons. intros H.
  apply IH. by injection H.
Qed.

(** The lengths of concatenations, as sums. *)
Ltac str_lengths :=
  repeat (progress (rewrite ?str_length_app in *; cbn [String.length] in *)).

#[export] Hint Rewrite str_app_nil_r str_app_nil_l str_app_cons str_app_assoc : str.

(** [String.forallb]-style quantification over the characters of a string. *)
Fixpoint str_forallb (p : ascii -> bool) (s : string) : bool :=
  match s with
  | EmptyString => true
  | String c s => p c && str_forallb p s
  end.

Fixpoint str_existsb (p : ascii -> bool) (s : string) : bool :=
  match s with
  | EmptyString => false
  | String c s => p c || str_existsb p s
  end.

Lemma str_forallb_app p s t :
  str_forallb p (s +:+ t) = str_forallb p s && str_forallb p t.
Proof.
  induction s as [|c s IH]; [done|]. rewrite str_app_cons. cbn.
  by rewrite IH, andb_assoc.
Qed.

Lemma str_existsb_app p s t :
  str_existsb p (s +:+ t) = str_existsb p s || str_existsb p t.
Proof.
  induction s as [|c s IH]; [done|]. rewrite str_app_cons. cbn.
  by rewrite IH, orb_assoc.
Qed.

Lemma str_forallb_impl (p q : ascii -> bool) s :
  (forall c, p c = true -> q c = true) -> str_forallb p s = true -> str_forallb q s = true.
Proof.
  intros Hpq. induction s as [|c s IH]; cbn; [done|]. intros H. bool_to_prop.
  by rewrite Hpq, IH.
Qed.

Lemma str_existsb_forallb p s :
  str_existsb p s = false <-> str_forallb (fun c => negb (p c)) s = true.
Proof.
  induction s as [|c s IH]; cbn; [done|]. rewrite orb_false_iff, andb_true_iff, IH.
  by rewrite negb_true_iff.
Qed.

#[export] Hint Rewrite str_forallb_app str_existsb_app : str.

(** ** Generic list lemmas *)

Lemma fold_left_snoc {A B} (f : A -> B -> A) l b a :
  fold_left f (l ++ [b]) a = f (fold_left f l a) b.
Proof. by rewrite fold_left_app. Qed.
