(* ===== verification/PyStr.v ===== *)
(** * Python strings and integers

    The operations of [str] and [int] the tools use.  A Python string is a
    [string] whose characters are the code points below 256; the code's own
    checks ([isascii], the character classes of its regular expressions) reject
    every larger code point, as they reject 128..255. *)

From Stdlib Require Export Sorting.Sorted.
From S2P Require Import Prelude.
Local Open Scope Z_scope.

(** ** Characters *)

Definition char_code (c : ascii) : Z := Z.of_N (N_of_ascii c).

Definition in_range (lo hi c : ascii) : bool :=
  (char_code lo <=? char_code c) && (char_code c <=? char_code hi).

Definition is_ascii (c : ascii) : bool := char_code c <? 128.
Definition is_digit : ascii -> bool := in_range "0" "9".
Definition is_lower : ascii -> bool := in_range "a" "z".
Definition is_upper : ascii -> bool := in_range "A" "Z".
Definition is_alpha (c : ascii) : bool := is_lower c || is_upper c.
Definition is_char (c d : ascii) : bool := bool_decide (c = d).
Definition is_hex_digit (c : ascii) : bool :=
  is_digit c || in_range "a" "f" c || in_range "A" "F" c.

(** [str.isspace] and the [\s] of [re], on the code points below 256. *)
Definition is_space (c : ascii) : bool :=
  let z := char_code c in
  (9 <=? z) && (z <=? 13) || (28 <=? z) && (z <=? 32) || (z =? 133) || (z =? 160).

(** The boundaries of [str.splitlines], on the code points below 256. *)
Definition is_line_end (c : ascii) : bool :=
  let z := char_code c in
  (10 <=? z) && (z <=? 13) || (28 <=? z) && (z <=? 30) || (z =? 133).

Definition dquote : ascii := "034".
Definition backslash : ascii := "092".
Definition newline : ascii := "010".
Definition carriage_return : ascii := "013".
Definition nul : ascii := "000".

Definition chr_str (c : ascii) : string := String c EmptyString.
Definition nl : string := chr_str newline.

(** ** Searching and slicing *)

Definition str_empty (s : string) : bool :=
  match s with EmptyString => true | String _ _ => false end.

Definition str_mem (c : ascii) (s : string) : bool := str_existsb (is_char c) s.

Definition str_in (s : string) (l : list string) : bool := bool_decide (s ∈ l).

Fixpoint str_count (c : ascii) (s : string) : nat :=
  match s with
  | EmptyString => 0
  | String d s => if is_char c d then S (str_count c s) else str_count c s
  end.

Fixpoint strip_prefix (p s : string) : option string :=
  match p, s with
  | EmptyString, _ => Some s
  | String c p, String d s => if is_char c d then strip_prefix p s else None
  | String _ _, EmptyString => None
  end.

Definition startswith (p s : string) : bool :=
  match strip_prefix p s with Some _ => true | None => false end.

Fixpoint str_take (n : nat) (s : string) : string :=
  match n, s with
  | O, _ | _, EmptyString => EmptyString
  | S n, String c s => String c (str_take n s)
  end.

Fixpoint str_drop (n : nat) (s : string) : string :=
  match n, s with
  | O, _ => s
  | _, EmptyString => EmptyString
  | S n, String _ s => str_drop n s
  end.

(** [s.find(c)] *)
Fixpoint str_find (c : ascii) (s : string) : option nat :=
  match s with
  | EmptyString => None
  | String d s => if is_char c d then Some O else S <$> str_find c s
  end.

(** [s.rfind(c)] *)
Fixpoint str_rfind (c : ascii) (s : string) : option nat :=
  match s with
  | EmptyString => None
  | String d s =>
      match str_rfind c s with
      | Some i => Some (S i)
      | None => if is_char c d then Some O else None
      end
  end.

(** [s.split(c)] *)
Fixpoint split_on (c : ascii) (s : string) : list string :=
  match s with
  | EmptyString => [EmptyString]
  | String d s =>
      if is_char c d then EmptyString :: split_on c s
      else match split_on c s with
           | h :: t => String d h :: t
           | [] => [chr_str d]
           end
  end.

(** [sep.join(l)] *)
Fixpoint str_join (sep : string) (l : list string) : string :=
  match l with
  | [] => EmptyString
  | [s] => s
  | s :: l => s +:+ sep +:+ str_join sep l
  end.

(** [s.split()]: the maximal runs of characters that are not white space. *)
Fixpoint split_ws_aux (cur : string) (s : string) : list string :=
  match s with
  | EmptyString => if str_empty cur then [] else [cur]
  | String c s =>
      if is_space c then
        if str_empty cur then split_ws_aux EmptyString s
        else cur :: split_ws_aux EmptyString s
      else split_ws_aux (cur +:+ chr_str c) s
  end.
Definition split_ws : string -> list string := split_ws_aux EmptyString.

(** [s.lstrip()], [s.rstrip()] and [s.strip()] *)
Fixpoint lstrip (s : string) : string :=
  match s with
  | EmptyString => EmptyString
  | String c t => if is_space c then lstrip t else s
  end.
Fixpoint rstrip (s : string) : string :=
  match s with
  | EmptyString => EmptyString
  | String c s =>
      let t := rstrip s in
      if is_space c && str_empty t then EmptyString else String c t
  end.
Definition str_strip (s : string) : string := rstrip (lstrip s).

(** [s.splitlines()]; [\r\n] ends one line. *)
Fixpoint splitlines_aux (cur : string) (s : string) : list string :=
  match s with
  | EmptyString => if str_empty cur then [] else [cur]
  | String c s =>
      if is_char carriage_return c then
        cur :: match s with
               | String d s' =>
                   if is_char newline d then splitlines_aux EmptyString s'
                   else splitlines_aux EmptyString s
               | EmptyString => []
               end
      else if is_line_end c then cur :: splitlines_aux EmptyString s
      else splitlines_aux (cur +:+ chr_str c) s
  end.
Definition splitlines : string -> list string := splitlines_aux EmptyString.

(** ** Integers in text *)

(** The value of a digit character, of any base up to 16. *)
Definition digit_val (c : ascii) : Z :=
  if is_digit c then char_code c - 48
  else if in_range "a" "f" c then char_code c - 87
  else char_code c - 55.

Definition digit_char (d : Z) : ascii :=
  ascii_of_N (Z.to_N (if d <? 10 then 48 + d else 87 + d)).

(** The value of a digit string, after [acc]. *)
Fixpoint digits_val (b acc : Z) (s : string) : Z :=
  match s with
  | EmptyString => acc
  | String c s => digits_val b (acc * b + digit_val c) s
  end.

Fixpoint digits_aux (b : Z) (fuel : nat) (n : Z) (rest : string) : string :=
  match fuel with
  | O => rest
  | S fuel =>
      if n <? b then String (digit_char n) rest
      else digits_aux b fuel (n / b) (String (digit_char (n mod b)) rest)
  end.

(** The digits of [n >= 0] in base [b >= 2]: one more than the bits of [n]
    are enough divisions. *)
Definition digits (b n : Z) : string :=
  digits_aux b (S (Z.to_nat (Z.log2 n))) n EmptyString.

(** [str(z)] and the ['%x' % z] of a non-negative [z]. *)
Definition str_of_Z (z : Z) : string :=
  if z <? 0 then String "-" (digits 10 (- z)) else digits 10 z.
Definition hex_of_Z (z : Z) : string := digits 16 z.

(** [repr(s)]: double quotes only when the text has a single quote and no
    double one; the backslash, the quote and what is not printable escaped. *)
Definition is_printable (c : ascii) : bool :=
  (32 <=? char_code c) && (char_code c <=? 126) ||
  (161 <=? char_code c) && negb (char_code c =? 173).
Definition repr_char (quote c : ascii) : string :=
  if is_char quote c || is_char backslash c then String backslash (chr_str c)
  else if is_char "009" c then String backslash "t"
  else if is_char newline c then String backslash "n"
  else if is_char carriage_return c then String backslash "r"
  else if is_printable c then chr_str c
  else String backslash (String "x" (String (digit_char (char_code c / 16))
         (chr_str (digit_char (char_code c mod 16))))).
Fixpoint repr_chars (quote : ascii) (s : string) : string :=
  match s with
  | EmptyString => EmptyString
  | String c s => repr_char quote c +:+ repr_chars quote s
  end.
Definition py_repr (s : string) : string :=
  let quote := if str_mem "'" s && negb (str_mem dquote s) then dquote else "'"%char in
  String quote (repr_chars quote s +:+ chr_str quote).
Definition py_repr_list (l : list string) : string :=
  "[" +:+ str_join ", " (py_repr <$> l) +:+ "]".

(** [int(s)]: white space around, a sign, digits with single underscores
    between them. *)
Fixpoint int_digits (acc : Z) (after_digit : bool) (s : string) : option Z :=
  match s with
  | EmptyString => if after_digit then Some acc else None
  | String c s =>
      if is_digit c then int_digits (acc * 10 + digit_val c) true s
      else if is_char "_" c && after_digit then int_digits acc false s
      else None
  end.
Definition py_int (s : string) : option Z :=
  match str_strip s with
  | String "-" t => Z.opp <$> int_digits 0 false t
  | String "+" t => int_digits 0 false t
  | t => int_digits 0 false t
  end.

(** The same with the limit of the interpreter: no more than 4300 digits. *)
Definition int_of (text : string) : option Z :=
  if (4300 <? length (filter (fun c => is_digit c = true) (String.list_ascii_of_string text)))%nat then None else py_int text.

(** [list.sort(key=...)] on text keys: a stable sort by code points. *)
Fixpoint insert_on {A} (key : A -> string) (x : A) (l : list A) : list A :=
  match l with
  | [] => [x]
  | y :: l => if String.leb (key x) (key y) then x :: y :: l else y :: insert_on key x l
  end.
Definition sort_on {A} (key : A -> string) (l : list A) : list A :=
  foldr (insert_on key) [] l.

(** ** Lemmas *)

Lemma is_char_refl c : is_char c c = true.
Proof. unfold is_char. by rewrite bool_decide_true. Qed.

Lemma is_char_true c d : is_char c d = true -> c = d.
Proof. unfold is_char. intros H. by bool_to_prop. Qed.

Lemma is_char_ne c d : c <> d -> is_char c d = false.
Proof. unfold is_char. intros H. by rewrite bool_decide_false. Qed.

#[export] Hint Rewrite is_char_refl : str.

Lemma strip_prefix_app p s : strip_prefix p (p +:+ s) = Some s.
Proof.
  induction p as [|c p IH]; [done|]. rewrite str_app_cons. cbn.
  by rewrite is_char_refl.
Qed.

Lemma strip_prefix_Some p s t : strip_prefix p s = Some t -> s = p +:+ t.
Proof.
  revert s. induction p as [|c p IH]; intros s; cbn.
  - intros [= ->]. done.
  - destruct s as [|d s]; [done|]. destruct (is_char c d) eqn:Hc; [|done].
    apply is_char_true in Hc as ->. intros ->%IH. done.
Qed.

Lemma startswith_app p s : startswith p (p +:+ s) = true.
Proof. unfold startswith. by rewrite strip_prefix_app. Qed.

Lemma str_take_app s t : str_take (String.length s) (s +:+ t) = s.
Proof. induction s as [|c s IH]; [by destruct t|]. rewrite str_app_cons. cbn. by rewrite IH. Qed.

Lemma str_drop_app s t : str_drop (String.length s) (s +:+ t) = t.
Proof. induction s as [|c s IH]; [by destruct t|]. rewrite str_app_cons. cbn. by rewrite IH. Qed.

Lemma str_take_drop n s : str_take n s +:+ str_drop n s = s.
Proof.
  revert s. induction n as [|n IH]; intros [|c s]; try done. cbn.
  rewrite str_app_cons. by rewrite IH.
Qed.

Lemma str_find_app c s t :
  str_mem c s = false -> str_find c (s +:+ String c t) = Some (String.length s).
Proof.
  unfold str_mem. induction s as [|d s IH]; cbn.
  - by rewrite str_app_nil_l; cbn; rewrite is_char_refl.
  - intros [Hd Hs]%orb_false_iff. rewrite str_app_cons. cbn. by rewrite Hd, IH.
Qed.

(** Splitting undoes joining when no part contains the separator. *)
Lemma split_on_no_sep c s : str_mem c s = false -> split_on c s = [s].
Proof.
  unfold str_mem. induction s as [|d s IH]; cbn; [done|].
  intros [Hd Hs]%orb_false_iff. by rewrite Hd, IH.
Qed.

Lemma split_on_app c s t :
  str_mem c s = false -> split_on c (s +:+ String c t) = s :: split_on c t.
Proof.
  unfold str_mem. induction s as [|d s IH]; cbn.
  - intros _. rewrite str_app_nil_l. cbn. by rewrite is_char_refl.
  - intros [Hd Hs]%orb_false_iff. rewrite str_app_cons. cbn. by rewrite Hd, IH.
Qed.

Lemma split_on_join c l :
  l <> [] -> Forall (fun s => str_mem c s = false) l -> split_on c (str_join (chr_str c) l) = l.
Proof.
  intros Hne Hall. induction Hall as [|s l Hs Hall IH]; [done|].
  destruct l as [|s' l]; cbn -[str_join].
  - by apply split_on_no_sep.
  - change (str_join (chr_str c) (s :: s' :: l)) with
      (s +:+ (String c (str_join (chr_str c) (s' :: l)))).
    rewrite split_on_app by done. by rewrite IH.
Qed.

Lemma str_mem_app c s t : str_mem c (s +:+ t) = str_mem c s || str_mem c t.
Proof. apply str_existsb_app. Qed.

Lemma str_forallb_not_mem p c s :
  str_forallb p s = true -> p c = false -> str_mem c s = false.
Proof.
  intros Hs Hc. apply str_existsb_forallb. revert Hs. apply str_forallb_impl.
  intros d Hd. apply negb_true_iff, is_char_ne. intros ->. congruence.
Qed.

(** *** Digits *)

Definition is_base_digit (b : Z) (c : ascii) : bool :=
  is_hex_digit c && (digit_val c <? b).

Lemma digit_char_facts d :
  0 <= d < 16 ->
  digit_val (digit_char d) = d /\ is_hex_digit (digit_char d) = true /\
  (d < 10 -> is_digit (digit_char d) = true) /\
  is_char "0" (digit_char d) = (d =? 0).
Proof.
  intros Hd.
  assert (d ∈ seqZ 0 16) as Hin by (apply elem_of_seqZ; lia). clear Hd.
  revert d Hin. apply Forall_forall.
  repeat (apply Forall_cons; split;
    [split_and!; [done|done|by intros ?|done]|]); done.
Qed.

Lemma digits_aux_val b fuel n rest :
  2 <= b <= 16 -> 0 <= n < 2 ^ Z.of_nat fuel ->
  digits_val b 0 (digits_aux b fuel n rest) = digits_val b n rest.
Proof.
  intros Hb. revert n rest. induction fuel as [|fuel IH]; intros n rest Hn.
  - cbn. replace n with 0 by (cbn in Hn; lia). done.
  - rewrite Nat2Z.inj_succ, Z.pow_succ_r in Hn by lia. cbn [digits_aux].
    destruct (n <? b) eqn:Hlt; bool_to_prop.
    + cbn. destruct (digit_char_facts n) as (-> & _); [lia|]. done.
    + rewrite IH.
      * cbn. destruct (digit_char_facts (n mod b)) as (-> & _).
        { pose proof (Z.mod_pos_bound n b). lia. }
        f_equal. pose proof (Z.div_mod n b). lia.
      * split; [apply Z.div_pos; lia|]. apply Z.div_lt_upper_bound; [lia|]. nia.
Qed.

Lemma digits_fuel n : 0 <= n -> n < 2 ^ Z.of_nat (S (Z.to_nat (Z.log2 n))).
Proof.
  intros Hn. rewrite Nat2Z.inj_succ, Z2Nat.id by apply Z.log2_nonneg.
  destruct (decide (n = 0)) as [->|]; [done|].
  apply Z.log2_spec; lia.
Qed.

Lemma digits_val_digits b n :
  2 <= b <= 16 -> 0 <= n -> digits_val b 0 (digits b n) = n.
Proof.
  intros Hb Hn. unfold digits. rewrite digits_aux_val; [done|done|].
  split; [done|]. by apply digits_fuel.
Qed.

Lemma digits_aux_forall (p : ascii -> bool) b fuel n rest :
  2 <= b <= 16 -> 0 <= n ->
  (forall d, 0 <= d < b -> p (digit_char d) = true) ->
  str_forallb p rest = true -> str_forallb p (digits_aux b fuel n rest) = true.
Proof.
  intros Hb Hn Hp. revert n rest Hn. induction fuel as [|fuel IH]; intros n rest Hn Hrest; [done|].
  cbn. destruct (n <? b) eqn:Hlt; bool_to_prop.
  - cbn. by rewrite Hp, Hrest by lia.
  - apply IH; [apply Z.div_pos; lia|]. cbn. rewrite Hp, Hrest; [done|].
    apply Z.mod_pos_bound; lia.
Qed.

Lemma digits10_digits n : 0 <= n -> str_forallb is_digit (digits 10 n) = true.
Proof.
  intros Hn. unfold digits. apply digits_aux_forall; [lia|done| |done].
  intros d Hd. apply digit_char_facts; lia.
Qed.

Lemma digits16_hex n : 0 <= n -> str_forallb is_hex_digit (digits 16 n) = true.
Proof.
  intros Hn. unfold digits. apply digits_aux_forall; [lia|done| |done].
  intros d Hd. apply digit_char_facts; lia.
Qed.

(** The first digit is zero only for zero. *)
Lemma digits_aux_head b fuel n rest :
  2 <= b <= 16 -> 0 < n < 2 ^ Z.of_nat fuel ->
  exists c s, digits_aux b fuel n rest = String c s /\ is_char "0" c = false /\
    exists d, 0 < d < b /\ c = digit_char d.
Proof.
  intros Hb. revert n rest. induction fuel as [|fuel IH]; intros n rest Hn; [cbn in Hn; lia|].
  rewrite Nat2Z.inj_succ, Z.pow_succ_r in Hn by lia. cbn.
  destruct (n <? b) eqn:Hlt; bool_to_prop.
  - eexists _, _. split; [done|]. destruct (digit_char_facts n) as (_ & _ & _ & ->); [lia|].
    split; [apply Z.eqb_neq; lia|]. exists n. split; [lia|done].
  - apply IH. split; [apply Z.div_str_pos; lia|]. apply Z.div_lt_upper_bound; [lia|]. nia.
Qed.

Lemma digits_head b n :
  2 <= b <= 16 -> 0 < n ->
  exists c s, digits b n = String c s /\ is_char "0" c = false /\
    exists d, 0 < d < b /\ c = digit_char d.
Proof.
  intros Hb Hn. apply digits_aux_head; [done|]. split; [done|]. apply digits_fuel; lia.
Qed.

Lemma digits_aux_length b fuel n rest k :
  2 <= b <= 16 -> 0 <= n < b ^ Z.of_nat k -> (0 < k)%nat ->
  (String.length (digits_aux b fuel n rest) <= k + String.length rest)%nat.
Proof.
  intros Hb. revert n rest k. induction fuel as [|fuel IH]; intros n rest k Hn Hk; cbn; [lia|].
  destruct (n <? b) eqn:Hlt; bool_to_prop; cbn; [lia|].
  destruct k as [|[|k]]; [lia|cbn in Hn; lia|].
  rewrite Nat2Z.inj_succ, Z.pow_succ_r in Hn by lia.
  etrans; [apply (IH _ _ (S k))|cbn; lia]; [|lia].
  split; [apply Z.div_pos; lia|]. apply Z.div_lt_upper_bound; lia.
Qed.

Lemma digits_length b n k :
  2 <= b <= 16 -> 0 <= n < b ^ Z.of_nat k -> (0 < k)%nat -> (String.length (digits b n) <= k)%nat.
Proof.
  intros Hb Hn Hk. unfold digits. etrans; [by apply digits_aux_length|]. cbn. lia.
Qed.

Lemma digits_0 b : 2 <= b -> digits b 0 = "0".
Proof. intros Hb. unfold digits. cbn. destruct (0 <? b) eqn:H; [done|]. bool_to_prop. lia. Qed.

Lemma digits_nonempty b n : 2 <= b <= 16 -> 0 <= n -> str_empty (digits b n) = false.
Proof.
  intros Hb Hn. destruct (decide (n = 0)) as [->|Hne]; [by rewrite digits_0 by lia|].
  destruct (digits_head b n) as (c & s & -> & _); [done|lia|done].
Qed.

Lemma digits_inj b n m :
  2 <= b <= 16 -> 0 <= n -> 0 <= m -> digits b n = digits b m -> n = m.
Proof.
  intros Hb Hn Hm H. rewrite <- (digits_val_digits b n), <- (digits_val_digits b m) by done.
  by rewrite H.
Qed.

(** [int(str(n)) = n] on the digit strings the code prints. *)
Lemma int_digits_val acc s :
  str_forallb is_digit s = true -> int_digits acc true s = Some (digits_val 10 acc s).
Proof.
  revert acc. induction s as [|c s IH]; intros acc; cbn; [done|].
  intros [Hc Hs]%andb_true_iff. by rewrite Hc, IH.
Qed.

Lemma digit_not_space c : is_digit c = true -> is_space c = false.
Proof. by_char c. Qed.

Lemma rstrip_no_space s :
  str_forallb (fun c => negb (is_space c)) s = true -> rstrip s = s.
Proof.
  induction s as [|c s IH]; cbn; [done|]. intros [Hc Hs]%andb_true_iff.
  apply negb_true_iff in Hc. by rewrite Hc, IH.
Qed.

Lemma strip_no_space s :
  str_forallb (fun c => negb (is_space c)) s = true -> str_strip s = s.
Proof.
  intros Hs. unfold str_strip.
  assert (lstrip s = s) as ->; [|by apply rstrip_no_space].
  destruct s as [|c s]; cbn in *; [done|]. apply andb_true_iff in Hs as [Hc%negb_true_iff _].
  by rewrite Hc.
Qed.

Lemma py_int_digits s :
  str_empty s = false -> str_forallb is_digit s = true -> py_int s = Some (digits_val 10 0 s).
Proof.
  intros Hne Hs. unfold py_int. rewrite strip_no_space.
  2: { revert Hs. apply str_forallb_impl. intros c Hc. by rewrite digit_not_space. }
  destruct s as [|c s]; [done|]. cbn [str_forallb] in Hs. apply andb_true_iff in Hs as [Hc Hs].
  transitivity (int_digits 0 false (String c s)).
  - destruct c as [[] [] [] [] [] [] [] []]; try done; by vm_compute in Hc.
  - cbn. by rewrite Hc, int_digits_val.
Qed.

Lemma py_int_str_of_Z n : 0 <= n -> py_int (str_of_Z n) = Some n.
Proof.
  intros Hn. unfold str_of_Z. destruct (n <? 0) eqn:H; bool_to_prop; [lia|].
  rewrite py_int_digits by auto using digits_nonempty, digits10_digits with lia.
  by rewrite digits_val_digits by lia.
Qed.

Lemma str_forallb_of_mem p s : (forall c, p c = false -> str_mem c s = false) -> str_forallb p s = true.
Proof.
  induction s as [|c s IH]; [done|]. intros H. cbn [str_forallb].
  destruct (p c) eqn:Hc.
  - apply IH. intros d Hd. specialize (H d Hd). unfold str_mem in *. cbn [str_existsb] in H.
    by apply orb_false_iff in H as [_ ?].
  - specialize (H c Hc). unfold str_mem in H. cbn [str_existsb] in H. by rewrite is_char_refl in H.
Qed.

Lemma str_forallb_mem p c s : str_forallb p s = true -> str_mem c s = true -> p c = true.
Proof.
  induction s as [|d s IH]; [done|]. cbn [str_forallb]. unfold str_mem in *. cbn [str_existsb].
  intros H Hm. bool_to_prop. apply orb_true_iff in Hm as [Hc%is_char_true|Hm]; [by subst|auto].
Qed.

(** ** Lines and words *)

Lemma splitlines_aux_line cur l s :
  str_forallb (fun c => negb (is_line_end c)) l = true ->
  splitlines_aux cur (l +:+ nl +:+ s) = (cur +:+ l) :: splitlines_aux EmptyString s.
Proof.
  revert cur. induction l as [|c l IH]; intros cur; [by rewrite str_app_nil_r|].
  cbn [str_forallb]. intros H. bool_to_prop. rewrite str_app_cons. cbn [splitlines_aux]. rewrite H.
  assert (is_char carriage_return c = false) as ->.
  { apply is_char_ne. intros <-. done. }
  rewrite IH by done. by rewrite str_app_assoc.
Qed.

(** The lines of a text that ends every one of them. *)
Lemma splitlines_join lines :
  Forall (fun l => str_forallb (fun c => negb (is_line_end c)) l = true) lines -> lines <> [] ->
  splitlines (str_join nl lines +:+ nl) = lines.
Proof.
  unfold splitlines. induction 1 as [|l [|l' ls] Hl Hls IH]; [done|..]; intros _.
  - cbn [str_join]. rewrite <- (str_app_nil_r nl). by rewrite splitlines_aux_line.
  - change (str_join nl (l :: l' :: ls)) with (l +:+ nl +:+ str_join nl (l' :: ls)).
    rewrite !str_app_assoc, splitlines_aux_line by done. by rewrite IH.
Qed.

Lemma split_ws_aux_word cur w s :
  str_forallb (fun c => negb (is_space c)) w = true -> str_empty (cur +:+ w) = false ->
  head (split_ws_aux cur (w +:+ String " " s)) = Some (cur +:+ w).
Proof.
  revert cur. induction w as [|c w IH]; intros cur; cbn [str_forallb].
  - rewrite str_app_nil_r, str_app_nil_l. intros _ Hne. cbn. by rewrite Hne.
  - intros H Hne. bool_to_prop. rewrite str_app_cons. cbn [split_ws_aux]. rewrite H.
    change (String c w) with (chr_str c +:+ w) in *. rewrite <- str_app_assoc in *. by apply IH.
Qed.

(** ** Canonical decimal numerals *)

Lemma digits_val_acc b acc s :
  digits_val b acc s = acc * b ^ Z.of_nat (String.length s) + digits_val b 0 s.
Proof.
  revert acc. induction s as [|c s IH]; intros acc; cbn [digits_val String.length]; [lia|].
  rewrite IH, (IH (0 * b + digit_val c)). rewrite Nat2Z.inj_succ, Z.pow_succ_r by lia. ring.
Qed.

Lemma digit_val_facts c : is_digit c = true -> 0 <= digit_val c < 10 /\ (c <> "0"%char -> 0 < digit_val c).
Proof. by_char c; by intros; split; [|intros]. Qed.

Lemma digit_val_inj c d :
  is_digit c = true -> is_digit d = true -> digit_val c = digit_val d -> c = d.
Proof.
  intros Hc Hd Heq. assert (forall c, is_digit c = true -> c = digit_char (digit_val c)) as Hinv.
  { clear. intros c. by_char c. }
  by rewrite (Hinv c), (Hinv d), Heq.
Qed.

Lemma digits_val_range s :
  str_forallb is_digit s = true -> 0 <= digits_val 10 0 s < 10 ^ Z.of_nat (String.length s).
Proof.
  induction s as [|c s IH]; cbn [str_forallb digits_val String.length]; [lia|].
  intros H. bool_to_prop. destruct (digit_val_facts c) as [? _]; [done|]. specialize (IH H0).
  rewrite digits_val_acc, Nat2Z.inj_succ, Z.pow_succ_r by lia. nia.
Qed.

Lemma digits_val_inj s t :
  str_forallb is_digit s = true -> str_forallb is_digit t = true ->
  String.length s = String.length t -> digits_val 10 0 s = digits_val 10 0 t -> s = t.
Proof.
  revert t. induction s as [|c s IH]; intros [|d t]; cbn [str_forallb digits_val String.length]; try done.
  intros Hs Ht [= Hlen] Hval. bool_to_prop.
  rewrite digits_val_acc, (digits_val_acc _ _ t), Hlen in Hval.
  pose proof (digits_val_range s H2). pose proof (digits_val_range t H0). rewrite Hlen in *.
  pose proof (digit_val_facts c ltac:(done)) as [? _]. pose proof (digit_val_facts d ltac:(done)) as [? _].
  assert (digit_val c = digit_val d) as Heq by nia.
  f_equal; [by apply digit_val_inj|]. apply IH; [done|done|done|nia].
Qed.

(** A numeral with no leading zero is the one its value prints as. *)
Lemma digits_of_val c s :
  str_forallb is_digit (String c s) = true -> c <> "0"%char ->
  digits 10 (digits_val 10 0 (String c s)) = String c s.
Proof.
  intros Hs Hc. set (n := digits_val 10 0 (String c s)).
  assert (forall c s, str_forallb is_digit (String c s) = true -> c <> "0"%char ->
    10 ^ Z.of_nat (String.length s) <= digits_val 10 0 (String c s)
      < 10 * 10 ^ Z.of_nat (String.length s)) as Hbound.
  { clear. intros c s Hs Hc. pose proof (digits_val_range _ Hs) as Hr.
    cbn [String.length] in Hr. rewrite Nat2Z.inj_succ, Z.pow_succ_r in Hr by lia. split; [|lia].
    cbn [str_forallb digits_val] in *. bool_to_prop. rewrite digits_val_acc.
    pose proof (digits_val_range s H0). destruct (digit_val_facts c) as [? Hpos]; [done|]. specialize (Hpos Hc).
    nia. }
  pose proof (Hbound c s Hs Hc) as Hn. fold n in Hn.
  pose proof (Z.pow_pos_nonneg 10 (Z.of_nat (String.length s)) ltac:(lia) ltac:(lia)).
  destruct (digits_head 10 n) as (d & t & Heq & Hd & _); [lia|lia|].
  pose proof (digits10_digits n ltac:(lia)) as Hdig. pose proof (digits_val_digits 10 n ltac:(lia) ltac:(lia)) as Hval.
  rewrite Heq in *. unfold is_char in Hd. bool_to_prop.
  pose proof (Hbound d t Hdig ltac:(done)) as Hm. rewrite Hval in Hm.
  assert (Z.of_nat (String.length t) = Z.of_nat (String.length s)) as Hlen.
  { destruct (Z.lt_trichotomy (Z.of_nat (String.length t)) (Z.of_nat (String.length s))) as [Hlt|[?|Hlt]]; [|done|];
      apply Z.le_succ_l, (Z.pow_le_mono_r 10) in Hlt; try lia; rewrite Z.pow_succ_r in Hlt; lia. }
  apply digits_val_inj; [done|done|cbn; lia|done].
Qed.

(** ** Sorting *)

Lemma insert_on_perm {A} (key : A -> string) x l : insert_on key x l ≡ₚ x :: l.
Proof.
  induction l as [|y l IH]; cbn; [done|]. destruct (String.leb _ _); [done|].
  rewrite IH. apply Permutation_swap.
Qed.

Lemma sort_on_perm {A} (key : A -> string) l : sort_on key l ≡ₚ l.
Proof. induction l as [|x l IH]; cbn; [done|]. by rewrite insert_on_perm, IH. Qed.

(** Its result is in the order of the keys. *)
Definition in_order {A} (key : A -> string) (x y : A) : Prop := String.leb (key x) (key y) = true.

Lemma insert_on_sorted {A} (key : A -> string) x l : Sorted (in_order key) l -> Sorted (in_order key) (insert_on key x l).
Proof.
  assert (forall y, in_order key x y \/ in_order key y x) as Htotal.
  { intros y. unfold in_order. pose proof (String.leb_total (key x) (key y)). tauto. }
  induction 1 as [|y l Hl IH Hy]; cbn; [by repeat constructor|]. destruct (String.leb (key x) (key y)) eqn:Hxy.
  - constructor; [by constructor|by constructor].
  - constructor; [done|]. assert (in_order key y x) by (destruct (Htotal y); [by unfold in_order in *; congruence|done]).
    destruct Hy as [|z l Hz]; cbn; [by constructor|]. by destruct (String.leb (key x) (key z)); constructor.
Qed.

Lemma sort_on_sorted {A} (key : A -> string) l : Sorted (in_order key) (sort_on key l).
Proof. induction l as [|x l IH]; cbn; [constructor|by apply insert_on_sorted]. Qed.

(** A number [str] writes in at most 4300 digits is read back. *)
Definition writable_int (z : Z) : Prop := 0 <= z /\ (String.length (str_of_Z z) <= 4300)%nat.

Lemma int_of_str z : writable_int z -> int_of (str_of_Z z) = Some z.
Proof.
  intros [Hz Hl]. unfold int_of. rewrite py_int_str_of_Z by done.
  destruct (4300 <? _)%nat eqn:H; [|done]. bool_to_prop. exfalso.
  pose proof (length_filter (fun c => is_digit c = true) (String.list_ascii_of_string (str_of_Z z))).
  enough (length (String.list_ascii_of_string (str_of_Z z)) = String.length (str_of_Z z)) by lia.
  clear. induction (str_of_Z z) as [|c s IH]; [done|]. cbn. by rewrite IH.
Qed.

(** A machine word has at most twenty digits. *)
Lemma writable_word z : 0 <= z < 2 ^ 64 -> writable_int z.
Proof.
  intros [Hz Hlt]. split; [done|]. unfold str_of_Z. rewrite (proj2 (Z.ltb_ge z 0) Hz).
  transitivity 20%nat; [apply digits_length; lia|]. by apply Nat.leb_le.
Qed.

Lemma str_of_Z_nonempty z : 0 <= z -> str_empty (str_of_Z z) = false.
Proof. intros Hz. unfold str_of_Z. rewrite (proj2 (Z.ltb_ge z 0) Hz). by apply digits_nonempty. Qed.

Lemma str_of_Z_digits z : 0 <= z -> str_forallb is_digit (str_of_Z z) = true.
Proof. intros Hz. unfold str_of_Z. rewrite (proj2 (Z.ltb_ge z 0) Hz). by apply digits10_digits. Qed.
