(* ===== verification/Reports.v ===== *)
(** * Reports

    The immutable report records of [tools/tcpcc_host.py]: preflight checks and
    firewall ownership observations, with the predicates that gate acquisition. *)

From S2P Require Import Prelude PyStr.

(** ** Preflight *)

Record CheckResult := {
  check_id : string;
  cr_status : string;
  severity : string;
  observed : string;
  expected : string;
  cr_remediation : string;
}.

Record PreflightReport := {
  requested_cc : string;
  checks : list CheckResult;
}.

(** [PreflightReport.ok] *)
Definition report_ok (r : PreflightReport) : bool :=
  forallb (fun c => negb (bool_decide (cr_status c = "fail"))) (checks r).

(** ** Ownership observations *)

Record NftOwnershipObservation := {
  table_name : string;
  no_status : string;
  no_owner_pid : option Z;
  no_owner_start_time : option Z;
  no_tun_name : option string;
  no_detail : string;
  no_remediation : string;
}.

Record IptablesOwnershipObservation := {
  chain_name : string;
  io_status : string;
  io_owner_pid : option Z;
  io_owner_start_time : option Z;
  io_tun_name : option string;
  io_detail : string;
  io_remediation : string;
}.

(** [NftOwnershipReport] and [IptablesOwnershipReport]: [acquire_host_network]
    takes either. *)
Inductive OwnershipReport :=
  | NftOwnershipReport (observations : list NftOwnershipObservation)
  | IptablesOwnershipReport (observations : list IptablesOwnershipObservation).

(** The two [blocking] properties. *)
Definition blocking (r : OwnershipReport) : bool :=
  match r with
  | NftOwnershipReport obs =>
      existsb (fun o => negb (bool_decide (no_status o = "active"))) obs
  | IptablesOwnershipReport obs =>
      existsb (fun o => negb (bool_decide (io_status o = "active"))) obs
  end.

(** The name and status pairs of a report, through the [table_name]
    compatibility accessor of both observation classes. *)
Definition report_entries (r : OwnershipReport) : list (string * string) :=
  match r with
  | NftOwnershipReport obs => (fun o => (table_name o, no_status o)) <$> obs
  | IptablesOwnershipReport obs => (fun o => (chain_name o, io_status o)) <$> obs
  end.

Definition report_backend (r : OwnershipReport) : string :=
  match r with NftOwnershipReport _ => "nft" | IptablesOwnershipReport _ => "iptables" end.

(** A report blocks exactly when one of its entries is not active. *)
Lemma blocking_entries r :
  blocking r = existsb (fun e => negb (bool_decide (e.2 = "active"))) (report_entries r).
Proof. destruct r as [obs|obs]; cbn; induction obs as [|o obs IH]; cbn; by rewrite ?IH. Qed.
