(* ===== verification/Py.v ===== *)
(** * Python values, exceptions and pure fallible code

    [pyval] is the dynamic value an [isinstance] guard inspects.  [exn] has one
    constructor for every exception class the tools raise; [sysexn] holds those
    the operating system or an imported library can raise.  [res] is the result
    of code that raises but has no other effect. *)

From Stdlib Require Export QArith.QArith_base.
From S2P Require Import Prelude PyStr Reports.

(** ** Bytes *)

Abbreviation bytes := (list Byte.byte).

(** ** Dynamic values *)

Inductive pyval :=
  | VNone
  | VBool (b : bool)
  | VInt (z : Z)
  | VFloat (q : Q)
  | VStr (s : string)
  | VBytes (b : bytes)
  | VObj (class : string).

(** The guard [isinstance(path, str) and path and NUL not in path]. *)
Definition valid_path (v : pyval) : option string :=
  match v with
  | VStr s => if str_empty s || str_mem nul s then None else Some s
  | _ => None
  end.

(** ** Exceptions *)

(** The subclasses of [OSError] the code tells apart. *)
Inductive os_class :=
  | OsOther | OsFileNotFound | OsPermission | OsFileExists | OsTimeout | OsBrokenPipe.
#[export] Instance os_class_eq_dec : EqDecision os_class.
Proof. solve_decision. Defined.

(** Exceptions of the environment; the string is [str(error)]. *)
Inductive sysexn :=
  | SOSError (class : os_class) (errno : option Z) (text : string)
  | SCalledProcessError (text : string) (stderr : option string)
  | STimeoutExpired (text : string)
  | SUnicodeError (text : string)
  | SValueError (text : string)
  | STypeError (text : string)
  | SRuntimeError (text : string)
  | SException (class : string) (text : string)
  | SBaseException (class : string) (text : string).

Inductive exn :=
  | Sys (e : sysexn)
  (* tools/tcpcc_control.py *)
  | ControlError (text : string)
  | ControlProtocolError (text : string)
  | ControlOperationError (operation status : Z) (text : string)
  (* tools/tcpcc_host.py *)
  | CleanupError (failures : list (string * exn))
  | TunSetupCleanupError (setup_error cleanup_error : exn)
  | NftCompatibilityError (text : string)
  | LibNftablesError (operation : string) (return_code : Z) (stderr : string)
  | IptablesInstallRollbackError (install_error : exn) (cleanup_errors : list exn)
  | HostPreflightError (report : PreflightReport)
  | StaleOwnershipError (report : OwnershipReport)
  | StartupRollbackError (startup_error : exn) (failures : list (string * exn))
  (* tools/tcpcc_cli.py *)
  | ArgumentTypeError (text : string)
  | RuntimeExitedError (text : string)
  | RuntimeCleanupError (failures : list exn)
  | ServiceCleanupError (primary : option exn) (cleanup_failures : list exn).

Definition TypeError (text : string) : exn := Sys (STypeError text).
Definition ValueError (text : string) : exn := Sys (SValueError text).
Definition RuntimeError (text : string) : exn := Sys (SRuntimeError text).
Definition TimeoutError (text : string) : exn := Sys (SOSError OsTimeout None text).
Definition BrokenPipeError (text : string) : exn := Sys (SOSError OsBrokenPipe None text).
Definition EOFError (text : string) : exn := Sys (SException "EOFError" text).

(** [type(error).__name__] *)
Definition exn_name (e : exn) : string :=
  match e with
  | Sys (SOSError OsOther _ _) => "OSError"
  | Sys (SOSError OsFileNotFound _ _) => "FileNotFoundError"
  | Sys (SOSError OsPermission _ _) => "PermissionError"
  | Sys (SOSError OsFileExists _ _) => "FileExistsError"
  | Sys (SOSError OsTimeout _ _) => "TimeoutError"
  | Sys (SOSError OsBrokenPipe _ _) => "BrokenPipeError"
  | Sys (SCalledProcessError _ _) => "CalledProcessError"
  | Sys (STimeoutExpired _) => "TimeoutExpired"
  | Sys (SUnicodeError _) => "UnicodeDecodeError"
  | Sys (SValueError _) => "ValueError"
  | Sys (STypeError _) => "TypeError"
  | Sys (SRuntimeError _) => "RuntimeError"
  | Sys (SException c _) | Sys (SBaseException c _) => c
  | ControlError _ => "ControlError"
  | ControlProtocolError _ => "ControlProtocolError"
  | ControlOperationError _ _ _ => "ControlOperationError"
  | CleanupError _ => "CleanupError"
  | TunSetupCleanupError _ _ => "TunSetupCleanupError"
  | NftCompatibilityError _ => "NftCompatibilityError"
  | LibNftablesError _ _ _ => "LibNftablesError"
  | IptablesInstallRollbackError _ _ => "IptablesInstallRollbackError"
  | HostPreflightError _ => "HostPreflightError"
  | StaleOwnershipError _ => "StaleOwnershipError"
  | StartupRollbackError _ _ => "StartupRollbackError"
  | ArgumentTypeError _ => "ArgumentTypeError"
  | RuntimeExitedError _ => "RuntimeExitedError"
  | RuntimeCleanupError _ => "RuntimeCleanupError"
  | ServiceCleanupError _ _ => "ServiceCleanupError"
  end.

(** [str(error)]: the message each class's [__init__] passes to its base. *)
Fixpoint exn_str (e : exn) : string :=
  let named e := exn_name e +:+ ": " +:+ exn_str e in
  let labelled (f : string * exn) :=
    f.1 +:+ ": " +:+ exn_name f.2 +:+ ": " +:+ exn_str f.2 in
  match e with
  | Sys (SOSError _ _ t) | Sys (SCalledProcessError t _) | Sys (STimeoutExpired t)
  | Sys (SUnicodeError t) | Sys (SValueError t) | Sys (STypeError t)
  | Sys (SRuntimeError t) | Sys (SException _ t) | Sys (SBaseException _ t)
  | ControlError t | ControlProtocolError t | ControlOperationError _ _ t
  | ArgumentTypeError t | RuntimeExitedError t => t
  | CleanupError failures =>
      "resource cleanup failed: " +:+ str_join "; " (map labelled failures)
  | TunSetupCleanupError s c =>
      "TUN setup failed and its queue fd could not be closed: setup="
      +:+ named s +:+ "; cleanup=" +:+ named c
  | NftCompatibilityError detail =>
      "host nftables cannot install tcpcc exact DNAT and ownership metadata: " +:+ detail
  | LibNftablesError op rc err =>
      "libnftables " +:+ op +:+ " failed (" +:+ str_of_Z rc +:+ "): "
      +:+ (if str_empty (str_strip err) then "libnftables returned no diagnostic"
           else str_strip err)
  | IptablesInstallRollbackError i cs =>
      "iptables install failed (" +:+ exn_str i +:+ ") and private-chain rollback failed ("
      +:+ str_join "; " (map named cs) +:+ ")"
  | HostPreflightError r =>
      "host preflight failed: "
      +:+ str_join ", " (check_id <$> filter (fun c => cr_status c = "fail") (checks r))
  | StaleOwnershipError r =>
      "unsafe tcpcc " +:+ report_backend r +:+ " ownership state: "
      +:+ str_join ", " ((fun e => e.1 +:+ "(" +:+ e.2 +:+ ")")
                         <$> filter (fun e => e.2 <> "active") (report_entries r))
  | StartupRollbackError s failures =>
      "host-network startup failed (" +:+ named s +:+ ") and rollback failed ("
      +:+ str_join "; " (map labelled failures) +:+ ")"
  | RuntimeCleanupError failures =>
      "hosted runtime cleanup failed: " +:+ str_join "; " (map named failures)
  | ServiceCleanupError None failures =>
      "service cleanup failed: " +:+ str_join "; " (map named failures)
  | ServiceCleanupError (Some p) failures =>
      "service failed (" +:+ named p +:+ ") and cleanup failed ("
      +:+ str_join "; " (map named failures) +:+ ")"
  end.

(** What an [except] clause catches. *)
Definition is_OSError (e : exn) : bool :=
  match e with Sys (SOSError _ _ _) => true | _ => false end.
Definition is_os_class (c : os_class) (e : exn) : bool :=
  match e with Sys (SOSError d _ _) => bool_decide (c = d) | _ => false end.
Definition is_UnicodeError (e : exn) : bool :=
  match e with Sys (SUnicodeError _) => true | _ => false end.
Definition is_ValueError (e : exn) : bool :=
  match e with Sys (SUnicodeError _) | Sys (SValueError _) => true | _ => false end.
(** [except Exception]: everything but [KeyboardInterrupt] and its like. *)
Definition is_Exception (e : exn) : bool :=
  match e with Sys (SBaseException _ _) => false | _ => true end.
Definition os_errno (e : exn) : option Z :=
  match e with Sys (SOSError _ n _) => n | _ => None end.

(** Linux errno values. *)
Definition ENOENT : Z := 2.
Definition EBADF : Z := 9.
Definition EAGAIN : Z := 11.
Definition EWOULDBLOCK : Z := 11.
Definition EBUSY : Z := 16.
Definition EEXIST : Z := 17.
Definition ETIMEDOUT : Z := 110.

(** ** Results *)

Inductive res (A : Type) :=
  | Ok (a : A)
  | Err (e : exn).
Arguments Ok {A} a.
Arguments Err {A} e.

#[export] Instance res_ret : MRet res := @Ok.
#[export] Instance res_bind : MBind res :=
  fun A B f r => match r with Ok a => f a | Err e => Err e end.

Definition is_ok {A} (r : res A) : bool := match r with Ok _ => true | Err _ => false end.

(** [if cond: raise e] *)
Definition raise_if (cond : bool) (e : exn) : res unit := if cond then Err e else Ok ().

Definition res_of_option {A} (e : exn) (o : option A) : res A :=
  match o with Some a => Ok a | None => Err e end.

Lemma res_bind_Ok {A B} (r : res A) (f : A -> res B) b :
  (r ≫= f) = Ok b <-> exists a, r = Ok a /\ f a = Ok b.
Proof. destruct r as [a|e]; cbn; naive_solver. Qed.

Lemma raise_if_Ok c e u : raise_if c e = Ok u <-> c = false.
Proof. destruct c, u; cbn; naive_solver. Qed.

Lemma raise_if_bind_Ok {B} c e (f : unit -> res B) b :
  (raise_if c e ≫= f) = Ok b <-> c = false /\ f () = Ok b.
Proof. destruct c; cbn; naive_solver. Qed.

(** Opens the binds of a successful run, one hypothesis per statement. *)
Ltac res_inv :=
  repeat match goal with
  | H : (raise_if _ _ ≫= _) = Ok _ |- _ => apply raise_if_bind_Ok in H as [? H]
  | H : (_ ≫= _) = Ok _ |- _ => apply res_bind_Ok in H as (? & ? & H)
  | H : raise_if _ _ = Ok _ |- _ => apply raise_if_Ok in H
  | H : Ok _ = Ok _ |- _ => injection H as H
  | H : mret _ = Ok _ |- _ => injection H as H
  | H : Err _ = Ok _ |- _ => discriminate H
  end; simplify_eq.
