(* ===== verification/Effects.v ===== *)
(** * Effects

    The interaction of the tools with the outside: every system call, child
    process, pipe, clock or library function they use is a [call], the
    environment [Env] answers each call as a function of everything that
    happened before (so a theorem over all environments covers every behaviour
    of the system), and [M S] is the monad of code with a private state [S],
    Python exceptions and the recorded trace of calls. *)

From S2P Require Import Prelude PyStr Reports Py.

(** ** Calls *)

Record stat_result := { st_mode : Z; st_size : Z }.

(** What [subprocess.Popen] gives: the pid and whether the pipes exist. *)
Record popen := { po_pid : Z; po_stdin : bool; po_stdout : bool }.

(** JSON documents; [JConst] is one of [NaN], [Infinity], [-Infinity]. *)
Inductive json :=
  | JNull
  | JBool (b : bool)
  | JInt (z : Z)
  | JReal (q : Q)
  | JConst (name : string)
  | JStr (s : string)
  | JArr (l : list json)
  | JObj (l : list (string * json)).

(** A signal disposition: the tools' own handler, or one of the caller's. *)
Inductive sig_handler := OwnHandler | OtherHandler (id : Z).

(** One request over the hosted control channel, and its reply: a response
    record, a malformed record, or a failure to send. *)
Record control_request := {
  rq_operation : Z;
  rq_handle : Z;
  rq_arg0 : Z;
  rq_arg1 : Z;
  rq_data : bytes;
}.
Inductive control_reply :=
  | CtlReply (status handle : Z) (data : bytes)
  | CtlProtocol (text : string)
  | CtlSend (text : string).

(** Where the output of a child goes. *)
Inductive stdio := ToStream (stream : Z) | ToPipe | ToNull | ToStdout.

Inductive call :=
  (* files and devices *)
  | CReadText (path : string)
  | CStat (path : string)
  | CAccess (path : string) (mode : Z)
  | CResolve (path : string)
  | CRealpath (path : string)
  | CReadAt (path : string) (offset length : Z)
  | COpen (path : string) (flags : Z)
  | CIoctl (fd request : Z) (buffer : bytes)
  | CClose (fd : Z)
  (* lookups, randomness, identity, time *)
  | CWhich (name : string)
  | CFindLibrary (name : string)
  | CTokenHex (nbytes : Z)
  | CGetPid
  | CClock
  (* child commands *)
  | CRun (argv : list string) (input : option string)
  (* libnftables *)
  | CLoadLibrary (path : string)
  | CNftCtxNew
  | CNftCtxFree (ctx : Z)
  | CNftBufferOutput (ctx : Z)
  | CNftBufferError (ctx : Z)
  | CNftSetDryRun (ctx : Z) (on : bool)
  | CNftSetJson (ctx : Z)
  | CNftGetFlags (ctx : Z)
  | CNftSetFlags (ctx flags : Z)
  | CNftRunCmd (ctx : Z) (command : string)
  | CNftGetOutput (ctx : Z)
  | CNftGetError (ctx : Z)
  (* control pipes *)
  | CPipeWrite (data : bytes)
  | CPipeFlush
  | CSelect (fd : Z) (timeout : Q)
  | CReadFd (fd length : Z)
  | CTransact (rq : control_request)
  (* the hosted process *)
  | CPopen (argv : list string) (pass_fds : list Z)
  | CPoll
  | CWait (timeout : Q)
  | CTerminate
  | CKill
  | CClosePipe (stdin : bool)
  (* signals *)
  | CSignal (signum : Z) (handler : sig_handler)
  | CPendingSignals
  | CStopWait (timeout : Q)
  (* output *)
  | CEmit (document : json)
  | CDiagnostic (text : string)
  (* the scripts: children by number, commands with their status *)
  | CSpawn (argv : list string) (output error : stdio)
  | CProcPoll (process : Z)
  | CProcWait (process : Z) (timeout : Q)
  | CProcTerminate (process : Z)
  | CProcKill (process : Z)
  | CProcSignal (process signum : Z)
  | CKillGroup (process signum : Z)
  | CExec (argv : list string) (timeout : Q)
  (* the scripts: files, identity, time *)
  | COpenFile (path : string)
  | CCloseFile (stream : Z)
  | CWriteText (path text : string)
  | CWriteJson (path : string) (document : json)
  | CExists (path : string)
  | CMakeDirs (path : string)
  | CMkdir (path : string)
  | CRmdir (path : string)
  | CListDir (path : string)
  | CGetEuid
  | CGetEnv (name : string)
  | CSysconf (name : string)
  | CSleep (seconds : Q)
  (* the scripts: sockets *)
  | CSocket
  | CSockReuse (sock : Z)
  | CSockTimeout (sock : Z) (timeout : Q)
  | CSockBlocking (sock : Z) (on : bool)
  | CSockBind (sock : Z) (host : string) (port : Z)
  | CSockConnect (sock : Z) (host : string) (port : Z)
  | CSockListen (sock backlog : Z)
  | CSockPort (sock : Z)
  | CSockAccept (sock : Z)
  | CSockSendAll (sock : Z) (data : bytes)
  | CSockRecv (sock length : Z)
  | CSockShutdown (sock : Z)
  | CSockClose (sock : Z).

(** The type of the answer to a call. *)
Definition ret (c : call) : Type :=
  match c with
  | CReadText _ | CTokenHex _ | CRun _ _ | CResolve _ | CRealpath _ => string
  | CSpawn _ _ _ | CProcWait _ _ | COpenFile _ | CGetEuid | CSysconf _ | CSocket | CSockPort _ | CSockAccept _ => Z
  | CProcPoll _ => option Z
  | CExec _ _ => Z * string
  | CExists _ => bool
  | CListDir _ => list string
  | CGetEnv _ => option string
  | CSockRecv _ _ => bytes
  | CStat _ => stat_result
  | CAccess _ _ | CSelect _ _ => bool
  | CReadAt _ _ _ | CReadFd _ _ | CIoctl _ _ _ => bytes
  | COpen _ _ | CGetPid | CNftCtxNew | CNftBufferOutput _ | CNftBufferError _
  | CNftGetFlags _ | CNftRunCmd _ _ | CWait _ => Z
  | CWhich _ | CFindLibrary _ => option string
  | CClock => Q
  | CLoadLibrary _ => list string
  | CNftGetOutput _ | CNftGetError _ => option string
  | CPipeWrite _ | CPoll => option Z
  | CTransact _ => control_reply
  | CPopen _ _ => popen
  | CSignal _ _ => sig_handler
  | CPendingSignals | CStopWait _ => list Z
  | CClose _ | CNftCtxFree _ | CNftSetDryRun _ _ | CNftSetJson _ | CNftSetFlags _ _
  | CPipeFlush | CTerminate | CKill | CClosePipe _ | CEmit _ | CDiagnostic _
  | CProcTerminate _ | CProcKill _ | CProcSignal _ _ | CKillGroup _ _ | CCloseFile _ | CWriteText _ _ | CWriteJson _ _
  | CMakeDirs _ | CMkdir _ | CRmdir _ | CSleep _ | CSockReuse _ | CSockTimeout _ _ | CSockBlocking _ _ | CSockBind _ _ _
  | CSockConnect _ _ _ | CSockListen _ _ | CSockSendAll _ _ | CSockShutdown _ | CSockClose _ => unit
  end.

Inductive reply (A : Type) :=
  | Answer (a : A)
  | Fault (e : sysexn).
Arguments Answer {A} a.
Arguments Fault {A} e.

Record event := Ev { ev_call : call; ev_reply : reply (ret ev_call) }.

Abbreviation trace := (list event).

Class Env := env_reply : trace -> forall c : call, reply (ret c).

(** ** The monad *)

Inductive outcome (A : Type) :=
  | Ret (a : A)
  | Raise (e : exn)
  | OutOfFuel.
Arguments Ret {A} a.
Arguments Raise {A} e.
Arguments OutOfFuel {A}.

Definition M (S A : Type) : Type := S -> trace -> outcome A * S * trace.

#[export] Instance M_ret {S} : MRet (M S) := fun A a s tr => (Ret a, s, tr).
#[export] Instance M_bind {S} : MBind (M S) := fun A B f m s tr =>
  match m s tr with
  | (Ret a, s, tr) => f a s tr
  | (Raise e, s, tr) => (Raise e, s, tr)
  | (OutOfFuel, s, tr) => (OutOfFuel, s, tr)
  end.

Section ops.
Context {S : Type}.

Definition raise {A} (e : exn) : M S A := fun s tr => (Raise e, s, tr).
Definition out_of_fuel {A} : M S A := fun s tr => (OutOfFuel, s, tr).
Definition get_state : M S S := fun s tr => (Ret s, s, tr).
Definition put_state (s : S) : M S unit := fun _ tr => (Ret tt, s, tr).
Definition modify (f : S -> S) : M S unit := fun s tr => (Ret tt, f s, tr).

Definition of_res {A} (r : res A) : M S A :=
  match r with Ok a => mret a | Err e => raise e end.

(** [try: m except BaseException as e: handler(e)]; a handler that does not
    catch an exception raises it again. *)
Definition try_except {A} (m : M S A) (handler : exn -> M S A) : M S A := fun s tr =>
  match m s tr with
  | (Raise e, s, tr) => handler e s tr
  | o => o
  end.

(** [try: m finally: fin] *)
Definition try_finally {A} (m : M S A) (fin : M S unit) : M S A := fun s tr =>
  match m s tr with
  | (OutOfFuel, s, tr) => (OutOfFuel, s, tr)
  | (o, s, tr) =>
      match fin s tr with
      | (Ret _, s, tr) => (o, s, tr)
      | (Raise e, s, tr) => (Raise e, s, tr)
      | (OutOfFuel, s, tr) => (OutOfFuel, s, tr)
      end
  end.

(** Runs [m] and gives its exception, if any, as a value. *)
Definition attempt (m : M S unit) : M S (option exn) :=
  try_except (m;; mret None) (fun e => mret (Some e)).

Fixpoint for_each {A} (l : list A) (f : A -> M S unit) : M S unit :=
  match l with
  | [] => mret tt
  | x :: l => f x;; for_each l f
  end.

(** Collects what [f] gives over [l], in order: the loops that append to a
    list, of failures or of observations. *)
Fixpoint collect {A B} (l : list A) (f : A -> M S (option B)) : M S (list B) :=
  match l with
  | [] => mret []
  | x :: l =>
      r ← f x;
      rest ← collect l f;
      mret (from_option (fun b => [b]) [] r ++ rest)
  end.

Context `{E : Env}.

Definition perform (c : call) : M S (ret c) := fun s tr =>
  match env_reply tr c with
  | Answer a => (Ret a, s, tr ++ [Ev c (Answer a)])
  | Fault e => (Raise (Sys e), s, tr ++ [Ev c (Fault e)])
  end.

End ops.

(** Code of another component, run on its own state. *)
Definition with_state {S T A} (t : T) (m : M T A) : M S (outcome A * T) := fun s tr =>
  let '(o, t, tr) := m t tr in (Ret (o, t), s, tr).

(** The outcome of such code, taken as the caller's own. *)
Definition of_outcome {S A} (o : outcome A) : M S A := fun s tr => (o, s, tr).

(** Code of a component whose state is part of the caller's. *)
Definition zoom {S T A} (view : S -> T) (set : T -> S -> S) (m : M T A) : M S A := fun s tr =>
  let '(o, t, tr) := m (view s) tr in (o, set t s, tr).

(** ** Reasoning: weakest preconditions *)

Definition wp {S A} (m : M S A) (Q : outcome A -> S -> trace -> Prop) (s : S) (tr : trace) : Prop :=
  let '(o, s', tr') := m s tr in Q o s' tr'.

Section rules.
Context {S : Type}.
Implicit Types (s : S) (tr : trace).

Lemma wp_mono {A} (m : M S A) (P Q : outcome A -> S -> trace -> Prop) s tr :
  (forall o s' tr', P o s' tr' -> Q o s' tr') -> wp m P s tr -> wp m Q s tr.
Proof. unfold wp. destruct (m s tr) as [[o s'] tr']. auto. Qed.

Lemma wp_ret {A} (a : A) Q s tr : Q (Ret a) s tr -> wp (mret a : M S A) Q s tr.
Proof. done. Qed.

Lemma wp_raise {A} e (Q : outcome A -> S -> trace -> Prop) s tr :
  Q (Raise e) s tr -> wp (raise e) Q s tr.
Proof. done. Qed.

Lemma wp_get Q s tr : Q (Ret s) s tr -> wp (get_state (S := S)) Q s tr.
Proof. done. Qed.

Lemma wp_put t Q s tr : Q (Ret tt) t tr -> wp (put_state (S := S) t) Q s tr.
Proof. done. Qed.

Lemma wp_modify f Q s tr : Q (Ret tt) (f s) tr -> wp (modify (S := S) f) Q s tr.
Proof. done. Qed.

Lemma wp_of_res {A} (r : res A) (Q : outcome A -> S -> trace -> Prop) s tr :
  Q (match r with Ok a => Ret a | Err e => Raise e end) s tr -> wp (of_res r) Q s tr.
Proof. by destruct r. Qed.

Lemma wp_bind {A B} (m : M S A) (f : A -> M S B) Q s tr :
  wp m (fun o s' tr' =>
    match o with
    | Ret a => wp (f a) Q s' tr'
    | Raise e => Q (Raise e) s' tr'
    | OutOfFuel => Q OutOfFuel s' tr'
    end) s tr ->
  wp (m ≫= f) Q s tr.
Proof. unfold wp, mbind, M_bind. destruct (m s tr) as [[[a|e|] s'] tr']; done. Qed.

Lemma wp_try {A} (m : M S A) h Q s tr :
  wp m (fun o s' tr' =>
    match o with Raise e => wp (h e) Q s' tr' | _ => Q o s' tr' end) s tr ->
  wp (try_except m h) Q s tr.
Proof. unfold wp, try_except. destruct (m s tr) as [[[a|e|] s'] tr']; done. Qed.

Lemma wp_finally {A} (m : M S A) fin Q s tr :
  wp m (fun o s' tr' =>
    match o with
    | OutOfFuel => Q OutOfFuel s' tr'
    | _ => wp fin (fun o' s'' tr'' =>
             match o' with
             | Ret _ => Q o s'' tr''
             | Raise e => Q (Raise e) s'' tr''
             | OutOfFuel => Q OutOfFuel s'' tr''
             end) s' tr'
    end) s tr ->
  wp (try_finally m fin) Q s tr.
Proof.
  unfold wp, try_finally. destruct (m s tr) as [[[a|e|] s'] tr']; try done;
    by destruct (fin s' tr') as [[[u|e'|] s''] tr''].
Qed.

Lemma wp_attempt (m : M S unit) Q s tr :
  wp m (fun o s' tr' =>
    match o with
    | Ret _ => Q (Ret None) s' tr'
    | Raise e => Q (Ret (Some e)) s' tr'
    | OutOfFuel => Q OutOfFuel s' tr'
    end) s tr ->
  wp (attempt m) Q s tr.
Proof.
  unfold wp, attempt, try_except, mbind, M_bind.
  by destruct (m s tr) as [[[[]|e|] s'] tr'].
Qed.

Lemma wp_perform `{E : Env} c (Q : outcome (ret c) -> S -> trace -> Prop) s tr :
  (forall a, env_reply tr c = Answer a -> Q (Ret a) s (tr ++ [Ev c (Answer a)])) ->
  (forall e, env_reply tr c = Fault e -> Q (Raise (Sys e)) s (tr ++ [Ev c (Fault e)])) ->
  wp (perform c) Q s tr.
Proof. intros Ha Hf. unfold wp, perform. destruct (env_reply tr c); auto. Qed.

Lemma wp_with_state {T A} (t : T) (m : M T A) (Q : outcome (outcome A * T) -> S -> trace -> Prop) s tr :
  wp m (fun o t' tr' => Q (Ret (o, t')) s tr') t tr -> wp (with_state t m) Q s tr.
Proof. unfold wp, with_state. by destruct (m t tr) as [[o t'] tr']. Qed.

Lemma wp_zoom {T A} (view : S -> T) set (m : M T A) Q s tr :
  wp m (fun o t' tr' => Q o (set t' s) tr') (view s) tr -> wp (zoom view set m) Q s tr.
Proof. unfold wp, zoom. by destruct (m (view s) tr) as [[o t'] tr']. Qed.

(** A collecting loop that itself never raises. *)
Lemma wp_collect {A B} (l : list A) (f : A -> M S (option B))
    (I : list A -> list B -> S -> trace -> Prop) (Q : outcome (list B) -> S -> trace -> Prop) done0 acc s tr :
  I done0 acc s tr ->
  (forall d x acc s tr, I d acc s tr ->
     wp (f x) (fun o s' tr' =>
       match o with
       | Ret r => I (d ++ [x]) (acc ++ from_option (fun b => [b]) [] r) s' tr'
       | _ => False
       end) s tr) ->
  (forall r s tr, I (done0 ++ l) (acc ++ r) s tr -> Q (Ret r) s tr) ->
  wp (collect l f) Q s tr.
Proof.
  revert done0 acc s tr Q. induction l as [|x l IH]; intros d acc s tr Q HI Hf HQ; cbn.
  - apply HQ. by rewrite !app_nil_r.
  - apply wp_bind. eapply wp_mono; [|by apply Hf].
    intros [r|e|] s' tr' HI'; [|done|done]. cbn.
    apply wp_bind. eapply (IH (d ++ [x])); [exact HI'|exact Hf|].
    intros rest s'' tr'' HI''. apply HQ. by rewrite <- app_assoc in HI''; rewrite app_assoc.
Qed.

End rules.

(** One call, with a case for its answer and one for its fault. *)
Ltac wp_call :=
  lazymatch goal with |- wp (perform ?c) ?Q ?s ?tr => apply (wp_perform c Q s tr) end.

(** Steps through straight-line monadic code. *)
Ltac wp_step :=
  first
    [ apply wp_bind | apply wp_ret | apply wp_raise | apply wp_get | apply wp_put
    | apply wp_modify | apply wp_try | apply wp_finally | apply wp_attempt
    | apply wp_of_res | wp_call | apply wp_with_state | apply wp_zoom ].

(** ** Observing traces *)

(** The descriptors opened, those whose close was attempted, and the child
    commands attempted, in order. *)
Definition ev_opened (ev : event) : option Z :=
  match ev with
  | Ev c r =>
      match c return reply (ret c) -> option Z with
      | COpen _ _ => fun r => match r with Answer fd => Some fd | Fault _ => None end
      | _ => fun _ => None
      end r
  end.
Definition ev_closed (ev : event) : option Z :=
  match ev_call ev with CClose fd => Some fd | _ => None end.
Definition ev_command (ev : event) : option (list string * option string) :=
  match ev_call ev with CRun argv input => Some (argv, input) | _ => None end.

Definition opened (tr : trace) : list Z := omap ev_opened tr.
Definition closed (tr : trace) : list Z := omap ev_closed tr.
Definition commands (tr : trace) : list (list string * option string) := omap ev_command tr.

Lemma opened_app t u : opened (t ++ u) = opened t ++ opened u.
Proof. apply omap_app. Qed.
Lemma closed_app t u : closed (t ++ u) = closed t ++ closed u.
Proof. apply omap_app. Qed.
Lemma commands_app t u : commands (t ++ u) = commands t ++ commands u.
Proof. apply omap_app. Qed.

#[export] Hint Rewrite opened_app closed_app commands_app : trace.

(** [m] leaves its state alone, extends the trace, and satisfies [Q] of its
    outcome and of what it did. *)
Definition does {S A} (m : M S A) (Q : outcome A -> trace -> Prop) : Prop :=
  forall s tr, wp m (fun o s' tr' => s' = s /\ exists suf, tr' = tr ++ suf /\ Q o suf) s tr.

Section does.
Context {S : Type}.

Lemma does_mono {A} (m : M S A) (P Q : outcome A -> trace -> Prop) :
  (forall o suf, P o suf -> Q o suf) -> does m P -> does m Q.
Proof.
  intros HPQ Hm s tr. eapply wp_mono; [|apply Hm]. intros o s' tr' (-> & suf & -> & HP). eauto.
Qed.

Lemma does_ret {A} (a : A) (Q : outcome A -> trace -> Prop) : Q (Ret a) [] -> does (mret a : M S A) Q.
Proof. intros HQ s tr. apply wp_ret. split; [done|]. exists []. by rewrite app_nil_r. Qed.

Lemma does_raise {A} e (Q : outcome A -> trace -> Prop) : Q (Raise e) [] -> does (raise e : M S A) Q.
Proof. intros HQ s tr. apply wp_raise. split; [done|]. exists []. by rewrite app_nil_r. Qed.

Lemma does_of_res {A} (r : res A) (Q : outcome A -> trace -> Prop) :
  Q (match r with Ok a => Ret a | Err e => Raise e end) [] -> does (of_res r : M S A) Q.
Proof. destruct r; [apply does_ret|apply does_raise]. Qed.

Lemma does_bind {A B} (m : M S A) (f : A -> M S B) (Q : outcome B -> trace -> Prop) :
  does m (fun o t =>
    match o with
    | Ret a => does (f a) (fun o' t' => Q o' (t ++ t'))
    | Raise e => Q (Raise e) t
    | OutOfFuel => Q OutOfFuel t
    end) ->
  does (m ≫= f) Q.
Proof.
  intros Hm s tr. apply wp_bind. eapply wp_mono; [|apply Hm].
  intros [a|e|] s' tr' (-> & suf & -> & Ho); [|by eauto..].
  eapply wp_mono; [|apply Ho]. intros o s' tr' (-> & suf' & -> & Ho'). split; [done|].
  exists (suf ++ suf'). by rewrite app_assoc.
Qed.

Lemma does_try {A} (m : M S A) h (Q : outcome A -> trace -> Prop) :
  does m (fun o t =>
    match o with Raise e => does (h e) (fun o' t' => Q o' (t ++ t')) | _ => Q o t end) ->
  does (try_except m h) Q.
Proof.
  intros Hm s tr. apply wp_try. eapply wp_mono; [|apply Hm].
  intros [a|e|] s' tr' (-> & suf & -> & Ho); [by eauto| |by eauto].
  eapply wp_mono; [|apply Ho]. intros o s' tr' (-> & suf' & -> & Ho'). split; [done|].
  exists (suf ++ suf'). by rewrite app_assoc.
Qed.

Lemma does_perform `{E : Env} c (Q : outcome (ret c) -> trace -> Prop) :
  (forall a, Q (Ret a) [Ev c (Answer a)]) ->
  (forall e, Q (Raise (Sys e)) [Ev c (Fault e)]) ->
  does (perform c : M S (ret c)) Q.
Proof. intros Ha Hf s tr. apply wp_perform; intros; (split; [done|]); eauto. Qed.

(** Code of another component that may change its own state. *)
Lemma does_with_state {T A} (t : T) (m : M T A) (Q : outcome (outcome A * T) -> trace -> Prop) :
  (forall tr, wp m (fun o t' tr' => exists suf, tr' = tr ++ suf /\ Q (Ret (o, t')) suf) t tr) ->
  does (with_state t m : M S (outcome A * T)) Q.
Proof.
  intros Hm s tr. apply wp_with_state. eapply wp_mono; [|apply Hm].
  intros o t' tr' (suf & -> & HQ). eauto.
Qed.

Lemma does_for_each {A} (l : list A) (f : A -> M S unit) (Q : outcome unit -> trace -> Prop)
    (P : list A -> trace -> Prop) :
  P [] [] ->
  (forall d x t, P d t -> does (f x) (fun o t' =>
     match o with Ret _ => P (d ++ [x]) (t ++ t') | _ => Q o (t ++ t') end)) ->
  (forall t, P l t -> Q (Ret tt) t) ->
  does (for_each l f) Q.
Proof.
  intros Hnil Hstep Hend.
  assert (forall d l' t, d ++ l' = l -> P d t -> does (for_each l' f) (fun o t' => Q o (t ++ t'))) as Hgen.
  { intros d l' t <-. revert d t Hend. induction l' as [|x l' IH]; intros d t Hend Hd; cbn [for_each].
    - apply does_ret. rewrite app_nil_r in *. by apply Hend.
    - apply does_bind. eapply does_mono; [|by apply Hstep].
      intros [[]|e|] t' Ho; [|done|done].
      eapply does_mono; [|apply (IH (d ++ [x]) (t ++ t'))].
      + intros o t''. by rewrite app_assoc.
      + intros t0. rewrite <- app_assoc. apply Hend.
      + done. }
  eapply does_mono; [|by apply (Hgen [] l [])]. done.
Qed.

End does.

Ltac does_call :=
  lazymatch goal with |- does (perform ?c) ?Q => apply (does_perform c Q) end.

Lemma does_collect {S A B} (l : list A) (f : A -> M S (option B))
    (Q : outcome (list B) -> trace -> Prop) (P : list A -> list B -> trace -> Prop) :
  P [] [] [] ->
  (forall d x acc t, P d acc t -> does (f x) (fun o t' =>
     match o with
     | Ret r => P (d ++ [x]) (acc ++ from_option (fun b => [b]) [] r) (t ++ t')
     | Raise e => Q (Raise e) (t ++ t')
     | OutOfFuel => Q OutOfFuel (t ++ t')
     end)) ->
  (forall acc t, P l acc t -> Q (Ret acc) t) ->
  does (collect l f) Q.
Proof.
  intros Hnil Hstep Hend.
  assert (forall l' d acc t, d ++ l' = l -> P d acc t -> does (collect l' f) (fun o t' =>
    match o with
    | Ret r => Q (Ret (acc ++ r)) (t ++ t')
    | Raise e => Q (Raise e) (t ++ t')
    | OutOfFuel => Q OutOfFuel (t ++ t')
    end)) as Hgen.
  { intros l'. induction l' as [|x l' IH]; intros d acc t Hd HP; cbn [collect].
    - apply does_ret. rewrite !app_nil_r in *. subst. by apply Hend.
    - apply does_bind. eapply does_mono; [|by apply Hstep].
      intros [r|e|] t' Ho; [|done|done]. apply does_bind.
      eapply does_mono; [|apply (IH (d ++ [x]) (acc ++ from_option (fun b => [b]) [] r) (t ++ t'));
        [by rewrite <- app_assoc|exact Ho]].
      intros [r'|e|] t'' Ho'; [|by rewrite app_assoc..].
      apply does_ret. by rewrite app_nil_r, !app_assoc. }
  eapply does_mono; [|by apply (Hgen l [] [] [])]. by intros [].
Qed.

(** The same with a state: from [s], [m] extends the trace and satisfies [Q]
    of its outcome, its final state and of what it did. *)
Definition acts {S A} (m : M S A) (s : S) (Q : outcome A -> S -> trace -> Prop) : Prop :=
  forall tr, wp m (fun o s' tr' => exists suf, tr' = tr ++ suf /\ Q o s' suf) s tr.

Section acts.
Context {S : Type}.
Implicit Types s : S.

Lemma acts_mono {A} (m : M S A) s (P Q : outcome A -> S -> trace -> Prop) :
  (forall o s' suf, P o s' suf -> Q o s' suf) -> acts m s P -> acts m s Q.
Proof.
  intros HPQ Hm tr. eapply wp_mono; [|apply Hm]. intros o s' tr' (suf & -> & HP). eauto.
Qed.

Lemma acts_does {A} (m : M S A) s (P : outcome A -> trace -> Prop) (Q : outcome A -> S -> trace -> Prop) :
  does m P -> (forall o suf, P o suf -> Q o s suf) -> acts m s Q.
Proof.
  intros Hm HPQ tr. eapply wp_mono; [|apply Hm]. intros o s' tr' (-> & suf & -> & HP). eauto.
Qed.

Lemma acts_nil {A} (m : M S A) s o s' (Q : outcome A -> S -> trace -> Prop) :
  (forall tr, m s tr = (o, s', tr)) -> Q o s' [] -> acts m s Q.
Proof. intros Hm HQ tr. unfold wp. rewrite Hm. exists []. by rewrite app_nil_r. Qed.

Lemma acts_ret {A} (a : A) s Q : Q (Ret a) s [] -> acts (mret a : M S A) s Q.
Proof. by apply acts_nil. Qed.
Lemma acts_raise {A} e s (Q : outcome A -> S -> trace -> Prop) : Q (Raise e) s [] -> acts (raise e) s Q.
Proof. by apply acts_nil. Qed.
Lemma acts_get s Q : Q (Ret s) s [] -> acts get_state s Q.
Proof. by apply acts_nil. Qed.
Lemma acts_put t s Q : Q (Ret tt) t [] -> acts (put_state t) s Q.
Proof. by apply acts_nil. Qed.
Lemma acts_modify f s Q : Q (Ret tt) (f s) [] -> acts (modify f) s Q.
Proof. by apply acts_nil. Qed.
Lemma acts_of_res {A} (r : res A) s (Q : outcome A -> S -> trace -> Prop) :
  Q (match r with Ok a => Ret a | Err e => Raise e end) s [] -> acts (of_res r) s Q.
Proof. destruct r; [apply acts_ret|apply acts_raise]. Qed.

Lemma acts_bind {A B} (m : M S A) (f : A -> M S B) s (Q : outcome B -> S -> trace -> Prop) :
  acts m s (fun o s' t =>
    match o with
    | Ret a => acts (f a) s' (fun o' s'' t' => Q o' s'' (t ++ t'))
    | Raise e => Q (Raise e) s' t
    | OutOfFuel => Q OutOfFuel s' t
    end) ->
  acts (m ≫= f) s Q.
Proof.
  intros Hm tr. apply wp_bind. eapply wp_mono; [|apply Hm].
  intros [a|e|] s' tr' (suf & -> & Ho); [|by eauto..].
  eapply wp_mono; [|apply Ho]. intros o s'' tr' (suf' & -> & Ho').
  exists (suf ++ suf'). by rewrite app_assoc.
Qed.

Lemma acts_try {A} (m : M S A) h s (Q : outcome A -> S -> trace -> Prop) :
  acts m s (fun o s' t =>
    match o with Raise e => acts (h e) s' (fun o' s'' t' => Q o' s'' (t ++ t')) | _ => Q o s' t end) ->
  acts (try_except m h) s Q.
Proof.
  intros Hm tr. apply wp_try. eapply wp_mono; [|apply Hm].
  intros [a|e|] s' tr' (suf & -> & Ho); [by eauto| |by eauto].
  eapply wp_mono; [|apply Ho]. intros o s'' tr' (suf' & -> & Ho').
  exists (suf ++ suf'). by rewrite app_assoc.
Qed.

Lemma acts_finally {A} (m : M S A) fin s (Q : outcome A -> S -> trace -> Prop) :
  acts m s (fun o s' t =>
    match o with
    | OutOfFuel => Q OutOfFuel s' t
    | _ => acts fin s' (fun o' s'' t' =>
             match o' with
             | Ret _ => Q o s'' (t ++ t')
             | Raise e => Q (Raise e) s'' (t ++ t')
             | OutOfFuel => Q OutOfFuel s'' (t ++ t')
             end)
    end) ->
  acts (try_finally m fin) s Q.
Proof.
  intros Hm tr. apply wp_finally. eapply wp_mono; [|apply Hm].
  intros [a|e|] s' tr' (suf & -> & Ho); [| |by eauto];
    (eapply wp_mono; [|apply Ho]); intros [[]|e'|] s'' tr' (suf' & -> & Ho');
    exists (suf ++ suf'); by rewrite app_assoc.
Qed.

Lemma acts_attempt (m : M S unit) s Q :
  acts m s (fun o s' t =>
    match o with
    | Ret _ => Q (Ret None) s' t
    | Raise e => Q (Ret (Some e)) s' t
    | OutOfFuel => Q OutOfFuel s' t
    end) ->
  acts (attempt m) s Q.
Proof.
  intros Hm tr. apply wp_attempt. eapply wp_mono; [|apply Hm].
  intros [[]|e|] s' tr' (suf & -> & Ho); eauto.
Qed.

Lemma acts_perform `{E : Env} c s (Q : outcome (ret c) -> S -> trace -> Prop) :
  (forall a, Q (Ret a) s [Ev c (Answer a)]) ->
  (forall e, Q (Raise (Sys e)) s [Ev c (Fault e)]) ->
  acts (perform c : M S (ret c)) s Q.
Proof. intros Ha Hf tr. apply wp_perform; intros; eauto. Qed.

Lemma acts_zoom {T A} (view : S -> T) set (m : M T A) s (Q : outcome A -> S -> trace -> Prop) :
  acts m (view s) (fun o t' suf => Q o (set t' s) suf) -> acts (zoom view set m) s Q.
Proof.
  intros Hm tr. apply wp_zoom. eapply wp_mono; [|apply Hm]. intros o t' tr' (suf & -> & HQ). eauto.
Qed.

Lemma acts_with_state {T A} (t : T) (m : M T A) s (Q : outcome (outcome A * T) -> S -> trace -> Prop) :
  acts m t (fun o t' suf => Q (Ret (o, t')) s suf) -> acts (with_state t m) s Q.
Proof.
  intros Hm tr. apply wp_with_state. eapply wp_mono; [|apply Hm]. intros o t' tr' (suf & -> & HQ). eauto.
Qed.

(** Two judgements of the one run. *)
Lemma acts_and {A} (m : M S A) s P Q :
  acts m s P -> acts m s Q -> acts m s (fun o s' suf => P o s' suf /\ Q o s' suf).
Proof.
  intros HP HQ tr. specialize (HP tr). specialize (HQ tr). unfold wp in *.
  destruct (m s tr) as [[o s'] tr']. destruct HP as (suf & -> & HP), HQ as (suf' & Heq & HQ).
  apply app_inv_head in Heq as <-. eauto.
Qed.

(** The trace [t] is that of one run of [m] from [s]. *)
Definition ran {A} (m : M S A) s (o : outcome A) s' (t : trace) : Prop := exists tr, m s tr = (o, s', tr ++ t).

Lemma acts_ran {A} (m : M S A) s P : acts m s P -> acts m s (fun o s' t => P o s' t /\ ran m s o s' t).
Proof.
  intros Hm tr. specialize (Hm tr). unfold wp in *. destruct (m s tr) as [[o s'] tr'] eqn:Hrun.
  destruct Hm as (suf & -> & HP). exists suf. split; [done|]. split; [done|]. by exists tr.
Qed.

(** Reading a judgement off a run. *)
Lemma acts_run {A} (m : M S A) s Q tr o s' tr' :
  acts m s Q -> m s tr = (o, s', tr') -> exists suf, tr' = tr ++ suf /\ Q o s' suf.
Proof. intros Hm Hrun. specialize (Hm tr). unfold wp in Hm. by rewrite Hrun in Hm. Qed.

End acts.

Ltac acts_call :=
  lazymatch goal with |- acts (perform ?c) ?s ?Q => apply (acts_perform c s Q) end.

(** A judgement at a trace, and from a run that is known. *)
Lemma wp_of_acts {S A} (m : M S A) s tr (P Q : outcome A -> S -> trace -> Prop) :
  acts m s P -> (forall o s' suf, P o s' suf -> Q o s' (tr ++ suf)) -> wp m Q s tr.
Proof. intros Hm HQ. eapply wp_mono; [|apply Hm]. intros o s' tr' (suf & -> & HP). by apply HQ. Qed.
Lemma wp_run {S A} (m : M S A) s tr o s' tr' (Q : outcome A -> S -> trace -> Prop) :
  m s tr = (o, s', tr') -> Q o s' tr' -> wp m Q s tr.
Proof. unfold wp. by intros ->. Qed.

(** ** The calls a computation can make *)

Definition emits {S A} (P : call -> Prop) (m : M S A) : Prop :=
  forall s tr, wp m (fun _ _ tr' => exists suf, tr' = tr ++ suf /\ Forall (fun ev => P (ev_call ev)) suf) s tr.

Section emits.
Context {S : Type} (P : call -> Prop).

Lemma emits_nil {A} (m : M S A) : (forall s tr, (m s tr).2 = tr) -> emits P m.
Proof.
  intros Hm s tr. unfold wp. specialize (Hm s tr). destruct (m s tr) as [[o s'] tr']. cbn in Hm. subst.
  exists []. by rewrite app_nil_r.
Qed.

Lemma emits_ret {A} (a : A) : emits P (mret a : M S A).
Proof. by apply emits_nil. Qed.
Lemma emits_raise {A} e : emits P (raise e : M S A).
Proof. by apply emits_nil. Qed.
Lemma emits_out_of_fuel {A} : emits P (out_of_fuel : M S A).
Proof. by apply emits_nil. Qed.
Lemma emits_get : emits P (get_state (S := S)).
Proof. by apply emits_nil. Qed.
Lemma emits_put s : emits P (put_state (S := S) s).
Proof. by apply emits_nil. Qed.
Lemma emits_modify f : emits P (modify (S := S) f).
Proof. by apply emits_nil. Qed.
Lemma emits_of_res {A} (r : res A) : emits P (of_res r : M S A).
Proof. destruct r; [apply emits_ret|apply emits_raise]. Qed.

Lemma emits_bind {A B} (m : M S A) (f : A -> M S B) : emits P m -> (forall a, emits P (f a)) -> emits P (m ≫= f).
Proof.
  intros Hm Hf s tr. apply wp_bind. eapply wp_mono; [|apply Hm]. intros [a|e|] s' tr' (suf & -> & Hsuf); [|by eauto..].
  eapply wp_mono; [|apply Hf]. intros o s'' tr'' (suf' & -> & Hsuf'). exists (suf ++ suf').
  rewrite app_assoc, Forall_app. eauto.
Qed.

Lemma emits_try {A} (m : M S A) h : emits P m -> (forall e, emits P (h e)) -> emits P (try_except m h).
Proof.
  intros Hm Hh s tr. apply wp_try. eapply wp_mono; [|apply Hm]. intros [a|e|] s' tr' (suf & -> & Hsuf); [by eauto| |by eauto].
  eapply wp_mono; [|apply Hh]. intros o s'' tr'' (suf' & -> & Hsuf'). exists (suf ++ suf').
  rewrite app_assoc, Forall_app. eauto.
Qed.

Lemma emits_finally {A} (m : M S A) fin : emits P m -> emits P fin -> emits P (try_finally m fin).
Proof.
  intros Hm Hfin s tr. apply wp_finally. eapply wp_mono; [|apply Hm]. intros o s' tr' (suf & -> & Hsuf).
  assert (wp fin (fun _ _ tr'' => exists suf0, tr'' = tr ++ suf0 /\ Forall (fun ev => P (ev_call ev)) suf0) s' (tr ++ suf)) as H.
  { eapply wp_mono; [|apply Hfin]. intros o' s'' tr'' (suf' & -> & Hsuf'). exists (suf ++ suf').
    rewrite app_assoc, Forall_app. eauto. }
  destruct o; [| |by eauto]; (eapply wp_mono; [|exact H]); by intros [].
Qed.

Lemma emits_attempt (m : M S unit) : emits P m -> emits P (attempt m).
Proof.
  intros Hm. unfold attempt. apply emits_try; [|intros; apply emits_ret].
  apply emits_bind; [done|]. intros. apply emits_ret.
Qed.

Lemma emits_perform `{E : Env} c : P c -> emits P (perform c : M S (ret c)).
Proof. intros Hc s tr. apply wp_perform; intros; eexists; (split; [done|]); by repeat constructor. Qed.

Lemma emits_with_state {T A} (t : T) (m : M T A) : emits P m -> emits P (with_state t m : M S _).
Proof. intros Hm s tr. apply wp_with_state. eapply wp_mono; [|apply Hm]. eauto. Qed.

Lemma emits_zoom {T A} (view : S -> T) set (m : M T A) : emits P m -> emits P (zoom view set m).
Proof. intros Hm s tr. apply wp_zoom. eapply wp_mono; [|apply Hm]. eauto. Qed.

Lemma emits_for_each {A} (l : list A) (f : A -> M S unit) : (forall x, emits P (f x)) -> emits P (for_each l f).
Proof. intros Hf. induction l; cbn [for_each]; [apply emits_ret|by apply emits_bind]. Qed.

Lemma emits_collect {A B} (l : list A) (f : A -> M S (option B)) : (forall x, emits P (f x)) -> emits P (collect l f).
Proof.
  intros Hf. induction l; cbn [collect]; [apply emits_ret|]. apply emits_bind; [done|]. intros r.
  apply emits_bind; [done|]. intros rest. apply emits_ret.
Qed.

Lemma acts_of_emits {A} (m : M S A) s :
  emits P m -> acts m s (fun _ _ suf => Forall (fun ev => P (ev_call ev)) suf).
Proof. intros Hm tr. apply Hm. Qed.

Lemma acts_emits {A} (m : M S A) s Q :
  acts m s Q -> emits P m -> acts m s (fun o s' suf => Q o s' suf /\ Forall (fun ev => P (ev_call ev)) suf).
Proof. intros Hm He. apply acts_and; [done|by apply acts_of_emits]. Qed.

End emits.

Lemma emits_mono {S A} (P Q : call -> Prop) (m : M S A) : (forall c, P c -> Q c) -> emits P m -> emits Q m.
Proof.
  intros HPQ Hm s tr. eapply wp_mono; [|apply Hm]. intros o s' tr' (suf & -> & Hsuf). exists suf. split; [done|].
  eapply Forall_impl; [exact Hsuf|]. eauto.
Qed.

Create HintDb emits discriminated.

(** Follows the structure of a computation down to its calls. *)
Ltac emits_step :=
  lazymatch goal with
  | |- emits _ (_ ≫= _) => apply emits_bind; [|intros ?]
  | |- emits _ (mret _) => apply emits_ret
  | |- emits _ (raise _) => apply emits_raise
  | |- emits _ out_of_fuel => apply emits_out_of_fuel
  | |- emits _ get_state => apply emits_get
  | |- emits _ (put_state _) => apply emits_put
  | |- emits _ (modify _) => apply emits_modify
  | |- emits _ (of_res _) => apply emits_of_res
  | |- emits _ (of_outcome _) => by apply emits_nil
  | |- emits _ (try_except _ _) => apply emits_try; [|intros ?]
  | |- emits _ (try_finally _ _) => apply emits_finally
  | |- emits _ (attempt _) => apply emits_attempt
  | |- emits ?P (perform ?c) => apply (emits_perform P c); first [exact I | done]
  | |- emits _ (with_state _ _) => apply emits_with_state
  | |- emits _ (zoom _ _ _) => apply emits_zoom
  | |- emits _ (for_each _ _) => apply emits_for_each; intros ?
  | |- emits _ (collect _ _) => apply emits_collect; intros ?
  | |- emits _ (match ?x with _ => _ end) => destruct x
  | |- emits _ _ => solve [eauto with emits nocore]
  end.
Ltac emits := repeat emits_step.

(** No descriptor is opened or closed; and besides no signal handler is changed
    and no signal looked for. *)
Definition fd_free (c : call) : Prop := match c with COpen _ _ | CClose _ => False | _ => True end.
Definition passive (c : call) : Prop :=
  match c with COpen _ _ | CClose _ | CSignal _ _ | CPendingSignals | CStopWait _ => False | _ => True end.

Lemma fd_free_trace suf : Forall (fun ev => fd_free (ev_call ev)) suf -> opened suf = [] /\ closed suf = [].
Proof.
  induction 1 as [|[c r] suf Hev _ [IHo IHc]]; [done|]. unfold opened, closed in *. cbn.
  destruct c; cbn in *; by rewrite ?IHo, ?IHc.
Qed.
Lemma passive_trace suf : Forall (fun ev => passive (ev_call ev)) suf -> opened suf = [] /\ closed suf = [].
Proof. intros H. apply fd_free_trace. eapply Forall_impl; [exact H|]. by intros [[]]. Qed.

(** ** The exceptions a computation can raise *)

(** Every exception of the environment is in [P]. *)
Class CatchAll (P : exn -> Prop) := catch_all e : P (Sys e).

Definition rthrows {A} (P : exn -> Prop) (r : res A) : Prop := forall e, r = Err e -> P e.
Definition throws {S A} (P : exn -> Prop) (m : M S A) : Prop :=
  forall s tr, wp m (fun o _ _ => forall e, o = Raise e -> P e) s tr.

Section throws.
Context (P : exn -> Prop) `{HP : CatchAll P} {S : Type}.

Lemma rthrows_Ok {A} (a : A) : rthrows P (Ok a).
Proof. done. Qed.
Lemma rthrows_Err {A} e : P e -> rthrows P (Err e : res A).
Proof. by intros He e' [= <-]. Qed.
Lemma rthrows_bind {A B} (r : res A) (f : A -> res B) :
  rthrows P r -> (forall a, rthrows P (f a)) -> rthrows P (r ≫= f).
Proof. intros Hr Hf e. destruct r as [a|e']; cbn; [apply Hf|intros [= ->]; by apply Hr]. Qed.
Lemma rthrows_raise_if b e : P e -> rthrows P (raise_if b e).
Proof. destruct b; [apply rthrows_Err|done]. Qed.
Lemma rthrows_of_option {A} e (o : option A) : P e -> rthrows P (res_of_option e o).
Proof. destruct o; [done|apply rthrows_Err]. Qed.

Lemma throws_ret {A} (a : A) : throws P (mret a : M S A).
Proof. by intros s tr. Qed.
Lemma throws_raise {A} e : P e -> throws P (raise e : M S A).
Proof. by intros He s tr e' [= <-]. Qed.
Lemma throws_get : throws P (get_state (S := S)).
Proof. by intros s tr. Qed.
Lemma throws_put s : throws P (put_state (S := S) s).
Proof. by intros s' tr. Qed.
Lemma throws_modify f : throws P (modify (S := S) f).
Proof. by intros s' tr. Qed.
Lemma throws_of_res {A} (r : res A) : rthrows P r -> throws P (of_res r : M S A).
Proof. intros Hr. destruct r; [apply throws_ret|apply throws_raise; by apply Hr]. Qed.
Lemma throws_bind {A B} (m : M S A) (f : A -> M S B) : throws P m -> (forall a, throws P (f a)) -> throws P (m ≫= f).
Proof.
  intros Hm Hf s tr. apply wp_bind. eapply wp_mono; [|apply Hm]. intros [a|e|] s' tr' H; [apply Hf| |done].
  intros e' [= <-]. by apply H.
Qed.
Lemma throws_try {A} (m : M S A) h : throws P m -> (forall e, P e -> throws P (h e)) -> throws P (try_except m h).
Proof.
  intros Hm Hh s tr. apply wp_try. eapply wp_mono; [|apply Hm]. intros [a|e|] s' tr' H; [done| |done].
  apply Hh. by apply H.
Qed.
Lemma throws_finally {A} (m : M S A) fin : throws P m -> throws P fin -> throws P (try_finally m fin).
Proof.
  intros Hm Hfin s tr. apply wp_finally. eapply wp_mono; [|apply Hm]. intros [a|e|] s' tr' H; [| |done];
    (eapply wp_mono; [|apply Hfin]); intros [u|e'|] s'' tr'' H'; try done; intros e'' [= <-]; auto.
Qed.
Lemma throws_attempt (m : M S unit) : throws P (attempt m).
Proof. intros s tr. unfold wp, attempt, try_except, mbind, M_bind. by destruct (m s tr) as [[[[]|e|] s'] tr']. Qed.
Lemma throws_perform `{E : Env} c : throws P (perform c : M S (ret c)).
Proof. intros s tr. apply wp_perform; [done|]. intros e _ e' [= <-]. apply HP. Qed.
Lemma throws_with_state {T A} (t : T) (m : M T A) : throws P (with_state t m : M S _).
Proof. intros s tr. unfold wp, with_state. by destruct (m t tr) as [[]]. Qed.
Lemma throws_zoom {T A} (view : S -> T) set (m : M T A) : throws P m -> throws P (zoom view set m).
Proof. intros Hm s tr. apply wp_zoom. eapply wp_mono; [|apply Hm]. eauto. Qed.
Lemma throws_for_each {A} (l : list A) (f : A -> M S unit) : (forall x, throws P (f x)) -> throws P (for_each l f).
Proof. intros Hf. induction l; cbn [for_each]; [apply throws_ret|by apply throws_bind]. Qed.
Lemma throws_collect {A B} (l : list A) (f : A -> M S (option B)) : (forall x, throws P (f x)) -> throws P (collect l f).
Proof.
  intros Hf. induction l; cbn [collect]; [apply throws_ret|]. apply throws_bind; [done|]. intros r.
  apply throws_bind; [done|]. intros rest. apply throws_ret.
Qed.

(** Both facts about the one run. *)
Lemma acts_and_throws {A} (m : M S A) s Q :
  acts m s Q -> throws P m -> acts m s (fun o s' suf => Q o s' suf /\ forall e, o = Raise e -> P e).
Proof.
  intros Hm Ht tr. specialize (Hm tr). specialize (Ht s tr). unfold wp in *.
  destruct (m s tr) as [[o s'] tr']. destruct Hm as (suf & -> & HQ). eauto.
Qed.

End throws.

Create HintDb throws discriminated.

Ltac throws_step :=
  lazymatch goal with
  | |- throws _ (_ ≫= _) => apply throws_bind; [|intros ?]
  | |- throws _ (mret _) => apply throws_ret
  | |- throws _ (raise _) => apply throws_raise; first [assumption | exact I | apply catch_all]
  | |- throws _ get_state => apply throws_get
  | |- throws _ (put_state _) => apply throws_put
  | |- throws _ (modify _) => apply throws_modify
  | |- throws _ (of_res _) => apply throws_of_res
  | |- throws _ (try_except _ _) => apply throws_try; [|intros ? ?]
  | |- throws _ (try_finally _ _) => apply throws_finally
  | |- throws _ (attempt _) => apply throws_attempt
  | |- throws ?P (perform ?c) => apply (throws_perform P c)
  | |- throws _ (with_state _ _) => apply throws_with_state
  | |- throws _ (zoom _ _ _) => apply throws_zoom
  | |- throws _ (for_each _ _) => apply throws_for_each; intros ?
  | |- throws _ (collect _ _) => apply throws_collect; intros ?
  | |- throws _ (match ?x with _ => _ end) => destruct x
  | |- rthrows _ (_ ≫= _) => apply rthrows_bind; [|intros ?]
  | |- rthrows _ (Ok _) => apply rthrows_Ok
  | |- rthrows _ (Err _) => apply rthrows_Err; first [assumption | exact I | apply catch_all]
  | |- rthrows _ (raise_if _ _) => apply rthrows_raise_if; first [exact I | apply catch_all]
  | |- rthrows _ (res_of_option _ _) => apply rthrows_of_option; first [exact I | apply catch_all]
  | |- rthrows _ (match ?x with _ => _ end) => destruct x
  | |- _ => solve [eauto with throws nocore]
  end.
Ltac throws := repeat throws_step.

(** ** Relations along a run *)

(** A relation between the state before, what was done, and the state after,
    that runs compose. *)
Class TraceRel {S} (R : S -> trace -> S -> Prop) : Prop := {
  rel_refl s : R s [] s;
  rel_trans s t s' t' s'' : R s t s' -> R s' t' s'' -> R s (t ++ t') s'';
}.

(** Every run of [m], however it ends, is related. *)
Definition steps {S A} (R : S -> trace -> S -> Prop) (m : M S A) : Prop :=
  forall s, acts m s (fun _ s' suf => R s suf s').

Section steps.
Context {S : Type} (R : S -> trace -> S -> Prop) `{TR : !TraceRel R}.

Lemma steps_nil {A} (m : M S A) : (forall s tr, exists o, m s tr = (o, s, tr)) -> steps R m.
Proof.
  intros Hm s tr. unfold wp. destruct (Hm s tr) as [o ->]. exists []. rewrite app_nil_r. split; [done|apply rel_refl].
Qed.
Lemma steps_ret {A} (a : A) : steps R (mret a : M S A).
Proof. apply steps_nil. by eexists. Qed.
Lemma steps_raise {A} e : steps R (raise e : M S A).
Proof. apply steps_nil. by eexists. Qed.
Lemma steps_out_of_fuel {A} : steps R (out_of_fuel : M S A).
Proof. apply steps_nil. by eexists. Qed.
Lemma steps_get : steps R (get_state (S := S)).
Proof. apply steps_nil. by eexists. Qed.
Lemma steps_of_res {A} (r : res A) : steps R (of_res r : M S A).
Proof. destruct r; [apply steps_ret|apply steps_raise]. Qed.
Lemma steps_modify f : (forall s, R s [] (f s)) -> steps R (modify f).
Proof. intros Hf s. by apply acts_modify. Qed.
Lemma steps_perform `{E : Env} c : (forall s r, R s [Ev c r] s) -> steps R (perform c : M S (ret c)).
Proof. intros Hc s. acts_call; intros; apply Hc. Qed.

Lemma steps_bind {A B} (m : M S A) (f : A -> M S B) : steps R m -> (forall a, steps R (f a)) -> steps R (m ≫= f).
Proof.
  intros Hm Hf s. apply acts_bind. eapply acts_mono; [|apply Hm]. intros [a|e|] s' t HR; [|done|done].
  eapply acts_mono; [|apply Hf]. intros o s'' t' HR'. by eapply rel_trans.
Qed.
Lemma steps_try {A} (m : M S A) h : steps R m -> (forall e, steps R (h e)) -> steps R (try_except m h).
Proof.
  intros Hm Hh s. apply acts_try. eapply acts_mono; [|apply Hm]. intros [a|e|] s' t HR; [done| |done].
  eapply acts_mono; [|apply Hh]. intros o s'' t' HR'. by eapply rel_trans.
Qed.
Lemma steps_finally {A} (m : M S A) fin : steps R m -> steps R fin -> steps R (try_finally m fin).
Proof.
  intros Hm Hf s. apply acts_finally. eapply acts_mono; [|apply Hm]. intros o s' t Ht.
  assert (acts fin s' (fun _ s'' t' => R s (t ++ t') s'')) as Hfin.
  { eapply acts_mono; [|apply Hf]. intros o' s'' t' Ht'. exact (rel_trans _ _ _ _ _ Ht Ht'). }
  destruct o; [| |done]; (eapply acts_mono; [|exact Hfin]); intros [] s'' t'; done.
Qed.
Lemma steps_attempt (m : M S unit) : steps R m -> steps R (attempt m).
Proof. intros Hm. apply steps_try; [apply steps_bind; [done|intros; apply steps_ret]|intros; apply steps_ret]. Qed.
Lemma steps_for_each {A} (l : list A) (f : A -> M S unit) : (forall x, steps R (f x)) -> steps R (for_each l f).
Proof. intros Hf. induction l; cbn [for_each]; [apply steps_ret|by apply steps_bind]. Qed.
Lemma steps_collect {A B} (l : list A) (f : A -> M S (option B)) : (forall x, steps R (f x)) -> steps R (collect l f).
Proof.
  intros Hf. induction l; cbn [collect]; [apply steps_ret|]. apply steps_bind; [done|]. intros r.
  apply steps_bind; [done|]. intros rest. apply steps_ret.
Qed.

End steps.

Lemma steps_mono {S A} (R R' : S -> trace -> S -> Prop) (m : M S A) :
  (forall s t s', R s t s' -> R' s t s') -> steps R m -> steps R' m.
Proof. intros H Hm s. eapply acts_mono; [|apply Hm]. auto. Qed.

Create HintDb steps discriminated.

Ltac steps_step :=
  lazymatch goal with
  | |- steps _ (_ ≫= _) => apply steps_bind; [apply _| |intros ?]
  | |- steps _ (mret _) => apply steps_ret; apply _
  | |- steps _ (raise _) => apply steps_raise; apply _
  | |- steps _ out_of_fuel => apply steps_out_of_fuel; apply _
  | |- steps _ get_state => apply steps_get; apply _
  | |- steps _ (of_res _) => apply steps_of_res; apply _
  | |- steps _ (try_except _ _) => apply steps_try; [apply _| |intros ?]
  | |- steps _ (try_finally _ _) => apply steps_finally; [apply _| |]
  | |- steps _ (attempt _) => apply steps_attempt; [apply _|]
  | |- steps _ (for_each _ _) => apply steps_for_each; [apply _|intros ?]
  | |- steps _ (collect _ _) => apply steps_collect; [apply _|intros ?]
  | |- steps _ (match ?x with _ => _ end) => destruct x
  | |- steps _ _ => solve [eauto with steps nocore]
  end.
Ltac steps := repeat steps_step.

(** ** Invariants *)

(** From a state in [I], every run of [m] only makes calls in [P] and ends in
    [I], however it ends. *)
Definition keeps {S A} (I : S -> Prop) (P : call -> Prop) (m : M S A) : Prop :=
  forall s, I s -> acts m s (fun _ s' suf => I s' /\ Forall (fun ev => P (ev_call ev)) suf).

Section keeps.
Context {S : Type} (I : S -> Prop) (P : call -> Prop).

Lemma keeps_nil {A} (m : M S A) : (forall s tr, exists o, m s tr = (o, s, tr)) -> keeps I P m.
Proof.
  intros Hm s Hs tr. unfold wp. destruct (Hm s tr) as [o ->]. exists []. rewrite app_nil_r. by split_and!.
Qed.
Lemma keeps_ret {A} (a : A) : keeps I P (mret a : M S A).
Proof. apply keeps_nil. by eexists. Qed.
Lemma keeps_raise {A} e : keeps I P (raise e : M S A).
Proof. apply keeps_nil. by eexists. Qed.
Lemma keeps_get : keeps I P (get_state (S := S)).
Proof. apply keeps_nil. by eexists. Qed.
Lemma keeps_of_res {A} (r : res A) : keeps I P (of_res r : M S A).
Proof. destruct r; [apply keeps_ret|apply keeps_raise]. Qed.
Lemma keeps_modify f : (forall s, I s -> I (f s)) -> keeps I P (modify f).
Proof. intros Hf s Hs. apply acts_modify. by split; [apply Hf|]. Qed.
Lemma keeps_perform `{E : Env} c : P c -> keeps I P (perform c : M S (ret c)).
Proof. intros Hc s Hs. acts_call; intros; (split; [done|by repeat constructor]). Qed.

Lemma keeps_bind {A B} (m : M S A) (f : A -> M S B) : keeps I P m -> (forall a, keeps I P (f a)) -> keeps I P (m ≫= f).
Proof.
  intros Hm Hf s Hs. apply acts_bind. eapply acts_mono; [|by apply Hm]. intros [a|e|] s' t [Hs' Ht]; [|done|done].
  eapply acts_mono; [|by apply Hf]. intros o s'' t' [? ?]. split; [done|by apply Forall_app].
Qed.
Lemma keeps_try {A} (m : M S A) h : keeps I P m -> (forall e, keeps I P (h e)) -> keeps I P (try_except m h).
Proof.
  intros Hm Hh s Hs. apply acts_try. eapply acts_mono; [|by apply Hm]. intros [a|e|] s' t [Hs' Ht]; [done| |done].
  eapply acts_mono; [|by apply Hh]. intros o s'' t' [? ?]. split; [done|by apply Forall_app].
Qed.
Lemma keeps_finally {A} (m : M S A) fin : keeps I P m -> keeps I P fin -> keeps I P (try_finally m fin).
Proof.
  intros Hm Hf s Hs. apply acts_finally. eapply acts_mono; [|by apply Hm]. intros o s' t [Hs' Ht].
  assert (acts fin s' (fun _ s'' t' => I s'' /\ Forall (fun ev => P (ev_call ev)) (t ++ t'))) as Hfin.
  { eapply acts_mono; [|by apply Hf]. intros o' s'' t' [? ?]. split; [done|by apply Forall_app]. }
  destruct o; [| |done]; (eapply acts_mono; [|exact Hfin]); intros [] s'' t'; done.
Qed.
Lemma keeps_attempt (m : M S unit) : keeps I P m -> keeps I P (attempt m).
Proof. intros Hm. apply keeps_try; [apply keeps_bind; [done|intros; apply keeps_ret]|intros; apply keeps_ret]. Qed.
Lemma keeps_collect {A B} (l : list A) (f : A -> M S (option B)) : (forall x, keeps I P (f x)) -> keeps I P (collect l f).
Proof.
  intros Hf. induction l; cbn [collect]; [apply keeps_ret|]. apply keeps_bind; [done|]. intros r.
  apply keeps_bind; [done|]. intros rest. apply keeps_ret.
Qed.
Lemma keeps_zoom {T A} (view : S -> T) set (J : T -> Prop) (m : M T A) :
  keeps J P m -> (forall s, I s -> J (view s)) -> (forall s t, I s -> J t -> I (set t s)) -> keeps I P (zoom view set m).
Proof.
  intros Hm Hv Hset s Hs. apply acts_zoom. eapply acts_mono; [|apply Hm; by apply Hv]. intros o t suf [Ht Hsuf].
  split; [by apply Hset|done].
Qed.
Lemma keeps_emits {A} (m : M S A) : emits P m -> (forall s, I s) -> keeps I P m.
Proof. intros Hm HI s _. eapply acts_mono; [|apply acts_of_emits, Hm]. by intros. Qed.
Lemma keeps_does {A} (m : M S A) Q : does m Q -> emits P m -> keeps I P m.
Proof.
  intros Hm He s Hs. eapply acts_mono; [|apply acts_emits; [|exact He]].
  2: { eapply (acts_does _ _ _ (fun _ s' _ => s' = s)); [exact Hm|]. done. }
  by intros o s' t [-> Ht].
Qed.

End keeps.

Create HintDb keeps discriminated.

Ltac keeps_step :=
  lazymatch goal with
  | |- keeps _ _ (_ ≫= _) => apply keeps_bind; [|intros ?]
  | |- keeps _ _ (mret _) => apply keeps_ret
  | |- keeps _ _ (raise _) => apply keeps_raise
  | |- keeps _ _ get_state => apply keeps_get
  | |- keeps _ _ (of_res _) => apply keeps_of_res
  | |- keeps _ _ (try_except _ _) => apply keeps_try; [|intros ?]
  | |- keeps _ _ (try_finally _ _) => apply keeps_finally
  | |- keeps _ _ (attempt _) => apply keeps_attempt
  | |- keeps _ _ (collect _ _) => apply keeps_collect; intros ?
  | |- keeps _ ?P (perform ?c) => apply (keeps_perform _ P c); first [exact I | done]
  | |- keeps _ _ (match ?x with _ => _ end) => destruct x
  | |- keeps _ _ _ => solve [eauto with keeps nocore]
  end.
Ltac keeps := repeat keeps_step.

(** ** Runs that end *)

(** [m] never runs out of turns. *)
Definition ends {S A} (m : M S A) : Prop := forall s tr, wp m (fun o _ _ => o <> OutOfFuel) s tr.

Section ends.
Context {S : Type}.

Lemma ends_ret {A} (a : A) : ends (mret a : M S A).
Proof. done. Qed.
Lemma ends_raise {A} e : ends (raise e : M S A).
Proof. done. Qed.
Lemma ends_get : ends (get_state (S := S)).
Proof. done. Qed.
Lemma ends_put s : ends (put_state (S := S) s).
Proof. done. Qed.
Lemma ends_modify f : ends (modify (S := S) f).
Proof. done. Qed.
Lemma ends_of_res {A} (r : res A) : ends (of_res r : M S A).
Proof. by destruct r. Qed.
Lemma ends_perform `{E : Env} c : ends (perform c : M S (ret c)).
Proof. intros s tr. by apply wp_perform. Qed.
Lemma ends_bind {A B} (m : M S A) (f : A -> M S B) : ends m -> (forall a, ends (f a)) -> ends (m ≫= f).
Proof. intros Hm Hf s tr. apply wp_bind. eapply wp_mono; [|apply Hm]. intros [a|e|] s' tr' H; [apply Hf|done|done]. Qed.
Lemma ends_try {A} (m : M S A) h : ends m -> (forall e, ends (h e)) -> ends (try_except m h).
Proof. intros Hm Hh s tr. apply wp_try. eapply wp_mono; [|apply Hm]. intros [a|e|] s' tr' H; [done|apply Hh|done]. Qed.
Lemma ends_finally {A} (m : M S A) fin : ends m -> ends fin -> ends (try_finally m fin).
Proof.
  intros Hm Hf s tr. apply wp_finally. eapply wp_mono; [|apply Hm]. intros [a|e|] s' tr' H; [| |done];
    (eapply wp_mono; [|apply Hf]); by intros [].
Qed.
Lemma ends_attempt (m : M S unit) : ends m -> ends (attempt m).
Proof. intros Hm. apply ends_try; [apply ends_bind; [done|intros; apply ends_ret]|intros; apply ends_ret]. Qed.
Lemma ends_for_each {A} (l : list A) (f : A -> M S unit) : (forall x, ends (f x)) -> ends (for_each l f).
Proof. intros Hf. induction l; cbn [for_each]; [apply ends_ret|by apply ends_bind]. Qed.
Lemma ends_collect {A B} (l : list A) (f : A -> M S (option B)) : (forall x, ends (f x)) -> ends (collect l f).
Proof.
  intros Hf. induction l; cbn [collect]; [apply ends_ret|]. apply ends_bind; [done|]. intros r.
  apply ends_bind; [done|]. intros rest. apply ends_ret.
Qed.
Lemma ends_zoom {T A} (view : S -> T) set (m : M T A) : ends m -> ends (zoom view set m).
Proof. intros Hm s tr. apply wp_zoom. apply Hm. Qed.

Lemma acts_ends {A} (m : M S A) s Q :
  acts m s Q -> ends m -> acts m s (fun o s' suf => Q o s' suf /\ o <> OutOfFuel).
Proof.
  intros Hm He tr. specialize (Hm tr). specialize (He s tr). unfold wp in *. destruct (m s tr) as [[o s'] tr'].
  destruct Hm as (suf & -> & HQ). eauto.
Qed.

End ends.

Create HintDb ends discriminated.

Ltac ends_step :=
  lazymatch goal with
  | |- ends (_ ≫= _) => apply ends_bind; [|intros ?]
  | |- ends (mret _) => apply ends_ret
  | |- ends (raise _) => apply ends_raise
  | |- ends get_state => apply ends_get
  | |- ends (put_state _) => apply ends_put
  | |- ends (modify _) => apply ends_modify
  | |- ends (of_res _) => apply ends_of_res
  | |- ends (perform ?c) => apply (ends_perform c)
  | |- ends (try_except _ _) => apply ends_try; [|intros ?]
  | |- ends (try_finally _ _) => apply ends_finally
  | |- ends (attempt _) => apply ends_attempt
  | |- ends (for_each _ _) => apply ends_for_each; intros ?
  | |- ends (collect _ _) => apply ends_collect; intros ?
  | |- ends (zoom _ _ _) => apply ends_zoom
  | |- ends (match ?x with _ => _ end) => destruct x
  | |- ends _ => solve [eauto with ends nocore]
  end.
Ltac ends := repeat ends_step.
