(* ===== verification/Json.v ===== *)
(** * JSON

    Python's [json.loads] and [json.dumps(sort_keys=True, separators=(",", ":"))]
    on the documents the tools read and write.  A [dict] is the list of its
    items in insertion order.  A code point of a [\u] escape beyond Latin-1 has
    no character in the model and reads as the last one, [255]: the tools only
    compare texts with ASCII ones. *)

From S2P Require Import Prelude PyStr Reports Py Effects.
Local Open Scope Z_scope.

(** ** Dictionaries *)

(** [d[k] = v] *)
Fixpoint dict_set {A} (k : string) (v : A) (d : list (string * A)) : list (string * A) :=
  match d with
  | [] => [(k, v)]
  | (k', v') :: d => if bool_decide (k = k') then (k', v) :: d else (k', v') :: dict_set k v d
  end.

(** [d.get(k)] *)
Fixpoint dict_get {A} (k : string) (d : list (string * A)) : option A :=
  match d with
  | [] => None
  | (k', v) :: d => if bool_decide (k = k') then Some v else dict_get k d
  end.

(** ** Reading *)

Definition is_json_space (c : ascii) : bool :=
  is_char " " c || is_char "009" c || is_char newline c || is_char carriage_return c.

Fixpoint skip_ws (s : string) : string :=
  match s with
  | EmptyString => EmptyString
  | String c s' => if is_json_space c then skip_ws s' else s
  end.

Definition hex4 (a b c d : ascii) : option Z :=
  if is_hex_digit a && is_hex_digit b && is_hex_digit c && is_hex_digit d
  then Some (digits_val 16 0 (String a (String b (String c (chr_str d))))) else None.

(** The character of a code point. *)
Definition code_char (u : Z) : ascii :=
  if u <? 256 then ascii_of_N (Z.to_N u) else "255"%char.

(** The one-letter escapes after a backslash. *)
Definition simple_escape (c : ascii) : option ascii :=
  if is_char dquote c then Some dquote
  else if is_char backslash c then Some backslash
  else if is_char "/" c then Some "/"%char
  else if is_char "b" c then Some "008"%char
  else if is_char "f" c then Some "012"%char
  else if is_char "n" c then Some newline
  else if is_char "r" c then Some carriage_return
  else if is_char "t" c then Some "009"%char
  else None.

Definition cons_char (c : ascii) (r : option (string * string)) : option (string * string) :=
  match r with Some (t, rest) => Some (String c t, rest) | None => None end.

(** The text after an opening quote, up to the closing one. *)
Fixpoint scan_string (s : string) : option (string * string) :=
  match s with
  | EmptyString => None
  | String c s =>
      if is_char dquote c then Some (EmptyString, s)
      else if is_char backslash c then
        match s with
        | EmptyString => None
        | String e s =>
            if is_char "u" e then
              match s with
              | String a (String b (String c (String d s))) =>
                  match hex4 a b c d with
                  | None => None
                  | Some u =>
                      if (0xD800 <=? u) && (u <=? 0xDBFF) then
                        (* a high surrogate takes a low one with it *)
                        match s with
                        | String x (String y (String a (String b (String c (String d s'))))) =>
                            if is_char backslash x && is_char "u" y then
                              match hex4 a b c d with
                              | None => None
                              | Some u2 =>
                                  if (0xDC00 <=? u2) && (u2 <=? 0xDFFF)
                                  then cons_char "255" (scan_string s')
                                  else cons_char "255" (scan_string s)
                              end
                            else cons_char "255" (scan_string s)
                        | _ => cons_char "255" (scan_string s)
                        end
                      else cons_char (code_char u) (scan_string s)
                  end
              | _ => None
              end
            else
              match simple_escape e with
              | Some x => cons_char x (scan_string s)
              | None => None
              end
        end
      else if char_code c <? 32 then None
      else cons_char c (scan_string s)
  end.

Fixpoint span_digits (s : string) : string * string :=
  match s with
  | EmptyString => (EmptyString, EmptyString)
  | String c s' =>
      if is_digit c then let '(ds, rest) := span_digits s' in (String c ds, rest)
      else (EmptyString, s)
  end.

(** The optional fraction and exponent of a number. *)
Definition scan_fraction (s : string) : option string * string :=
  match s with
  | String "." s' =>
      let '(ds, rest) := span_digits s' in
      if str_empty ds then (None, s) else (Some ds, rest)
  | _ => (None, s)
  end.
Definition scan_exponent (s : string) : option Z * string :=
  match s with
  | String e s' =>
      if is_char "e" e || is_char "E" e then
        let '(negative, s'') :=
          match s' with
          | String "-" t => (true, t)
          | String "+" t => (false, t)
          | _ => (false, s')
          end in
        let '(ds, rest) := span_digits s'' in
        if str_empty ds then (None, s)
        else (Some (if negative : bool then - digits_val 10 0 ds else digits_val 10 0 ds), rest)
      else (None, s)
  | _ => (None, s)
  end.

(** [m * 10^e] *)
Definition decimal (m e : Z) : Q :=
  if 0 <=? e then inject_Z (m * 10 ^ e) else m # Z.to_pos (10 ^ (- e)).

(** The integer part: one zero, or digits with no leading zero. *)
Definition scan_integer (s : string) : string * string :=
  match s with String "0" t => ("0", t) | _ => span_digits s end.

Definition scan_magnitude (negative : bool) (s : string) : option (json * string) :=
  let signed (z : Z) := if negative then - z else z in
  let '(ds, rest) := scan_integer s in
  if str_empty ds then None
  else
    let '(fraction, rest) := scan_fraction rest in
    let '(exponent, rest) := scan_exponent rest in
    match fraction, exponent with
    | None, None => Some (JInt (signed (digits_val 10 0 ds)), rest)
    | _, _ =>
        let fs := default EmptyString fraction in
        Some (JReal (decimal (signed (digits_val 10 0 (ds +:+ fs)))
                       (default 0 exponent - Z.of_nat (String.length fs))), rest)
    end.

Definition scan_number (s : string) : option (json * string) :=
  match s with
  | String "-" t => scan_magnitude true t
  | _ => scan_magnitude false s
  end.

Definition scan_literal (s : string) : option (json * string) :=
  let try (text : string) (j : json) (other : option (json * string)) :=
    match strip_prefix text s with Some rest => Some (j, rest) | None => other end in
  try "null" JNull (try "true" (JBool true) (try "false" (JBool false)
    (try "NaN" (JConst "NaN") (try "Infinity" (JConst "Infinity")
      (try "-Infinity" (JConst "-Infinity") (scan_number s)))))).

(** [scan_once] and its two loops; an array or object takes its bracket before
    it enters its loop, and every turn of a loop takes a separator, so twice
    the length of the text is enough fuel. *)
Fixpoint scan (fuel : nat) (s : string) : option (json * string) :=
  match fuel with
  | O => None
  | S fuel =>
      match s with
      | EmptyString => None
      | String c t =>
          if is_char dquote c then
            match scan_string t with Some (x, rest) => Some (JStr x, rest) | None => None end
          else if is_char "{" c then
            match skip_ws t with
            | String "}" rest => Some (JObj [], rest)
            | t => scan_members fuel [] t
            end
          else if is_char "[" c then
            match skip_ws t with
            | String "]" rest => Some (JArr [], rest)
            | t => scan_elements fuel [] t
            end
          else scan_literal s
      end
  end
with scan_members (fuel : nat) (d : list (string * json)) (s : string) : option (json * string) :=
  match fuel with
  | O => None
  | S fuel =>
      match s with
      | String q t =>
          if negb (is_char dquote q) then None
          else
            match scan_string t with
            | None => None
            | Some (k, t) =>
                match skip_ws t with
                | String ":" t =>
                    match scan fuel (skip_ws t) with
                    | None => None
                    | Some (v, t) =>
                        match skip_ws t with
                        | String "}" rest => Some (JObj (dict_set k v d), rest)
                        | String "," t => scan_members fuel (dict_set k v d) (skip_ws t)
                        | _ => None
                        end
                    end
                | _ => None
                end
            end
      | EmptyString => None
      end
  end
with scan_elements (fuel : nat) (l : list json) (s : string) : option (json * string) :=
  match fuel with
  | O => None
  | S fuel =>
      match scan fuel s with
      | None => None
      | Some (v, t) =>
          match skip_ws t with
          | String "]" rest => Some (JArr (l ++ [v]), rest)
          | String "," t => scan_elements fuel (l ++ [v]) (skip_ws t)
          | _ => None
          end
      end
  end.

(** [json.loads]; [None] is the [JSONDecodeError]. *)
Definition loads (s : string) : option json :=
  match scan (2 * S (String.length s)) (skip_ws s) with
  | Some (j, rest) => if str_empty (skip_ws rest) then Some j else None
  | None => None
  end.

(** ** Writing *)

Definition escape_char (c : ascii) : string :=
  if is_char dquote c then String backslash (chr_str dquote)
  else if is_char backslash c then String backslash (chr_str backslash)
  else if is_char "008" c then String backslash "b"
  else if is_char "012" c then String backslash "f"
  else if is_char newline c then String backslash "n"
  else if is_char carriage_return c then String backslash "r"
  else if is_char "009" c then String backslash "t"
  else if (32 <=? char_code c) && (char_code c <=? 126) then chr_str c
  else String backslash (String "u" (String "0" (String "0"
         (String (digit_char (char_code c / 16)) (chr_str (digit_char (char_code c mod 16))))))).

Fixpoint escape (s : string) : string :=
  match s with
  | EmptyString => EmptyString
  | String c s => escape_char c +:+ escape s
  end.
Definition dump_string (s : string) : string :=
  String dquote (escape s +:+ chr_str dquote).

(** [repr] of a non-negative float with an exact decimal expansion of at most
    sixteen digits after the point. *)
Fixpoint fraction_digits (fuel : nat) (rest : Z) (den : Z) : string :=
  match fuel with
  | O => EmptyString
  | S fuel =>
      if rest =? 0 then EmptyString
      else String (digit_char (rest * 10 / den)) (fraction_digits fuel (rest * 10 mod den) den)
  end.
Definition real_repr (q : Q) : string :=
  let den := Z.pos (Qden q) in
  let fs := fraction_digits 16 (Qnum q mod den) den in
  str_of_Z (Qnum q / den) +:+ "." +:+ (if str_empty fs then "0" else fs).

(** The members in the order of the list. *)
Fixpoint dump (j : json) : string :=
  match j with
  | JNull => "null"
  | JBool true => "true"
  | JBool false => "false"
  | JInt z => str_of_Z z
  | JReal q => real_repr q
  | JConst name => name
  | JStr s => dump_string s
  | JArr l => "[" +:+ str_join "," (map dump l) +:+ "]"
  | JObj d =>
      "{" +:+ str_join "," (map (fun kv => dump_string kv.1 +:+ ":" +:+ dump kv.2) d) +:+ "}"
  end.

(** [sort_keys]: every dictionary in the order of its keys. *)
Fixpoint canon (j : json) : json :=
  match j with
  | JArr l => JArr (map canon l)
  | JObj d => JObj (sort_on fst (map (fun kv => (kv.1, canon kv.2)) d))
  | j => j
  end.
Definition dumps (j : json) : string := dump (canon j).


(** ** Lemmas *)

Lemma dict_set_new {A} k (v : A) d : k ∉ d.*1 -> dict_set k v d = d ++ [(k, v)].
Proof.
  induction d as [|[k' v'] d IH]; cbn; [done|]. intros Hk.
  rewrite bool_decide_false by set_solver. by rewrite IH by set_solver.
Qed.

Lemma dict_get_set {A} k k' (v : A) d :
  dict_get k (dict_set k' v d) = if bool_decide (k = k') then Some v else dict_get k d.
Proof.
  induction d as [|[k2 v2] d IH]; cbn; [done|].
  destruct (decide (k' = k2)) as [->|Hne].
  - rewrite (bool_decide_true (k2 = k2)) by done. cbn. by repeat case_bool_decide.
  - rewrite (bool_decide_false (k' = k2)) by done. cbn. rewrite IH.
    repeat case_bool_decide; congruence.
Qed.

(** Induction over the values inside arrays and objects. *)
Section json_ind.
Variable P : json -> Prop.
Hypothesis Hnull : P JNull.
Hypothesis Hbool : forall b, P (JBool b).
Hypothesis Hint : forall z, P (JInt z).
Hypothesis Hreal : forall q, P (JReal q).
Hypothesis Hconst : forall s, P (JConst s).
Hypothesis Hstr : forall s, P (JStr s).
Hypothesis Harr : forall l, Forall P l -> P (JArr l).
Hypothesis Hobj : forall d, Forall (fun kv => P kv.2) d -> P (JObj d).

Fixpoint json_nested_ind (j : json) : P j :=
  match j with
  | JNull => Hnull
  | JBool b => Hbool b
  | JInt z => Hint z
  | JReal q => Hreal q
  | JConst s => Hconst s
  | JStr s => Hstr s
  | JArr l => Harr l ((fix go l := match l return Forall P l with
                       | [] => Forall_nil_2 _
                       | j :: l => Forall_cons_2 _ _ _ (json_nested_ind j) (go l)
                       end) l)
  | JObj d => Hobj d ((fix go d := match d return Forall (fun kv => P kv.2) d with
                       | [] => Forall_nil_2 _
                       | kv :: d => Forall_cons_2 _ _ _ (json_nested_ind kv.2) (go d)
                       end) d)
  end.
End json_ind.

(** Documents with no float and no repeated key. *)
Fixpoint json_plain (j : json) : bool :=
  match j with
  | JReal _ | JConst _ => false
  | JArr l => forallb json_plain l
  | JObj d => bool_decide (NoDup d.*1) && forallb (fun kv => json_plain kv.2) d
  | _ => true
  end.

Lemma scan_string_escape_char c t :
  scan_string (escape_char c +:+ t) = cons_char c (scan_string t).
Proof. destruct c as [[] [] [] [] [] [] [] []]; reflexivity. Qed.

Lemma scan_string_escape s rest :
  scan_string (escape s +:+ String dquote rest) = Some (s, rest).
Proof.
  induction s as [|c s IH]; cbn [escape]; [done|].
  by rewrite str_app_assoc, scan_string_escape_char, IH.
Qed.

(** What may follow a number. *)
Definition ends_number (rest : string) : bool :=
  match rest with
  | EmptyString => true
  | String c _ => negb (is_digit c || is_char "." c || is_char "e" c || is_char "E" c)
  end.

Lemma span_digits_app ds rest :
  str_forallb is_digit ds = true -> ends_number rest = true ->
  span_digits (ds +:+ rest) = (ds, rest).
Proof.
  intros Hds Hrest. induction ds as [|c ds IH].
  - destruct rest as [|c rest]; [done|]. unfold ends_number in Hrest. bool_to_prop.
    rewrite str_app_nil_l. cbn [span_digits]. by rewrite H.
  - cbn [str_forallb] in Hds. bool_to_prop. rewrite str_app_cons. cbn [span_digits]. by rewrite H, IH.
Qed.

Lemma scan_suffix rest :
  ends_number rest = true -> scan_fraction rest = (None, rest) /\ scan_exponent rest = (None, rest).
Proof.
  destruct rest as [|c rest]; [done|]. unfold ends_number. intros H. bool_to_prop.
  split; [|unfold scan_exponent; by rewrite H1, H0]. unfold is_char in H2. bool_to_prop.
  by destruct c as [[] [] [] [] [] [] [] []].
Qed.

Lemma str_of_Z_split z :
  exists ds, str_forallb is_digit ds = true /\ digits_val 10 0 ds = Z.abs z /\
    str_of_Z z = (if z <? 0 then String "-" ds else ds) /\
    (ds = "0" \/ exists c t, ds = String c t /\ c <> "0"%char).
Proof.
  exists (digits 10 (Z.abs z)). split; [by apply digits10_digits; lia|].
  split; [by apply digits_val_digits; lia|]. split.
  - unfold str_of_Z. destruct (z <? 0) eqn:Hz; bool_to_prop; repeat f_equal; lia.
  - destruct (decide (z = 0)) as [->|Hz]; [by left|]. right.
    destruct (digits_head 10 (Z.abs z)) as (c & t & -> & Hc & _); [lia|lia|].
    exists c, t. unfold is_char in Hc. by bool_to_prop.
Qed.

Lemma scan_integer_app ds rest :
  str_forallb is_digit ds = true -> ends_number rest = true ->
  ds = "0" \/ (exists c t, ds = String c t /\ c <> "0"%char) ->
  scan_integer (ds +:+ rest) = (ds, rest).
Proof.
  intros Hds Hrest [->|(c & t & -> & Hc)]; [done|].
  rewrite <- (span_digits_app (String c t) rest) by done. rewrite str_app_cons.
  by destruct c as [[] [] [] [] [] [] [] []].
Qed.

Lemma scan_number_minus s t : str_forallb is_digit s = true -> str_empty s = false ->
  scan_number (s +:+ t) = scan_magnitude false (s +:+ t).
Proof.
  destruct s as [|c s]; [done|]. rewrite str_app_cons. cbn [str_forallb]. intros H _. bool_to_prop.
  by destruct c as [[] [] [] [] [] [] [] []].
Qed.

Lemma scan_number_int z rest :
  ends_number rest = true -> scan_number (str_of_Z z +:+ rest) = Some (JInt z, rest).
Proof.
  intros Hrest. destruct (str_of_Z_split z) as (ds & Hds & Hval & -> & Hhead).
  assert (str_empty ds = false) as Hne by (destruct Hhead as [->|(c & t & -> & _)]; done).
  assert (forall neg, scan_magnitude neg (ds +:+ rest)
    = Some (JInt (if neg then - Z.abs z else Z.abs z), rest)) as Hbody.
  { intros neg. destruct (scan_suffix rest Hrest) as [Hf He]. unfold scan_magnitude.
    by rewrite scan_integer_app, Hne, Hf, He, Hval. }
  destruct (z <? 0) eqn:Hz; bool_to_prop.
  - rewrite str_app_cons. cbn [scan_number]. rewrite Hbody. repeat f_equal. lia.
  - rewrite scan_number_minus, Hbody by done. repeat f_equal. lia.
Qed.

(** No literal starts with a digit, or with a sign and a digit. *)
Lemma scan_literal_int z rest :
  ends_number rest = true -> scan_literal (str_of_Z z +:+ rest) = Some (JInt z, rest).
Proof.
  intros Hrest. rewrite <- scan_number_int by done.
  destruct (str_of_Z_split z) as (ds & Hds & _ & -> & Hhead).
  assert (exists c t, ds = String c t /\ is_digit c = true) as (c & t & -> & Hc).
  { destruct Hhead as [->|(c & t & -> & _)]; eexists _, _; (split; [done|]); [done|].
    cbn [str_forallb] in Hds. by bool_to_prop. }
  clear Hhead Hds Hrest.
  destruct (z <? 0); rewrite ?str_app_cons; destruct c as [[] [] [] [] [] [] [] []]; done.
Qed.

(** The first character of a value. *)
Definition value_head (c : ascii) : bool :=
  negb (is_json_space c || is_char "]" c || is_char "}" c || is_char "," c).

Lemma dump_head j : json_plain j = true -> exists c t, dump j = String c t /\ value_head c = true.
Proof.
  destruct j as [|[]|z| | |s|l|d]; intros Hj; try done; try (eexists _, _; by split).
  destruct (str_of_Z_split z) as (ds & Hds & _ & Heq & Hhead). cbn [dump]. rewrite Heq.
  assert (exists c t, ds = String c t /\ is_digit c = true) as (c & t & -> & Hc).
  { destruct Hhead as [->|(c & t & -> & _)]; eexists _, _; (split; [done|]); [done|].
    cbn [str_forallb] in Hds. by bool_to_prop. }
  destruct (z <? 0); eexists _, _; (split; [done|]); [done|].
  by destruct c as [[] [] [] [] [] [] [] []].
Qed.

Lemma skip_ws_head c t : value_head c = true -> skip_ws (String c t) = String c t.
Proof. unfold value_head. intros H. bool_to_prop. cbn. by rewrite H. Qed.

(** The values read back from their text, whatever follows. *)
Definition scans (j : json) : Prop := forall fuel rest,
  (2 * String.length (dump j +:+ rest) < fuel)%nat -> ends_number rest = true ->
  scan fuel (dump j +:+ rest) = Some (j, rest).

Lemma str_join_cons2 sep x y l : str_join sep (x :: y :: l) = x +:+ sep +:+ str_join sep (y :: l).
Proof. done. Qed.

Lemma skip_ws_dump j t : json_plain j = true -> skip_ws (dump j +:+ t) = dump j +:+ t.
Proof. intros Hj. destruct (dump_head j Hj) as (c & u & -> & Hc). by apply skip_ws_head. Qed.

Lemma skip_ws_join {A} (f : A -> string) x l t :
  (forall u, skip_ws (f x +:+ u) = f x +:+ u) ->
  skip_ws (str_join "," (map f (x :: l)) +:+ t) = str_join "," (map f (x :: l)) +:+ t.
Proof. intros Hx. destruct l as [|y l]; cbn [map str_join]; rewrite ?str_app_assoc; apply Hx. Qed.

(** One turn of each loop. *)
Lemma scan_elements_step x acc fuel sep t :
  scans x -> (2 * String.length (dump x +:+ String sep t) < fuel)%nat ->
  ends_number (String sep t) = true -> value_head sep = false -> is_json_space sep = false ->
  scan_elements (S fuel) acc (dump x +:+ String sep t)
    = if is_char "]" sep then Some (JArr (acc ++ [x]), t)
      else if is_char "," sep then scan_elements fuel (acc ++ [x]) (skip_ws t) else None.
Proof.
  intros Hx Hfuel He Hh Hw. cbn [scan_elements]. rewrite Hx by done.
  cbn [skip_ws]. rewrite Hw. by destruct sep as [[] [] [] [] [] [] [] []].
Qed.

Lemma scan_elements_dump x l acc fuel rest :
  Forall scans (x :: l) -> Forall (fun j => json_plain j = true) (x :: l) ->
  (2 * String.length (str_join "," (map dump (x :: l)) +:+ String "]" rest) + 1 < fuel)%nat ->
  scan_elements fuel acc (str_join "," (map dump (x :: l)) +:+ String "]" rest)
    = Some (JArr (acc ++ x :: l), rest).
Proof.
  revert x acc fuel. induction l as [|y l IH]; intros x acc fuel Hs Hp Hfuel;
    (destruct fuel as [|fuel]; [lia|]);
    apply Forall_cons in Hs as [Hx Hs]; apply Forall_cons in Hp as [Hpx Hp].
  - cbn [map str_join] in *. by rewrite scan_elements_step by (done || lia).
  - cbn [map] in *. rewrite str_join_cons2, !str_app_assoc, str_app_cons, str_app_nil_l in *.
    rewrite scan_elements_step by (done || lia).
    rewrite (is_char_ne "]" ",") by done. rewrite is_char_refl.
    apply Forall_cons in Hp as Hpy. destruct Hpy as [Hpy _].
    rewrite (skip_ws_join dump y l) by (intros; by apply skip_ws_dump).
    rewrite (IH y (acc ++ [x])); [by rewrite <- app_assoc|done|done|].
    cbn [map]. str_lengths. lia.
Qed.

Definition dump_member (kv : string * json) : string := dump_string kv.1 +:+ ":" +:+ dump kv.2.

Lemma scan_members_step k x acc fuel sep t :
  scans x -> json_plain x = true -> (2 * String.length (dump_member (k, x) +:+ String sep t) < fuel)%nat ->
  ends_number (String sep t) = true -> value_head sep = false -> is_json_space sep = false ->
  scan_members (S fuel) acc (dump_member (k, x) +:+ String sep t)
    = if is_char "}" sep then Some (JObj (dict_set k x acc), t)
      else if is_char "," sep then scan_members fuel (dict_set k x acc) (skip_ws t) else None.
Proof.
  intros Hx Hp Hfuel He Hh Hw. unfold dump_member, dump_string in *. cbn [fst snd] in *.
  change (chr_str dquote) with (String dquote EmptyString) in *.
  autorewrite with str in *. cbn [scan_members].
  rewrite is_char_refl. cbn [negb]. rewrite scan_string_escape.
  change (skip_ws (String ":" ?u)) with (String ":" u). cbv iota.
  rewrite skip_ws_dump by done. rewrite Hx.
  - cbn [skip_ws]. rewrite Hw. by destruct sep as [[] [] [] [] [] [] [] []].
  - str_lengths. lia.
  - done.
Qed.

Lemma scan_members_dump k x d acc fuel rest :
  Forall (fun kv => scans kv.2) ((k, x) :: d) -> Forall (fun kv => json_plain kv.2 = true) ((k, x) :: d) ->
  NoDup ((acc ++ (k, x) :: d).*1) ->
  (2 * String.length (str_join "," (map dump_member ((k, x) :: d)) +:+ String "}" rest) + 1 < fuel)%nat ->
  scan_members fuel acc (str_join "," (map dump_member ((k, x) :: d)) +:+ String "}" rest)
    = Some (JObj (acc ++ (k, x) :: d), rest).
Proof.
  revert k x acc fuel. induction d as [|[k' y] d IH]; intros k x acc fuel Hs Hp Hnd Hfuel;
    (destruct fuel as [|fuel]; [lia|]);
    apply Forall_cons in Hs as [Hx Hs]; apply Forall_cons in Hp as [Hpx Hp];
    assert (k ∉ acc.*1) as Hk by (rewrite fmap_app in Hnd; apply NoDup_app in Hnd as (_ & Hnd & _);
      intros Hin; apply (Hnd k Hin); apply list_elem_of_here).
  - cbn [map str_join] in *. by rewrite scan_members_step, dict_set_new by (done || lia).
  - cbn [map] in *. rewrite str_join_cons2, !str_app_assoc, str_app_cons, str_app_nil_l in *.
    rewrite scan_members_step, dict_set_new by (done || lia).
    rewrite (is_char_ne "}" ",") by done. rewrite is_char_refl.
    rewrite (skip_ws_join dump_member (k', y) d) by done.
    rewrite (IH k' y (acc ++ [(k, x)])); [by rewrite <- app_assoc|done|done|by rewrite <- app_assoc|].
    cbn [map]. str_lengths. lia.
Qed.

(** A number is not read as a string, array or object. *)
Lemma scan_int fuel z rest : scan (S fuel) (str_of_Z z +:+ rest) = scan_literal (str_of_Z z +:+ rest).
Proof.
  destruct (str_of_Z_split z) as (ds & Hds & _ & -> & Hhead).
  destruct (z <? 0); [done|]. destruct Hhead as [->|(c & t & -> & _)]; [done|].
  cbn [str_forallb] in Hds. bool_to_prop. rewrite str_app_cons. cbn [scan].
  by destruct c as [[] [] [] [] [] [] [] []].
Qed.

Lemma join_head {A} (f : A -> string) x l c u t :
  f x = String c u -> exists u', str_join "," (map f (x :: l)) +:+ t = String c u'.
Proof. intros Hx. destruct l as [|y l]; cbn [map str_join]; rewrite Hx, ?str_app_cons; eauto. Qed.

Lemma scan_array fuel c t :
  value_head c = true -> scan (S fuel) (String "[" (String c t)) = scan_elements fuel [] (String c t).
Proof. by destruct c as [[] [] [] [] [] [] [] []]. Qed.

Lemma json_scans j : json_plain j = true -> scans j.
Proof.
  induction j as [|[]|z| | |s|l IH|d IH] using json_nested_ind; intros Hj fuel rest Hfuel Hrest;
    (destruct fuel as [|fuel]; [lia|]); try done; cbn [dump json_plain] in *.
  - by rewrite scan_int, scan_literal_int.
  - unfold dump_string. change (chr_str dquote) with (String dquote EmptyString).
    autorewrite with str. cbn [scan]. by rewrite is_char_refl, scan_string_escape.
  - autorewrite with str in *. cbn [String.length] in Hfuel.
    assert (Forall (fun j => json_plain j = true) l) as Hl by (apply Forall_forall; intros x Hx;
      rewrite forallb_forall in Hj; apply Hj; by apply list_elem_of_In).
    assert (Forall scans l) as Hs by (apply Forall_forall; intros x Hx; rewrite Forall_forall in IH, Hl; auto).
    destruct l as [|x l]; [done|].
    pose proof Hl as Hx. apply Forall_cons in Hx as [Hx _].
    destruct (dump_head x Hx) as (c & u & Hd & Hc). apply (join_head dump x l c u (String "]" rest)) in Hd as [u' Hd].
    pose proof (scan_elements_dump x l [] fuel rest Hs Hl ltac:(lia)) as Hloop.
    rewrite Hd in *. by rewrite scan_array.
  - change (fun kv : string * json => dump_string kv.1 +:+ ":" +:+ dump kv.2) with dump_member in *.
    bool_to_prop. autorewrite with str in *. cbn [String.length] in Hfuel.
    assert (Forall (fun kv => json_plain kv.2 = true) d) as Hl by (apply Forall_forall; intros x Hx;
      rewrite forallb_forall in H0; apply H0; by apply list_elem_of_In).
    assert (Forall (fun kv => scans kv.2) d) as Hs
      by (apply Forall_forall; intros x Hx; rewrite Forall_forall in IH, Hl; auto).
    destruct d as [|[k x] d]; [done|].
    destruct (join_head dump_member (k, x) d dquote (escape k +:+ chr_str dquote +:+ ":" +:+ dump x)
                (String "}" rest)) as [u' Hd]; [by unfold dump_member, dump_string; autorewrite with str|].
    pose proof (scan_members_dump k x d [] fuel rest Hs Hl H ltac:(lia)) as Hloop.
    rewrite Hd in *. exact Hloop.
Qed.

Lemma canon_plain j : json_plain j = true -> json_plain (canon j) = true.
Proof.
  induction j as [|b|z| | |s|l IH|d IH] using json_nested_ind; intros Hj; try done; cbn [canon json_plain] in *.
  - rewrite forallb_forall in *. rewrite Forall_forall in IH. intros x Hx.
    apply in_map_iff in Hx as (y & <- & Hy). apply IH; [by apply list_elem_of_In|auto].
  - bool_to_prop. apply andb_true_iff. split.
    + apply bool_decide_eq_true. rewrite sort_on_perm. clear -H. induction d as [|kv d IH]; [done|].
      cbn in *. apply NoDup_cons in H as [Hk H]. apply NoDup_cons. split; [|auto].
      intros Hin. apply Hk. clear -Hin. induction d as [|kv' d IH]; [done|].
      cbn in *. set_solver.
    + rewrite forallb_forall in *. intros kv Hkv. rewrite Forall_forall in IH.
      apply list_elem_of_In in Hkv. rewrite sort_on_perm in Hkv.
      apply list_elem_of_In, in_map_iff in Hkv as (y & <- & Hy). cbn.
      apply IH; [by apply list_elem_of_In|auto].
Qed.

(** Reading back what was written gives the document, its keys sorted. *)
Lemma loads_dumps j : json_plain j = true -> loads (dumps j) = Some (canon j).
Proof.
  intros Hj%canon_plain. unfold loads, dumps.
  rewrite <- (str_app_nil_r (dump (canon j))). rewrite skip_ws_dump by done.
  rewrite (json_scans (canon j)); [done|done|str_lengths; lia|done].
Qed.

Lemma canon_get k d :
  NoDup d.*1 -> dict_get k (sort_on fst d) = dict_get k (d : list (string * json)).
Proof.
  assert (forall d1 d2 : list (string * json), d1 ≡ₚ d2 -> NoDup d1.*1 -> dict_get k d1 = dict_get k d2) as Hperm.
  { intros d1 d2 Hp. induction Hp as [|[k1 v1] d1 d2 Hp IH|[k1 v1] [k2 v2] d0|d1 d2 d3 Hp1 IH1 Hp2 IH2];
      intros Hnd; cbn.
    - done.
    - cbn in Hnd. apply NoDup_cons in Hnd as [_ Hnd]. by rewrite IH.
    - cbn in Hnd. repeat case_bool_decide; try done. apply NoDup_cons in Hnd as [Hk _]. destruct Hk. simplify_eq. apply list_elem_of_here.
    - rewrite IH1 by done. apply IH2. by rewrite <- Hp1. }
  intros Hnd. apply Hperm; [apply sort_on_perm|by rewrite sort_on_perm].
Qed.
