(* ===== verification/Documents.v ===== *)
(** * Report documents

    The [as_dict] and [to_json] methods of the reports of
    [tools/tcpcc_host.py]: [CheckResult], [PreflightReport] and the two firewall
    ownership reports.  A consumer that reads such a document back gets the
    report it was written from. *)

From S2P Require Import Prelude PyStr Reports Py Effects Json.
Local Open Scope Z_scope.

(** ** Preflight *)

(** [CheckResult.as_dict] *)
Definition check_dict (c : CheckResult) : json :=
  JObj [("id", JStr (check_id c)); ("status", JStr (cr_status c));
        ("severity", JStr (severity c)); ("observed", JStr (observed c));
        ("expected", JStr (expected c)); ("remediation", JStr (cr_remediation c))].

(** [PreflightReport.as_dict] and [to_json] *)
Definition preflight_dict (r : PreflightReport) : json :=
  JObj [("schema", JStr "tcpcc.host-preflight.v1"); ("ok", JBool (report_ok r));
        ("requested_cc", JStr (requested_cc r)); ("checks", JArr (map check_dict (checks r)))].
Definition preflight_to_json (r : PreflightReport) : string := dumps (preflight_dict r).

(** ** Ownership *)

(** [NftOwnershipObservation.as_dict] *)
Definition nft_observation_dict (o : NftOwnershipObservation) : json :=
  JObj [("table", JStr (table_name o)); ("status", JStr (no_status o));
        ("owner_pid", from_option JInt JNull (no_owner_pid o));
        ("owner_start_time", from_option JInt JNull (no_owner_start_time o));
        ("tun", from_option JStr JNull (no_tun_name o));
        ("detail", JStr (no_detail o)); ("remediation", JStr (no_remediation o))].

(** [IptablesOwnershipObservation.as_dict] *)
Definition iptables_observation_dict (o : IptablesOwnershipObservation) : json :=
  JObj [("chain", JStr (chain_name o)); ("status", JStr (io_status o));
        ("owner_pid", from_option JInt JNull (io_owner_pid o));
        ("owner_start_time", from_option JInt JNull (io_owner_start_time o));
        ("tun", from_option JStr JNull (io_tun_name o));
        ("detail", JStr (io_detail o)); ("remediation", JStr (io_remediation o))].

(** [NftOwnershipReport.as_dict], [IptablesOwnershipReport.as_dict] and their
    [to_json] *)
Definition ownership_dict (r : OwnershipReport) : json :=
  match r with
  | NftOwnershipReport obs =>
      JObj [("schema", JStr "tcpcc.nft-ownership.v1"); ("blocking", JBool (blocking r));
            ("tables", JArr (map nft_observation_dict obs))]
  | IptablesOwnershipReport obs =>
      JObj [("schema", JStr "tcpcc.iptables-ownership.v1"); ("backend", JStr "iptables");
            ("blocking", JBool (blocking r)); ("chains", JArr (map iptables_observation_dict obs))]
  end.
Definition ownership_to_json (r : OwnershipReport) : string := dumps (ownership_dict r).

(** ** A consumer of the documents *)

Definition field (k : string) (j : json) : option json :=
  match j with JObj d => dict_get k d | _ => None end.
Definition get_str (k : string) (j : json) : option string :=
  match field k j with Some (JStr s) => Some s | _ => None end.
Definition get_bool (k : string) (j : json) : option bool :=
  match field k j with Some (JBool b) => Some b | _ => None end.
Definition get_opt_int (k : string) (j : json) : option (option Z) :=
  match field k j with Some (JInt z) => Some (Some z) | Some JNull => Some None | _ => None end.
Definition get_opt_str (k : string) (j : json) : option (option string) :=
  match field k j with Some (JStr s) => Some (Some s) | Some JNull => Some None | _ => None end.
Definition get_list {A} (f : json -> option A) (k : string) (j : json) : option (list A) :=
  match field k j with Some (JArr l) => mapM f l | _ => None end.

Definition read_check (j : json) : option CheckResult :=
  id ← get_str "id" j; status ← get_str "status" j; sev ← get_str "severity" j;
  obs ← get_str "observed" j; exp ← get_str "expected" j; rem ← get_str "remediation" j;
  Some {| check_id := id; cr_status := status; severity := sev; observed := obs; expected := exp;
          cr_remediation := rem |}.

Definition read_preflight (j : json) : option PreflightReport :=
  cc ← get_str "requested_cc" j; cs ← get_list read_check "checks" j;
  Some {| requested_cc := cc; checks := cs |}.

Definition read_nft_observation (j : json) : option NftOwnershipObservation :=
  name ← get_str "table" j; status ← get_str "status" j; pid ← get_opt_int "owner_pid" j;
  start ← get_opt_int "owner_start_time" j; tun ← get_opt_str "tun" j;
  detail ← get_str "detail" j; rem ← get_str "remediation" j;
  Some {| table_name := name; no_status := status; no_owner_pid := pid; no_owner_start_time := start;
          no_tun_name := tun; no_detail := detail; no_remediation := rem |}.

Definition read_iptables_observation (j : json) : option IptablesOwnershipObservation :=
  name ← get_str "chain" j; status ← get_str "status" j; pid ← get_opt_int "owner_pid" j;
  start ← get_opt_int "owner_start_time" j; tun ← get_opt_str "tun" j;
  detail ← get_str "detail" j; rem ← get_str "remediation" j;
  Some {| chain_name := name; io_status := status; io_owner_pid := pid; io_owner_start_time := start;
          io_tun_name := tun; io_detail := detail; io_remediation := rem |}.

(** The schema says which backend wrote the report. *)
Definition read_ownership (j : json) : option OwnershipReport :=
  schema ← get_str "schema" j;
  if bool_decide (schema = "tcpcc.nft-ownership.v1")
  then NftOwnershipReport <$> get_list read_nft_observation "tables" j
  else if bool_decide (schema = "tcpcc.iptables-ownership.v1")
  then IptablesOwnershipReport <$> get_list read_iptables_observation "chains" j
  else None.

(** ** Round trips *)

Lemma mapM_canon {A} (write : A -> json) (read : json -> option A) l :
  (forall x, read (canon (write x)) = Some x) -> mapM read (map canon (map write l)) = Some l.
Proof. intros H. induction l as [|x l IH]; cbn [map mapM]; [done|]. rewrite H; cbn. by rewrite IH. Qed.

Lemma plain_map {A} (write : A -> json) l :
  (forall x, json_plain (write x) = true) -> forallb json_plain (map write l) = true.
Proof. intros H. induction l as [|x l IH]; cbn; [done|]. by rewrite H. Qed.

Lemma check_roundtrip c : read_check (canon (check_dict c)) = Some c.
Proof. by destruct c. Qed.

Lemma nft_observation_roundtrip o : read_nft_observation (canon (nft_observation_dict o)) = Some o.
Proof. by destruct o as [? ? [] [] [] ? ?]. Qed.

Lemma iptables_observation_roundtrip o : read_iptables_observation (canon (iptables_observation_dict o)) = Some o.
Proof. by destruct o as [? ? [] [] [] ? ?]. Qed.

Lemma check_plain c : json_plain (check_dict c) = true.
Proof. done. Qed.

Lemma nft_observation_plain o : json_plain (nft_observation_dict o) = true.
Proof. by destruct o as [? ? [] [] [] ? ?]. Qed.

Lemma iptables_observation_plain o : json_plain (iptables_observation_dict o) = true.
Proof. by destruct o as [? ? [] [] [] ? ?]. Qed.

(** Reports survive their JSON text: reading a preflight or ownership
    document back gives exactly the report it was written from, whatever text
    its fields hold, together with the verdict ([ok] or [blocking]) the
    lifecycle acts on. *)
Theorem report_json_roundtrip (p : PreflightReport) (r : OwnershipReport) :
  (exists j, loads (preflight_to_json p) = Some j /\ read_preflight j = Some p /\
     get_bool "ok" j = Some (report_ok p) /\ get_str "schema" j = Some "tcpcc.host-preflight.v1") /\
  (exists j, loads (ownership_to_json r) = Some j /\ read_ownership j = Some r /\
     get_bool "blocking" j = Some (blocking r)).
Proof.
  split.
  - exists (canon (preflight_dict p)). split_and!; [|destruct p as [cc cs]|done|done].
    + apply loads_dumps. cbn [preflight_dict json_plain forallb snd]. rewrite plain_map; [done|apply check_plain].
    + unfold read_preflight.
      change (get_list read_check "checks" _) with (mapM read_check (map canon (map check_dict cs))).
      by rewrite (mapM_canon _ _ _ check_roundtrip).
  - exists (canon (ownership_dict r)). split_and!; [apply loads_dumps| |by destruct r]; destruct r as [obs|obs].
    + cbn [ownership_dict json_plain forallb snd]. rewrite plain_map; [done|apply nft_observation_plain].
    + cbn [ownership_dict json_plain forallb snd]. rewrite plain_map; [done|apply iptables_observation_plain].
    + change (NftOwnershipReport <$> mapM read_nft_observation (map canon (map nft_observation_dict obs))
        = Some (NftOwnershipReport obs)).
      by rewrite (mapM_canon _ _ _ nft_observation_roundtrip).
    + change (IptablesOwnershipReport <$> mapM read_iptables_observation (map canon (map iptables_observation_dict obs))
        = Some (IptablesOwnershipReport obs)).
      by rewrite (mapM_canon _ _ _ iptables_observation_roundtrip).
Qed.
