(* ===== verification/Struct.v ===== *)
(** * Fixed binary records

    Python's [struct] for the little-endian standard-size formats the control
    ABI and the ELF reader use: [B], [H], [I], [Q] unsigned, [i] signed, [Ns]
    byte strings and [Nx] padding.  A format is a list of fields and its values
    a tuple of the matching type, so that unpacking destructures it as the
    Python code does. *)

From S2P Require Import Prelude PyStr Reports Py.
Local Open Scope Z_scope.

(** ** Bytes and integers *)

#[export] Instance byte_eq_dec : EqDecision Byte.byte := Byte.byte_eq_dec.

Definition b2z (b : Byte.byte) : Z := Z.of_N (Byte.to_N b).
Definition z2b (z : Z) : Byte.byte := default Byte.x00 (Byte.of_N (Z.to_N (z mod 256))).

(** Little-endian digits of [z] and back; big-endian is the reverse. *)
Fixpoint le_bytes (n : nat) (z : Z) : bytes :=
  match n with
  | O => []
  | S n => z2b z :: le_bytes n (z / 256)
  end.
Fixpoint le_val (l : bytes) : Z :=
  match l with
  | [] => 0
  | b :: l => b2z b + 256 * le_val l
  end.
Definition be_bytes (n : nat) (z : Z) : bytes := reverse (le_bytes n z).
Definition be_val (l : bytes) : Z := le_val (reverse l).

(** [data.ljust(n, b"\0")] *)
Definition ljust (n : nat) (b : bytes) : bytes := b ++ replicate (n - length b) Byte.x00.

(** ** Formats *)

Inductive field :=
  | FUint (n : nat)
  | FInt (n : nat)
  | FStr (n : nat)
  | FPad (n : nat).

Definition field_size (f : field) : nat :=
  match f with FUint n | FInt n | FStr n | FPad n => n end.

Definition calcsize (fs : list field) : nat := sum_list_with field_size fs.

Fixpoint values (fs : list field) : Type :=
  match fs with
  | [] => unit
  | (FUint _ | FInt _) :: fs => Z * values fs
  | FStr _ :: fs => bytes * values fs
  | FPad _ :: fs => values fs
  end.

Definition struct_error : exn := Sys (SException "error" "argument out of range").

Definition uint_fits (n : nat) (z : Z) : bool := (0 <=? z) && (z <? 2 ^ (8 * Z.of_nat n)).
Definition int_fits (n : nat) (z : Z) : bool :=
  (- 2 ^ (8 * Z.of_nat n - 1) <=? z) && (z <? 2 ^ (8 * Z.of_nat n - 1)).

(** [Struct.pack]: integers out of range raise [struct.error]; a byte string is
    cut or padded with zeros to its field. *)
Fixpoint pack (fs : list field) : values fs -> res bytes :=
  match fs return values fs -> res bytes with
  | [] => fun _ => Ok []
  | FUint n :: fs => fun v =>
      rest ← pack fs v.2;
      if uint_fits n v.1 then Ok (le_bytes n v.1 ++ rest) else Err struct_error
  | FInt n :: fs => fun v =>
      rest ← pack fs v.2;
      if int_fits n v.1 then Ok (le_bytes n v.1 ++ rest) else Err struct_error
  | FStr n :: fs => fun v =>
      rest ← pack fs v.2; Ok (ljust n (take n v.1) ++ rest)
  | FPad n :: fs => fun v =>
      rest ← pack fs v; Ok (replicate n Byte.x00 ++ rest)
  end.

(** Two's complement of an unsigned value of [n] bytes. *)
Definition to_signed (n : nat) (z : Z) : Z :=
  if z <? 2 ^ (8 * Z.of_nat n - 1) then z else z - 2 ^ (8 * Z.of_nat n).

(** [Struct.unpack] of a buffer of exactly [size fs] bytes. *)
Fixpoint unpack (fs : list field) (b : bytes) : values fs :=
  match fs return values fs with
  | [] => tt
  | FUint n :: fs => (le_val (take n b), unpack fs (drop n b))
  | FInt n :: fs => (to_signed n (le_val (take n b)), unpack fs (drop n b))
  | FStr n :: fs => (take n b, unpack fs (drop n b))
  | FPad n :: fs => unpack fs (drop n b)
  end.

(** The values a format can carry unchanged. *)
Fixpoint values_fit (fs : list field) : values fs -> bool :=
  match fs return values fs -> bool with
  | [] => fun _ => true
  | FUint n :: fs => fun v => uint_fits n v.1 && values_fit fs v.2
  | FInt n :: fs => fun v => int_fits n v.1 && values_fit fs v.2
  | FStr n :: fs => fun v => (length v.1 =? n)%nat && values_fit fs v.2
  | FPad n :: fs => fun v => values_fit fs v
  end.

(** ** Lemmas *)

Lemma b2z_range b : 0 <= b2z b < 256.
Proof.
  unfold b2z. pose proof (Byte.to_N_bounded b). lia.
Qed.

Lemma b2z_z2b z : b2z (z2b z) = z mod 256.
Proof.
  unfold b2z, z2b. pose proof (Z.mod_pos_bound z 256 eq_refl) as Hm.
  destruct (Byte.of_N (Z.to_N (z mod 256))) as [b|] eqn:Hb; cbn.
  - apply Byte.to_of_N in Hb. rewrite Hb. lia.
  - apply Byte.of_N_None_iff in Hb. lia.
Qed.

Lemma b2z_inj b c : b2z b = b2z c -> b = c.
Proof.
  unfold b2z. intros H%N2Z.inj%(f_equal Byte.of_N).
  rewrite !Byte.of_to_N in H. by injection H.
Qed.

Lemma z2b_b2z b : z2b (b2z b) = b.
Proof.
  apply b2z_inj. rewrite b2z_z2b. apply Z.mod_small, b2z_range.
Qed.

Lemma length_le_bytes n z : length (le_bytes n z) = n.
Proof. revert z. induction n as [|n IH]; intros z; cbn; by rewrite ?IH. Qed.

Lemma pow8_succ n : 2 ^ (8 * Z.of_nat (S n)) = 256 * 2 ^ (8 * Z.of_nat n).
Proof. replace (8 * Z.of_nat (S n)) with (8 + 8 * Z.of_nat n) by lia. by rewrite Z.pow_add_r by lia. Qed.

Lemma le_val_bytes n z : le_val (le_bytes n z) = z mod 2 ^ (8 * Z.of_nat n).
Proof.
  revert z. induction n as [|n IH]; intros z; cbn [le_bytes le_val].
  - by rewrite Z.mod_1_r.
  - rewrite IH, b2z_z2b, pow8_succ.
    symmetry. apply Z.rem_mul_r; lia.
Qed.

Lemma le_val_range l : 0 <= le_val l < 2 ^ (8 * Z.of_nat (length l)).
Proof.
  induction l as [|b l IH]; [cbn; lia|]. cbn [length le_val]. rewrite pow8_succ.
  pose proof (b2z_range b). lia.
Qed.

Lemma le_bytes_val l : le_bytes (length l) (le_val l) = l.
Proof.
  induction l as [|b l IH]; [done|]. cbn [length le_bytes le_val]. pose proof (b2z_range b).
  f_equal.
  - apply b2z_inj. rewrite b2z_z2b.
    replace (b2z b + 256 * le_val l) with (b2z b + le_val l * 256) by lia.
    rewrite Z.mod_add by lia. apply Z.mod_small; lia.
  - replace ((b2z b + 256 * le_val l) / 256) with (le_val l); [done|].
    apply (Z.div_unique _ _ _ (b2z b)); lia.
Qed.

Lemma be_val_bytes n z : be_val (be_bytes n z) = z mod 2 ^ (8 * Z.of_nat n).
Proof. unfold be_val, be_bytes. by rewrite reverse_involutive, le_val_bytes. Qed.

Lemma length_be_bytes n z : length (be_bytes n z) = n.
Proof. unfold be_bytes. by rewrite length_reverse, length_le_bytes. Qed.

Lemma length_ljust n b : (length b <= n)%nat -> length (ljust n b) = n.
Proof. intros H. unfold ljust. rewrite length_app, length_replicate. lia. Qed.

Lemma take_ljust n m b : length b = m -> (m <= n)%nat -> take m (ljust n b) = b.
Proof. intros <- H. unfold ljust. by rewrite take_app_length. Qed.

Lemma int_fits_signed n z :
  (0 < n)%nat -> int_fits n z = true -> to_signed n (z mod 2 ^ (8 * Z.of_nat n)) = z.
Proof.
  intros Hn H. unfold int_fits in H. bool_to_prop. unfold to_signed.
  set (k := 8 * Z.of_nat n) in *.
  assert (2 ^ k = 2 * 2 ^ (k - 1)) as Hk.
  { rewrite <- Z.pow_succ_r by lia. f_equal. lia. }
  assert (0 < 2 ^ (k - 1)) by (apply Z.pow_pos_nonneg; lia).
  destruct (decide (0 <= z)).
  - rewrite Z.mod_small by lia. destruct (z <? 2 ^ (k - 1)) eqn:E; bool_to_prop; lia.
  - replace (z mod 2 ^ k) with (z + 2 ^ k).
    2: { apply (Z.mod_unique _ _ (-1)); lia. }
    destruct (z + 2 ^ k <? 2 ^ (k - 1)) eqn:E; bool_to_prop; lia.
Qed.

Lemma to_signed_range n z :
  (0 < n)%nat -> 0 <= z < 2 ^ (8 * Z.of_nat n) -> int_fits n (to_signed n z) = true.
Proof.
  intros Hn Hz. unfold to_signed, int_fits. set (k := 8 * Z.of_nat n) in *.
  assert (2 ^ k = 2 * 2 ^ (k - 1)) as Hk.
  { rewrite <- Z.pow_succ_r by lia. f_equal. lia. }
  destruct (z <? 2 ^ (k - 1)) eqn:E; bool_to_prop;
    apply andb_true_iff; rewrite Z.leb_le, Z.ltb_lt; lia.
Qed.

(** Formats whose signed fields have at least one byte. *)
Definition format_wf (fs : list field) : bool :=
  forallb (fun f => match f with FInt n => (0 <? n)%nat | _ => true end) fs.

Lemma pack_length fs v b : pack fs v = Ok b -> length b = calcsize fs.
Proof.
  unfold calcsize. revert v b. induction fs as [|f fs IH]; cbn [pack sum_list_with]; intros v b H.
  - by injection H as <-.
  - destruct f; cbn [field_size]; res_inv; try case_match; res_inv;
      rewrite length_app, ?length_le_bytes, ?length_replicate, ?length_ljust
        by (rewrite length_take; lia); erewrite IH; done.
Qed.

Lemma pack_fit fs v : values_fit fs v = true -> exists b, pack fs v = Ok b.
Proof.
  revert v. induction fs as [|f fs IH]; cbn [pack values_fit]; intros v H; [by eexists|].
  destruct f; bool_to_prop.
  - destruct (IH v.2) as [b ->]; [done|]. cbn. rewrite H. by eexists.
  - destruct (IH v.2) as [b ->]; [done|]. cbn. rewrite H. by eexists.
  - destruct (IH v.2) as [b ->]; [done|]. by eexists.
  - destruct (IH v) as [b ->]; [done|]. by eexists.
Qed.

(** Unpacking what was packed gives the values back. *)
Lemma unpack_pack fs v b :
  format_wf fs = true -> values_fit fs v = true -> pack fs v = Ok b -> unpack fs b = v.
Proof.
  revert v b. induction fs as [|f fs IH]; cbn [pack unpack values_fit format_wf forallb];
    intros v b Hwf Hfit Hp; [by destruct v|].
  apply andb_true_iff in Hwf as [Hf Hwf].
  destruct f; bool_to_prop; res_inv; try (case_match; [|done]); res_inv.
  - rewrite take_app_length', drop_app_length' by (by rewrite length_le_bytes).
    erewrite IH by done. rewrite le_val_bytes, Z.mod_small; [by destruct v|].
    unfold uint_fits in *. bool_to_prop. lia.
  - rewrite take_app_length', drop_app_length' by (by rewrite length_le_bytes).
    erewrite IH by done. rewrite le_val_bytes, int_fits_signed by done. by destruct v.
  - rewrite take_app_length', drop_app_length' by (rewrite length_ljust; rewrite ?length_take; lia).
    erewrite IH by done. unfold ljust. rewrite length_take.
    rewrite take_ge by lia. replace (n - n `min` length v.1)%nat with 0%nat by lia.
    rewrite app_nil_r. by destruct v.
  - rewrite drop_app_length' by (by rewrite length_replicate). by erewrite IH.
Qed.

(** Every unpacked value fits its field again. *)
Lemma unpack_fit fs b :
  format_wf fs = true -> length b = calcsize fs -> values_fit fs (unpack fs b) = true.
Proof.
  unfold calcsize. revert b. induction fs as [|f fs IH]; cbn [sum_list_with unpack values_fit]; intros b Hwf Hl; [done|].
  unfold format_wf in Hwf. cbn [forallb] in Hwf. apply andb_true_iff in Hwf as [Hf Hwf].
  destruct f; cbn [field_size] in Hl; cbn [fst snd]; rewrite ?IH; rewrite ?length_drop; try lia; try done.
  - rewrite andb_true_r. unfold uint_fits. pose proof (le_val_range (take n b)) as Hr.
    rewrite length_take_le in Hr by lia. apply andb_true_iff. rewrite Z.leb_le, Z.ltb_lt. lia.
  - rewrite andb_true_r. apply Nat.ltb_lt in Hf. apply to_signed_range; [done|].
    pose proof (le_val_range (take n b)) as Hr. by rewrite length_take_le in Hr by lia.
  - rewrite andb_true_r. apply Nat.eqb_eq. rewrite length_take. lia.
Qed.

Lemma le_bytes_mod n z : le_bytes n (z mod 2 ^ (8 * Z.of_nat n)) = le_bytes n z.
Proof.
  rewrite <- le_val_bytes. rewrite <- (le_bytes_val (le_bytes n z)) at 2.
  by rewrite length_le_bytes.
Qed.

Lemma to_signed_mod n z :
  (0 < n)%nat -> 0 <= z < 2 ^ (8 * Z.of_nat n) -> to_signed n z mod 2 ^ (8 * Z.of_nat n) = z.
Proof.
  intros Hn Hz. unfold to_signed. case_match; [by apply Z.mod_small|].
  symmetry. apply (Z.mod_unique _ _ (-1)); lia.
Qed.

Definition no_padding (fs : list field) : bool :=
  forallb (fun f => match f with FPad _ => false | _ => true end) fs.

(** A format without padding loses nothing: packing what was unpacked gives the
    buffer back. *)
Lemma pack_unpack fs b :
  format_wf fs = true -> no_padding fs = true -> length b = calcsize fs ->
  pack fs (unpack fs b) = Ok b.
Proof.
  unfold calcsize, format_wf, no_padding. revert b. induction fs as [|f fs IH]; intros b Hwf Hp Hl.
  - by destruct b.
  - cbn [forallb sum_list_with] in *. apply andb_true_iff in Hwf as [Hf Hwf], Hp as [Hpf Hp].
    pose proof (unpack_fit (f :: fs) b) as Hfit.
    unfold format_wf, calcsize in Hfit. cbn [forallb sum_list_with] in Hfit. rewrite Hf, Hwf in Hfit.
    specialize (Hfit eq_refl Hl).
    destruct f; cbn [field_size] in Hl; cbn [pack unpack values_fit fst snd] in *; try done;
      rewrite IH by (rewrite ?length_drop; done || lia); cbn [mbind res_bind];
      apply andb_true_iff in Hfit as [Hfit _]; rewrite ?Hfit.
    + rewrite <- (take_drop n b) at 3. do 2 f_equal. rewrite <- (le_bytes_val (take n b)) at 2.
      rewrite length_take_le by lia. done.
    + rewrite <- (take_drop n b) at 3. do 2 f_equal.
      apply Nat.ltb_lt in Hf. pose proof (le_val_range (take n b)) as Hr.
      rewrite length_take_le in Hr by lia.
      rewrite <- le_bytes_mod, to_signed_mod by done.
      rewrite <- (le_bytes_val (take n b)) at 2. by rewrite length_take_le by lia.
    + rewrite <- (take_drop n b) at 3. do 2 f_equal. unfold ljust.
      rewrite (take_ge (take n b)) by (rewrite length_take; lia).
      rewrite length_take_le by lia. by rewrite Nat.sub_diag, app_nil_r.
Qed.
