(* ===== verification/IpAddr.v ===== *)
(** * IP addresses

    The part of Python's [ipaddress] the tools use: [ip_address] on strings,
    [str], [packed], [version], [max_prefixlen], [is_unspecified],
    [is_multicast] and equality.  [None] stands for the [ValueError] of a string
    that is no address. *)

From S2P Require Import Prelude PyStr Reports Py Struct.
Local Open Scope Z_scope.

Inductive ip_addr :=
  | IPv4Address (ip : Z)
  | IPv6Address (ip : Z) (scope_id : option string).

#[export] Instance ip_addr_eq_dec : EqDecision ip_addr.
Proof. solve_decision. Defined.

(** ** Parsing *)

Definition parse_octet (s : string) : option Z :=
  if str_empty s then None
  else if negb (str_forallb is_digit s) then None
  else if (3 <? String.length s)%nat then None
  else if negb (bool_decide (s = "0")) && startswith "0" s then None
  else let v := digits_val 10 0 s in if 255 <? v then None else Some v.

Definition ipv4_int_from_string (s : string) : option Z :=
  if str_empty s then None
  else match split_on "." s with
       | [a; b; c; d] =>
           a ← parse_octet a; b ← parse_octet b; c ← parse_octet c; d ← parse_octet d;
           Some (((a * 256 + b) * 256 + c) * 256 + d)
       | _ => None
       end.

Definition ipv4_address (s : string) : option Z :=
  if str_mem "/" s then None else ipv4_int_from_string s.

Definition parse_hextet (s : string) : option Z :=
  if negb (str_forallb is_hex_digit s) then None
  else if (4 <? String.length s)%nat then None
  else if str_empty s then None
  else Some (digits_val 16 0 s).

Fixpoint hextets_val (acc : Z) (l : list string) : option Z :=
  match l with
  | [] => Some acc
  | s :: l => h ← parse_hextet s; hextets_val (Z.lor (Z.shiftl acc 16) h) l
  end.

(** The index of the only empty part strictly inside; the outer [None] is a
    second one. *)
Fixpoint skip_loop (i : nat) (skip : option nat) (inner : list string) : option (option nat) :=
  match inner with
  | [] => Some skip
  | s :: inner =>
      if str_empty s then
        match skip with Some _ => None | None => skip_loop (S i) (Some i) inner end
      else skip_loop (S i) skip inner
  end.

Definition parts_val (parts : list string) : option Z :=
  let n := length parts in
  let first_empty := str_empty (default EmptyString (head parts)) in
  let last_empty := str_empty (default EmptyString (last parts)) in
  if (9 <? n)%nat then None
  else
    skip_index ← skip_loop 1 None (take (n - 2) (drop 1 parts));
    match skip_index with
    | Some k =>
        let parts_hi := (if first_empty then k - 1 else k)%nat in
        let parts_lo := (if last_empty then n - k - 2 else n - k - 1)%nat in
        if first_empty && (0 <? parts_hi)%nat then None
        else if last_empty && (0 <? parts_lo)%nat then None
        else if (8 <=? parts_hi + parts_lo)%nat then None
        else
          let parts_skipped := (8 - (parts_hi + parts_lo))%nat in
          hi ← hextets_val 0 (take parts_hi parts);
          hextets_val (Z.shiftl hi (16 * Z.of_nat parts_skipped)) (drop (n - parts_lo) parts)
    | None =>
        if negb (n =? 8)%nat then None
        else if first_empty then None
        else if last_empty then None
        else hextets_val 0 parts
    end.

(** An IPv4-style last part becomes two hexadecimal parts. *)
Definition expand_ipv4_suffix (parts : list string) : option (list string) :=
  match last parts with
  | Some s =>
      if str_mem "." s then
        v ← ipv4_address s;
        Some (take (length parts - 1) parts ++
              [hex_of_Z (Z.land (Z.shiftr v 16) 65535); hex_of_Z (Z.land v 65535)])
      else Some parts
  | None => Some parts
  end.

Definition ipv6_int_from_string (s : string) : option Z :=
  if str_empty s then None
  else
    let parts := split_on ":" s in
    if (length parts <? 3)%nat then None
    else parts ← expand_ipv4_suffix parts; parts_val parts.

(** [_split_scope_id] *)
Definition split_scope_id (s : string) : option (string * option string) :=
  match str_find "%" s with
  | None => Some (s, None)
  | Some i =>
      let scope := str_drop (S i) s in
      if str_empty scope || str_mem "%" scope then None
      else Some (str_take i s, Some scope)
  end.

Definition ipv6_address (s : string) : option ip_addr :=
  if str_mem "/" s then None
  else
    '(addr, scope) ← split_scope_id s;
    ip ← ipv6_int_from_string addr;
    Some (IPv6Address ip scope).

Definition ip_address (s : string) : option ip_addr :=
  match ipv4_address s with
  | Some v => Some (IPv4Address v)
  | None => ipv6_address s
  end.

(** ** Printing *)

Definition octets (v : Z) : list Z := 
  [v / 16777216 mod 256; v / 65536 mod 256; v / 256 mod 256; v mod 256].

Definition ipv4_str (v : Z) : string := str_join "." (str_of_Z <$> octets v).

Definition hextets (v : Z) : list Z :=
  (fun i => v / 2 ^ (16 * (7 - i)) mod 65536) <$> [0; 1; 2; 3; 4; 5; 6; 7].

(** The first longest run of ["0"]: its start and length. *)
Fixpoint zero_run (index : nat) (l : list string) (best_start best_len start len : nat) : nat * nat :=
  match l with
  | [] => (best_start, best_len)
  | h :: l =>
      if bool_decide (h = "0") then
        let start := if (len =? 0)%nat then index else start in
        let len := S len in
        if (best_len <? len)%nat then zero_run (S index) l start len start len
        else zero_run (S index) l best_start best_len start len
      else zero_run (S index) l best_start best_len 0 0
  end.

Definition compress_hextets (l : list string) : list string :=
  let '(start, len) := zero_run 0 l 0 0 0 0 in
  if (1 <? len)%nat then
    (if (start =? 0)%nat then [EmptyString] else [])
    ++ take start l ++ [EmptyString] ++ drop (start + len) l
    ++ (if (start + len =? length l)%nat then [EmptyString] else [])
  else l.

Definition ipv6_str (v : Z) : string :=
  str_join ":" (compress_hextets (hex_of_Z <$> hextets v)).

Definition str_of_ip (a : ip_addr) : string :=
  match a with
  | IPv4Address v => ipv4_str v
  | IPv6Address v None => ipv6_str v
  | IPv6Address v (Some scope) => ipv6_str v +:+ "%" +:+ scope
  end.

(** ** Attributes *)

Definition ip_version (a : ip_addr) : Z :=
  match a with IPv4Address _ => 4 | IPv6Address _ _ => 6 end.
Definition max_prefixlen (a : ip_addr) : Z :=
  match a with IPv4Address _ => 32 | IPv6Address _ _ => 128 end.
Definition ip_int (a : ip_addr) : Z :=
  match a with IPv4Address v => v | IPv6Address v _ => v end.
Definition packed (a : ip_addr) : bytes :=
  match a with IPv4Address v => be_bytes 4 v | IPv6Address v _ => be_bytes 16 v end.
Definition is_unspecified (a : ip_addr) : bool := ip_int a =? 0.
(** 224.0.0.0/4 and ff00::/8 *)
Definition is_multicast (a : ip_addr) : bool :=
  match a with
  | IPv4Address v => Z.shiftr v 28 =? 14
  | IPv6Address v _ => Z.shiftr v 120 =? 255
  end.

(** What [ip_address] returns: values in range, scopes without separators. *)
Definition ip_wf (a : ip_addr) : bool :=
  match a with
  | IPv4Address v => (0 <=? v) && (v <? 2 ^ 32)
  | IPv6Address v scope =>
      (0 <=? v) && (v <? 2 ^ 128) &&
      match scope with
      | None => true
      | Some s => negb (str_empty s) && negb (str_mem "%" s) && negb (str_mem "/" s)
      end
  end.

Example ip_str_ex1 : (str_of_ip <$> ip_address "fd00:198:18::1") = Some "fd00:198:18::1".
Proof. reflexivity. Qed.
Example ip_str_ex2 : (str_of_ip <$> ip_address "2001:DB8:0:0:1:0:0:0") = Some "2001:db8:0:0:1::".
Proof. reflexivity. Qed.
Example ip_str_ex3 : (str_of_ip <$> ip_address "::ffff:1.2.3.4") = Some "::ffff:102:304".
Proof. reflexivity. Qed.
Example ip_str_ex4 : ip_address "198.18.0.01" = None.
Proof. reflexivity. Qed.

(** ** Lemmas *)

#[local] Arguments hex_of_Z : simpl never.

Lemma lor_shiftl_add a h n :
  0 <= n -> 0 <= h < 2 ^ n -> Z.lor (Z.shiftl a n) h = a * 2 ^ n + h.
Proof.
  intros Hn Hh. rewrite <- Z.add_nocarry_lor; [by rewrite Z.shiftl_mul_pow2|].
  apply Z.bits_inj'. intros i Hi. rewrite Z.land_spec, Z.bits_0.
  destruct (decide (i < n)).
  - by rewrite Z.shiftl_spec_low.
  - rewrite <- (Z.mod_small h (2 ^ n)), Z.mod_pow2_bits_high by lia. by rewrite andb_false_r.
Qed.

Lemma parse_octet_str n : 0 <= n < 256 -> parse_octet (str_of_Z n) = Some n.
Proof.
  intros Hn. assert (n ∈ seqZ 0 256) as Hin by (apply elem_of_seqZ; lia). clear Hn. revert n Hin.
  assert (forallb (fun n => bool_decide (parse_octet (str_of_Z n) = Some n)) (seqZ 0 256) = true)
    as H by (vm_compute; done).
  intros n Hin. rewrite forallb_forall in H. apply list_elem_of_In in Hin.
  by apply H, bool_decide_eq_true in Hin.
Qed.

Lemma parse_octet_range s n : parse_octet s = Some n -> 0 <= n < 256 /\ str_forallb is_digit s = true.
Proof.
  unfold parse_octet. intros H. crush_match. bool_to_prop. split; [|done].
  split; [|lia]. clear -H1.
  enough (forall acc, 0 <= acc -> 0 <= digits_val 10 acc s) by (by apply H).
  revert H1. induction s as [|c s IH]; cbn; [done|]. intros [Hc Hs]%andb_true_iff acc Hacc.
  apply IH; [done|]. assert (0 <= digit_val c); [|lia]. revert Hc. clear. by_char c.
Qed.

#[local] Ltac Zify.zify_post_hook ::= Z.to_euclidean_division_equations.

Lemma octets_range v : Forall (fun n => 0 <= n < 256) (octets v).
Proof. unfold octets. repeat constructor; apply Z.mod_pos_bound; lia. Qed.

Lemma str_of_Z_not_mem c n : 0 <= n -> is_digit c = false -> str_mem c (str_of_Z n) = false.
Proof. intros Hn Hc. eapply str_forallb_not_mem; [by apply str_of_Z_digits|done]. Qed.

Lemma str_mem_join c sep l :
  str_mem c sep = false -> Forall (fun s => str_mem c s = false) l ->
  str_mem c (str_join sep l) = false.
Proof.
  intros Hsep Hl. induction Hl as [|s [|s' l] Hs Hl IH]; [done|done|].
  change (str_join sep (s :: s' :: l)) with (s +:+ sep +:+ str_join sep (s' :: l)).
  by rewrite !str_mem_app, Hs, Hsep, IH.
Qed.

Lemma octet_strs_not_mem c v :
  is_digit c = false -> Forall (fun s => str_mem c s = false) (str_of_Z <$> octets v).
Proof.
  intros Hc. apply Forall_fmap. eapply Forall_impl; [apply octets_range|].
  intros n [Hn _]. by apply str_of_Z_not_mem.
Qed.

Lemma ipv4_address_str v : 0 <= v < 2 ^ 32 -> ipv4_address (ipv4_str v) = Some v.
Proof.
  intros Hv. unfold ipv4_address.
  assert (str_mem "/" (ipv4_str v) = false) as ->.
  { apply str_mem_join; [done|]. by apply octet_strs_not_mem. }
  unfold ipv4_int_from_string.
  assert (str_empty (ipv4_str v) = false) as ->.
  { unfold ipv4_str. cbn. destruct (str_of_Z (v / 16777216 mod 256)) eqn:E; [|done].
    assert (parse_octet (str_of_Z (v / 16777216 mod 256)) = None) by (by rewrite E).
    rewrite parse_octet_str in H; [done|]. lia. }
  unfold ipv4_str. rewrite (split_on_join ".") by (done || by apply octet_strs_not_mem).
  cbn [fmap list_fmap octets]. rewrite !parse_octet_str by lia. cbn.
  f_equal. lia.
Qed.

Lemma ipv4_address_range s v :
  ipv4_address s = Some v -> 0 <= v < 2 ^ 32 /\ str_mem ":" s = false.
Proof.
  unfold ipv4_address, ipv4_int_from_string. intros H. case_match; [done|]. case_match; [done|].
  destruct (split_on "." s) as [|a [|b [|c [|d []]]]] eqn:E; try done.
  destruct (parse_octet a) as [a'|] eqn:Ha; [|done].
  destruct (parse_octet b) as [b'|] eqn:Hb; [|done].
  destruct (parse_octet c) as [c'|] eqn:Hc; [|done].
  destruct (parse_octet d) as [d'|] eqn:Hd; [|done]. cbn in H. injection H as <-.
  apply parse_octet_range in Ha as [? Ha], Hb as [? Hb], Hc as [? Hc], Hd as [? Hd].
  split; [lia|].
  enough (forall l, split_on "." s = l -> Forall (fun p => str_forallb is_digit p = true) l ->
    str_mem ":" s = false) as Hgen.
  { apply (Hgen _ E). by repeat constructor. }
  clear. unfold str_mem. induction s as [|x s IH]; [done|]. intros l. cbn.
  destruct (is_char "." x) eqn:Hx.
  - apply is_char_true in Hx as <-. intros <- Hl. inv Hl. cbn. by eapply IH.
  - destruct (split_on "." s) as [|p l'] eqn:E; intros <- Hl; inv Hl; cbn in *; bool_to_prop.
    + destruct s; cbn in E; [done|]. crush_match.
    + rewrite (IH _ eq_refl) by (by constructor). rewrite orb_false_r.
      apply is_char_ne. intros <-. done.
Qed.

(** *** Hextets *)

Definition hextet (h : Z) : Prop := 0 <= h < 65536.

Lemma hextets_range v : Forall hextet (hextets v).
Proof. unfold hextets, hextet. repeat constructor; apply Z.mod_pos_bound; lia. Qed.

Lemma hex_not_mem c h : 0 <= h -> is_hex_digit c = false -> str_mem c (hex_of_Z h) = false.
Proof. intros Hh Hc. eapply str_forallb_not_mem; [by apply digits16_hex|done]. Qed.

Lemma hex_nonempty h : 0 <= h -> str_empty (hex_of_Z h) = false.
Proof. intros Hh. apply digits_nonempty; lia. Qed.

Lemma parse_hextet_hex h : hextet h -> parse_hextet (hex_of_Z h) = Some h.
Proof.
  intros [Hl Hh]. unfold parse_hextet, hex_of_Z. rewrite digits16_hex by done. cbn [negb].
  assert (String.length (digits 16 h) <= 4)%nat.
  { apply digits_length; [lia| |lia]. cbn. lia. }
  destruct (4 <? _)%nat eqn:E; bool_to_prop; [lia|].
  rewrite digits_nonempty, digits_val_digits by lia. done.
Qed.

Lemma hex_zero h : hextet h -> hex_of_Z h = "0" <-> h = 0.
Proof.
  intros [Hl _]. split; [|by intros ->]. intros H. apply (digits_inj 16); [lia|done|lia|].
  unfold hex_of_Z in H. by rewrite H.
Qed.

(** The number a list of hextets denotes, after [acc]. *)
Definition hextets_num (acc : Z) (l : list Z) : Z := fold_left (fun a h => a * 65536 + h) l acc.

Lemma hextets_val_hex acc l :
  Forall hextet l -> hextets_val acc (hex_of_Z <$> l) = Some (hextets_num acc l).
Proof.
  intros Hl. revert acc. induction Hl as [|h l Hh Hl IH]; intros acc; [done|].
  rewrite fmap_cons. cbn [hextets_val]. rewrite parse_hextet_hex by done. cbn [mbind option_bind].
  rewrite lor_shiftl_add by (unfold hextet in Hh; lia). apply IH.
Qed.

Lemma hextets_num_hextets v : 0 <= v < 2 ^ 128 -> hextets_num 0 (hextets v) = v.
Proof.
  intros Hv. unfold hextets_num, hextets. cbn [fmap list_fmap fold_left].
  assert (forall j k, 0 <= k -> j = k + 1 ->
    v / 2 ^ (16 * j) * 65536 + v / 2 ^ (16 * k) mod 65536 = v / 2 ^ (16 * k)) as Hstep.
  { intros j k Hk ->. replace (16 * (k + 1)) with (16 * k + 16) by lia.
    rewrite Z.pow_add_r, <- Z.div_div by lia.
    change (2 ^ 16) with 65536. pose proof (Z.div_mod (v / 2 ^ (16 * k)) 65536). lia. }
  assert (v / 2 ^ (16 * 7) mod 65536 = v / 2 ^ (16 * 7)) as H7.
  { apply Z.mod_small. split; [apply Z.div_pos; lia|]. apply Z.div_lt_upper_bound; lia. }
  change (7 - 0) with 7. rewrite H7, Z.mul_0_l, Z.add_0_l.
  rewrite (Hstep 7 (7 - 1)), (Hstep _ (7 - 2)), (Hstep _ (7 - 3)), (Hstep _ (7 - 4)),
    (Hstep _ (7 - 5)), (Hstep _ (7 - 6)), (Hstep _ (7 - 7)) by lia.
  apply Z.div_1_r.
Qed.

Lemma hextets_num_app acc l k : hextets_num acc (l ++ k) = hextets_num (hextets_num acc l) k.
Proof. apply fold_left_app. Qed.

Lemma hextets_num_zeros acc n :
  hextets_num acc (replicate n 0) = Z.shiftl acc (16 * Z.of_nat n).
Proof.
  revert acc. induction n as [|n IH]; intros acc; cbn [replicate hextets_num].
  - by rewrite Z.shiftl_0_r.
  - unfold hextets_num in *. cbn [fold_left]. rewrite IH, !Z.shiftl_mul_pow2 by lia.
    replace (16 * Z.of_nat (S n)) with (16 + 16 * Z.of_nat n) by lia.
    rewrite Z.pow_add_r by lia. lia.
Qed.

(** *** Zero compression *)

Definition zeros_at (l : list string) (s n : nat) : Prop :=
  (s + n <= length l)%nat /\ forall i, (s <= i < s + n)%nat -> l !! i = Some "0".

Lemma zero_run_zeros l pre bs bl st len :
  zeros_at (pre ++ l) bs bl ->
  (len = 0%nat \/ zeros_at (pre ++ l) st len /\ (st + len = length pre)%nat) ->
  let '(s, n) := zero_run (length pre) l bs bl st len in zeros_at (pre ++ l) s n.
Proof.
  revert pre bs bl st len. induction l as [|h l IH]; intros pre bs bl st len Hb Hc; [done|].
  cbn [zero_run].
  replace (S (length pre)) with (length (pre ++ [h])) by (rewrite length_app; cbn; lia).
  replace (pre ++ h :: l) with ((pre ++ [h]) ++ l) in * by (by rewrite <- app_assoc).
  case_bool_decide as Hh; [|by apply IH; auto].
  assert (zeros_at ((pre ++ [h]) ++ l) (if (len =? 0)%nat then length pre else st) (S len) /\
    ((if (len =? 0)%nat then length pre else st) + S len = length (pre ++ [h]))%nat) as [Hz He].
  { rewrite length_app. cbn.
    assert (((pre ++ [h]) ++ l) !! length pre = Some "0") as Hl.
    { rewrite <- app_assoc. cbn. rewrite lookup_app_r, Nat.sub_diag by lia. by subst. }
    assert (length pre < length ((pre ++ [h]) ++ l))%nat by (rewrite !length_app; cbn; lia).
    destruct (len =? 0)%nat eqn:El; bool_to_prop.
    - subst. split; [|lia]. split; [lia|]. intros i Hi. by replace i with (length pre) by lia.
    - destruct Hc as [?|[[Hn Hz] He]]; [lia|]. split; [|lia]. split; [lia|]. intros i Hi.
      destruct (decide (i = length pre)) as [->|]; [done|]. apply Hz. lia. }
  destruct (bl <? S len)%nat; apply IH; auto.
Qed.

Lemma zeros_at_replicate l s n :
  zeros_at l s n -> l = take s l ++ replicate n "0" ++ drop (s + n) l.
Proof.
  intros [Hl Hz]. rewrite <- (take_drop s l) at 1. f_equal.
  rewrite <- (take_drop n (drop s l)) at 1. rewrite drop_drop. f_equal.
  apply list_eq_same_length with n; [rewrite length_replicate; lia|rewrite length_take, length_drop; lia|].
  intros i x y Hi Hx Hy. rewrite lookup_take_lt, lookup_drop, Hz in Hx by lia.
  rewrite lookup_replicate_2 in Hy by lia. congruence.
Qed.

Lemma skip_loop_nonempty i skip l k :
  Forall (fun s => str_empty s = false) l ->
  skip_loop i skip (l ++ k) = skip_loop (i + length l) skip k.
Proof.
  intros Hl. revert i. induction Hl as [|s l Hs Hl IH]; intros i; cbn.
  - by rewrite Nat.add_0_r.
  - rewrite Hs, IH. f_equal. lia.
Qed.

Lemma hexes_nonempty l : Forall hextet l -> Forall (fun s => str_empty s = false) (hex_of_Z <$> l).
Proof.
  intros Hl. apply Forall_fmap. eapply Forall_impl; [exact Hl|]. intros h [Hh _].
  by apply hex_nonempty.
Qed.

Lemma skip_loop_hexes i skip l : Forall hextet l -> skip_loop i skip (hex_of_Z <$> l) = Some skip.
Proof.
  intros Hl. rewrite <- (app_nil_r (_ <$> _)), skip_loop_nonempty by (by apply hexes_nonempty). done.
Qed.

Lemma parts_val_full l : Forall hextet l -> length l = 8%nat -> parts_val (hex_of_Z <$> l) = Some (hextets_num 0 l).
Proof.
  intros Hl Hn. unfold parts_val. rewrite length_fmap, Hn. cbn [Nat.ltb Nat.leb].
  rewrite <- fmap_drop, <- fmap_take, skip_loop_hexes by (by apply Forall_take, Forall_drop).
  cbn [mbind option_bind]. cbn [negb Nat.eqb].
  pose proof (hexes_nonempty l Hl) as Hne.
  rewrite <- hextets_val_hex by done.
  do 8 (destruct l as [|? l]; [done|]). destruct l; [|done].
  cbn [fmap list_fmap head last from_option id] in *. rewrite !Forall_cons in Hne.
  destruct_and!. repeat match goal with H : str_empty _ = false |- _ => rewrite ?H; clear H end.
  done.
Qed.

(** A compressed list of parts: the hextets before and after the run. *)
Definition compressed (hi lo : list Z) : list string :=
  (if (length hi =? 0)%nat then [EmptyString] else []) ++ (hex_of_Z <$> hi) ++ [EmptyString]
  ++ (hex_of_Z <$> lo) ++ (if (length lo =? 0)%nat then [EmptyString] else []).

Lemma length_snoc_nonzero {A} (l : list A) x : (length (l ++ [x]) =? 0)%nat = false.
Proof. rewrite length_app. cbn. apply Nat.eqb_neq. lia. Qed.

Lemma compressed_head hi lo :
  Forall hextet hi ->
  str_empty (default EmptyString (head (compressed hi lo))) = (length hi =? 0)%nat.
Proof.
  intros Hhi. unfold compressed. destruct Hhi as [|h hi [Hh _] Hhi]; [done|]. cbn.
  by apply hex_nonempty.
Qed.

Lemma compressed_last hi lo :
  Forall hextet lo ->
  str_empty (default EmptyString (last (compressed hi lo))) = (length lo =? 0)%nat.
Proof.
  intros Hlo. unfold compressed. destruct lo as [|h lo _] using rev_ind.
  - cbn. by rewrite !last_app.
  - rewrite Forall_app, Forall_singleton in Hlo. destruct Hlo as [_ [Hh _]].
    rewrite length_snoc_nonzero, app_nil_r, fmap_app. change (hex_of_Z <$> [h]) with [hex_of_Z h].
    rewrite !app_assoc, last_snoc. by apply hex_nonempty.
Qed.

Lemma compressed_inner hi lo :
  Forall hextet hi -> Forall hextet lo ->
  skip_loop 1 None (take (length (compressed hi lo) - 2) (drop 1 (compressed hi lo)))
  = Some (Some (length hi + if (length hi =? 0)%nat then 1 else 0)%nat).
Proof.
  intros Hhi Hlo. unfold compressed.
  assert (exists lo', Forall hextet lo' /\ forall pre,
    take (length ((hex_of_Z <$> lo) ++ (if (length lo =? 0)%nat then [EmptyString] else [])) - 1 + length pre)
      (pre ++ (hex_of_Z <$> lo) ++ (if (length lo =? 0)%nat then [EmptyString] else []))
    = pre ++ (hex_of_Z <$> lo')) as (lo' & Hlo' & Htake).
  { destruct lo as [|h lo _] using rev_ind.
    - exists []. split; [done|]. intros pre. cbn. by rewrite app_nil_r, take_app_length.
    - apply Forall_app in Hlo as [Hlo _]. exists lo. split; [done|]. intros pre.
      rewrite length_snoc_nonzero, !app_nil_r, fmap_app, app_assoc. apply take_app_length'.
      rewrite !length_app, !length_fmap. cbn. lia. }
  assert (length ((hex_of_Z <$> lo) ++ (if (length lo =? 0)%nat then [EmptyString] else [])) <> 0%nat) as Hne.
  { destruct lo; cbn; lia. }
  destruct Hhi as [|h hi Hh Hhi].
  - cbn [length Nat.eqb app fmap list_fmap drop].
    specialize (Htake [EmptyString]). cbn [length app] in Htake.
    replace (S (S (length _)) - 2)%nat with
      (length ((hex_of_Z <$> lo) ++ (if (length lo =? 0)%nat then [EmptyString] else [])) - 1 + 1)%nat by lia.
    rewrite Htake. cbn [app skip_loop str_empty]. by rewrite skip_loop_hexes.
  - cbn [length Nat.eqb]. rewrite app_nil_l, fmap_cons.
    change ((hex_of_Z h :: (hex_of_Z <$> hi)) ++ [EmptyString] ++ ?k) with (hex_of_Z h :: ((hex_of_Z <$> hi) ++ [EmptyString] ++ k)).
    cbn [drop length].
    specialize (Htake ((hex_of_Z <$> hi) ++ [EmptyString])). rewrite <- app_assoc in Htake.
    match type of Htake with take ?n _ = _ => match goal with |- context [take ?m _] =>
      replace m with n by (rewrite !length_app in *; cbn [length] in *; lia) end end.
    rewrite drop_0, Htake, <- app_assoc, skip_loop_nonempty by (by apply hexes_nonempty).
    cbn [app skip_loop str_empty]. rewrite skip_loop_hexes by done. rewrite length_fmap.
    do 2 f_equal. lia.
Qed.

Lemma parts_val_compressed hi lo :
  Forall hextet hi -> Forall hextet lo -> (length hi + length lo <= 7)%nat ->
  parts_val (compressed hi lo)
  = Some (hextets_num 0 (hi ++ replicate (8 - (length hi + length lo)) 0 ++ lo)).
Proof.
  intros Hhi Hlo Hn. unfold parts_val.
  rewrite compressed_inner, compressed_head, compressed_last by done.
  cbn [mbind option_bind].
  assert (length (compressed hi lo) = (length hi + length lo + 1
    + (if (length hi =? 0)%nat then 1 else 0) + (if (length lo =? 0)%nat then 1 else 0))%nat) as ->.
  { unfold compressed. rewrite !length_app, !length_fmap.
    destruct (length hi =? 0)%nat, (length lo =? 0)%nat; cbn; lia. }
  rewrite !hextets_num_app, hextets_num_zeros.
  set (a := if (length hi =? 0)%nat then 1%nat else 0%nat).
  set (b := if (length lo =? 0)%nat then 1%nat else 0%nat).
  replace (if (length hi =? 0)%nat then (length hi + a - 1)%nat else (length hi + a)%nat) with (length hi).
  2: { unfold a. destruct (length hi =? 0)%nat; lia. }
  set (n := (length hi + length lo + 1 + a + b)%nat).
  replace (if (length lo =? 0)%nat then (n - (length hi + a) - 2)%nat else (n - (length hi + a) - 1)%nat)
    with (length lo).
  2: { unfold n, a, b. destruct (length lo =? 0)%nat; lia. }
  assert (9 <? n = false)%nat as ->.
  { unfold n, a, b. apply Nat.ltb_ge.
    destruct (length hi =? 0)%nat eqn:E1, (length lo =? 0)%nat eqn:E2; bool_to_prop; lia. }
  assert ((length hi =? 0)%nat && (0 <? length hi)%nat = false) as ->.
  { destruct hi; done. }
  assert ((length lo =? 0)%nat && (0 <? length lo)%nat = false) as ->.
  { destruct lo; done. }
  assert (8 <=? length hi + length lo = false)%nat as ->.
  { apply Nat.leb_gt. lia. }
  assert (take (length hi) (compressed hi lo) = hex_of_Z <$> hi) as ->.
  { unfold compressed. destruct hi as [|h hi]; [done|]. cbn [length Nat.eqb]. rewrite app_nil_l.
    apply take_app_length'. by rewrite length_fmap. }
  rewrite hextets_val_hex by done. cbn [mbind option_bind].
  assert (drop (n - length lo) (compressed hi lo) = hex_of_Z <$> lo) as ->.
  { unfold compressed, n, a, b. destruct lo as [|l lo].
    - cbn [fmap list_fmap length]. apply drop_ge.
      rewrite !length_app, !length_fmap. destruct (length hi =? 0)%nat; cbn; lia.
    - cbn [length Nat.eqb]. rewrite app_nil_r, !app_assoc. apply drop_app_length'.
      rewrite !length_app, !length_fmap. destruct (length hi =? 0)%nat; cbn; lia. }
  by rewrite hextets_val_hex.
Qed.

Lemma compress_cases l :
  Forall hextet l -> length l = 8%nat ->
  compress_hextets (hex_of_Z <$> l) = hex_of_Z <$> l \/
  exists hi lo, compress_hextets (hex_of_Z <$> l) = compressed hi lo /\
    Forall hextet hi /\ Forall hextet lo /\ (length hi + length lo <= 6)%nat /\
    l = hi ++ replicate (8 - (length hi + length lo)) 0 ++ lo.
Proof.
  intros Hl Hn. unfold compress_hextets.
  pose proof (zero_run_zeros (hex_of_Z <$> l) [] 0 0 0 0) as Hz. cbn [app length] in Hz.
  destruct (zero_run 0 (hex_of_Z <$> l) 0 0 0 0) as [s n].
  destruct (1 <? n)%nat eqn:E; bool_to_prop; [|by left]. right.
  destruct Hz as [Hs Hz]; [split; [lia|intros; lia]|by left|].
  rewrite length_fmap in Hs.
  exists (take s l), (drop (s + n) l). split.
  { unfold compressed. rewrite fmap_take, fmap_drop, !length_fmap, length_take, length_drop, Hn.
    replace (s `min` 8 =? 0)%nat with (s =? 0)%nat by (f_equal; lia).
    replace (8 - (s + n) =? 0)%nat with (s + n =? 8)%nat; [done|].
    destruct (s + n =? 8)%nat eqn:E1, (8 - (s + n) =? 0)%nat eqn:E2; bool_to_prop; (done || lia). }
  split; [by apply Forall_take|]. split; [by apply Forall_drop|].
  rewrite length_take, length_drop, Hn. split; [lia|].
  replace (8 - (s `min` 8 + (8 - (s + n))))%nat with n by lia.
  rewrite <- (take_drop s l) at 1. f_equal.
  rewrite <- (take_drop n (drop s l)) at 1. rewrite drop_drop. f_equal.
  apply list_eq_same_length with n; [rewrite length_replicate; lia|rewrite length_take, length_drop; lia|].
  intros i x y Hi Hx Hy. rewrite lookup_replicate_2 in Hy by lia. injection Hy as <-.
  rewrite lookup_take_lt, lookup_drop in Hx by lia.
  specialize (Hz (s + i)%nat). rewrite list_lookup_fmap, Hx in Hz. cbn in Hz.
  apply hex_zero; [by eapply Forall_lookup_1|]. assert (Some (hex_of_Z x) = Some "0") as [= ->] by (apply Hz; lia).
  done.
Qed.

Lemma parts_val_compress v :
  0 <= v < 2 ^ 128 -> parts_val (compress_hextets (hex_of_Z <$> hextets v)) = Some v.
Proof.
  intros Hv. rewrite <- (hextets_num_hextets v) at 2 by done.
  destruct (compress_cases (hextets v)) as [->|(hi & lo & -> & Hhi & Hlo & Hn & ->)];
    [by apply hextets_range|done|by apply parts_val_full; [apply hextets_range|]|].
  apply parts_val_compressed; [done|done|lia].
Qed.

Lemma compress_not_mem c v :
  is_hex_digit c = false ->
  Forall (fun s => str_mem c s = false) (compress_hextets (hex_of_Z <$> hextets v)).
Proof.
  intros Hc.
  assert (forall l, Forall hextet l -> Forall (fun s => str_mem c s = false) (hex_of_Z <$> l)) as Hh.
  { intros l Hl. apply Forall_fmap. eapply Forall_impl; [exact Hl|]. intros h [Hh _]. by apply hex_not_mem. }
  destruct (compress_cases (hextets v)) as [->|(hi & lo & -> & Hhi & Hlo & _)];
    [by apply hextets_range|done|by apply Hh, hextets_range|].
  unfold compressed. rewrite !Forall_app.
  split_and!; auto; try (destruct (length _ =? 0)%nat); by repeat constructor.
Qed.

Lemma compress_length v : (3 <= length (compress_hextets (hex_of_Z <$> hextets v)))%nat.
Proof.
  destruct (compress_cases (hextets v)) as [->|(hi & lo & -> & _ & _ & _ & E)];
    [by apply hextets_range|done|cbn; lia|].
  unfold compressed. rewrite !length_app, !length_fmap.
  destruct hi as [|? [|??]], lo as [|? [|??]]; cbn; lia.
Qed.

Lemma ipv6_str_not_mem c v :
  is_hex_digit c = false -> c <> ":"%char -> str_mem c (ipv6_str v) = false.
Proof.
  intros Hc Hne. apply str_mem_join; [|by apply compress_not_mem].
  unfold str_mem. cbn. by rewrite is_char_ne.
Qed.

Lemma ipv6_str_colon v : str_mem ":" (ipv6_str v) = true.
Proof.
  unfold ipv6_str. pose proof (compress_length v) as Hl.
  destruct (compress_hextets _) as [|a [|b l]]; cbn in Hl; [lia|lia|].
  change (str_join ":" (a :: b :: l)) with (a +:+ String ":" (str_join ":" (b :: l))).
  rewrite str_mem_app. unfold str_mem at 2. cbn. by rewrite orb_true_r.
Qed.

Lemma ipv6_int_from_str v : 0 <= v < 2 ^ 128 -> ipv6_int_from_string (ipv6_str v) = Some v.
Proof.
  intros Hv. unfold ipv6_int_from_string.
  assert (str_empty (ipv6_str v) = false) as ->.
  { pose proof (ipv6_str_colon v). by destruct (ipv6_str v). }
  unfold ipv6_str. pose proof (compress_length v) as Hl.
  rewrite (split_on_join ":").
  2: { intros E. rewrite E in Hl. cbn in Hl. lia. }
  2: { by apply compress_not_mem. }
  destruct (_ <? 3)%nat eqn:E; bool_to_prop; [lia|].
  unfold expand_ipv4_suffix.
  pose proof (compress_not_mem "." v eq_refl) as Hdot.
  destruct (last (compress_hextets _)) as [s|] eqn:Els; cbn [mbind option_bind].
  - apply last_Some in Els as [l Els]. rewrite Els in Hdot.
    rewrite Forall_app, Forall_singleton in Hdot. destruct Hdot as [_ ->]. by apply parts_val_compress.
  - by apply parts_val_compress.
Qed.

Lemma split_scope_id_none s : str_mem "%" s = false -> split_scope_id s = Some (s, None).
Proof.
  intros Hs. unfold split_scope_id.
  assert (str_find "%" s = None) as ->; [|done].
  revert Hs. unfold str_mem. induction s as [|c s IH]; cbn; [done|].
  intros [Hc Hs]%orb_false_iff. by rewrite Hc, IH.
Qed.

Lemma split_scope_id_some s scope :
  str_mem "%" s = false -> str_empty scope = false -> str_mem "%" scope = false ->
  split_scope_id (s +:+ "%" +:+ scope) = Some (s, Some scope).
Proof.
  intros Hs He Hp. unfold split_scope_id.
  change ("%" +:+ scope) with (String "%" scope). rewrite str_find_app by done.
  assert (str_drop (S (String.length s)) (s +:+ String "%" scope) = scope) as ->.
  { clear. induction s as [|c s IH]; [done|]. rewrite str_app_cons. cbn [String.length str_drop].
    rewrite <- IH at 2. done. }
  rewrite He, Hp, str_take_app. done.
Qed.

(** Parsing a printed address gives it back. *)
Lemma ip_address_str a : ip_wf a = true -> ip_address (str_of_ip a) = Some a.
Proof.
  unfold ip_wf. destruct a as [v|v scope]; intros Hwf; bool_to_prop; cbn [str_of_ip].
  - unfold ip_address. by rewrite ipv4_address_str.
  - assert (forall s, str_mem ":" s = true -> ipv4_address s = None) as H4.
    { intros s Hs. destruct (ipv4_address s) eqn:E; [|done]. apply ipv4_address_range in E as [_ E]. congruence. }
    unfold ip_address, ipv6_address. destruct scope as [scope|]; bool_to_prop.
    + rewrite H4 by (by rewrite str_mem_app, ipv6_str_colon).
      rewrite str_mem_app, (ipv6_str_not_mem "/") by done.
      change (str_mem "/" ("%" +:+ scope)) with (str_mem "/" scope).
      assert (str_mem "/" scope = false) as -> by done. cbn [orb].
      rewrite split_scope_id_some by (done || by apply ipv6_str_not_mem).
      cbn. by rewrite ipv6_int_from_str.
    + rewrite H4 by apply ipv6_str_colon.
      rewrite (ipv6_str_not_mem "/"), split_scope_id_none by (done || by apply ipv6_str_not_mem).
      cbn. by rewrite ipv6_int_from_str.
Qed.

(** *** Every parsed address is in range *)

Lemma digits_val_bound b acc s :
  2 <= b <= 16 -> 0 <= acc -> str_forallb (is_base_digit b) s = true ->
  0 <= digits_val b acc s < (acc + 1) * b ^ Z.of_nat (String.length s).
Proof.
  intros Hb. revert acc. induction s as [|c s IH]; intros acc Hacc; cbn [digits_val str_forallb String.length].
  - intros _. rewrite Z.mul_1_r. lia.
  - intros [Hc Hs]%andb_true_iff.
    assert (0 <= digit_val c < b) as Hd.
    { unfold is_base_digit in Hc. bool_to_prop. split; [|done]. clear -H. revert H. by_char c. }
    specialize (IH (acc * b + digit_val c)).
    rewrite Nat2Z.inj_succ, Z.pow_succ_r by lia.
    assert (0 < b ^ Z.of_nat (String.length s)) by (apply Z.pow_pos_nonneg; lia).
    assert (0 <= acc * b + digit_val c) as Hpos by nia. specialize (IH Hpos Hs). nia.
Qed.

Lemma parse_hextet_range s h : parse_hextet s = Some h -> hextet h.
Proof.
  unfold parse_hextet, hextet. intros H. crush_match. bool_to_prop.
  pose proof (digits_val_bound 16 0 s) as Hb.
  assert (str_forallb (is_base_digit 16) s = true) as Hd.
  { revert H0. apply str_forallb_impl. intros c. unfold is_base_digit. by_char c. }
  specialize (Hb ltac:(lia) ltac:(lia) Hd). rewrite Z.mul_1_l in Hb.
  assert (16 ^ Z.of_nat (String.length s) <= 16 ^ 4) by (apply Z.pow_le_mono_r; lia). lia.
Qed.

Lemma hextets_val_range acc l v n :
  0 <= acc < 2 ^ (16 * Z.of_nat n) -> hextets_val acc l = Some v ->
  0 <= v < 2 ^ (16 * Z.of_nat (n + length l)).
Proof.
  revert acc n. induction l as [|s l IH]; intros acc n Hacc; cbn [hextets_val length].
  - intros [= <-]. by rewrite Nat.add_0_r.
  - destruct (parse_hextet s) as [h|] eqn:Hh; [|done]. cbn [mbind option_bind].
    apply parse_hextet_range in Hh. intros H.
    replace (n + S (length l))%nat with (S n + length l)%nat by lia.
    eapply IH; [|exact H]. unfold hextet in Hh. rewrite lor_shiftl_add by lia.
    replace (16 * Z.of_nat (S n)) with (16 * Z.of_nat n + 16) by lia.
    rewrite Z.pow_add_r by lia. lia.
Qed.

Lemma parts_val_range parts v : parts_val parts = Some v -> 0 <= v < 2 ^ 128.
Proof.
  unfold parts_val. intros H. case_match; [done|].
  destruct (skip_loop _ _ _) as [[k|]|]; cbn [mbind option_bind] in H; [| |done].
  - set (ph := if str_empty (default _ (head parts)) then _ else _) in H.
    set (pl := if str_empty (default _ (last parts)) then _ else _) in H.
    case_match; [done|]. case_match; [done|]. case_match; [done|]. bool_to_prop.
    destruct (hextets_val 0 _) as [hi|] eqn:Hhi; [|done]. cbn [mbind option_bind] in H.
    apply (hextets_val_range _ _ _ 0) in Hhi; [|lia].
    apply (hextets_val_range _ _ _ (8 - pl)) in H.
    + rewrite length_drop in H. destruct H as [? H]. split; [done|].
      eapply Z.lt_le_trans; [exact H|]. apply Z.pow_le_mono_r; lia.
    + rewrite length_take in Hhi. rewrite Z.shiftl_mul_pow2 by lia. split; [nia|].
      destruct Hhi as [_ Hhi].
      assert (hi < 2 ^ (16 * Z.of_nat ph)).
      { eapply Z.lt_le_trans; [exact Hhi|]. apply Z.pow_le_mono_r; lia. }
      replace (16 * Z.of_nat (8 - pl)) with (16 * Z.of_nat ph + 16 * Z.of_nat (8 - (ph + pl))) by lia.
      rewrite Z.pow_add_r by lia. apply Z.mul_lt_mono_pos_r; [|done]. apply Z.pow_pos_nonneg; lia.
  - case_match; [done|]. case_match; [done|]. case_match; [done|]. bool_to_prop.
    apply (hextets_val_range _ _ _ 0) in H; [|lia].
    destruct H as [? H]. split; [done|]. eapply Z.lt_le_trans; [exact H|].
    apply Z.pow_le_mono_r; lia.
Qed.

Lemma str_find_drop_sub c d s i :
  str_find c s = Some i -> str_mem d s = false -> str_mem d (str_drop (S i) s) = false.
Proof.
  revert i. unfold str_mem. induction s as [|x s IH]; intros i; cbn [str_find str_existsb]; [done|].
  destruct (is_char c x) eqn:Hx.
  - intros [= <-] H. bool_to_prop. by destruct s.
  - destruct (str_find c s) as [j|]; [|done]. intros [= <-] H. bool_to_prop. by apply IH.
Qed.

Lemma ip_address_wf s a : ip_address s = Some a -> ip_wf a = true.
Proof.
  unfold ip_address. destruct (ipv4_address s) as [v|] eqn:E4.
  - intros [= <-]. apply ipv4_address_range in E4 as [[] _]. cbn.
    apply andb_true_iff. by rewrite Z.leb_le, Z.ltb_lt.
  - unfold ipv6_address, split_scope_id. destruct (str_mem "/" s) eqn:Hslash; [done|]. intros H.
    assert (forall addr scope, ipv6_int_from_string addr ≫= (fun ip => Some (IPv6Address ip scope)) = Some a ->
      match scope with
      | None => true
      | Some s => negb (str_empty s) && negb (str_mem "%" s) && negb (str_mem "/" s)
      end = true -> ip_wf a = true) as Hgen.
    { intros addr scope. unfold ipv6_int_from_string. destruct (str_empty addr); [done|].
      destruct (_ <? 3)%nat; [done|].
      destruct (expand_ipv4_suffix _) as [parts|]; [|done]. cbn [mbind option_bind].
      destruct (parts_val parts) as [v|] eqn:Hv; [|done]. cbn. intros [= <-] Hs.
      apply parts_val_range in Hv as []. unfold ip_wf. rewrite Hs.
      rewrite andb_true_r. apply andb_true_iff. by rewrite Z.leb_le, Z.ltb_lt. }
    destruct (str_find "%" s) as [i|] eqn:Hi; [|by apply Hgen in H].
    destruct (_ || _) eqn:Hs in H; [done|]. cbn [mbind option_bind] in H. apply Hgen in H; [done|].
    apply orb_false_iff in Hs as [-> ->]. erewrite str_find_drop_sub by done. done.
Qed.

(** The text of an address without a scope. *)
Definition is_ip_char (c : ascii) : bool := is_hex_digit c || is_char ":" c || is_char "." c.

Definition unscoped (a : ip_addr) : bool :=
  match a with IPv6Address _ (Some _) => false | _ => true end.

Lemma str_of_ip_chars a : unscoped a = true -> str_forallb is_ip_char (str_of_ip a) = true.
Proof.
  intros Ha. apply str_forallb_of_mem. unfold is_ip_char. intros c Hc. bool_to_prop.
  destruct a as [v|v [scope|]]; [| done|].
  - unfold str_of_ip, ipv4_str. apply str_mem_join.
    + unfold str_mem. cbn [str_existsb]. rewrite orb_false_r. unfold is_char in *. bool_to_prop.
      by apply bool_decide_eq_false.
    + apply octet_strs_not_mem. unfold is_hex_digit in H. by bool_to_prop.
  - apply ipv6_str_not_mem; [done|]. unfold is_char in H1. bool_to_prop. congruence.
Qed.
