(* ===== verification/Control.v ===== *)
(** * The hosted control channel

    [tools/tcpcc_control.py]: the fixed-size request and response records of the
    hosted control ABI, the statistics snapshots, the bounded reads from the
    hosted process's pipe and the [ControlClient] transaction. *)

From S2P Require Import Prelude PyStr Reports Py Effects Struct IpAddr.
Local Open Scope Z_scope.

(** [os.strerror]: the C library's table; [None] is its [ValueError]. *)
Class Strerror := strerror : Z -> option string.

(** ** Constants *)

Definition MAGIC : Z := 0x32434354.
Definition VERSION : Z := 1.
Definition MAX_PAYLOAD : Z := 256.
Definition CONTROL_TIMEOUT : Q := 8.

Definition OP_SOCKET : Z := 1.
Definition OP_BIND : Z := 2.
Definition OP_LISTEN : Z := 3.
Definition OP_CONNECT : Z := 4.
Definition OP_ACCEPT : Z := 5.
Definition OP_WRITE : Z := 6.
Definition OP_READ : Z := 7.
Definition OP_CLOSE : Z := 8.
Definition OP_SET_CC : Z := 9.
Definition OP_GET_CC : Z := 10.
Definition OP_FINISH : Z := 11.
Definition OP_L3_ATTACH : Z := 12.
Definition OP_L3_STATS : Z := 13.
Definition OP_TCP_INFO : Z := 14.
Definition OP_HOST_BACKEND_PROBE : Z := 15.
Definition OP_BRIDGE_START : Z := 16.
Definition OP_BRIDGE_JOIN : Z := 17.
Definition OP_BRIDGE_CANCEL : Z := 18.
Definition OP_ACCEPT_NONBLOCK : Z := 19.
Definition OP_SHUTDOWN : Z := 20.
Definition OP_BRIDGE_JOIN_RESULT : Z := 21.
Definition OP_HELLO : Z := 22.
Definition OP_SERVICE_START : Z := 23.
Definition OP_SERVICE_DRAIN : Z := 24.
Definition OP_SERVICE_STATS : Z := 25.
Definition OP_SERVICE_STOP : Z := 26.
Definition OP_SOCKET_IP : Z := 27.
Definition OP_BIND_IP : Z := 28.
Definition OP_L3_ATTACH_IP : Z := 29.
Definition OP_RECLAIM_STATS : Z := 30.

Definition OP_NAMES : gmap Z string := list_to_map
  [ (OP_SOCKET, "socket"); (OP_BIND, "bind"); (OP_LISTEN, "listen");
    (OP_CONNECT, "connect"); (OP_ACCEPT, "accept"); (OP_WRITE, "write");
    (OP_READ, "read"); (OP_CLOSE, "close"); (OP_SET_CC, "set-cc");
    (OP_GET_CC, "get-cc"); (OP_FINISH, "finish"); (OP_L3_ATTACH, "l3-attach");
    (OP_L3_STATS, "l3-stats"); (OP_TCP_INFO, "tcp-info");
    (OP_HOST_BACKEND_PROBE, "host-backend-probe"); (OP_BRIDGE_START, "bridge-start");
    (OP_BRIDGE_JOIN, "bridge-join"); (OP_BRIDGE_CANCEL, "bridge-cancel");
    (OP_ACCEPT_NONBLOCK, "accept-nonblock"); (OP_SHUTDOWN, "shutdown");
    (OP_BRIDGE_JOIN_RESULT, "bridge-join-result"); (OP_HELLO, "hello");
    (OP_SERVICE_START, "service-start"); (OP_SERVICE_DRAIN, "service-drain");
    (OP_SERVICE_STATS, "service-stats"); (OP_SERVICE_STOP, "service-stop");
    (OP_SOCKET_IP, "socket-ip"); (OP_BIND_IP, "bind-ip");
    (OP_L3_ATTACH_IP, "l3-attach-ip"); (OP_RECLAIM_STATS, "reclaim-stats") ].

(** [OP_NAMES.get(operation, f"op-{operation}")] *)
Definition op_name (operation : Z) : string :=
  default ("op-" +:+ str_of_Z operation) (OP_NAMES !! operation).

(** ** Record formats *)

Definition REQUEST : list field :=
  [FUint 4; FUint 2; FUint 2; FInt 4; FUint 4; FUint 4; FUint 4; FStr 256].
Definition RESPONSE : list field :=
  [FUint 4; FUint 2; FUint 2; FInt 4; FInt 4; FUint 4; FStr 256].
Definition BRIDGE_RESULT : list field :=
  [FUint 8; FUint 8; FUint 8; FUint 4; FUint 4; FUint 4; FUint 4; FUint 4; FUint 4; FUint 4;
   FInt 4; FUint 4; FUint 4].
Definition SERVICE_CONFIG : list field := [FUint 4; FUint 2; FUint 2; FUint 4; FUint 4].
Definition SERVICE_STATS : list field :=
  [FUint 8; FUint 8; FUint 8; FUint 8; FUint 8; FUint 4; FUint 4; FUint 4; FUint 4; FUint 4;
   FUint 4; FUint 4; FUint 4; FInt 4; FUint 4; FUint 4; FUint 4].
Definition RECLAIM_STATS : list field :=
  [FUint 8; FUint 8; FUint 8; FUint 8; FUint 8; FUint 8; FUint 4; FInt 4; FUint 4; FUint 4;
   FUint 4; FUint 4].
Definition IP_ENDPOINT : list field := [FUint 1; FPad 3; FStr 16; FUint 2; FUint 2].
Definition L3_CONFIG : list field := [FUint 1; FPad 3; FStr 16; FUint 1; FPad 3].

(** ** Data *)

Record ControlResponse := {
  operation : Z;
  status : Z;
  handle : Z;
  data : bytes;
}.

Record BridgeResult := {
  token : Z;
  public_to_backend_bytes : Z;
  backend_to_public_bytes : Z;
  buffer_limit : Z;
  total_buffer_limit : Z;
  terminal_events : Z;
  host_send_eagain : Z;
  host_partial_writes : Z;
  host_recv_eagain : Z;
  session_limit : Z;
  br_status : Z;
}.

Record ServiceStats := {
  accepted_connections : Z;
  completed_connections : Z;
  rejected_connections : Z;
  ss_public_to_backend_bytes : Z;
  ss_backend_to_public_bytes : Z;
  active_connections : Z;
  peak_connections : Z;
  ss_max_connections : Z;
  accept_batch : Z;
  accept_eagain : Z;
  bridge_start_failures : Z;
  terminal_failures : Z;
  state : Z;
  last_error : Z;
}.

Record ReclaimStats := {
  reported_bytes : Z;
  successful_discard_bytes : Z;
  batches : Z;
  ranges : Z;
  failed_bytes : Z;
  advisory_failures : Z;
  rs_state : Z;
  rs_last_error : Z;
  minimum_order : Z;
  maximum_range_bytes : Z;
}.

(** ** Errors *)

Definition control_operation_error `{Strerror} (op st : Z) : exn :=
  let detail :=
    if st <? 0 then default "unknown errno" (strerror (- st))
    else "unexpected non-negative status" in
  ControlOperationError op st
    ("hosted " +:+ op_name op +:+ " failed with status " +:+ str_of_Z st +:+ ": " +:+ detail).

(** ** Field validation *)

Definition bounded_integer (value : pyval) (fld : string) (minimum maximum : Z) : res Z :=
  match value with
  | VInt z =>
      if (minimum <=? z) && (z <=? maximum) then Ok z
      else Err (ValueError (fld +:+ " must be from " +:+ str_of_Z minimum
                            +:+ " through " +:+ str_of_Z maximum))
  | _ => Err (TypeError (fld +:+ " must be an integer"))
  end.

Definition encode_request (operation handle arg0 arg1 data : pyval) : res bytes :=
  op ← bounded_integer operation "operation" 1 0xFFFF;
  h ← bounded_integer handle "handle" (- 2 ^ 31) (2 ^ 31 - 1);
  a0 ← bounded_integer arg0 "arg0" 0 0xFFFFFFFF;
  a1 ← bounded_integer arg1 "arg1" 0 0xFFFFFFFF;
  match data with
  | VBytes d =>
      _ ← raise_if (MAX_PAYLOAD <? Z.of_nat (length d))
            (ValueError ("control data exceeds the " +:+ str_of_Z MAX_PAYLOAD +:+ "-byte ABI limit"));
      pack REQUEST (MAGIC, (VERSION, (op, (h, (a0, (a1, (Z.of_nat (length d),
        (ljust (Z.to_nat MAX_PAYLOAD) d, tt))))))))
  | _ => Err (TypeError "control data must be bytes")
  end.

(** [f"{z:08x}"] *)
Definition hex8 (z : Z) : string :=
  let h := hex_of_Z z in
  String.concat EmptyString (replicate (8 - String.length h) "0") +:+ h.

(** The size check each decoder starts with. *)
Definition exact_bytes (raw : pyval) (n : nat) (what : string) : res bytes :=
  match raw with
  | VBytes b =>
      if (length b =? n)%nat then Ok b
      else Err (ControlProtocolError (what +:+ " size " +:+ str_of_Z (Z.of_nat (length b))
                                      +:+ ", expected " +:+ str_of_Z (Z.of_nat n)))
  | _ => Err (ControlProtocolError (what +:+ " size non-bytes, expected " +:+ str_of_Z (Z.of_nat n)))
  end.

Definition decode_response (raw : pyval) (expected_operation : Z) : res ControlResponse :=
  raw ← exact_bytes raw (calcsize RESPONSE) "control response has";
  let '(magic, (version, (operation, (status, (handle, (length, (payload, _))))))) :=
    unpack RESPONSE raw in
  _ ← raise_if (negb (magic =? MAGIC))
        (ControlProtocolError ("control response magic is 0x" +:+ hex8 magic));
  _ ← raise_if (negb (version =? VERSION))
        (ControlProtocolError ("control response version is " +:+ str_of_Z version
                               +:+ ", expected " +:+ str_of_Z VERSION));
  _ ← raise_if (negb (operation =? expected_operation))
        (ControlProtocolError ("control response operation is " +:+ str_of_Z operation
                               +:+ ", expected " +:+ str_of_Z expected_operation));
  _ ← raise_if (MAX_PAYLOAD <? length)
        (ControlProtocolError ("control response payload is " +:+ str_of_Z length
                               +:+ " bytes, maximum is " +:+ str_of_Z MAX_PAYLOAD));
  Ok {| operation := operation; status := status; handle := handle;
        data := take (Z.to_nat length) payload |}.

Definition decode_bridge_result (data : pyval) (allow_terminal_error : bool) : res BridgeResult :=
  data ← exact_bytes data (calcsize BRIDGE_RESULT) "bridge result has";
  let '(token, (public_to_backend, (backend_to_public, (buffer_limit, (total_buffer_limit,
        (terminal_events, (host_send_eagain, (host_partial_writes, (host_recv_eagain,
        (session_limit, (status, (reserved0, (reserved1, _))))))))))))) :=
    unpack BRIDGE_RESULT data in
  _ ← raise_if (negb (reserved0 =? 0) || negb (reserved1 =? 0))
        (ControlProtocolError ("bridge result reserved fields are " +:+ str_of_Z reserved0
                               +:+ "/" +:+ str_of_Z reserved1));
  _ ← raise_if (negb (status =? 0) && negb allow_terminal_error)
        (ControlProtocolError ("successful bridge response contains status " +:+ str_of_Z status));
  _ ← raise_if (0 <? status)
        (ControlProtocolError ("bridge result contains positive terminal status "
                               +:+ str_of_Z status));
  _ ← raise_if (session_limit <? 1)
        (ControlProtocolError "bridge result reports a zero session limit");
  Ok {| token := token; public_to_backend_bytes := public_to_backend;
        backend_to_public_bytes := backend_to_public; buffer_limit := buffer_limit;
        total_buffer_limit := total_buffer_limit; terminal_events := terminal_events;
        host_send_eagain := host_send_eagain; host_partial_writes := host_partial_writes;
        host_recv_eagain := host_recv_eagain; session_limit := session_limit;
        br_status := status |}.

Definition encode_service_config (backend_ipv4 backend_port max_connections accept_batch : pyval)
    : res bytes :=
  ip ← bounded_integer backend_ipv4 "backend IPv4" 0 0xFFFFFFFF;
  port ← bounded_integer backend_port "backend port" 1 0xFFFF;
  maxc ← bounded_integer max_connections "max connections" 0 0xFFFFFFFF;
  batch ← bounded_integer accept_batch "accept batch" 1 0xFFFFFFFF;
  pack SERVICE_CONFIG (ip, (port, (0, (maxc, (batch, tt))))).

(** [_ip_address] *)
Definition usable_ip_address (value : pyval) (fld : string) : res ip_addr :=
  match value with
  | VStr s =>
      match ip_address s with
      | None => Err (ValueError (fld +:+ " must be one literal IP address"))
      | Some address =>
          if is_unspecified address || is_multicast address
          then Err (ValueError (fld +:+ " must be a usable unicast IP address"))
          else Ok address
      end
  | _ => Err (TypeError (fld +:+ " must be one IP address string"))
  end.

Definition encode_ip_endpoint (address port : pyval) : res bytes :=
  parsed ← usable_ip_address address "endpoint address";
  p ← bounded_integer port "endpoint port" 1 0xFFFF;
  pack IP_ENDPOINT (ip_version parsed, (ljust 16 (packed parsed), (p, (0, tt)))).

Definition encode_l3_config (address prefix_len : pyval) : res bytes :=
  parsed ← usable_ip_address address "L3 address";
  n ← bounded_integer prefix_len "L3 prefix length" 1 (max_prefixlen parsed);
  pack L3_CONFIG (ip_version parsed, (ljust 16 (packed parsed), (n, tt))).

(** [str] of a tuple of integers *)
Definition tuple_str (l : list Z) : string :=
  "(" +:+ str_join ", " (str_of_Z <$> l) +:+ ")".

Definition decode_service_stats (data : pyval) : res ServiceStats :=
  data ← exact_bytes data (calcsize SERVICE_STATS) "service stats have";
  let '(v0, (v1, (v2, (v3, (v4, (v5, (v6, (v7, (v8, (v9, (v10, (v11, (v12, (v13, (r0, (r1, (r2, _)))))))))))))))))
    := unpack SERVICE_STATS data in
  _ ← raise_if (negb (r0 =? 0) || negb (r1 =? 0) || negb (r2 =? 0))
        (ControlProtocolError ("service stats reserved fields are " +:+ tuple_str [r0; r1; r2]));
  _ ← raise_if (0 <? v13)
        (ControlProtocolError ("service stats contain positive last error " +:+ str_of_Z v13));
  Ok {| accepted_connections := v0; completed_connections := v1; rejected_connections := v2;
        ss_public_to_backend_bytes := v3; ss_backend_to_public_bytes := v4;
        active_connections := v5; peak_connections := v6; ss_max_connections := v7;
        accept_batch := v8; accept_eagain := v9; bridge_start_failures := v10;
        terminal_failures := v11; state := v12; last_error := v13 |}.

Definition decode_reclaim_stats (data : pyval) : res ReclaimStats :=
  data ← exact_bytes data (calcsize RECLAIM_STATS) "reclaim stats have";
  let '(v0, (v1, (v2, (v3, (v4, (v5, (v6, (v7, (v8, (v9, (r0, (r1, _)))))))))))) :=
    unpack RECLAIM_STATS data in
  _ ← raise_if (negb (r0 =? 0) || negb (r1 =? 0))
        (ControlProtocolError ("reclaim stats reserved fields are " +:+ tuple_str [r0; r1]));
  _ ← raise_if (3 <? v6)
        (ControlProtocolError ("reclaim stats contain unknown state " +:+ str_of_Z v6));
  _ ← raise_if (0 <? v7)
        (ControlProtocolError ("reclaim stats contain positive last error " +:+ str_of_Z v7));
  _ ← raise_if ((63 <? v8) || (v9 =? 0))
        (ControlProtocolError "reclaim stats contain invalid range policy");
  Ok {| reported_bytes := v0; successful_discard_bytes := v1; batches := v2; ranges := v3;
        failed_bytes := v4; advisory_failures := v5; rs_state := v6; rs_last_error := v7;
        minimum_order := v8; maximum_range_bytes := v9 |}.

Example request_size : calcsize REQUEST = 280%nat.
Proof. reflexivity. Qed.
Example response_size : calcsize RESPONSE = 276%nat.
Proof. reflexivity. Qed.
Example bridge_result_size : calcsize BRIDGE_RESULT = 64%nat.
Proof. reflexivity. Qed.

(** ** Reading and writing the pipes *)

Section client.
Context {S : Type} `{E : Env} `{Strerror}.

Definition timed_out (got : bytes) (n : Z) : exn :=
  TimeoutError ("hosted control response timed out after " +:+ str_of_Z (Z.of_nat (length got))
                +:+ "/" +:+ str_of_Z n +:+ " bytes").

(** The loop of [read_exact_fd]: each turn reads at least one byte or raises,
    so [n] turns are enough for [n] bytes. *)
Fixpoint read_loop (fuel : nat) (fd n : Z) (deadline : Q) (result : bytes) : M S bytes :=
  if Z.of_nat (length result) <? n then
    match fuel with
    | O => out_of_fuel
    | Datatypes.S fuel =>
        now ← perform CClock;
        let remaining := Qminus deadline now in
        if Qle_bool remaining 0 then raise (timed_out result n)
        else
          readable ← perform (CSelect fd remaining);
          if negb readable then raise (timed_out result n)
          else
            chunk ← perform (CReadFd fd (n - Z.of_nat (length result)));
            match chunk with
            | [] => raise (EOFError ("hosted control response reached EOF after "
                       +:+ str_of_Z (Z.of_nat (length result)) +:+ "/" +:+ str_of_Z n +:+ " bytes"))
            | _ => read_loop fuel fd n deadline (result ++ chunk)
            end
    end
  else mret result.

Definition number (v : pyval) (fld : string) : res Q :=
  match v with
  | VInt z => Ok (inject_Z z)
  | VFloat q => Ok q
  | _ => Err (TypeError (fld +:+ " must be a number"))
  end.

Definition read_exact_fd (fd length timeout : pyval) : M S bytes :=
  fd ← of_res (bounded_integer fd "fd" 0 (2 ^ 31 - 1));
  n ← of_res (bounded_integer length "length" 1 (2 ^ 31 - 1));
  t ← of_res (number timeout "timeout");
  _ ← of_res (raise_if (Qle_bool t 0) (ValueError "timeout must be positive"));
  now ← perform CClock;
  read_loop (Z.to_nat n) fd n (Qplus now t) [].

(** ** The client *)

Record ControlClient := { cc_stdout : Z; cc_timeout : Q }.

(** [ControlClient.__init__]; a pipe is its descriptor. *)
Definition new_control_client (stdin stdout : option Z) (timeout : Q) : res ControlClient :=
  match stdin, stdout with
  | Some _, Some fd =>
      _ ← raise_if (Qle_bool timeout 0) (ValueError "control timeout must be positive");
      Ok {| cc_stdout := fd; cc_timeout := timeout |}
  | _, _ => Err (ValueError "hosted control pipes are unavailable")
  end.

(** The guarded write of [transact]. *)
Definition send_request (op : Z) (encoded : bytes) : M S unit :=
  try_except
    (written ← perform (CPipeWrite encoded);
     _ ← match written with
         | Some w =>
             if w =? Z.of_nat (length encoded) then mret tt
             else raise (BrokenPipeError ("short control write: " +:+ str_of_Z w
                                          +:+ "/" +:+ str_of_Z (Z.of_nat (length encoded)) +:+ " bytes"))
         | None => mret tt
         end;
     perform CPipeFlush)
    (fun error =>
       if is_OSError error || is_ValueError error
       then raise (ControlError ("could not send hosted " +:+ op_name op +:+ " request: "
                                 +:+ exn_str error))
       else raise error).

Definition transact (c : ControlClient) (rq : control_request) (allowed_statuses : list Z)
    : M S ControlResponse :=
  _ ← of_res (raise_if (bool_decide (allowed_statuses = []))
                (ValueError "allowed_statuses must not be empty"));
  encoded ← of_res (encode_request (VInt (rq_operation rq)) (VInt (rq_handle rq))
                      (VInt (rq_arg0 rq)) (VInt (rq_arg1 rq)) (VBytes (rq_data rq)));
  _ ← send_request (rq_operation rq) encoded;
  raw ← read_exact_fd (VInt (cc_stdout c)) (VInt (Z.of_nat (calcsize RESPONSE)))
          (VFloat (cc_timeout c));
  response ← of_res (decode_response (VBytes raw) (rq_operation rq));
  if bool_decide (status response ∈ allowed_statuses) then mret response
  else raise (control_operation_error (rq_operation rq) (status response)).

(** ** The channel as its clients see it

    [HostedKernelRuntime] talks to a [ControlChannel]; the events of this
    development's runtime model are whole transactions.  A reply that is not
    among the allowed statuses is a [ControlOperationError]. *)

Definition transact_reply (op : Z) (allowed_statuses : list Z) (r : control_reply)
    : res ControlResponse :=
  match r with
  | CtlReply st h d =>
      if bool_decide (st ∈ allowed_statuses)
      then Ok {| operation := op; status := st; handle := h; data := d |}
      else Err (control_operation_error op st)
  | CtlProtocol t => Err (ControlProtocolError t)
  | CtlSend t => Err (ControlError t)
  end.

Definition channel_check (rq : control_request) (allowed_statuses : list Z) : res unit :=
  _ ← raise_if (bool_decide (allowed_statuses = []))
        (ValueError "allowed_statuses must not be empty");
  _ ← encode_request (VInt (rq_operation rq)) (VInt (rq_handle rq))
        (VInt (rq_arg0 rq)) (VInt (rq_arg1 rq)) (VBytes (rq_data rq));
  Ok tt.

Definition channel_transact (rq : control_request) (allowed_statuses : list Z)
    : M S ControlResponse :=
  _ ← of_res (channel_check rq allowed_statuses);
  r ← perform (CTransact rq);
  of_res (transact_reply (rq_operation rq) allowed_statuses r).

(** What a transaction gives when the channel answers [r]. *)
Definition channel_outcome (rq : control_request) (allowed_statuses : list Z)
    (r : reply control_reply) : outcome ControlResponse :=
  match channel_check rq allowed_statuses with
  | Err e => Raise e
  | Ok _ =>
      match r with
      | Fault e => Raise (Sys e)
      | Answer r =>
          match transact_reply (rq_operation rq) allowed_statuses r with
          | Ok v => Ret v
          | Err e => Raise e
          end
      end
  end.

End client.

(** ** Lemmas *)

Lemma bounded_integer_Ok v f lo hi z :
  bounded_integer v f lo hi = Ok z <-> v = VInt z /\ lo <= z <= hi.
Proof.
  unfold bounded_integer. destruct v; try (split; [done|intros [? _]; done]).
  case_match; bool_to_prop; split; try naive_solver.
  - intros [[= ->] ?]. apply andb_false_iff in H as []; bool_to_prop; lia.
Qed.

(** The exceptions of the validators. *)
Definition is_TypeError (e : exn) : bool := match e with Sys (STypeError _) => true | _ => false end.

Lemma bounded_integer_cases v f lo hi :
  match bounded_integer v f lo hi with
  | Ok z => v = VInt z /\ lo <= z <= hi
  | Err e =>
      is_TypeError e || is_ValueError e = true /\ forall z, v = VInt z -> ~ (lo <= z <= hi)
  end.
Proof.
  destruct (bounded_integer v f lo hi) as [z|e] eqn:H.
  - by apply bounded_integer_Ok in H.
  - split.
    + unfold bounded_integer in H. crush_match; by injection H as <-.
    + intros z -> Hz. assert (bounded_integer (VInt z) f lo hi = Ok z) by (by apply bounded_integer_Ok).
      congruence.
Qed.

Lemma uint_fits_true n z : 0 <= z < 2 ^ (8 * Z.of_nat n) -> uint_fits n z = true.
Proof. intros ?. unfold uint_fits. apply andb_true_iff. rewrite Z.leb_le, Z.ltb_lt. lia. Qed.

Lemma int_fits_true n z :
  - 2 ^ (8 * Z.of_nat n - 1) <= z < 2 ^ (8 * Z.of_nat n - 1) -> int_fits n z = true.
Proof. intros ?. unfold int_fits. apply andb_true_iff. rewrite Z.leb_le, Z.ltb_lt. lia. Qed.

Lemma exact_bytes_Ok raw n what b :
  exact_bytes raw n what = Ok b <-> raw = VBytes b /\ length b = n.
Proof.
  unfold exact_bytes. destruct raw; try (split; [done|intros [? _]; done]).
  case_match; bool_to_prop; naive_solver.
Qed.

(** Decides that concrete values fit a concrete format. *)
Ltac solve_fit :=
  repeat lazymatch goal with
  | |- true = true => reflexivity
  | |- uint_fits _ _ = true => apply uint_fits_true; cbn; lia
  | |- int_fits _ _ = true => apply int_fits_true; cbn; lia
  | |- (_ =? _)%nat = true => apply Nat.eqb_eq
  | |- (_ && _)%bool = true => apply andb_true_iff; split
  end; try done.

(** ** Properties *)

(** C26. A request that encodes is one 280-byte record from which the hosted side
    reads back exactly the operation, handle and arguments that were passed,
    and the payload's length prefix selects exactly the payload. *)
Theorem encode_request_roundtrip op h a0 a1 d b :
  encode_request op h a0 a1 d = Ok b ->
  exists zop zh z0 z1 payload field,
    op = VInt zop /\ h = VInt zh /\ a0 = VInt z0 /\ a1 = VInt z1 /\ d = VBytes payload /\
    length b = 280%nat /\
    unpack REQUEST b =
      (MAGIC, (VERSION, (zop, (zh, (z0, (z1, (Z.of_nat (length payload), (field, tt)))))))) /\
    length field = 256%nat /\ take (length payload) field = payload.
Proof.
  unfold encode_request. intros Henc. res_inv. destruct d as [| | | | |d|]; try done. res_inv.
  repeat match goal with H : bounded_integer _ _ _ _ = Ok _ |- _ =>
    apply bounded_integer_Ok in H as [-> ?] end.
  bool_to_prop. unfold MAX_PAYLOAD in *.
  eexists _, _, _, _, _, _. split_and!; try done.
  - by apply pack_length in Henc.
  - eapply unpack_pack; [done| |exact Henc]. cbn [values_fit REQUEST fst snd].
    rewrite length_ljust by lia. solve_fit.
  - apply length_ljust. lia.
  - apply take_ljust; [done|lia].
Qed.

Lemma encode_request_roundtrip_witness :
  exists b, encode_request (VInt OP_CLOSE) (VInt 7) (VInt 0) (VInt 0) (VBytes [Byte.x61]) = Ok b /\
    length b = 280%nat.
Proof.
  destruct (encode_request (VInt OP_CLOSE) (VInt 7) (VInt 0) (VInt 0) (VBytes [Byte.x61])) as [b|] eqn:E.
  - exists b. split; [done|].
    destruct (encode_request_roundtrip _ _ _ _ _ _ E) as (?&?&?&?&?&?&?&?&?&?&?&Hl&_). exact Hl.
  - vm_compute in E. discriminate E.
Defined.

(** The arguments the ABI can carry. *)
Definition request_valid (op h a0 a1 d : pyval) : Prop :=
  exists zop zh z0 z1 payload,
    op = VInt zop /\ h = VInt zh /\ a0 = VInt z0 /\ a1 = VInt z1 /\ d = VBytes payload /\
    1 <= zop <= 65535 /\ - 2 ^ 31 <= zh < 2 ^ 31 /\ 0 <= z0 < 2 ^ 32 /\ 0 <= z1 < 2 ^ 32 /\
    (length payload <= 256)%nat.

Lemma encode_request_cases op h a0 a1 d :
  match encode_request op h a0 a1 d with
  | Ok _ => request_valid op h a0 a1 d
  | Err e => is_TypeError e || is_ValueError e = true /\ ~ request_valid op h a0 a1 d
  end.
Proof.
  unfold encode_request, request_valid.
  pose proof (bounded_integer_cases op "operation" 1 0xFFFF) as Hop.
  pose proof (bounded_integer_cases h "handle" (- 2 ^ 31) (2 ^ 31 - 1)) as Hh.
  pose proof (bounded_integer_cases a0 "arg0" 0 0xFFFFFFFF) as H0.
  pose proof (bounded_integer_cases a1 "arg1" 0 0xFFFFFFFF) as H1.
  destruct (bounded_integer op _ _ _) as [zop|e]; [|naive_solver lia]. destruct Hop as [-> ?].
  destruct (bounded_integer h _ _ _) as [zh|e]; [|naive_solver lia]. destruct Hh as [-> ?].
  destruct (bounded_integer a0 _ _ _) as [z0|e]; [|naive_solver lia]. destruct H0 as [-> ?].
  destruct (bounded_integer a1 _ _ _) as [z1|e]; [|naive_solver lia]. destruct H1 as [-> ?].
  cbn [mbind res_bind].
  destruct d as [| | | | |d|]; try (split; [done|naive_solver]).
  unfold raise_if, MAX_PAYLOAD. destruct (256 <? _) eqn:Hlen; bool_to_prop; cbn [mbind res_bind].
  - split; [done|]. intros (?&?&?&?&?&_&_&_&_&[= <-]&_&_&_&_&?). lia.
  - edestruct pack_fit as [b ->]; [|by eexists _, _, _, _, _; split_and!; try done; lia].
    cbn [values_fit REQUEST fst snd]. rewrite length_ljust by lia. solve_fit.
Qed.

(** Encoding succeeds exactly on integers (never booleans) in the ABI's
    ranges with at most 256 payload bytes, and otherwise raises [TypeError] or
    [ValueError]: no field reaches [struct] out of range. *)
Theorem encode_request_validates op h a0 a1 d :
  match encode_request op h a0 a1 d with
  | Ok _ => request_valid op h a0 a1 d
  | Err e => is_TypeError e || is_ValueError e = true /\ ~ request_valid op h a0 a1 d
  end.
Proof. apply encode_request_cases. Qed.

Lemma channel_check_ok rq allowed :
  allowed <> [] -> 1 <= rq_operation rq <= 65535 -> - 2 ^ 31 <= rq_handle rq < 2 ^ 31 ->
  0 <= rq_arg0 rq < 2 ^ 32 -> 0 <= rq_arg1 rq < 2 ^ 32 -> (length (rq_data rq) <= 256)%nat ->
  channel_check rq allowed = Ok tt.
Proof.
  intros Ha Hop Hh H0 H1 Hd. unfold channel_check. rewrite bool_decide_false by done. cbn [raise_if mbind res_bind].
  pose proof (encode_request_cases (VInt (rq_operation rq)) (VInt (rq_handle rq)) (VInt (rq_arg0 rq)) (VInt (rq_arg1 rq))
    (VBytes (rq_data rq))) as H. destruct (encode_request _ _ _ _ _); [done|]. destruct H as [_ []].
  unfold request_valid. by eexists _, _, _, _, _.
Qed.

(** C29. Decoding a response succeeds exactly on the 276-byte records with the
    protocol's magic, version and the requested operation and a length of at
    most 256, and returns that record's status, handle and payload prefix. *)
Theorem decode_response_iff b op r :
  decode_response (VBytes b) op = Ok r <->
  exists n payload,
    pack RESPONSE (MAGIC, (VERSION, (op, (status r, (handle r, (Z.of_nat n, (payload, tt))))))) = Ok b /\
    length payload = 256%nat /\ (n <= 256)%nat /\
    operation r = op /\ data r = take n payload.
Proof.
  unfold decode_response. split.
  - intros H. res_inv. apply exact_bytes_Ok in H0 as [[= <-] Hl].
    pose proof (pack_unpack RESPONSE b eq_refl eq_refl Hl) as Hp.
    pose proof (unpack_fit RESPONSE b eq_refl Hl) as Hfit.
    destruct (unpack RESPONSE b) as [magic [version [o [st [hd [len [payload []]]]]]]] eqn:Hu.
    res_inv. bool_to_prop. subst. cbn [operation status handle data].
    cbn [values_fit RESPONSE fst snd] in Hfit. unfold uint_fits in Hfit. bool_to_prop.
    unfold MAX_PAYLOAD in *.
    exists (Z.to_nat len), payload. rewrite Z2Nat.id by lia. split_and!; try done. lia.
  - intros (n & payload & Hp & Hl & Hn & Hop & Hd).
    pose proof (pack_length _ _ _ Hp) as Hlen.
    assert (values_fit RESPONSE
      (MAGIC, (VERSION, (op, (status r, (handle r, (Z.of_nat n, (payload, tt))))))) = true) as Hfit.
    { cbn [pack RESPONSE fst snd] in Hp. cbn [values_fit RESPONSE fst snd].
      res_inv. repeat (case_match; res_inv). solve_fit. }
    pose proof (unpack_pack RESPONSE _ b eq_refl Hfit Hp) as Hu.
    assert (exact_bytes (VBytes b) (calcsize RESPONSE) "control response has" = Ok b) as ->
      by (by apply exact_bytes_Ok).
    cbn [mbind res_bind]. rewrite Hu. cbn -[take Z.to_nat str_of_Z].
    rewrite Z.eqb_refl. cbn -[take Z.to_nat str_of_Z].
    destruct (MAX_PAYLOAD <? Z.of_nat n) eqn:E; bool_to_prop; unfold MAX_PAYLOAD in *; [lia|].
    cbn -[take Z.to_nat str_of_Z]. rewrite Nat2Z.id. destruct r. cbn in *. by subst.
Qed.

(** The record a bridge completion snapshot carries. *)
Definition bridge_values (r : BridgeResult) : values BRIDGE_RESULT :=
  (token r, (public_to_backend_bytes r, (backend_to_public_bytes r, (buffer_limit r,
   (total_buffer_limit r, (terminal_events r, (host_send_eagain r, (host_partial_writes r,
   (host_recv_eagain r, (session_limit r, (br_status r, (0, (0, tt))))))))))))).

Definition service_values (r : ServiceStats) : values SERVICE_STATS :=
  (accepted_connections r, (completed_connections r, (rejected_connections r,
   (ss_public_to_backend_bytes r, (ss_backend_to_public_bytes r, (active_connections r,
   (peak_connections r, (ss_max_connections r, (accept_batch r, (accept_eagain r,
   (bridge_start_failures r, (terminal_failures r, (state r, (last_error r,
   (0, (0, (0, tt))))))))))))))))).

Definition reclaim_values (r : ReclaimStats) : values RECLAIM_STATS :=
  (reported_bytes r, (successful_discard_bytes r, (batches r, (ranges r, (failed_bytes r,
   (advisory_failures r, (rs_state r, (rs_last_error r, (minimum_order r,
   (maximum_range_bytes r, (0, (0, tt)))))))))))).

(** Packing succeeds only on values that fit, for formats of integers. *)
Definition int_format (fs : list field) : bool :=
  forallb (fun f => match f with FUint _ | FInt _ => true | _ => false end) fs.

Lemma pack_int_fits fs v b : int_format fs = true -> pack fs v = Ok b -> values_fit fs v = true.
Proof.
  unfold int_format. revert v b. induction fs as [|f fs IH]; intros v b Hf H; [done|].
  cbn [forallb] in Hf. destruct f; try done; cbn [pack values_fit] in *;
    res_inv; case_match; res_inv; by erewrite IH.
Qed.

Lemma int_format_ok fs : int_format fs = true -> no_padding fs = true.
Proof.
  unfold int_format, no_padding. rewrite !forallb_forall. intros H f Hf.
  specialize (H f Hf). by destruct f.
Qed.

Lemma unpack_int_iff fs v b :
  int_format fs = true -> format_wf fs = true ->
  pack fs v = Ok b <-> length b = calcsize fs /\ unpack fs b = v.
Proof.
  intros Hi Hwf. split.
  - intros H. split; [by eapply pack_length|]. eapply unpack_pack; [done| |done].
    by eapply pack_int_fits.
  - intros [Hl <-]. apply pack_unpack; [done|by apply int_format_ok|done].
Qed.

(** A bridge completion snapshot decodes exactly when it is 64 bytes with
    zero reserved fields, a non-positive status (zero unless terminal errors
    are allowed) and a positive session limit, and every counter is read back. *)
Theorem decode_bridge_result_iff b allow r :
  decode_bridge_result (VBytes b) allow = Ok r <->
  pack BRIDGE_RESULT (bridge_values r) = Ok b /\
  br_status r <= 0 /\ (allow = false -> br_status r = 0) /\ 1 <= session_limit r.
Proof.
  rewrite unpack_int_iff by done. unfold decode_bridge_result. split.
  - intros H. res_inv. apply exact_bytes_Ok in H0 as [[= <-] Hl].
    destruct (unpack BRIDGE_RESULT b) as (t & p & q & bl & tl & te & hs & hp & hr & sl & st & r0 & r1 & []).
    res_inv. cbn. bool_to_prop. subst. split_and!; try done.
    intros ->. destruct (st =? 0) eqn:E; [by bool_to_prop|done].
  - intros ([Hl Hu] & Hst & Hallow & Hlim).
    assert (exact_bytes (VBytes b) (calcsize BRIDGE_RESULT) "bridge result has" = Ok b) as ->
      by (by apply exact_bytes_Ok).
    cbn [mbind res_bind]. rewrite Hu. unfold bridge_values. cbn -[str_of_Z Z.ltb].
    assert (0 <? br_status r = false) as -> by (apply Z.ltb_ge; lia).
    assert (session_limit r <? 1 = false) as -> by (apply Z.ltb_ge; lia).
    assert (negb (br_status r =? 0) && negb allow = false) as ->.
    { destruct allow; [apply andb_false_r|]. by rewrite Hallow. }
    by destruct r.
Qed.

(** A service snapshot decodes exactly when it is 88 bytes with zero
    reserved fields and a non-positive last error, and every field is read back. *)
Theorem decode_service_stats_iff b r :
  decode_service_stats (VBytes b) = Ok r <->
  pack SERVICE_STATS (service_values r) = Ok b /\ last_error r <= 0.
Proof.
  rewrite unpack_int_iff by done. unfold decode_service_stats. split.
  - intros H. res_inv. apply exact_bytes_Ok in H0 as [[= <-] Hl].
    destruct (unpack SERVICE_STATS b) as (v0&v1&v2&v3&v4&v5&v6&v7&v8&v9&v10&v11&v12&v13&r0&r1&r2&[]).
    res_inv. cbn. bool_to_prop. subst. by split_and!.
  - intros ([Hl Hu] & He).
    assert (exact_bytes (VBytes b) (calcsize SERVICE_STATS) "service stats have" = Ok b) as ->
      by (by apply exact_bytes_Ok).
    cbn [mbind res_bind]. rewrite Hu. unfold service_values. cbn -[str_of_Z Z.ltb tuple_str].
    assert (0 <? last_error r = false) as -> by (apply Z.ltb_ge; lia). by destruct r.
Qed.

(** A reclaim snapshot decodes exactly when it is 72 bytes with zero
    reserved fields, a known state, a non-positive last error, an order of at
    most 63 and a non-zero range size, and every field is read back. *)
Theorem decode_reclaim_stats_iff b r :
  decode_reclaim_stats (VBytes b) = Ok r <->
  pack RECLAIM_STATS (reclaim_values r) = Ok b /\
  rs_state r <= 3 /\ rs_last_error r <= 0 /\ minimum_order r <= 63 /\ maximum_range_bytes r <> 0.
Proof.
  rewrite unpack_int_iff by done. unfold decode_reclaim_stats. split.
  - intros H. res_inv. apply exact_bytes_Ok in H0 as [[= <-] Hl].
    destruct (unpack RECLAIM_STATS b) as (v0&v1&v2&v3&v4&v5&v6&v7&v8&v9&r0&r1&[]).
    res_inv. cbn. bool_to_prop. subst. by split_and!.
  - intros ([Hl Hu] & Hs & He & Ho & Hm).
    assert (exact_bytes (VBytes b) (calcsize RECLAIM_STATS) "reclaim stats have" = Ok b) as ->
      by (by apply exact_bytes_Ok).
    cbn [mbind res_bind]. rewrite Hu. unfold reclaim_values. cbn -[str_of_Z Z.ltb tuple_str].
    assert (3 <? rs_state r = false) as -> by (apply Z.ltb_ge; lia).
    assert (0 <? rs_last_error r = false) as -> by (apply Z.ltb_ge; lia).
    assert (63 <? minimum_order r = false) as -> by (apply Z.ltb_ge; lia).
    assert (maximum_range_bytes r =? 0 = false) as -> by (apply Z.eqb_neq; lia). by destruct r.
Qed.

(** The fixed-width endpoint record carries the address's version and
    network-order bytes and the port, for exactly the usable unicast literals. *)
Theorem encode_ip_endpoint_roundtrip addr port b :
  encode_ip_endpoint addr port = Ok b ->
  exists s a p field,
    addr = VStr s /\ ip_address s = Some a /\ is_unspecified a = false /\ is_multicast a = false /\
    port = VInt p /\ 1 <= p <= 65535 /\ length b = 24%nat /\
    unpack IP_ENDPOINT b = (ip_version a, (field, (p, (0, tt)))) /\
    be_val (take (if ip_version a =? 4 then 4 else 16) field) = ip_int a.
Proof.
  unfold encode_ip_endpoint. intros H. res_inv. apply bounded_integer_Ok in H1 as [-> Hp].
  unfold usable_ip_address in H0. destruct addr as [| | | |s| |]; try done.
  destruct (ip_address s) as [a|] eqn:Ha; [|done].
  destruct (is_unspecified a || is_multicast a) eqn:Hu; [done|]. bool_to_prop.
  injection H0 as <-.
  pose proof (ip_address_wf _ _ Ha) as Hwf.
  assert (length (packed a) <= 16)%nat by (destruct a; cbn [packed]; rewrite length_be_bytes; lia).
  eexists _, _, _, (ljust 16 (packed a)). split_and!; try done; try lia.
  - by apply pack_length in H.
  - eapply unpack_pack; [done| |exact H]. cbn [values_fit IP_ENDPOINT fst snd].
    rewrite length_ljust by done. solve_fit. by destruct a.
  - unfold ip_wf in Hwf. destruct a as [v|v sc]; bool_to_prop; cbn [ip_version packed ip_int Z.eqb Pos.eqb];
      rewrite take_ljust by (rewrite ?length_be_bytes; lia); rewrite be_val_bytes; apply Z.mod_small; lia.
Qed.

(** ** The client's transactions *)

(** The bytes read from the pipe during a trace. *)
Definition event_read (ev : event) : bytes :=
  match ev with
  | Ev c r =>
      match c return reply (ret c) -> bytes with
      | CReadFd _ _ => fun r => match r with Answer b => b | Fault _ => [] end
      | _ => fun _ => []
      end r
  end.
Definition read_bytes (tr : trace) : bytes := concat (event_read <$> tr).

(** [os.read] never returns more than it was asked for. *)
Definition reads_bounded (E : Env) : Prop :=
  forall tr fd n b, E tr (CReadFd fd n) = Answer b -> Z.of_nat (length b) <= Z.max 0 n.

Lemma read_bytes_app t u : read_bytes (t ++ u) = read_bytes t ++ read_bytes u.
Proof. unfold read_bytes. by rewrite fmap_app, concat_app. Qed.

Section client_proofs.
Context {S : Type} `{E : Env} `{Strerror}.

Lemma wp_read_loop fuel fd n dl result (s : S) tr :
  n <= Z.of_nat (length result) + Z.of_nat fuel ->
  wp (read_loop fuel fd n dl result) (fun o s' tr' =>
    s' = s /\ exists suf, tr' = tr ++ suf /\
    match o with
    | Ret b => b = result ++ read_bytes suf /\ n <= Z.of_nat (length b) /\
        (reads_bounded E -> Z.of_nat (length result) <= n -> Z.of_nat (length b) = n)
    | Raise e => exists e', e = Sys e'
    | OutOfFuel => False
    end) s tr.
Proof.
  revert result tr. induction fuel as [|fuel IH]; intros result tr Hfuel; cbn [read_loop];
    (destruct (_ <? n) eqn:Hlt; bool_to_prop;
     [|apply wp_ret; split; [done|]; exists []; split; [by rewrite app_nil_r|];
       rewrite app_nil_r; split_and!; [done|lia|intros; lia]]).
  - lia.
  - wp_step. wp_call; [intros now Hnow|intros e _; split; [done|]; by eauto].
    case_match; [apply wp_raise; split; [done|]; unfold timed_out; by eauto|].
    wp_step. wp_call; [intros rd Hrd|intros e _; split; [done|]; rewrite <- app_assoc; by eauto].
    case_match; [apply wp_raise; split; [done|]; rewrite <- app_assoc; unfold timed_out; by eauto|].
    wp_step. wp_call; [intros chunk Hchunk|intros e _; split; [done|]; rewrite <- !app_assoc; by eauto].
    destruct chunk as [|c rest] eqn:Hc.
    + apply wp_raise. split; [done|]. rewrite <- !app_assoc. unfold EOFError. by eauto.
    + rewrite <- Hc in *. eapply wp_mono; [|apply IH].
      2: { rewrite length_app, Hc. cbn. lia. }
      intros o s' tr' (-> & suf & -> & Ho). split; [done|]. rewrite <- !app_assoc.
      eexists. split; [done|]. destruct o as [b|e|]; [|done|done].
      destruct Ho as (-> & Hn & Hb). rewrite !read_bytes_app, !app_assoc in *.
      split; [by cbn; rewrite !app_nil_r|]. split; [done|]. intros HE Hl. apply Hb; [done|].
      apply HE in Hchunk. rewrite length_app. lia.
Qed.

Lemma wp_read_exact_fd fd n timeout (s : S) tr :
  wp (read_exact_fd fd n timeout) (fun o s' tr' =>
    s' = s /\ exists suf, tr' = tr ++ suf /\
    match o with
    | Ret b => b = read_bytes suf /\ (reads_bounded E -> n = VInt (Z.of_nat (length b)))
    | Raise e => exists e', e = Sys e'
    | OutOfFuel => False
    end) s tr.
Proof.
  unfold read_exact_fd.
  pose proof (bounded_integer_cases fd "fd" 0 (2 ^ 31 - 1)) as Hfd.
  pose proof (bounded_integer_cases n "length" 1 (2 ^ 31 - 1)) as Hn.
  assert (forall e, is_TypeError e || is_ValueError e = true -> exists e', e = Sys e') as Hsys.
  { intros [e| | | | | | | | | | | | | | |]; cbn; try done. by eauto. }
  wp_step. apply wp_of_res. destruct (bounded_integer fd _ _ _) as [zfd|e].
  2: { destruct Hfd. split; [done|]. exists []. rewrite app_nil_r. auto. }
  wp_step. apply wp_of_res. destruct (bounded_integer n _ _ _) as [zn|e].
  2: { destruct Hn. split; [done|]. exists []. rewrite app_nil_r. auto. }
  destruct Hn as [-> Hn].
  assert (forall e', (s = s /\ exists suf, tr = tr ++ suf /\ exists e0, Sys e' = Sys e0)) as Hstop.
  { intros e'. split; [done|]. exists []. rewrite app_nil_r. eauto. }
  wp_step. apply wp_of_res. destruct (number timeout "timeout") as [q|e] eqn:Hq.
  2: { destruct timeout; cbn in Hq; try done; injection Hq as <-; apply Hstop. }
  wp_step. apply wp_of_res. destruct (Qle_bool q 0); [apply Hstop|]. cbn [raise_if].
  wp_step. wp_call; [intros now _|intros e _; split; [done|]; by eauto].
  eapply wp_mono; [|apply wp_read_loop; cbn; lia].
  intros o s' tr' (-> & suf & -> & Ho). split; [done|]. rewrite <- app_assoc.
  eexists. split; [done|]. destruct o as [b|e|]; [|done|done].
  destruct Ho as (-> & _ & Hb). rewrite app_nil_l in *. rewrite read_bytes_app.
  split; [done|]. intros HE. by rewrite Hb by (cbn; done || lia).
Qed.

(** C27. Reading one record always returns or raises (as many turns as bytes are
    enough), and with an [os.read] that respects its argument a returned record
    is exactly the requested number of bytes, the concatenation of what the
    pipe delivered, in order. *)
Theorem read_exact_fd_exact fd n timeout (s : S) tr :
  reads_bounded E ->
  wp (read_exact_fd fd n timeout) (fun o s' tr' =>
    s' = s /\ exists suf, tr' = tr ++ suf /\
    match o with
    | Ret b => n = VInt (Z.of_nat (length b)) /\ b = read_bytes suf
    | Raise e => exists e', e = Sys e'
    | OutOfFuel => False
    end) s tr.
Proof.
  intros HE. eapply wp_mono; [|apply wp_read_exact_fd].
  intros o s' tr' (-> & suf & -> & Ho). split; [done|]. exists suf. split; [done|].
  destruct o; naive_solver.
Qed.

Lemma decode_response_Err b op e :
  decode_response b op = Err e -> exists t, e = ControlProtocolError t.
Proof.
  unfold decode_response, raise_if. destruct (exact_bytes _ _ _) as [raw|] eqn:Hx.
  - cbn [mbind res_bind].
    destruct (unpack RESPONSE raw) as (magic & version & o & st & hd & len & payload & []).
    intros Hd. repeat (case_match; cbn [mbind res_bind] in *; simplify_eq; eauto).
  - unfold exact_bytes in Hx. intros [= <-]. destruct b; try case_match; simplify_eq; eauto.
Qed.

Lemma decode_response_operation b op r : decode_response b op = Ok r -> operation r = op.
Proof.
  unfold decode_response. intros H0. res_inv.
  destruct (unpack RESPONSE x) as (magic & version & o & st & hd & len & payload & []).
  res_inv. by bool_to_prop.
Qed.

(** The text of a failure to send. *)
Definition send_reply (op : Z) (e : sysexn) : reply control_reply :=
  if is_OSError (Sys e) || is_ValueError (Sys e)
  then Answer (CtlSend ("could not send hosted " +:+ op_name op +:+ " request: " +:+ exn_str (Sys e)))
  else Fault e.

Definition short_write (written expected : Z) : sysexn :=
  SOSError OsBrokenPipe None ("short control write: " +:+ str_of_Z written +:+ "/" +:+ str_of_Z expected +:+ " bytes").

(** What a record that was read amounts to. *)
Definition received (op : Z) (raw : bytes) : reply control_reply :=
  match decode_response (VBytes raw) op with
  | Ok r => Answer (CtlReply (status r) (handle r) (data r))
  | Err (ControlProtocolError text) => Answer (CtlProtocol text)
  | Err e => Answer (CtlProtocol (exn_str e))
  end.

(** The calls that read one descriptor. *)
Definition reading_pipe (fd : Z) (c : call) : Prop :=
  match c with CClock => True | CSelect f _ | CReadFd f _ => f = fd | _ => False end.

Definition read_response (c : ControlClient) : M S bytes :=
  read_exact_fd (VInt (cc_stdout c)) (VInt (Z.of_nat (calcsize RESPONSE))) (VFloat (cc_timeout c)).

(** One exchange over the pipes, from the trace [tr], and the reply of the
    channel it stands for: the encoded request is written and flushed, each
    once, and only then one record is read from the child. *)
Inductive exchanged (c : ControlClient) (op : Z) (encoded : bytes) (s : S) (tr : trace) : trace -> reply control_reply -> Prop :=
  | ex_write_fails e :
      exchanged c op encoded s tr (tr ++ [Ev (CPipeWrite encoded) (Fault e)]) (send_reply op e)
  | ex_write_short w : w <> Z.of_nat (length encoded) ->
      exchanged c op encoded s tr (tr ++ [Ev (CPipeWrite encoded) (Answer (Some w))])
        (send_reply op (short_write w (Z.of_nat (length encoded))))
  | ex_flush_fails w e : (forall n, w = Some n -> n = Z.of_nat (length encoded)) ->
      exchanged c op encoded s tr (tr ++ [Ev (CPipeWrite encoded) (Answer w); Ev CPipeFlush (Fault e)]) (send_reply op e)
  | ex_read_fails w suf e : (forall n, w = Some n -> n = Z.of_nat (length encoded)) ->
      let sent := tr ++ [Ev (CPipeWrite encoded) (Answer w); Ev CPipeFlush (Answer tt)] in
      Forall (fun ev => reading_pipe (cc_stdout c) (ev_call ev)) suf ->
      read_response c s sent = (Raise (Sys e), s, sent ++ suf) ->
      exchanged c op encoded s tr (sent ++ suf) (Fault e)
  | ex_read w suf raw : (forall n, w = Some n -> n = Z.of_nat (length encoded)) ->
      let sent := tr ++ [Ev (CPipeWrite encoded) (Answer w); Ev CPipeFlush (Answer tt)] in
      Forall (fun ev => reading_pipe (cc_stdout c) (ev_call ev)) suf ->
      read_response c s sent = (Ret raw, s, sent ++ suf) -> raw = read_bytes suf ->
      exchanged c op encoded s tr (sent ++ suf) (received op raw).

Lemma emits_read_response c : emits (reading_pipe (cc_stdout c)) (read_response c).
Proof.
  assert (forall fuel n dl result, emits (reading_pipe (cc_stdout c)) (read_loop (S := S) fuel (cc_stdout c) n dl result)) as Hloop.
  { intros fuel n dl. induction fuel as [|fuel IH]; intros result; cbn [read_loop]; emits. }
  unfold read_response, read_exact_fd. pose proof (bounded_integer_cases (VInt (cc_stdout c)) "fd" 0 (2 ^ 31 - 1)) as Hfd.
  destruct (bounded_integer (VInt (cc_stdout c)) "fd" 0 (2 ^ 31 - 1)) as [fd|e]; [|by apply emits_nil].
  destruct Hfd as [[= <-] _]. change (of_res (Ok (cc_stdout c)) ≫= ?k) with (k (cc_stdout c)). cbn beta. emits; apply Hloop.
Qed.

(** The guarded write: either the exchange ends here, or all was sent. *)
Definition sent_post (c : ControlClient) (op : Z) (encoded : bytes) (s0 : S) (tr : trace) (o : outcome unit) (s : S) (tr' : trace) : Prop :=
  s = s0 /\
  match o with
  | Ret _ => exists w, (forall n, w = Some n -> n = Z.of_nat (length encoded)) /\
      tr' = tr ++ [Ev (CPipeWrite encoded) (Answer w); Ev CPipeFlush (Answer tt)]
  | Raise e => exists r, exchanged c op encoded s0 tr tr' r /\
      Raise e = match r with Fault x => Raise (Sys x) | Answer (CtlSend t) => Raise (ControlError t) | Answer _ => OutOfFuel end
      :> outcome unit
  | OutOfFuel => False
  end.

Lemma wp_send_request c op encoded (s : S) tr :
  wp (send_request op encoded) (sent_post c op encoded s tr) s tr.
Proof.
  assert (forall e tr', exchanged c op encoded s tr tr' (send_reply op e) ->
    wp (if is_OSError (Sys e) || is_ValueError (Sys e)
        then raise (ControlError ("could not send hosted " +:+ op_name op +:+ " request: " +:+ exn_str (Sys e)))
        else raise (Sys e)) (sent_post c op encoded s tr) s tr') as Hraise.
  { intros e tr' Hex. unfold send_reply in Hex. case_match; apply wp_raise; (split; [done|]); by eexists. }
  unfold send_request. apply wp_try, wp_bind. wp_call; [intros w _|intros e _; apply Hraise; constructor].
  assert (forall full : (forall n, w = Some n -> n = Z.of_nat (length encoded)),
    wp (perform CPipeFlush) (fun o s' tr' => match o with
      | Raise e => wp (if is_OSError e || is_ValueError e
          then raise (ControlError ("could not send hosted " +:+ op_name op +:+ " request: " +:+ exn_str e))
          else raise e) (sent_post c op encoded s tr) s' tr'
      | _ => sent_post c op encoded s tr o s' tr' end) s (tr ++ [Ev (CPipeWrite encoded) (Answer w)])) as Hflush.
  { intros Hfull. wp_call; [intros [] _|intros e _; apply Hraise]; rewrite <- app_assoc; [|by constructor].
    split; [done|]. by exists w. }
  apply wp_bind. destruct w as [w|]; [destruct (w =? _) eqn:Hw; bool_to_prop|].
  - apply wp_ret, Hflush. by intros n [= <-].
  - apply wp_raise. by apply (Hraise (short_write _ _)), ex_write_short.
  - by apply wp_ret, Hflush.
Qed.

(** C28. The byte-level client implements the control channel its users are
    written against.  A request that cannot be encoded touches no pipe.  Any
    other transaction writes the encoded request once and flushes it once, then
    reads one record from the child's pipe, stopping at the first step that
    fails, and its outcome is the one the abstract channel gives for the reply
    this exchange stands for: the decoded record, a record that does not decode,
    a failure to send, or the failure of the read itself.  It always ends. *)
Theorem transact_refines_channel c rq allowed (s : S) tr :
  wp (transact c rq allowed) (fun o s' tr' => s' = s /\
    match channel_check rq allowed with
    | Err e => o = Raise e /\ tr' = tr
    | Ok _ => exists encoded r,
        encode_request (VInt (rq_operation rq)) (VInt (rq_handle rq)) (VInt (rq_arg0 rq)) (VInt (rq_arg1 rq))
          (VBytes (rq_data rq)) = Ok encoded /\
        exchanged c (rq_operation rq) encoded s tr tr' r /\ o = channel_outcome rq allowed r
    end) s tr.
Proof.
  unfold transact, channel_outcome, channel_check.
  wp_step. apply wp_of_res. destruct (raise_if _ _) as [[]|e]; [|done].
  wp_step. apply wp_of_res. destruct (encode_request _ _ _ _ _) as [encoded|e]; [|done]. cbn [mbind res_bind].
  wp_step. eapply wp_mono; [|apply (wp_send_request c)]. intros [[]|e|] s' tr' [-> Ho]; [| |done].
  2: { destruct Ho as (r & Hex & He). split; [done|]. exists encoded, r. split_and!; [done|done|].
       destruct r as [[]|]; try done; by injection He as ->. }
  destruct Ho as (w & Hw & ->). wp_step. fold (read_response c).
  pose proof (emits_read_response c s (tr ++ [Ev (CPipeWrite encoded) (Answer w); Ev CPipeFlush (Answer tt)])) as Hem.
  pose proof (wp_read_exact_fd (VInt (cc_stdout c)) (VInt (Z.of_nat (calcsize RESPONSE))) (VFloat (cc_timeout c)) s
    (tr ++ [Ev (CPipeWrite encoded) (Answer w); Ev CPipeFlush (Answer tt)])) as Hr.
  fold (read_response c) in Hr. unfold wp in Hem, Hr |- * at 1.
  destruct (read_response c s _) as [[o s'] tr''] eqn:Hrun. destruct Hr as (-> & suf & -> & Hr), Hem as (suf' & Heq & Hem).
  apply app_inv_head in Heq as <-. destruct o as [raw|e|]; [| |done].
  2: { destruct Hr as [e' ->]. split; [done|]. exists encoded, (Fault e'). split_and!; [done|by constructor|done]. }
  destruct Hr as [Hraw _]. pose proof (ex_read c (rq_operation rq) encoded s tr w suf raw Hw Hem Hrun Hraw) as Hex.
  unfold received in Hex. wp_step. apply wp_of_res.
  destruct (decode_response (VBytes raw) (rq_operation rq)) as [r|e] eqn:Hd.
  2: { apply decode_response_Err in Hd as [t ->]. split; [done|]. by exists encoded, (Answer (CtlProtocol t)). }
  apply decode_response_operation in Hd.
  destruct (bool_decide (status r ∈ allowed)) eqn:Hst; [apply wp_ret|apply wp_raise]; (split; [done|]);
    exists encoded, (Answer (CtlReply (status r) (handle r) (data r))); (split_and!; [done|done|]);
    unfold transact_reply; rewrite Hst; [|done]. rewrite <- Hd. by destruct r.
Qed.

End client_proofs.

(** A pipe that delivers what is asked, at most two bytes at a time. *)
Definition pipe_env : Env := fun _ c =>
  match c return reply (ret c) with
  | CClock => Answer 0%Q
  | CSelect _ _ => Answer true
  | CReadFd _ n => Answer (replicate (Z.to_nat (Z.min 2 n)) Byte.x2a)
  | _ => Fault (SRuntimeError "no such call")
  end.

Lemma read_exact_fd_exact_witness :
  reads_bounded pipe_env /\
  (read_exact_fd (E := pipe_env) (VInt 3) (VInt 5) (VFloat 8) tt []).1.1
    = Ret [Byte.x2a; Byte.x2a; Byte.x2a; Byte.x2a; Byte.x2a] /\
  wp (read_exact_fd (E := pipe_env) (VInt 3) (VInt 5) (VFloat 8)) (fun o s' tr' =>
    s' = tt /\ exists suf, tr' = [] ++ suf /\
    match o with
    | Ret b => VInt 5 = VInt (Z.of_nat (length b)) /\ b = read_bytes suf
    | Raise e => exists e', e = Sys e'
    | OutOfFuel => False
    end) tt [].
Proof.
  assert (reads_bounded pipe_env) as HE.
  { intros tr fd n b [= <-]. rewrite length_replicate. lia. }
  split; [exact HE|]. split; [vm_compute; reflexivity|].
  exact (read_exact_fd_exact (E := pipe_env) (VInt 3) (VInt 5) (VFloat 8) tt [] HE).
Defined.

Lemma encode_ip_endpoint_roundtrip_witness :
  exists b, encode_ip_endpoint (VStr "198.18.0.2") (VInt 443) = Ok b /\ length b = 24%nat.
Proof.
  destruct (encode_ip_endpoint (VStr "198.18.0.2") (VInt 443)) as [b|] eqn:E.
  - exists b. split; [done|].
    destruct (encode_ip_endpoint_roundtrip _ _ _ E) as (?&?&?&?&?&?&?&?&?&?&Hl&_). exact Hl.
  - vm_compute in E. discriminate E.
Defined.
