(* ===== verification/Journal.v ===== *)
(** * The ownership journal

    [OwnershipJournal] of [tools/tcpcc_host.py]: cleanup callbacks registered as
    resources are acquired, and run once each, last first, when it closes.  The
    callbacks are abstract: [C] names one and [run] executes it on the owner's
    state. *)

From S2P Require Import Prelude PyStr Reports Py Effects.

Record journal (C : Type) := Journal {
  j_entries : list (string * C);
  j_closed : bool;
}.
Arguments Journal {C} j_entries j_closed.
Arguments j_entries {C} j.
Arguments j_closed {C} j.

Section journal.
Context {C S : Type} (run : C -> M S unit).

(** A callback runs on the owner's state and leaves the journal alone. *)
Definition on_owner {A} (m : M S A) : M (journal C * S) A := fun js tr =>
  let '(o, s, tr) := m js.2 tr in (o, (js.1, s), tr).

Definition new_journal : journal C := Journal [] false.

Definition defer (label : string) (callback : C) : M (journal C * S) unit :=
  '(j, s) ← get_state;
  if j_closed j then raise (RuntimeError "cannot add a resource to a closed journal")
  else if str_empty label then raise (ValueError "cleanup label must not be empty")
  else put_state (Journal (j_entries j ++ [(label, callback)]) false, s).

Definition close : M (journal C * S) unit :=
  '(j, s) ← get_state;
  if j_closed j then mret tt
  else
    let entries := j_entries j in
    _ ← put_state (Journal [] true, s);
    failures ← collect (reverse entries) (fun e =>
      r ← attempt (on_owner (run e.2));
      mret (pair e.1 <$> r));
    if bool_decide (failures = []) then mret tt else raise (CleanupError failures).

End journal.

(** ** Properties

    The callbacks are made observable by giving each its own call. *)

Definition ev_failed (ev : event) : option exn :=
  match ev_reply ev with Answer _ => None | Fault e => Some (Sys e) end.

#[export] Instance exn_inhabited : Inhabited exn := populate (RuntimeError EmptyString).

Section journal_proofs.
Context {C : Type} `{E : Env} (call_of : C -> call).

(** The callback [c] performs the call [call_of c]. *)
Definition run_call (c : C) : M unit unit := _ ← perform (call_of c); mret tt.

(** The labels and exceptions of the callbacks that failed, in running order. *)
Definition failed_entries (entries : list (string * C)) (suf : trace) : list (string * exn) :=
  omap (fun p => pair p.1.1 <$> ev_failed p.2) (zip entries suf).

Lemma failed_entries_snoc entries suf e ev :
  length entries = length suf ->
  failed_entries (entries ++ [e]) (suf ++ [ev])
  = failed_entries entries suf ++ from_option (fun x => [x]) [] (pair e.1 <$> ev_failed ev).
Proof.
  intros Hl. unfold failed_entries. rewrite zip_with_app by done.
  rewrite omap_app. cbn. by destruct (ev_failed ev).
Qed.

(** Closing an open journal performs every callback once, in reverse order,
    whatever fails, and leaves it empty and closed. *)
Lemma wp_close_open entries (tr : trace) :
  wp (close run_call) (fun o js tr' =>
    js = (Journal [] true, tt) /\ exists suf, tr' = tr ++ suf /\
    ev_call <$> suf = call_of <$> (reverse entries).*2 /\
    o = (let fs := failed_entries (reverse entries) suf in
         if bool_decide (fs = []) then Ret tt else Raise (CleanupError fs)))
    (Journal entries false, tt) tr.
Proof.
  unfold close. apply wp_bind, wp_get. cbn [j_closed j_entries].
  apply wp_bind, wp_put, wp_bind.
  eapply (wp_collect _ _ (fun d acc js tr' =>
    js = (Journal [] true, tt) /\ exists suf, tr' = tr ++ suf /\ length suf = length d /\
    ev_call <$> suf = call_of <$> d.*2 /\ acc = failed_entries d suf) _ [] []).
  - split; [done|]. exists []. by rewrite app_nil_r.
  - intros d x acc js tr' (-> & suf & -> & Hl & Hc & ->).
    apply wp_bind, wp_attempt. unfold wp, on_owner, run_call, mbind, M_bind, perform.
    destruct (env_reply (tr ++ suf) (call_of x.2)) as [a|e] eqn:Hr; cbn.
    all: split; [done|]; eexists (suf ++ [_]); split; [by rewrite app_assoc|].
    all: rewrite !length_app, Hl; split; [done|]; rewrite !fmap_app, Hc; split; [done|].
    all: rewrite failed_entries_snoc by done; done.
  - intros fs js tr' (-> & suf & -> & Hl & Hc & Hf). cbn [app] in Hf. subst fs.
    rewrite app_nil_l in *.
    destruct (bool_decide _) eqn:Hb; [apply wp_ret|apply wp_raise]; (split; [done|]); exists suf;
      (split; [done|]); (split; [done|]); cbn zeta; by rewrite Hb.
Qed.

(** The two operations of a journal, as a client issues them; an exception of
    one does not keep the client from issuing the next. *)
Inductive journal_op := ODefer (label : string) (c : C) | OClose.

Definition run_op (op : journal_op) : M (journal C * unit) unit :=
  match op with ODefer l c => defer l c | OClose => close run_call end.

Definition run_ops (ops : list journal_op) : M (journal C * unit) unit :=
  for_each ops (fun op => _ ← attempt (run_op op); mret tt).

(** The callbacks registered before the first close. *)
Fixpoint deferred (ops : list journal_op) : list C :=
  match ops with
  | [] => []
  | ODefer l c :: ops => if str_empty l then deferred ops else c :: deferred ops
  | OClose :: _ => []
  end.

Definition closes (ops : list journal_op) : bool :=
  existsb (fun op => match op with OClose => true | _ => false end) ops.

Lemma wp_run_ops_closed ops tr :
  wp (run_ops ops) (fun o js tr' => o = Ret tt /\ js = (Journal [] true, tt) /\ tr' = tr)
    (Journal [] true, tt) tr.
Proof.
  induction ops as [|op ops IH]; [done|]. unfold run_ops in *. cbn [for_each].
  apply wp_bind, wp_bind, wp_attempt. destruct op as [l c|]; exact IH.
Qed.

Lemma wp_run_ops_open ops entries tr :
  wp (run_ops ops) (fun o js tr' =>
    o = Ret tt /\ exists suf, tr' = tr ++ suf /\ j_closed js.1 = closes ops /\
    ev_call <$> suf = if closes ops then call_of <$> reverse (entries.*2 ++ deferred ops) else [])
    (Journal entries false, tt) tr.
Proof.
  revert entries. induction ops as [|op ops IH]; intros entries; unfold run_ops in *; cbn [for_each].
  { apply wp_ret. split; [done|]. exists []. by rewrite app_nil_r. }
  apply wp_bind, wp_bind, wp_attempt. destruct op as [l c|]; cbn [run_op deferred closes existsb orb].
  - unfold defer. apply wp_bind, wp_get. cbn [j_closed j_entries].
    destruct (str_empty l) eqn:Hl.
    + apply wp_raise, wp_ret. eapply wp_mono; [|apply IH]. done.
    + apply wp_put, wp_ret. eapply wp_mono; [|apply IH].
      intros o js tr' (-> & suf & -> & Hc & Hev). split; [done|]. exists suf. split; [done|].
      split; [done|]. rewrite Hev, fmap_app, <- app_assoc. done.
  - eapply wp_mono; [|apply wp_close_open].
    intros o js tr' (-> & suf & -> & Hev & ->). cbn zeta.
    assert (wp (for_each ops (fun op => _ ← attempt (run_op op); mret tt)) (fun o js tr' =>
      o = Ret tt /\ exists suf0, tr' = tr ++ suf0 /\ j_closed js.1 = true /\
      ev_call <$> suf0 = call_of <$> reverse (entries.*2 ++ [])) (Journal [] true, tt) (tr ++ suf)) as Hrest.
    { eapply wp_mono; [|apply wp_run_ops_closed]. intros o js tr' (-> & -> & ->).
      split; [done|]. exists suf. rewrite app_nil_r, Hev. by rewrite fmap_reverse. }
    case_bool_decide; apply wp_ret; exact Hrest.
Qed.

(** C30. Over any sequence of registrations and closes, with callbacks that fail
    or succeed arbitrarily, the journal runs exactly the callbacks registered
    (under a non-empty label) before the first close, each exactly once, in
    reverse order of registration, and runs none without a close; later
    registrations and closes run nothing. *)
Theorem journal_exactly_once ops tr :
  wp (run_ops ops) (fun o js tr' =>
    o = Ret tt /\ exists suf, tr' = tr ++ suf /\ j_closed js.1 = closes ops /\
    ev_call <$> suf = if closes ops then call_of <$> reverse (deferred ops) else [])
    (new_journal, tt) tr.
Proof. apply (wp_run_ops_open ops []). Qed.

(** Closing an open journal reports every failed callback, and only those,
    with its label and exception in running order, after all have run: it
    returns normally exactly when none failed. *)
Theorem journal_close_reports entries tr :
  wp (close run_call) (fun o js tr' =>
    exists suf, tr' = tr ++ suf /\ length suf = length entries /\
    o = (let fs := omap (fun p => pair p.1.1 <$> ev_failed p.2) (zip (reverse entries) suf) in
         if bool_decide (fs = []) then Ret tt else Raise (CleanupError fs)))
    (Journal entries false, tt) tr.
Proof.
  eapply wp_mono; [|apply wp_close_open]. intros o js tr' (_ & suf & -> & Hev & ->).
  exists suf. split; [done|]. split; [|done].
  apply (f_equal length) in Hev. by rewrite !length_fmap, length_reverse in Hev.
Qed.

End journal_proofs.
