(* ===== verification/Signals.v ===== *)
(** * Shutdown signals

    [ShutdownSignals] of [tools/tcpcc_host.py]: the handlers it installs and
    restores, and the first signal it remembers.  Python runs a handler between
    two steps of the main thread; the model delivers the signals that arrived
    when the program next looks ([CPendingSignals]) or while it waits
    ([CStopWait]). *)

From S2P Require Import Prelude PyStr Reports Py Effects.
Local Open Scope Z_scope.

Definition SIGINT : Z := 2.
Definition SIGTERM : Z := 15.

Record ShutdownSignals := {
  handled : list Z;
  event_set : bool;
  requested_signal : option Z;
  previous : gmap Z sig_handler;
  installed : bool;
}.

(** [ShutdownSignals.__init__] *)
Definition new_shutdown_signals (signums : list Z) : res ShutdownSignals :=
  _ ← raise_if (bool_decide (signums = []) || negb (bool_decide (NoDup signums)))
        (ValueError "handled signals must be a non-empty unique tuple");
  Ok {| handled := signums; event_set := false; requested_signal := None; previous := ∅; installed := false |}.

Definition request (signum : Z) (s : ShutdownSignals) : ShutdownSignals :=
  {| handled := handled s; event_set := true;
     requested_signal := match requested_signal s with None => Some signum | some => some end;
     previous := previous s; installed := installed s |}.

Definition set_previous (p : gmap Z sig_handler) (s : ShutdownSignals) : ShutdownSignals :=
  {| handled := handled s; event_set := event_set s; requested_signal := requested_signal s;
     previous := p; installed := installed s |}.
Definition set_installed (b : bool) (s : ShutdownSignals) : ShutdownSignals :=
  {| handled := handled s; event_set := event_set s; requested_signal := requested_signal s;
     previous := previous s; installed := b |}.

Section signals.
Context `{E : Env}.

(** The handlers of signals that arrived. *)
Definition deliver (signums : list Z) : M ShutdownSignals unit :=
  modify (fun s => fold_left (fun s n => request n s) signums s).

(** [ShutdownSignals.requested] and [wait] *)
Definition requested : M ShutdownSignals bool :=
  arrived ← perform CPendingSignals;
  _ ← deliver arrived;
  s ← get_state;
  mret (event_set s).
Definition wait (timeout : Q) : M ShutdownSignals bool :=
  arrived ← perform (CStopWait timeout);
  _ ← deliver arrived;
  s ← get_state;
  mret (event_set s).

(** [signal.signal(signum, self._previous[signum])] *)
Definition restore_one (signum : Z) : M ShutdownSignals unit :=
  s ← get_state;
  match previous s !! signum with
  | Some handler => _ ← perform (CSignal signum handler); mret tt
  | None => raise (Sys (SException "KeyError" (str_of_Z signum)))
  end.

(** The loop of [__enter__]: the error that stopped it, if any, and the signals
    whose handler was installed. *)
Fixpoint install_all (signums done : list Z) : M ShutdownSignals (option exn * list Z) :=
  match signums with
  | [] => mret (None, done)
  | signum :: signums =>
      r ← try_except (old ← perform (CSignal signum OwnHandler); mret (inl old)) (fun e => mret (inr e));
      match r with
      | inl old =>
          _ ← modify (fun s => set_previous (<[signum := old]> (previous s)) s);
          install_all signums (done ++ [signum])
      | inr e => mret (Some e, done)
      end
  end.

(** [ShutdownSignals.__enter__] *)
Definition enter : M ShutdownSignals unit :=
  s ← get_state;
  if installed s then raise (RuntimeError "shutdown signal handlers are already installed")
  else
    '(error, done) ← install_all (handled s) [];
    match error with
    | None => modify (set_installed true)
    | Some e =>
        _ ← for_each (reverse done) restore_one;
        _ ← modify (set_previous ∅);
        raise e
    end.

(** [ShutdownSignals.restore], also [__exit__] *)
Definition restore : M ShutdownSignals unit :=
  s ← get_state;
  if negb (installed s) then mret tt
  else
    _ ← for_each (reverse (handled s)) restore_one;
    modify (fun s => set_installed false (set_previous ∅ s)).

End signals.

(** ** The first signal *)

(** The first signal wins: after any signals arrive, the one remembered is
    the first ever requested, and a shutdown is requested exactly when one
    was. *)
Theorem request_first signums s :
  let s' := fold_left (fun s n => request n s) signums s in
  requested_signal s' = match requested_signal s with Some n => Some n | None => head signums end /\
  event_set s' = event_set s || negb (bool_decide (signums = [])) /\
  handled s' = handled s /\ previous s' = previous s /\ installed s' = installed s.
Proof.
  revert s. induction signums as [|n signums IH]; intros s; cbn.
  - by destruct (requested_signal s), (event_set s).
  - destruct (IH (request n s)) as (-> & -> & -> & -> & ->). cbn.
    by destruct (requested_signal s), (event_set s).
Qed.

Lemma requests_keep l s :
  handled (fold_left (fun s n => request n s) l s) = handled s /\
  previous (fold_left (fun s n => request n s) l s) = previous s /\
  installed (fold_left (fun s n => request n s) l s) = installed s.
Proof. revert s. induction l as [|n l IH]; intros s; cbn; [done|]. apply (IH (request n s)). Qed.

(** ** Dispositions *)

(** The handler of each signal after a trace, from those at the start. *)
Definition disposition_step (d : Z -> sig_handler) (ev : event) : Z -> sig_handler :=
  match ev with
  | Ev c r =>
      match c return reply (ret c) -> Z -> sig_handler with
      | CSignal signum h => fun r n =>
          match r with Answer _ => if n =? signum then h else d n | Fault _ => d n end
      | _ => fun _ => d
      end r
  end.
Definition disposition (d0 : Z -> sig_handler) (tr : trace) : Z -> sig_handler :=
  fold_left disposition_step tr d0.

(** [signal.signal] returns the handler it replaces. *)
Class SignalLaw (E : Env) (d0 : Z -> sig_handler) : Prop :=
  signal_law tr signum h old : env_reply tr (CSignal signum h) = Answer old -> old = disposition d0 tr signum.

Lemma disposition_app d0 t u : disposition d0 (t ++ u) = disposition (disposition d0 t) u.
Proof. apply fold_left_app. Qed.

Lemma disposition_set d0 tr signum h old n :
  disposition d0 (tr ++ [Ev (CSignal signum h) (Answer old)]) n = if n =? signum then h else disposition d0 tr n.
Proof. by rewrite disposition_app. Qed.

Section restoring.
Context `{E : Env} (d0 : Z -> sig_handler) {L : SignalLaw E d0}.

(** The signals of [done] have their handler replaced and remembered. *)
Definition replaced (tr0 : trace) (done : list Z) (s : ShutdownSignals) (tr : trace) : Prop :=
  (forall n, n ∈ done -> previous s !! n = Some (disposition d0 tr0 n)) /\
  (forall n, n ∉ done -> disposition d0 tr n = disposition d0 tr0 n).

Definition owned (done : list Z) (tr : trace) : Prop := forall n, n ∈ done -> disposition d0 tr n = OwnHandler.

(** The last call was to give a signal the handler it had at [tr0], and failed
    with [e]. *)
Definition not_put_back (tr0 : trace) (e : exn) (tr : trace) : Prop :=
  exists t n x, tr = t ++ [Ev (CSignal n (disposition d0 tr0 n)) (Fault x)] /\ e = Sys x.

(** Restoring them, last first, gives back every handler. *)
Lemma wp_restore_all tr0 done s tr :
  replaced tr0 done s tr ->
  wp (for_each (reverse done) restore_one) (fun o s' tr' =>
    s' = s /\ match o with
               | Ret _ => forall n, disposition d0 tr' n = disposition d0 tr0 n
               | Raise e => done <> [] /\ not_put_back tr0 e tr'
               | OutOfFuel => False
               end) s tr.
Proof.
  revert tr. induction done as [|n done IH] using rev_ind; intros tr [Hprev Hdisp].
  - apply wp_ret. split; [done|]. intros n. apply Hdisp. set_solver.
  - rewrite reverse_snoc. cbn [for_each]. apply wp_bind. unfold restore_one at 1. apply wp_bind, wp_get.
    rewrite (Hprev n) by set_solver. apply wp_bind. wp_call; intros a Ha; [apply wp_ret|split; [done|split; [by destruct done|by eexists _, n, a]]].
    eapply wp_mono; [|apply IH; split].
    { intros [[]|e|] s' tr' [-> H]; split; try done. destruct H. split; [by destruct done|done]. }
    { intros m Hm; apply Hprev; set_solver. }
    intros m Hm. rewrite disposition_set. destruct (m =? n) eqn:Hmn; bool_to_prop; [by subst|].
    apply Hdisp. set_solver.
Qed.

Lemma wp_install_all tr0 signums done s tr :
  NoDup (done ++ signums) -> replaced tr0 done s tr -> owned done tr -> (forall n, n ∈ signums -> disposition d0 tr n = disposition d0 tr0 n) ->
  wp (install_all signums done) (fun o s' tr' =>
    handled s' = handled s /\ installed s' = installed s /\
    exists err done', o = Ret (err, done') /\ replaced tr0 done' s' tr' /\ owned done' tr' /\ (err = None -> done' = done ++ signums)) s tr.
Proof.
  revert done s tr. induction signums as [|n signums IH]; intros done s tr Hnd Hrep Hown Hsame; cbn [install_all].
  - apply wp_ret. split_and!; try done. exists None, done. by rewrite app_nil_r.
  - apply wp_bind, wp_try, wp_bind. wp_call; intros a Ha; [apply wp_ret|apply wp_ret].
    + apply wp_bind, wp_modify. apply signal_law in Ha as ->.
      assert (NoDup ((done ++ [n]) ++ signums)) as Hnd' by (by rewrite <- app_assoc).
      pose proof Hnd as Hnd0. apply NoDup_app in Hnd0 as (_ & Hn & Hnd0). apply NoDup_cons in Hnd0 as [Hn' _].
      assert (n ∉ done) as Hnn by (intros Hin; apply (Hn n Hin); set_solver).
      eapply wp_mono; [|apply (IH (done ++ [n])); [done|..]].
      * intros o s' tr' (? & ? & err & done' & -> & ? & ? & Hd). split_and!; try done. exists err, done'.
        split_and!; try done. intros ->. rewrite Hd by done. by rewrite <- app_assoc.
      * destruct Hrep as [Hprev Hdisp]. split.
        -- intros m Hm. cbn. destruct (decide (m = n)) as [->|Hmn].
           ++ rewrite lookup_insert_eq. f_equal. apply Hsame. set_solver.
           ++ rewrite lookup_insert_ne by done. apply Hprev. set_solver.
        -- intros m Hm. rewrite disposition_set. destruct (m =? n) eqn:Hmn; bool_to_prop; [subst; set_solver|].
           apply Hdisp. set_solver.
      * intros m Hm. rewrite disposition_set. destruct (m =? n) eqn:Hmn; [done|]. bool_to_prop. apply Hown. set_solver.
      * intros m Hm. rewrite disposition_set. destruct (m =? n) eqn:Hmn; bool_to_prop; [by subst|].
        apply Hsame. set_solver.
    + apply wp_ret. split_and!; try done. exists (Some (Sys a)), done. split_and!; try done.
      * destruct Hrep as [Hprev Hdisp]. split; [done|]. intros m Hm. rewrite disposition_app. by apply Hdisp.
      * intros m Hm. rewrite disposition_app. by apply Hown.
Qed.

Lemma disposition_quiet tr mid :
  Forall (fun ev => match ev_call ev with CSignal _ _ => False | _ => True end) mid ->
  disposition d0 (tr ++ mid) = disposition d0 tr.
Proof.
  rewrite disposition_app. generalize (disposition d0 tr). intros d H. revert d.
  induction H as [|[c r] mid Hev _ IH]; intros d; [done|]. cbn in *. destruct c; done || apply IH.
Qed.

(** The handlers are installed, those from before are remembered. *)
Definition entered (tr0 : trace) (s : ShutdownSignals) (tr : trace) : Prop :=
  installed s = true /\ replaced tr0 (handled s) s tr /\ owned (handled s) tr.

Lemma wp_enter s tr :
  NoDup (handled s) -> installed s = false -> previous s = ∅ ->
  wp enter (fun o s1 tr1 => match o with
    | Ret _ => handled s1 = handled s /\ entered tr s1 tr1
    | Raise e => installed s1 = false /\ (previous s1 = ∅ -> forall n, disposition d0 tr1 n = disposition d0 tr n) /\
        ((forall n, disposition d0 tr1 n = disposition d0 tr n) \/ not_put_back tr e tr1)
    | OutOfFuel => False end) s tr.
Proof.
  intros Hnd Hinst Hprev. unfold enter. apply wp_bind, wp_get. rewrite Hinst. apply wp_bind.
  eapply wp_mono; [|apply (wp_install_all tr (handled s) []); [done|by split; [set_solver|]|set_solver|done]].
  intros o s1 tr1 (Hh & Hi & err & done' & -> & Hrep & Hown & Hall). destruct err as [e|].
  - apply wp_bind. eapply wp_mono; [|by apply (wp_restore_all tr done')]. intros [[]|e'|] s2 tr2 [-> Hback].
    + apply wp_bind, wp_modify, wp_raise. split_and!; [cbn; congruence|done|by left].
    + destruct Hback as [Hne Hback]. split_and!; [congruence| |by right]. intros Hnone. destruct done' as [|n done']; [done|]. destruct Hrep as [Hp _].
      specialize (Hp n ltac:(set_solver)). by rewrite Hnone in Hp.
    + done.
  - apply wp_modify. specialize (Hall eq_refl) as ->. split; [done|]. unfold entered. cbn. rewrite Hh. by destruct Hrep.
Qed.

(** Whatever leaves the handlers alone keeps them installed. *)
Lemma entered_quiet tr0 s s' tr mid :
  entered tr0 s tr -> handled s' = handled s -> previous s' = previous s -> installed s' = installed s ->
  Forall (fun ev => match ev_call ev with CSignal _ _ => False | _ => True end) mid -> entered tr0 s' (tr ++ mid).
Proof.
  intros (Hi & [Hp Hd] & Ho) Hh' Hp' Hi' Hmid. unfold entered, replaced, owned. rewrite Hh', Hp', disposition_quiet by done.
  split_and!; [congruence|done|done|done].
Qed.

Lemma wp_restore tr0 s tr :
  entered tr0 s tr ->
  wp restore (fun o s' tr' =>
    o <> OutOfFuel /\ (installed s' = false -> previous s' = ∅ /\ forall n, disposition d0 tr' n = disposition d0 tr0 n) /\
    match o with
    | Ret _ => installed s' = false
    | Raise e => not_put_back tr0 e tr'
    | OutOfFuel => False
    end) s tr.
Proof.
  intros (Hi & Hrep & _). unfold restore. apply wp_bind, wp_get. rewrite Hi. cbn [negb]. apply wp_bind.
  eapply wp_mono; [|by apply (wp_restore_all tr0 (handled s))].
  intros [[]|e|] s2 tr2 [-> Hback]; [by apply wp_modify| |done]. destruct Hback. split_and!; [done| |done]. by rewrite Hi.
Qed.

(** Signal handlers are always put back: entering installs the shutdown
    handler for every handled signal, and leaving without error, whatever ran
    in between that left signals alone, gives every signal the handler it had
    before; when entering fails half-way and its own rollback does not, every
    handler is also back. *)
Theorem signals_restored s tr :
  NoDup (handled s) -> installed s = false -> previous s = ∅ ->
  let '(o, s1, tr1) := enter s tr in
  match o with
  | Ret _ =>
      installed s1 = true /\ (forall n, n ∈ handled s -> disposition d0 tr1 n = OwnHandler) /\
      forall signums mid,
        Forall (fun ev => match ev_call ev with CSignal _ _ => False | _ => True end) mid ->
        let '(o2, s2, tr2) := restore (fold_left (fun s n => request n s) signums s1) (tr1 ++ mid) in
        o2 = Ret tt -> installed s2 = false /\ forall n, disposition d0 tr2 n = disposition d0 tr n
  | Raise _ => previous s1 = ∅ -> forall n, disposition d0 tr1 n = disposition d0 tr n
  | OutOfFuel => False
  end.
Proof.
  intros Hnd Hinst Hprev. pose proof (wp_enter s tr Hnd Hinst Hprev) as H. unfold wp in H.
  destruct (enter s tr) as [[[[]|e|] s1] tr1]; [|by destruct H as (_ & ? & _)|done]. destruct H as [Hh Hent].
  pose proof Hent as (Hi & _ & Ho). rewrite Hh in Ho. split_and!; [done|done|]. intros signums mid Hmid.
  destruct (requests_keep signums s1) as (H1 & H2 & H3).
  pose proof (wp_restore tr _ _ (entered_quiet _ _ _ _ mid Hent H1 H2 H3 Hmid)) as Hr. unfold wp in Hr.
  destruct (restore _ _) as [[o2 s2] tr2]. destruct Hr as (_ & Hr & Hret). intros ->.
  split; [by apply Hret|]. by apply Hr, Hret.
Qed.

End restoring.

(** ** Example *)

(** A host that keeps the handlers, all default at first. *)
Definition default_handlers (_ : Z) : sig_handler := OtherHandler 0.
Definition signal_host : Env := fun tr c =>
  match c return reply (ret c) with
  | CSignal signum _ => Answer (disposition default_handlers tr signum)
  | _ => Fault (SRuntimeError "not available")
  end.

Lemma signal_host_law : SignalLaw signal_host default_handlers.
Proof. intros tr signum h old H. by inversion H. Qed.

Lemma signals_restored_witness :
  let s := {| handled := [SIGINT; SIGTERM]; event_set := false; requested_signal := None; previous := ∅; installed := false |} in
  let '(o, s1, tr1) := @enter signal_host s [] in
  o = Ret tt /\ disposition default_handlers tr1 SIGTERM = OwnHandler /\
  let '(o2, s2, tr2) := @restore signal_host (request SIGTERM s1) tr1 in
  o2 = Ret tt /\ disposition default_handlers tr2 SIGTERM = OtherHandler 0.
Proof.
  set (s := {| handled := [SIGINT; SIGTERM]; event_set := false; requested_signal := None; previous := ∅; installed := false |}).
  assert (NoDup (handled s)) as Hnd by (apply (bool_decide_eq_true_1 (NoDup [SIGINT; SIGTERM])); reflexivity).
  pose proof (@signals_restored signal_host default_handlers signal_host_law s [] Hnd eq_refl eq_refl) as H.
  vm_compute in H |- *. split; [reflexivity|]. destruct H as (_ & H & Hr).
  split; [exact (H 15 ltac:(right; left))|]. split; [reflexivity|].
  destruct (Hr [15] [] (Forall_nil_2 _) eq_refl) as [_ Hd]. exact (Hd 15).
Defined.
