(* ===== verification/Preflight.v ===== *)
(** * Preflight

    The prerequisite inspection of [tools/tcpcc_host.py]: [HostInspector], the
    individual checks and [collect_preflight]. *)

From S2P Require Import Prelude PyStr Reports Py Effects.
Local Open Scope Z_scope.

Definition CAP_NET_ADMIN : Z := 12.
Definition FIREWALL_BACKENDS : list string := ["nft-lib"; "nft-exec"; "iptables"].

Definition is_cc_char (c : ascii) : bool :=
  is_lower c || is_digit c || is_char "_" c || is_char "-" c.

(** [CC_NAME.fullmatch] *)
Definition cc_name_match (s : string) : bool :=
  (1 <=? String.length s)%nat && (String.length s <=? 15)%nat && str_forallb is_cc_char s.

(** [_check] *)
Definition check (id : string) (passed : bool) (severity observed expected remediation : string) : CheckResult :=
  {| check_id := id;
     cr_status := if passed then "pass"
                  else if bool_decide (severity = "advisory") then "warn" else "fail";
     severity := severity; observed := observed; expected := expected;
     cr_remediation := if passed then EmptyString else remediation |}.

(** ** The capability mask *)

Fixpoint span_while (p : ascii -> bool) (s : string) : string * string :=
  match s with
  | EmptyString => (EmptyString, EmptyString)
  | String c s' =>
      if p c then let '(w, rest) := span_while p s' in (String c w, rest) else (EmptyString, s)
  end.

(** [CapEff:\s*([0-9a-fA-F]+)\s*$] at the start of a line: no shorter run of
    spaces or digits can match when the maximal one does not. *)
Definition match_cap_line (s : string) : option string :=
  s ← strip_prefix "CapEff:" s;
  let '(_, s) := span_while is_space s in
  let '(hex, s) := span_while is_hex_digit s in
  let '(spaces, s) := span_while is_space s in
  if str_empty hex then None
  else if str_mem newline spaces || str_empty s then Some hex else None.

(** [re.search] with [re.MULTILINE]: the first line that matches. *)
Fixpoint search_cap (at_line_start : bool) (s : string) : option string :=
  match (if at_line_start then match_cap_line s else None) with
  | Some hex => Some hex
  | None =>
      match s with
      | EmptyString => None
      | String c s => search_cap (is_char newline c) s
      end
  end.

Definition cap_mask (value : string) : option Z := digits_val 16 0 <$> search_cap true value.

(** [stat.S_ISCHR] *)
Definition S_ISCHR (mode : Z) : bool := Z.land mode 0xF000 =? 0x2000.

(** [value or other] on an optional text *)
Definition or_text (value : option string) (other : string) : string :=
  match value with Some s => if str_empty s then other else s | None => other end.

Section preflight.
Context `{E : Env} {S : Type}.

(** [HostInspector.read_proc]: a value, or the reason there is none. *)
Definition read_proc (relative : string) : M S (string + string) :=
  try_except
    (text ← perform (CReadText ("/proc/" +:+ relative));
     let value := str_strip text in
     mret (if str_empty value || str_mem nul value then inr "malformed" else inl value))
    (fun error =>
       if is_os_class OsFileNotFound error then mret (inr "missing")
       else if is_OSError error || is_UnicodeError error then mret (inr "unreadable")
       else raise error).

Definition cap_net_admin : M S CheckResult :=
  r ← read_proc "self/status";
  let '(enabled, observed) :=
    match r with
    | inl value =>
        match cap_mask value with
        | Some mask => (Z.testbit mask CAP_NET_ADMIN, "0x" +:+ hex_of_Z mask)
        | None => (false, "malformed")
        end
    | inr error => (false, error)
    end in
  mret (check "cap.net_admin" enabled "required" observed "effective CAP_NET_ADMIN bit 12"
          "run tcpcc with CAP_NET_ADMIN, normally via sudo or a container capability").

(** The guarded block of [_tun_device]: [usable] and [observed]. *)
Definition tun_probe : M S (bool * string) :=
  try_except
    (device_stat ← perform (CStat "/dev/net/tun");
     let is_character := S_ISCHR (st_mode device_stat) in
     has_access ← perform (CAccess "/dev/net/tun" 6);
     mret (is_character && has_access,
           if negb is_character then "not-a-character-device"
           else if negb has_access then "character-device-without-read-write-access"
           else "character-device-with-read-write-access"))
    (fun error =>
       if is_os_class OsFileNotFound error then mret (false, "missing")
       else if is_OSError error then mret (false, "unreadable")
       else raise error).

Definition tun_device : M S CheckResult :=
  '(usable, observed) ← tun_probe;
  mret (check "device.tun" usable "required" observed
          "/dev/net/tun character device with read/write access"
          "enable TUN for the container and grant tcpcc read/write access to /dev/net/tun").

(** The lookup of a tool or a library: [None] also when it fails. *)
Definition lookup (m : M S (option string)) : M S (option string) :=
  try_except m (fun error => if is_OSError error then mret None else raise error).

Definition tool (name remediation check_name : string) : M S CheckResult :=
  resolved ← lookup (perform (CWhich name));
  mret (check ("tool." +:+ (if str_empty check_name then name else check_name))
          (bool_decide (is_Some resolved)) "required" (or_text resolved "missing")
          (name +:+ " executable on PATH") remediation).

Definition library (name remediation : string) : M S CheckResult :=
  resolved ← lookup (perform (CFindLibrary name));
  mret (check ("library." +:+ name) (bool_decide (is_Some resolved)) "required"
          (or_text resolved "missing")
          (name +:+ " shared library available to the dynamic loader") remediation).

Definition proc_observed (r : string + string) : string :=
  match r with inl value => value | inr error => if str_empty error then "unreadable" else error end.

Definition required_sysctl (id relative expected remediation : string) : M S CheckResult :=
  r ← read_proc relative;
  mret (check id (bool_decide (r = inl expected)) "required" (proc_observed r) expected remediation).

Definition rp_filter (scope : string) : M S CheckResult :=
  r ← read_proc ("sys/net/ipv4/conf/" +:+ scope +:+ "/rp_filter");
  mret (check ("sysctl.rp_filter." +:+ scope) (bool_decide (r = inl "0")) "advisory" (proc_observed r) "0"
          "review reverse-path filtering for the routed TUN path; tcpcc will not change it").

Fixpoint sequence (l : list (M S CheckResult)) : M S (list CheckResult) :=
  match l with
  | [] => mret []
  | m :: l => x ← m; rest ← sequence l; mret (x :: rest)
  end.

Definition firewall_checks (firewall_backend nft_path iptables_path iptables_restore_path iptables_save_path : string)
    : option (list (M S CheckResult)) :=
  if bool_decide (firewall_backend = "nft-exec") then
    Some [tool nft_path ("install nftables and expose " +:+ nft_path +:+ " on PATH") "nft"]
  else if bool_decide (firewall_backend = "nft-lib") then
    Some [library "nftables" "install the libnftables shared library"]
  else if bool_decide (firewall_backend = "iptables") then
    Some ((fun '(command, check_name) =>
             tool command ("install iptables and expose " +:+ command +:+ " on PATH") check_name)
          <$> [(iptables_path, "iptables"); (iptables_restore_path, "iptables-restore");
               (iptables_save_path, "iptables-save")])
  else None.

Definition forwarding_check (ip_version : Z) : M S CheckResult :=
  if ip_version =? 4
  then required_sysctl "sysctl.ipv4_forward" "sys/net/ipv4/ip_forward" "1"
         "set net.ipv4.ip_forward=1 before starting tcpcc"
  else required_sysctl "sysctl.ipv6_forward" "sys/net/ipv6/conf/all/forwarding" "1"
         "set net.ipv6.conf.all.forwarding=1 before starting tcpcc".

Definition collect_preflight (requested_cc : string) (ip_version : Z)
    (firewall_backend nft_path iptables_path iptables_restore_path iptables_save_path : string)
    : M S PreflightReport :=
  _ ← of_res (raise_if (negb (cc_name_match requested_cc))
        (ValueError "requested congestion-control name must contain 1-15 lowercase letters, digits, underscores, or hyphens"));
  _ ← of_res (raise_if (negb ((ip_version =? 4) || (ip_version =? 6))) (ValueError "ip_version must be 4 or 6"));
  prefix_checks ← sequence
    [cap_net_admin; tun_device;
     tool "ip" "install iproute2 and expose the ip executable on PATH" EmptyString];
  firewall ← of_res (res_of_option
    (ValueError ("firewall_backend must be one of: " +:+ str_join ", " (sort_on (fun x => x) FIREWALL_BACKENDS)))
    (firewall_checks firewall_backend nft_path iptables_path iptables_restore_path iptables_save_path));
  firewall_results ← sequence firewall;
  forwarding ← forwarding_check ip_version;
  family_advisories ← sequence (if ip_version =? 4 then [rp_filter "all"; rp_filter "default"] else []);
  mret {| requested_cc := requested_cc;
          checks := prefix_checks ++ firewall_results ++ [forwarding] ++ family_advisories |}.

End preflight.

(** ** What a report is evidence of *)

(** The value of a file under [/proc], when it has one. *)
Definition proc_value (text : string) : option string :=
  let value := str_strip text in if str_empty value || str_mem nul value then None else Some value.

(** What was seen in a trace. *)
Definition cap_seen (t : trace) : Prop :=
  exists text value mask, Ev (CReadText "/proc/self/status") (Answer text) ∈ t /\ proc_value text = Some value /\
    cap_mask value = Some mask /\ Z.testbit mask CAP_NET_ADMIN = true.
Definition tun_seen (t : trace) : Prop :=
  exists st, Ev (CStat "/dev/net/tun") (Answer st) ∈ t /\ S_ISCHR (st_mode st) = true /\
    Ev (CAccess "/dev/net/tun" 6) (Answer true) ∈ t.
Definition tool_seen (name : string) (t : trace) : Prop :=
  exists path, Ev (CWhich name) (Answer (Some path)) ∈ t.
Definition library_seen (name : string) (t : trace) : Prop :=
  exists path, Ev (CFindLibrary name) (Answer (Some path)) ∈ t.
Definition sysctl_seen (relative value : string) (t : trace) : Prop :=
  exists text, Ev (CReadText ("/proc/" +:+ relative)) (Answer text) ∈ t /\ proc_value text = Some value.

(** One line of a report: its name, whether it blocks, and what must be seen. *)
Record requirement := { req_id : string; req_blocks : bool; req_seen : trace -> Prop }.

(** The checks of a report, in order, with what each of them requires. *)
Definition firewall_spec (backend nft ipt ipt_restore ipt_save : string) : list requirement :=
  if bool_decide (backend = "nft-exec") then [{| req_id := "tool.nft"; req_blocks := true; req_seen := tool_seen nft |}]
  else if bool_decide (backend = "nft-lib")
  then [{| req_id := "library.nftables"; req_blocks := true; req_seen := library_seen "nftables" |}]
  else [{| req_id := "tool.iptables"; req_blocks := true; req_seen := tool_seen ipt |};
        {| req_id := "tool.iptables-restore"; req_blocks := true; req_seen := tool_seen ipt_restore |};
        {| req_id := "tool.iptables-save"; req_blocks := true; req_seen := tool_seen ipt_save |}].
Definition prefix_spec : list requirement :=
  [{| req_id := "cap.net_admin"; req_blocks := true; req_seen := cap_seen |};
   {| req_id := "device.tun"; req_blocks := true; req_seen := tun_seen |};
   {| req_id := "tool.ip"; req_blocks := true; req_seen := tool_seen "ip" |}].
Definition forwarding_spec (ip_version : Z) : requirement :=
  if ip_version =? 4
  then {| req_id := "sysctl.ipv4_forward"; req_blocks := true; req_seen := sysctl_seen "sys/net/ipv4/ip_forward" "1" |}
  else {| req_id := "sysctl.ipv6_forward"; req_blocks := true; req_seen := sysctl_seen "sys/net/ipv6/conf/all/forwarding" "1" |}.
Definition advisory_spec (ip_version : Z) : list requirement :=
  if ip_version =? 4
  then [{| req_id := "sysctl.rp_filter.all"; req_blocks := false; req_seen := sysctl_seen "sys/net/ipv4/conf/all/rp_filter" "0" |};
        {| req_id := "sysctl.rp_filter.default"; req_blocks := false;
           req_seen := sysctl_seen "sys/net/ipv4/conf/default/rp_filter" "0" |}]
  else [].
Definition preflight_spec (ip_version : Z) (backend nft ipt ipt_restore ipt_save : string) : list requirement :=
  prefix_spec ++ firewall_spec backend nft ipt ipt_restore ipt_save ++ [forwarding_spec ip_version] ++ advisory_spec ip_version.

(** A result [c] states what its check saw in [t]: it passes exactly when the
    requirement was seen, and otherwise fails, or only warns. *)
Definition judges (r : requirement) (c : CheckResult) (t : trace) : Prop :=
  check_id c = req_id r /\ (cr_status c = "pass" <-> req_seen r t) /\
  (cr_status c = "pass" \/ cr_status c = if req_blocks r then "fail" else "warn").

Definition inspecting (c : call) : Prop :=
  match c with
  | CReadText _ | CStat _ | CAccess _ _ | CWhich _ | CFindLibrary _ => True
  | _ => False
  end.

Section proofs.
Context `{E : Env} {S : Type}.

(** The answers of the calls of the checks. *)
Definition answered_text (ev : event) : option string :=
  match ev with
  | Ev c r => match c return reply (ret c) -> option string with
              | CReadText _ => fun r => match r with Answer a => Some a | Fault _ => None end
              | _ => fun _ => None
              end r
  end.
Definition answered_path (ev : event) : option (option string) :=
  match ev with
  | Ev c r => match c return reply (ret c) -> option (option string) with
              | CWhich _ | CFindLibrary _ => fun r => match r with Answer a => Some a | Fault _ => None end
              | _ => fun _ => None
              end r
  end.
Definition answered_stat (ev : event) : option stat_result :=
  match ev with
  | Ev c r => match c return reply (ret c) -> option stat_result with
              | CStat _ => fun r => match r with Answer a => Some a | Fault _ => None end
              | _ => fun _ => None
              end r
  end.
Definition answered_access (ev : event) : option bool :=
  match ev with
  | Ev c r => match c return reply (ret c) -> option bool with
              | CAccess _ _ => fun r => match r with Answer a => Some a | Fault _ => None end
              | _ => fun _ => None
              end r
  end.

(** The check [m] gives a result that states what it saw. *)
Definition requires (m : M S CheckResult) (r : requirement) : Prop :=
  does m (fun o t => o <> OutOfFuel /\ forall c, o = Ret c -> judges r c t).

Lemma check_judges r passed sev obs exp rem t :
  bool_decide (sev = "advisory") = negb (req_blocks r) -> (passed = true <-> req_seen r t) ->
  judges r (check (req_id r) passed sev obs exp rem) t.
Proof.
  intros Hsev Hp. split; [done|]. cbn. rewrite Hsev, <- Hp. destruct passed, (req_blocks r); cbn; naive_solver.
Qed.

Lemma does_read_proc relative :
  does (read_proc relative : M S _) (fun o t => o <> OutOfFuel /\
    forall r, o = Ret r -> forall value, r = inl value <-> exists text,
      Ev (CReadText ("/proc/" +:+ relative)) (Answer text) ∈ t /\ proc_value text = Some value).
Proof.
  unfold read_proc. apply does_try, does_bind. does_call; intros a.
  - apply does_ret. split; [done|]. intros r [= <-] value. rewrite app_nil_r.
    transitivity (proc_value a = Some value).
    { unfold proc_value. destruct (_ || _); naive_solver. }
    split; [intros H; exists a; set_solver|]. intros (text & Hin & Hv). apply list_elem_of_singleton, (f_equal answered_text) in Hin.
    by injection Hin as ->.
  - assert (forall text, Ev (CReadText ("/proc/" +:+ relative)) (Answer text) ∉ [Ev (CReadText ("/proc/" +:+ relative)) (Fault a)]) as Hno.
    { by intros text Hin%list_elem_of_singleton%(f_equal answered_text). }
    repeat case_match; (apply does_ret || apply does_raise); rewrite ?app_nil_r; (split; [done|]); intros r Hr value; simplify_eq;
      (split; [done|]); intros (text & Hin & _); by destruct (Hno text).
Qed.

Lemma requires_cap : requires cap_net_admin {| req_id := "cap.net_admin"; req_blocks := true; req_seen := cap_seen |}.
Proof.
  unfold cap_net_admin, requires. apply does_bind. eapply does_mono; [|apply does_read_proc].
  intros [r|e|] t [Hf Hr]; [|done|done]. specialize (Hr r eq_refl).
  set (res := match r with inl _ => _ | inr _ => _ end).
  assert (res.1 = true <-> cap_seen t) as Hres.
  { unfold cap_seen. subst res. destruct r as [value|error].
    - destruct (proj1 (Hr value) eq_refl) as (text & Hin & Hv). split.
      + destruct (cap_mask value) as [mask|] eqn:Hm; cbn; [|done]. intros Hb. by exists text, value, mask.
      + intros (text' & value' & mask & Hin' & Hv' & Hm & Hb). assert (inl value = inl value' :> string + string) as [= ->].
        { apply Hr. by exists text'. }
        by rewrite Hm.
    - split; [done|]. intros (text & value & mask & Hin & Hv & _).
      assert (inr error = inl value) as Hbad by (apply Hr; by exists text). discriminate Hbad. }
  destruct res as [enabled obs]. apply does_ret. split; [done|]. intros c [= <-]. rewrite app_nil_r.
  by apply (check_judges {| req_id := "cap.net_admin"; req_blocks := true; req_seen := cap_seen |}).
Qed.

Lemma does_tun_probe :
  does (tun_probe : M S _) (fun o t => o <> OutOfFuel /\ forall b obs, o = Ret (b, obs) -> b = true <-> tun_seen t).
Proof.
  assert (forall e t, ~ tun_seen t -> does (if is_os_class OsFileNotFound e then mret (false, "missing")
    else if is_OSError e then mret (false, "unreadable") else raise e : M S (bool * string))
    (fun o t' => o <> OutOfFuel /\ forall b obs, o = Ret (b, obs) -> b = true <-> tun_seen (t ++ t'))) as Hexc.
  { intros e t Ht. repeat case_match; (apply does_ret || apply does_raise); rewrite ?app_nil_r; (split; [done|]); naive_solver. }
  unfold tun_probe. apply does_try, does_bind. does_call; [intros st|intros e; apply Hexc].
  2: { intros (st & Hin & _). by apply list_elem_of_singleton, (f_equal answered_stat) in Hin. }
  apply does_bind. does_call; [intros access|intros e; apply Hexc].
  2: { intros (st' & _ & _ & Hin). cbn in Hin. by apply elem_of_cons in Hin as [Hin|Hin%list_elem_of_singleton];
         apply (f_equal answered_access) in Hin. }
  apply does_ret. split; [done|]. intros b obs [= <- _]. cbn [app]. split.
  - intros Hok. bool_to_prop. subst. exists st. set_solver.
  - intros (st' & H1 & Hc & H2). apply elem_of_cons in H1 as [H1|H1%list_elem_of_singleton]; [|discriminate H1].
    apply elem_of_cons in H2 as [H2|H2%list_elem_of_singleton]; [discriminate H2|].
    apply (f_equal answered_stat) in H1. apply (f_equal answered_access) in H2. injection H1 as ->. injection H2 as <-.
    by rewrite Hc.
Qed.

Lemma requires_tun : requires tun_device {| req_id := "device.tun"; req_blocks := true; req_seen := tun_seen |}.
Proof.
  unfold tun_device, requires. apply does_bind. eapply does_mono; [|apply does_tun_probe].
  intros [[usable obs]|e|] t [Hf Hr]; [|done|done]. apply does_ret. split; [done|]. intros c [= <-]. rewrite app_nil_r.
  apply (check_judges {| req_id := "device.tun"; req_blocks := true; req_seen := tun_seen |}); [done|]. by apply (Hr usable obs).
Qed.

(** A lookup by one call. *)
Lemma requires_lookup (m : M S (option string)) seen id obs exp rem :
  does m (fun o t => match o with Ret v => is_Some v <-> seen t | Raise _ => ~ seen t | OutOfFuel => False end) ->
  requires (resolved ← lookup m; mret (check id (bool_decide (is_Some resolved)) "required" (obs resolved) exp rem))
    {| req_id := id; req_blocks := true; req_seen := seen |}.
Proof.
  intros Hm. unfold lookup, requires. apply does_bind, does_try. eapply does_mono; [|exact Hm].
  assert (forall v t, (is_Some v <-> seen t) ->
    judges {| req_id := id; req_blocks := true; req_seen := seen |} (check id (bool_decide (is_Some v)) "required" (obs v) exp rem) t)
    as Hj.
  { intros v t Hv. apply (check_judges {| req_id := id; req_blocks := true; req_seen := seen |}); [done|].
    by rewrite bool_decide_eq_true. }
  intros [v|e|] t Hr; [| |done].
  - apply does_ret. split; [done|]. intros x [= <-]. rewrite app_nil_r. by apply Hj.
  - case_match; [apply does_ret, does_ret|apply does_raise]; (split; [done|]); [|done].
    intros x [= <-]. rewrite !app_nil_r. apply (Hj None). split; [by intros []|done].
Qed.

Lemma requires_tool name rem check_name :
  requires (tool name rem check_name)
    {| req_id := "tool." +:+ (if str_empty check_name then name else check_name); req_blocks := true; req_seen := tool_seen name |}.
Proof.
  apply requires_lookup. unfold tool_seen. does_call; intros a.
  - split; [intros [path ->]; exists path; set_solver|]. intros [path Hin%list_elem_of_singleton%(f_equal answered_path)].
    injection Hin as <-. by eexists.
  - by intros [path Hin%list_elem_of_singleton%(f_equal answered_path)].
Qed.

Lemma requires_library name rem :
  requires (library name rem) {| req_id := "library." +:+ name; req_blocks := true; req_seen := library_seen name |}.
Proof.
  apply requires_lookup. unfold library_seen. does_call; intros a.
  - split; [intros [path ->]; exists path; set_solver|]. intros [path Hin%list_elem_of_singleton%(f_equal answered_path)].
    injection Hin as <-. by eexists.
  - by intros [path Hin%list_elem_of_singleton%(f_equal answered_path)].
Qed.

(** The value of a file under [/proc] is the expected one. *)
Lemma requires_proc relative value r sev exp rem :
  bool_decide (sev = "advisory") = negb (req_blocks r) -> req_seen r = sysctl_seen relative value ->
  requires (v ← read_proc relative; mret (check (req_id r) (bool_decide (v = inl value)) sev (proc_observed v) exp rem)) r.
Proof.
  intros Hsev Hseen. unfold requires. apply does_bind. eapply does_mono; [|apply does_read_proc].
  intros [v|e|] t [Hf Hr]; [|done|done]. apply does_ret. split; [done|]. intros c [= <-]. rewrite app_nil_r.
  apply check_judges; [done|]. rewrite Hseen, bool_decide_eq_true. by apply (Hr v).
Qed.

(** The results of a list of checks, each with its part of the trace. *)
Definition judged (rs : list requirement) (cs : list CheckResult) (ts : list trace) : Prop :=
  Forall2 (fun r ct => judges r ct.1 ct.2) rs (zip cs ts) /\ length cs = length rs /\ length ts = length rs.

Lemma judged_app rs1 cs1 ts1 rs2 cs2 ts2 :
  judged rs1 cs1 ts1 -> judged rs2 cs2 ts2 -> judged (rs1 ++ rs2) (cs1 ++ cs2) (ts1 ++ ts2).
Proof.
  intros (H1 & Hc1 & Ht1) (H2 & Hc2 & Ht2). unfold judged. rewrite !length_app, zip_with_app by congruence.
  split_and!; [by apply Forall2_app|congruence|congruence].
Qed.
Lemma judged_one r c t : judges r c t -> judged [r] [c] [t].
Proof. intros H. split_and!; [|done|done]. apply Forall2_cons_2; [done|apply Forall2_nil_2]. Qed.

Lemma does_sequence ms rs :
  Forall2 requires ms rs ->
  does (sequence ms) (fun o t => o <> OutOfFuel /\ forall cs, o = Ret cs -> exists ts, t = concat ts /\ judged rs cs ts).
Proof.
  induction 1 as [|m r ms rs Hm Hms IH]; cbn [sequence].
  - apply does_ret. split; [done|]. intros cs [= <-]. exists []. by split_and!.
  - apply does_bind. eapply does_mono; [|exact Hm]. intros [c|e|] t [Hf Hc]; [|done|done].
    apply does_bind. eapply does_mono; [|exact IH]. intros [cs|e|] t' [Hf' Hcs]; [|done|done].
    apply does_ret. split; [done|]. intros cs' [= <-]. destruct (Hcs cs eq_refl) as (ts & -> & Hts).
    exists (t :: ts). rewrite app_nil_r. split; [done|]. apply (judged_app [r] [c] [t]); [|done]. by apply judged_one, Hc.
Qed.

Lemma emits_read_proc relative : emits inspecting (read_proc relative : M S _).
Proof. unfold read_proc. emits. Qed.

Lemma emits_sequence (ms : list (M S CheckResult)) : Forall (emits inspecting) ms -> emits inspecting (sequence ms).
Proof.
  induction 1; cbn [sequence]; [apply emits_ret|]. emits; done.
Qed.

Lemma emits_collect_preflight cc v backend nft ipt iptr ipts :
  emits inspecting (collect_preflight cc v backend nft ipt iptr ipts : M S _).
Proof.
  assert (forall name rem cn, emits inspecting (tool name rem cn : M S _)) as Htool.
  { intros. unfold tool, lookup. emits. }
  assert (forall id rel exp rem, emits inspecting (required_sysctl id rel exp rem : M S _)) as Hsys.
  { intros. unfold required_sysctl. apply emits_bind; [apply emits_read_proc|]. intros. emits. }
  assert (forall scope, emits inspecting (rp_filter scope : M S _)) as Hrp.
  { intros. unfold rp_filter. apply emits_bind; [apply emits_read_proc|]. intros. emits. }
  unfold collect_preflight. apply emits_bind; [apply emits_of_res|intros _].
  apply emits_bind; [apply emits_of_res|intros _]. apply emits_bind.
  { apply emits_sequence. repeat apply Forall_cons_2; try apply Forall_nil_2; auto.
    - unfold cap_net_admin. apply emits_bind; [apply emits_read_proc|]. intros. emits.
    - unfold tun_device, tun_probe. emits. }
  intros prefix. destruct (firewall_checks backend nft ipt iptr ipts) as [fw|] eqn:Hfw; cbn [res_of_option].
  2: { by apply emits_nil. }
  change (of_res (Ok fw) ≫= ?k) with (k fw).
  apply emits_bind.
  { apply emits_sequence. unfold firewall_checks in Hfw.
    repeat case_match; simplify_eq; cbn; repeat apply Forall_cons_2; try apply Forall_nil_2; auto.
    unfold library, lookup. emits. }
  intros fws. apply emits_bind; [unfold forwarding_check; destruct (v =? 4); auto|]. intros fwd.
  apply emits_bind; [|intros; apply emits_ret].
  apply emits_sequence. destruct (v =? 4); repeat apply Forall_cons_2; try apply Forall_nil_2; auto.
Qed.

Lemma report_ok_Forall r : report_ok r = true <-> Forall (fun c => cr_status c <> "fail") (checks r).
Proof.
  unfold report_ok. rewrite forallb_forall, Forall_forall. split; intros H c Hc; specialize (H c).
  - specialize (H ltac:(by apply list_elem_of_In)). by bool_to_prop.
  - rewrite bool_decide_false; [done|]. apply H. by apply list_elem_of_In.
Qed.

(** No check fails exactly when everything that blocks was seen. *)
Lemma judged_ok rs cs ts : judged rs cs ts ->
  Forall (fun c => cr_status c <> "fail") cs <-> Forall2 (fun r t => req_blocks r = true -> req_seen r t) rs ts.
Proof.
  intros (Hj & Hcs & Hts). revert cs ts Hj Hcs Hts. induction rs as [|r rs IH]; intros [|c cs] [|t ts] Hj Hcs Hts; try done.
  cbn in Hj. apply Forall2_cons_1 in Hj as [(_ & Hp & Hst) Hj]. cbn in Hp, Hst.
  rewrite Forall_cons, Forall2_cons, (IH cs ts Hj) by (cbn in *; congruence).
  enough (cr_status c <> "fail" <-> (req_blocks r = true -> req_seen r t)) as -> by done. rewrite <- Hp.
  destruct Hst as [Hst|Hst]; rewrite Hst; destruct (req_blocks r); naive_solver.
Qed.

Lemma firewall_checks_require backend nft ipt iptr ipts fw :
  firewall_checks backend nft ipt iptr ipts = Some fw -> Forall2 requires fw (firewall_spec backend nft ipt iptr ipts).
Proof.
  unfold firewall_checks, firewall_spec. intros H. repeat case_bool_decide; simplify_eq; cbn;
    repeat apply Forall2_cons_2; try apply Forall2_nil_2; try apply requires_library; apply (requires_tool _ _ (String _ _)).
Qed.

Lemma prefix_require : Forall2 requires
  [cap_net_admin; tun_device; tool "ip" "install iproute2 and expose the ip executable on PATH" EmptyString] prefix_spec.
Proof.
  repeat apply Forall2_cons_2; [apply requires_cap|apply requires_tun|apply (requires_tool "ip" _ EmptyString)|].
  apply Forall2_nil_2.
Qed.

Lemma forwarding_require v : requires (forwarding_check v) (forwarding_spec v).
Proof.
  unfold forwarding_check, forwarding_spec, required_sysctl. destruct (v =? 4).
  - by apply (requires_proc _ _ {| req_id := "sysctl.ipv4_forward"; req_blocks := true; req_seen := _ |}).
  - by apply (requires_proc _ _ {| req_id := "sysctl.ipv6_forward"; req_blocks := true; req_seen := _ |}).
Qed.

Lemma advisory_require v :
  Forall2 requires (if v =? 4 then [rp_filter "all"; rp_filter "default"] else []) (advisory_spec v).
Proof.
  unfold advisory_spec, rp_filter. destruct (v =? 4); [|apply Forall2_nil_2]. repeat apply Forall2_cons_2; [..|apply Forall2_nil_2].
  - by apply (requires_proc _ _ {| req_id := "sysctl.rp_filter.all"; req_blocks := false; req_seen := _ |}).
  - by apply (requires_proc _ _ {| req_id := "sysctl.rp_filter.default"; req_blocks := false; req_seen := _ |}).
Qed.

Lemma does_collect_preflight cc v backend nft ipt iptr ipts :
  does (collect_preflight cc v backend nft ipt iptr ipts : M S _) (fun o suf => o <> OutOfFuel /\
    forall report, o = Ret report -> cc_name_match cc = true /\ requested_cc report = cc /\
    exists ts, suf = concat ts /\ judged (preflight_spec v backend nft ipt iptr ipts) (checks report) ts).
Proof.
  unfold collect_preflight. apply does_bind, does_of_res. destruct (cc_name_match cc); cbn [negb raise_if]; [|done].
  apply does_bind, does_of_res. destruct (_ || _); cbn [negb raise_if]; [|done].
  apply does_bind. eapply does_mono; [|apply does_sequence, prefix_require].
  intros [cs1|e|] t1 [Hf1 H1]; [|done|done]. destruct (H1 cs1 eq_refl) as (ts1 & -> & Hj1).
  apply does_bind, does_of_res. destruct (firewall_checks backend nft ipt iptr ipts) as [fw|] eqn:Hfw; [|done]. cbn [res_of_option].
  apply does_bind. eapply does_mono; [|by eapply does_sequence, firewall_checks_require].
  intros [cs2|e|] t2 [Hf2 H2]; [|done|done]. destruct (H2 cs2 eq_refl) as (ts2 & -> & Hj2).
  apply does_bind. eapply does_mono; [|apply forwarding_require].
  intros [c3|e|] t3 [Hf3 H3]; [|done|done]. specialize (H3 c3 eq_refl).
  apply does_bind. eapply does_mono; [|apply does_sequence, advisory_require].
  intros [cs4|e|] t4 [Hf4 H4]; [|done|done]. destruct (H4 cs4 eq_refl) as (ts4 & -> & Hj4).
  apply does_ret. split; [done|]. intros report [= <-]. cbn [requested_cc checks]. split_and!; [done|done|].
  exists (ts1 ++ ts2 ++ [t3] ++ ts4). rewrite !concat_app. split; [cbn; by rewrite !app_nil_r|].
  do 2 (apply judged_app; [done|]). apply (judged_app [_] [c3] [t3]); [by apply judged_one|done].
Qed.


End proofs.
