(* ===== verification/Tun.v ===== *)
(** * The TUN queue

    The TUN part of [tools/tcpcc_host.py]: name validation, [TunConfig], the
    [ifreq] buffer, [TunQueue] and [create_tun_queue] with its retry over name
    collisions and its rollback of the queue descriptor. *)

From S2P Require Import Prelude PyStr Reports Py Effects Struct IpAddr.
Local Open Scope Z_scope.

(** ** Constants *)

Definition TUNSETIFF : Z := 0x400454CA.
Definition IFF_TUN : Z := 0x0001.
Definition IFF_NO_PI : Z := 0x1000.
Definition IFF_TUN_EXCL : Z := 0x8000.
Definition TUN_IFF_FLAGS : Z := Z.lor (Z.lor IFF_TUN IFF_NO_PI) IFF_TUN_EXCL.
Definition IFNAMSIZ : nat := 16.
Definition IFREQ_SIZE : nat := 40.
Definition DEFAULT_TUN_PATH : string := "/dev/net/tun".
Definition DEFAULT_TUN_MTU : Z := 1500.
Definition MIN_IPV4_MTU : Z := 68.
Definition MIN_IPV6_MTU : Z := 1280.
Definition MAX_IPV4_MTU : Z := 65535.
Definition DEFAULT_NAME_ATTEMPTS : Z := 8.

(** [O_RDWR | O_NONBLOCK | O_CLOEXEC] *)
Definition TUN_OPEN_FLAGS : Z := Z.lor (Z.lor 2 2048) 524288.

(** ** Names *)

Definition is_tun_char (c : ascii) : bool :=
  is_alpha c || is_digit c || is_char "_" c || is_char "." c || is_char "-" c.

(** [TUN_NAME.fullmatch] *)
Definition tun_name_match (s : string) : bool :=
  (1 <=? String.length s)%nat && (String.length s <=? 15)%nat && str_forallb is_tun_char s.

Definition validate_tun_name (name : pyval) : res string :=
  match name with
  | VStr s =>
      if tun_name_match s && negb (str_in s ["."; ".."]) then Ok s
      else Err (ValueError "TUN name must contain 1-15 ASCII letters, digits, dots, underscores, or hyphens")
  | _ => Err (ValueError "TUN name must contain 1-15 ASCII letters, digits, dots, underscores, or hyphens")
  end.

(** ** Configuration *)

Record TunConfig := {
  host_address : string;
  guest_address : string;
  mtu : Z;
  tc_name : option string;
}.

Definition tun_mtu_error (minimum_mtu : Z) : exn :=
  ValueError ("TUN MTU must be an integer from " +:+ str_of_Z minimum_mtu
              +:+ " through " +:+ str_of_Z MAX_IPV4_MTU).

(** [TunConfig.__post_init__] *)
Definition new_tun_config (host guest mtu name : pyval) : res TunConfig :=
  host_text ← match host with VStr s => Ok s | _ => Err (ValueError "host_address must be one IP address") end;
  guest_text ← match guest with VStr s => Ok s | _ => Err (ValueError "guest_address must be one IP address") end;
  host_ip ← res_of_option (ValueError "host_address must be one IP address") (ip_address host_text);
  guest_ip ← res_of_option (ValueError "guest_address must be one IP address") (ip_address guest_text);
  _ ← raise_if (negb (ip_version host_ip =? ip_version guest_ip))
        (ValueError "host_address and guest_address families must match");
  _ ← raise_if (is_unspecified host_ip || is_unspecified guest_ip
                || is_multicast host_ip || is_multicast guest_ip)
        (ValueError "host_address and guest_address must be usable unicast");
  _ ← raise_if (bool_decide (host_ip = guest_ip))
        (ValueError "host_address and guest_address must be different");
  let minimum_mtu := if ip_version host_ip =? 4 then MIN_IPV4_MTU else MIN_IPV6_MTU in
  m ← match mtu with
      | VInt m =>
          if (minimum_mtu <=? m) && (m <=? MAX_IPV4_MTU) then Ok m
          else Err (tun_mtu_error minimum_mtu)
      | _ => Err (tun_mtu_error minimum_mtu)
      end;
  n ← match name with
      | VNone => Ok None
      | _ => s ← validate_tun_name name; Ok (Some s)
      end;
  Ok {| host_address := str_of_ip host_ip; guest_address := str_of_ip guest_ip;
        mtu := m; tc_name := n |}.

(** ** The queue object *)

Record TunQueue := { tq_name : string; tq_fd : option Z }.

(** [TunQueue.fd] *)
Definition tun_queue_fd (q : TunQueue) : res Z :=
  res_of_option (ValueError "TUN queue is closed") (tq_fd q).

Section tun.
Context `{E : Env}.

(** [TunQueue.close], on the queue's own state. *)
Definition tun_queue_close : M TunQueue unit :=
  q ← get_state;
  match tq_fd q with
  | None => mret tt
  | Some fd =>
      _ ← put_state {| tq_name := tq_name q; tq_fd := None |};
      perform (CClose fd)
  end.

(** ** The [ifreq] buffer *)

(** [name.encode("ascii")]; [None] is the [UnicodeEncodeError]. *)
Definition ascii_encode (s : string) : option bytes :=
  if str_forallb is_ascii s then Some (String.list_byte_of_string s) else None.
Definition ascii_decode (b : bytes) : option string :=
  let s := String.string_of_list_byte b in
  if str_forallb is_ascii s then Some s else None.

(** [_ifreq]: the name in its 16-byte field, then the flags, in a zeroed buffer. *)
Definition ifreq (name : string) : res bytes :=
  encoded ← res_of_option (Sys (SUnicodeError "ordinal not in range(128)")) (ascii_encode name);
  packed ← pack [FStr IFNAMSIZ; FUint 2] (encoded, (TUN_IFF_FLAGS, tt));
  Ok (ljust IFREQ_SIZE packed).

(** [data.split(b"\0", 1)[0]] *)
Fixpoint before_nul (b : bytes) : bytes :=
  match b with
  | [] => []
  | Byte.x00 :: _ => []
  | x :: b => x :: before_nul b
  end.

Definition attached_name (request : bytes) : res string :=
  res_of_option (RuntimeError "TUNSETIFF returned a non-ASCII interface name")
    (ascii_decode (before_nul (take IFNAMSIZ request))).

(** ** Creation *)

Definition new_tun_name {S} : M S string :=
  hex ← perform (CTokenHex 5);
  mret ("tcpcc" +:+ hex).

(** [_run_command] *)
Definition run_command {S} (argv : list string) : M S unit :=
  _ ← perform (CRun argv None); mret tt.

Definition close_after_setup_error {S} (fd : Z) (setup_error : exn) : M S unit :=
  try_except (perform (CClose fd))
    (fun cleanup_error => raise (TunSetupCleanupError setup_error cleanup_error)).

Definition prefixed (address : string) (len : Z) : string := address +:+ "/" +:+ str_of_Z len.

(** The [ip] commands that configure the attached interface. *)
Definition tun_commands (config : TunConfig) (ip_path : string) (host guest : ip_addr) (name : string)
    : list (list string) :=
  [ [ip_path; "address"; "add"; prefixed (host_address config) (max_prefixlen host);
     "peer"; prefixed (guest_address config) (max_prefixlen guest); "dev"; name];
    [ip_path; "link"; "set"; "dev"; name; "mtu"; str_of_Z (mtu config); "up"] ]
  ++ (if ip_version host =? 6
      then [[ip_path; "-6"; "route"; "replace"; guest_address config +:+ "/128"; "dev"; name;
             "src"; host_address config]]
      else []).

(** The guarded block of one attempt; its state is the [name_collision] flag. *)
Definition tun_setup (config : TunConfig) (ip_path : string) (generated : bool)
    (host guest : ip_addr) (fd : Z) (name : string) : M bool string :=
  request ← of_res (ifreq name);
  request ← try_except (perform (CIoctl fd TUNSETIFF request))
    (fun ioctl_error =>
       _ ← (if is_OSError ioctl_error && generated &&
               bool_decide (os_errno ioctl_error = Some EBUSY \/ os_errno ioctl_error = Some EEXIST)
            then put_state true else mret tt);
       raise ioctl_error);
  actual_name ← of_res (attached_name request);
  _ ← of_res (raise_if (negb (bool_decide (actual_name = name)))
                (RuntimeError ("TUNSETIFF attached " +:+ py_repr actual_name +:+ ", expected "
                               +:+ py_repr name)));
  _ ← for_each (tun_commands config ip_path host guest name) run_command;
  mret actual_name.

(** The loop over name attempts. *)
Fixpoint tun_attempts {S} (config : TunConfig) (ip_path tun_path : string) (generated : bool)
    (attempts total : nat) : M S TunQueue :=
  match attempts with
  | O => raise (Sys (SOSError OsFileExists (Some EEXIST)
           ("[Errno 17] could not allocate a unique TUN name after "
            +:+ str_of_Z (Z.of_nat total) +:+ " attempts")))
  | Datatypes.S attempts =>
      candidate ← (if generated then new_tun_name
                   else mret (default EmptyString (tc_name config)));
      name ← of_res (validate_tun_name (VStr candidate));
      host ← of_res (res_of_option (ValueError "not an IP address") (ip_address (host_address config)));
      guest ← of_res (res_of_option (ValueError "not an IP address") (ip_address (guest_address config)));
      fd ← perform (COpen tun_path TUN_OPEN_FLAGS);
      '(o, name_collision) ← with_state false
        (tun_setup config ip_path generated host guest fd name);
      match o with
      | Ret actual_name => mret {| tq_name := actual_name; tq_fd := Some fd |}
      | Raise setup_error =>
          _ ← close_after_setup_error fd setup_error;
          if name_collision : bool then tun_attempts config ip_path tun_path generated attempts total
          else raise setup_error
      | OutOfFuel => out_of_fuel
      end
  end.

Definition create_tun_queue {S} (config : TunConfig) (tun_path : string) (ip_path max_name_attempts : pyval)
    : M S TunQueue :=
  path ← of_res (res_of_option (ValueError "ip_path must name one executable") (valid_path ip_path));
  n ← of_res (match max_name_attempts with
              | VInt n => if n <? 1 then Err (ValueError "max_name_attempts must be a positive integer")
                          else Ok n
              | _ => Err (ValueError "max_name_attempts must be a positive integer")
              end);
  let generated := bool_decide (tc_name config = None) in
  let attempts := if generated then Z.to_nat n else 1%nat in
  tun_attempts config path tun_path generated attempts attempts.

End tun.

Example tun_flags : TUN_IFF_FLAGS = 0x9001.
Proof. reflexivity. Qed.

(** ** Lemmas *)

Lemma validate_tun_name_Ok v s :
  validate_tun_name v = Ok s -> v = VStr s /\ tun_name_match s = true /\ s <> "." /\ s <> "..".
Proof.
  unfold validate_tun_name. destruct v; try done. destruct (_ && _) eqn:H; [|done].
  intros [= ->]. bool_to_prop. unfold str_in in *. bool_to_prop. split_and!; try done; set_solver.
Qed.

Section tun_proofs.
Context `{E : Env}.

(** Code that only runs commands. *)
Lemma does_run_command {S} argv :
  does (run_command argv : M S unit) (fun o suf =>
    opened suf = [] /\ closed suf = [] /\ commands suf = [(argv, None)] /\ o <> OutOfFuel).
Proof. unfold run_command. apply does_bind. by does_call; intros; [apply does_ret|]. Qed.

Lemma wp_of_does {S A} (m : M S A) Q s tr :
  does m Q -> wp m (fun o s' tr' => s' = s /\ exists suf, tr' = tr ++ suf /\ Q o suf) s tr.
Proof. intros Hm. apply Hm. Qed.

Lemma wp_tun_setup config ip generated host guest fd name tr :
  wp (tun_setup config ip generated host guest fd name) (fun o coll tr' =>
    exists suf, tr' = tr ++ suf /\ opened suf = [] /\ closed suf = [] /\
    match o with
    | Ret n => n = name /\ commands suf = (fun argv => (argv, None)) <$> tun_commands config ip host guest name
    | Raise _ => coll = true -> commands suf = []
    | OutOfFuel => False
    end) false tr.
Proof.
  unfold tun_setup. apply wp_bind, wp_of_res. destruct (ifreq name) as [request|e].
  2: { exists []. by rewrite app_nil_r. }
  apply wp_bind, wp_try. wp_call; [intros reply _|intros e _].
  2: { apply wp_bind. case_match; (apply wp_put || apply wp_ret); apply wp_raise; by eexists [_]. }
  apply wp_bind, wp_of_res. destruct (attached_name reply) as [actual|e]; [|by eexists [_]].
  apply wp_bind, wp_of_res. unfold raise_if. destruct (bool_decide (actual = name)) eqn:Ha; [|by eexists [_]].
  bool_to_prop. subst actual. cbn [negb].
  apply wp_bind. eapply wp_mono; [|apply wp_of_does, (does_for_each _ _ (fun o suf =>
    opened suf = [] /\ closed suf = [] /\
    match o with
    | Ret _ => commands suf = (fun argv => (argv, None)) <$> tun_commands config ip host guest name
    | Raise _ => True
    | OutOfFuel => False
    end) (fun d suf => opened suf = [] /\ closed suf = [] /\ commands suf = (fun argv => (argv, None)) <$> d))].
  - intros o coll tr' (-> & suf & -> & Ho & Hc & Hcmd). rewrite <- app_assoc.
    destruct o as [[]|e|]; [apply wp_ret| |done]; (eexists (_ :: suf)); split; try done.
  - done.
  - intros d x t (Ho & Hc & Hcmd). eapply does_mono; [|apply does_run_command].
    intros o t' (Ho' & Hc' & Hcmd' & Hf). autorewrite with trace.
    rewrite Ho, Hc, Hcmd, Ho', Hc', Hcmd', fmap_app. by destruct o.
  - by intros t (? & ? & ?).
Qed.

Lemma does_close_after_setup_error {S} fd e :
  does (close_after_setup_error fd e : M S unit) (fun o suf =>
    opened suf = [] /\ closed suf = [fd] /\ commands suf = [] /\ o <> OutOfFuel).
Proof.
  unfold close_after_setup_error. apply does_try. does_call; [done|]. intros e'. by apply does_raise.
Qed.

Lemma does_new_tun_name {S} :
  does (new_tun_name : M S string) (fun o suf =>
    opened suf = [] /\ closed suf = [] /\ commands suf = [] /\ o <> OutOfFuel).
Proof. unfold new_tun_name. apply does_bind. by does_call; intros; [apply does_ret|]. Qed.

(** What every run of the attempts does: the descriptors it opened were all
    closed, but for the one it returns, at most one was opened per attempt, and
    only the returned queue's interface was configured. *)
Definition tun_post (config : TunConfig) (ip_path : string) (generated : bool) (attempts : nat)
    (o : outcome TunQueue) (suf : trace) : Prop :=
  (length (opened suf) <= attempts)%nat /\
  match o with
  | Ret q =>
      exists fd host guest, tq_fd q = Some fd /\ opened suf = closed suf ++ [fd] /\
        ip_address (host_address config) = Some host /\
        ip_address (guest_address config) = Some guest /\
        commands suf = (fun argv => (argv, None)) <$> tun_commands config ip_path host guest (tq_name q) /\
        tun_name_match (tq_name q) = true /\
        (generated = false -> tc_name config = Some (tq_name q))
  | Raise _ => opened suf = closed suf
  | OutOfFuel => False
  end.

(** A step that opens and closes nothing keeps the postcondition. *)
Lemma tun_post_quiet config ip generated n o t suf :
  opened t = [] -> closed t = [] -> commands t = [] ->
  tun_post config ip generated n o suf -> tun_post config ip generated n o (t ++ suf).
Proof. intros Ho Hc Hm. unfold tun_post. autorewrite with trace. by rewrite Ho, Hc, Hm. Qed.

(** An attempt that opened a descriptor, configured nothing and closed it again
    leaves the rest to the next attempt. *)
Lemma tun_post_retry config ip generated n o fd t suf :
  opened t = [fd] -> closed t = [fd] -> commands t = [] ->
  tun_post config ip generated n o suf -> tun_post config ip generated (Datatypes.S n) o (t ++ suf).
Proof.
  intros Ho Hc Hm [Hl Hpost]. unfold tun_post. autorewrite with trace. rewrite Ho, Hc, Hm.
  split; [cbn; lia|]. destruct o as [q|e|]; [| |done].
  - destruct Hpost as (fd' & host & guest & ? & Hfds & ?). exists fd', host, guest.
    rewrite Hfds. naive_solver.
  - cbn. by rewrite Hpost.
Qed.

Lemma does_tun_attempts {S} config ip path generated n total :
  does (tun_attempts config ip path generated n total : M S TunQueue) (tun_post config ip generated n).
Proof.
  induction n as [|n IH]; cbn [tun_attempts]; [by apply does_raise; split; [cbn; lia|]|].
  apply does_bind.
  eapply does_mono with (P := fun o t => opened t = [] /\ closed t = [] /\ commands t = [] /\ o <> OutOfFuel /\
    forall c, o = Ret c -> generated = false -> c = default EmptyString (tc_name config)).
  2: { destruct generated; [|apply does_ret; naive_solver].
       eapply does_mono; [|apply does_new_tun_name]. naive_solver. }
  intros [c|e|] t (Ho & Hc & Hcmd & Hf & Hcand);
    [|split; [rewrite Ho; cbn; lia|congruence]|done].
  eapply does_mono; [intros o suf; apply (tun_post_quiet _ _ _ _ _ t suf Ho Hc Hcmd)|].
  assert (forall e, tun_post config ip generated (Datatypes.S n) (Raise e) []) as Hstop.
  { intros e. split; [cbn; lia|done]. }
  apply does_bind, does_of_res. destruct (validate_tun_name (VStr c)) as [name|e] eqn:Hname; [|apply Hstop].
  apply validate_tun_name_Ok in Hname as ([= ->] & Hname & _).
  apply does_bind, does_of_res. destruct (ip_address (host_address config)) as [host|] eqn:Hh; [|apply Hstop].
  apply does_bind, does_of_res. destruct (ip_address (guest_address config)) as [guest|] eqn:Hg; [|apply Hstop].
  cbn [res_of_option app].
  apply does_bind. does_call; [intros fd|intros e; by split; [cbn; lia|]].
  apply does_bind. apply (does_with_state false). intros tr.
  eapply wp_mono; [|apply wp_tun_setup].
  intros o coll tr' (suf & -> & Hos & Hcs & Hout). exists suf. split; [done|].
  destruct o as [actual|e|]; [| |done].
  - destruct Hout as [-> Hcmds]. apply does_ret. unfold tun_post. cbn [tq_fd tq_name].
    autorewrite with trace. rewrite Hos, Hcs, Hcmds. split; [cbn; lia|].
    exists fd, host, guest. cbn. rewrite app_nil_r. split_and!; try done.
    intros Hgen. specialize (Hcand name eq_refl Hgen).
    destruct (tc_name config); cbn in Hcand; by subst.
  - apply does_bind. eapply does_mono; [|apply does_close_after_setup_error].
    intros o' t' (Ho' & Hc' & Hcmd' & Hf').
    assert (forall e', tun_post config ip generated (Datatypes.S n) (Raise e')
      ([Ev (COpen path TUN_OPEN_FLAGS) (Answer fd)] ++ suf ++ t')) as Hraise.
    { intros e'. unfold tun_post. autorewrite with trace. rewrite Hos, Hcs, Ho', Hc'.
      split; [cbn; lia|done]. }
    destruct o' as [[]|e'|]; [|apply Hraise|done].
    destruct coll; [|apply does_raise; rewrite app_nil_r; apply Hraise].
    eapply does_mono; [|apply IH]. intros o'' t'' Hpost. rewrite !app_assoc.
    apply (tun_post_retry _ _ _ _ _ fd); [..|done];
      autorewrite with trace; rewrite ?Hos, ?Hcs, ?Ho', ?Hc', ?Hcmd', ?Hout by done; done.
Qed.

Lemma create_tun_queue_post {S} config path ip attempts :
  does (create_tun_queue config path ip attempts : M S TunQueue) (fun o suf =>
    exists ip_text n, tun_post config ip_text (bool_decide (tc_name config = None)) n o suf /\
      (opened suf <> [] -> ip = VStr ip_text /\
       n = match tc_name config with
           | Some _ => 1%nat
           | None => match attempts with VInt z => Z.to_nat z | _ => 0%nat end
           end)).
Proof.
  unfold create_tun_queue. apply does_bind, does_of_res.
  assert (forall e, exists ip_text n,
    tun_post config ip_text (bool_decide (tc_name config = None)) n (Raise e) [] /\
      (opened [] <> [] -> ip = VStr ip_text /\
       n = match tc_name config with
           | Some _ => 1%nat
           | None => match attempts with VInt z => Z.to_nat z | _ => 0%nat end
           end)) as Hstop.
  { intros e. exists EmptyString, 0%nat. by split. }
  destruct (valid_path ip) as [ip_text|] eqn:Hip; [|apply Hstop].
  assert (ip = VStr ip_text) as -> by (destruct ip; try done; cbn in Hip; by destruct (_ || _); simplify_eq).
  apply does_bind, does_of_res. destruct attempts as [| |z| | | |]; try apply Hstop.
  destruct (z <? 1); [apply Hstop|]. cbn [app].
  eapply does_mono; [|apply does_tun_attempts]. intros o suf Hpost. exists ip_text. eexists. split; [exact Hpost|].
  intros _. split; [done|]. by destruct (tc_name config).
Qed.

(** C21. [create_tun_queue] owns its descriptors: on any failure every
    descriptor it opened has been closed, on success all but the one of the
    returned queue; it opens at most one per attempt, never more than the
    attempts asked for (one for a fixed name), and always ends. *)
Theorem create_tun_queue_owns_fds {S} config path ip attempts (s : S) tr :
  let '(o, s', tr') := create_tun_queue config path ip attempts s tr in
  s' = s /\ exists suf, tr' = tr ++ suf /\
    (Z.of_nat (length (opened suf)) <=
       match tc_name config, attempts with
       | Some _, _ => 1
       | None, VInt n => Z.max 0 n
       | None, _ => 0
       end) /\
    match o with
    | Ret q => exists fd, tq_fd q = Some fd /\ opened suf = closed suf ++ [fd]
    | Raise _ => opened suf = closed suf
    | OutOfFuel => False
    end.
Proof.
  pose proof (create_tun_queue_post config path ip attempts s tr) as H. unfold wp in H.
  destruct (create_tun_queue config path ip attempts s tr) as [[o s'] tr'].
  destruct H as (-> & suf & -> & ip_text & n & [Hlen Hpost] & Hn). split; [done|]. exists suf. split; [done|].
  split.
  - destruct (opened suf) as [|fd l] eqn:Hopen; [cbn; destruct (tc_name config), attempts; lia|].
    destruct Hn as [_ ->]; [done|]. destruct (tc_name config); [lia|]. destruct attempts; lia.
  - destruct o; [|done|done]. naive_solver.
Qed.

(** When [create_tun_queue] succeeds, the interface it returns carries a
    valid name (the requested one when there is one), and the commands run are
    exactly the address, link and (for IPv6) route commands for it, in order:
    collisions of generated names configure nothing. *)
Theorem create_tun_queue_configures {S} config path ip attempts q (s s' : S) tr tr' :
  create_tun_queue config path ip attempts s tr = (Ret q, s', tr') ->
  tun_name_match (tq_name q) = true /\
  (forall name, tc_name config = Some name -> tq_name q = name) /\
  exists ip_path host guest suf, ip = VStr ip_path /\ tr' = tr ++ suf /\
    ip_address (host_address config) = Some host /\
    ip_address (guest_address config) = Some guest /\
    commands suf = (fun argv => (argv, None)) <$> tun_commands config ip_path host guest (tq_name q).
Proof.
  intros Hrun. pose proof (create_tun_queue_post config path ip attempts s tr) as H. unfold wp in H.
  rewrite Hrun in H. destruct H as (-> & suf & -> & ip_text & n & [_ Hpost] & Hn).
  destruct Hpost as (fd & host & guest & Hfd & Hopen & Hh & Hg & Hcmd & Hm & Hname).
  destruct Hn as [-> _]; [by rewrite Hopen; destruct (closed suf)|].
  split; [done|]. split; [|by exists ip_text, host, guest, suf].
  intros name Hc. rewrite Hc in Hname. specialize (Hname eq_refl). by injection Hname.
Qed.

(** Closing [n] times, whatever the close itself answers. *)
Lemma wp_tun_queue_close_none tr name :
  wp tun_queue_close (fun o q' tr' => o = Ret tt /\ q' = {| tq_name := name; tq_fd := None |} /\ tr' = tr)
    {| tq_name := name; tq_fd := None |} tr.
Proof. unfold tun_queue_close. apply wp_bind, wp_get. by cbn [tq_fd]; apply wp_ret. Qed.

(** [TunQueue.close] is idempotent: closing a queue any positive number
    of times closes its descriptor exactly once, even when that close fails,
    and afterwards [fd] raises. *)
Theorem tun_queue_close_once n q tr :
  let '(_, q', tr') :=
    for_each (replicate (Datatypes.S n) tt) (fun _ => _ ← attempt tun_queue_close; mret tt) q tr in
  exists suf, tr' = tr ++ suf /\ closed suf = option_list (tq_fd q) /\
    tun_queue_fd q' = Err (ValueError "TUN queue is closed").
Proof.
  destruct q as [name fd]. cbn [tq_fd].
  enough (wp (for_each (replicate (Datatypes.S n) tt) (fun _ => _ ← attempt tun_queue_close; mret tt))
    (fun _ q' tr' => exists suf, tr' = tr ++ suf /\ closed suf = option_list fd /\
       tun_queue_fd q' = Err (ValueError "TUN queue is closed")) {| tq_name := name; tq_fd := fd |} tr) as H.
  { unfold wp in H. by destruct (for_each _ _ _ _) as [[o q'] tr']. }
  assert (forall n tr', wp (for_each (replicate n tt) (fun _ => _ ← attempt tun_queue_close; mret tt))
    (fun _ q' tr'' => tr'' = tr' /\ q' = {| tq_name := name; tq_fd := None |})
    {| tq_name := name; tq_fd := None |} tr') as Hnone.
  { clear. intros n tr'. induction n as [|n IH]; cbn [replicate for_each]; [by apply wp_ret|].
    apply wp_bind, wp_bind, wp_attempt. eapply wp_mono; [|apply wp_tun_queue_close_none].
    intros o q' tr'' (-> & -> & ->). by apply wp_ret. }
  cbn [replicate for_each]. apply wp_bind, wp_bind, wp_attempt.
  unfold tun_queue_close at 1. apply wp_bind, wp_get. cbn [tq_fd tq_name]. destruct fd as [fd|].
  - apply wp_bind, wp_put. wp_call; intros a _; apply wp_ret;
      (eapply wp_mono; [|apply Hnone]); intros o q' tr' [-> ->]; by eexists [_].
  - apply wp_ret, wp_ret. eapply wp_mono; [|apply Hnone]. intros o q' tr' [-> ->].
    exists []. by rewrite app_nil_r.
Qed.

End tun_proofs.

(** ** Configuration and the interface request *)

Lemma tun_char_facts c : is_tun_char c = true -> is_ascii c = true /\ Ascii.byte_of_ascii c <> Byte.x00.
Proof. by_char c. Qed.

(** What [TunConfig] accepts is canonical: both addresses are distinct
    usable unicast addresses of one family written canonically, the MTU is
    within the family's bounds, the name is a valid interface name, and
    validating the stored fields again gives the same configuration. *)
Theorem new_tun_config_canonical host guest m name c :
  new_tun_config host guest m name = Ok c ->
  (exists h g, ip_address (host_address c) = Some h /\ ip_address (guest_address c) = Some g /\
     host_address c = str_of_ip h /\ guest_address c = str_of_ip g /\
     ip_version h = ip_version g /\ h <> g /\
     is_unspecified h = false /\ is_unspecified g = false /\
     is_multicast h = false /\ is_multicast g = false /\
     (if ip_version h =? 4 then MIN_IPV4_MTU else MIN_IPV6_MTU) <= mtu c <= MAX_IPV4_MTU) /\
  (forall n, tc_name c = Some n -> tun_name_match n = true /\ n <> "." /\ n <> "..") /\
  new_tun_config (VStr (host_address c)) (VStr (guest_address c)) (VInt (mtu c))
    (from_option VStr VNone (tc_name c)) = Ok c.
Proof.
  unfold new_tun_config. intros H. destruct host as [| | | |hs| |], guest as [| | | |gs| |]; try done.
  cbn [mbind res_bind] in H. res_inv. rename x into h, x0 into g, x1 into m', x2 into n'.
  assert (ip_address hs = Some h /\ ip_address gs = Some g) as [Hh Hg].
  { destruct (ip_address hs), (ip_address gs); naive_solver. }
  bool_to_prop. destruct m; try done.
  destruct ((_ <=? z) && _) eqn:Hb; [|done]. injection H5 as [= ->].
  apply ip_address_wf in Hh, Hg. cbn [host_address guest_address mtu tc_name].
  assert (from_option VStr VNone n' = name /\ forall n, n' = Some n -> tun_name_match n = true /\ n <> "." /\ n <> "..")
    as [Hname Hn].
  { destruct name; try done; [naive_solver|]. res_inv. apply validate_tun_name_Ok in H5. naive_solver. }
  split_and!; [|done|].
  - exists h, g. rewrite !ip_address_str by done. bool_to_prop. split_and!; try done; by destruct (_ =? 4).
  - rewrite Hname. cbn [mbind res_bind]. rewrite !ip_address_str by done. cbn [mbind res_bind res_of_option].
    unfold raise_if. rewrite H2, Z.eqb_refl, H, H8, H7, H3. cbn.
    rewrite bool_decide_false by done. cbn. rewrite H2 in Hb. rewrite Hb. cbn. by rewrite H6.
Qed.

Lemma new_tun_config_canonical_witness :
  exists c, new_tun_config (VStr "10.0.0.1") (VStr "10.0.0.2") (VInt 1500) (VStr "tcpcc0") = Ok c /\
  new_tun_config (VStr (host_address c)) (VStr (guest_address c)) (VInt (mtu c))
    (from_option VStr VNone (tc_name c)) = Ok c.
Proof.
  destruct (new_tun_config (VStr "10.0.0.1") (VStr "10.0.0.2") (VInt 1500) (VStr "tcpcc0")) as [c|e] eqn:Hc.
  - exists c. split; [done|]. apply (new_tun_config_canonical _ _ _ _ _ Hc).
  - vm_compute in Hc. discriminate Hc.
Defined.

(** A host where opening the device, the request and the commands succeed. *)
Definition plain_host : Env := fun _ c =>
  match c return reply (ret c) with
  | COpen _ _ => Answer 7
  | CIoctl _ _ buffer => Answer buffer
  | CRun _ _ => Answer EmptyString
  | CClose _ => Answer tt
  | _ => Fault (SRuntimeError "not available")
  end.

Lemma create_tun_queue_configures_witness :
  exists q tr', tq_name q = "tcpcc0" /\
    @create_tun_queue plain_host unit
      {| host_address := "10.0.0.1"; guest_address := "10.0.0.2"; mtu := 1500; tc_name := Some "tcpcc0" |}
      DEFAULT_TUN_PATH (VStr "ip") (VInt 8) tt [] = (Ret q, tt, tr').
Proof.
  destruct (@create_tun_queue plain_host unit
      {| host_address := "10.0.0.1"; guest_address := "10.0.0.2"; mtu := 1500; tc_name := Some "tcpcc0" |}
      DEFAULT_TUN_PATH (VStr "ip") (VInt 8) tt []) as [[[q|e|] []] tr'] eqn:Hrun.
  - exists q, tr'. split; [|done].
    by apply (@create_tun_queue_configures plain_host unit _ _ _ _ q tt tt [] tr' Hrun).
  - vm_compute in Hrun. discriminate Hrun.
  - vm_compute in Hrun. discriminate Hrun.
Defined.

Lemma string_of_list_byte_of_string s : String.string_of_list_byte (String.list_byte_of_string s) = s.
Proof. apply String.string_of_list_byte_of_string. Qed.

Lemma length_list_byte_of_string s : length (String.list_byte_of_string s) = String.length s.
Proof.
  unfold String.list_byte_of_string. rewrite length_map.
  induction s as [|c s IH]; cbn; [done|]. by rewrite IH.
Qed.

Lemma list_byte_cons c s :
  String.list_byte_of_string (String c s) = Ascii.byte_of_ascii c :: String.list_byte_of_string s.
Proof. done. Qed.

Lemma before_nul_cons b l : b <> Byte.x00 -> before_nul (b :: l) = b :: before_nul l.
Proof. by destruct b. Qed.

Lemma before_nul_string s t :
  str_forallb is_tun_char s = true ->
  before_nul (String.list_byte_of_string s ++ Byte.x00 :: t) = String.list_byte_of_string s.
Proof.
  induction s as [|c s IH]; [done|]. cbn [str_forallb]. intros H. bool_to_prop.
  destruct (tun_char_facts c) as [_ Hc]; [done|].
  rewrite list_byte_cons, <- app_comm_cons, before_nul_cons by done. by rewrite IH.
Qed.

(** The interface request names its interface: [_ifreq] of a valid name
    gives a 40-byte buffer with the flags [IFF_TUN | IFF_NO_PI | IFF_TUN_EXCL]
    after the 16-byte name field, from which [_attached_name] reads the name
    back. *)
Theorem ifreq_roundtrip name :
  tun_name_match name = true ->
  exists request, ifreq name = Ok request /\ length request = IFREQ_SIZE /\
    take 2 (drop IFNAMSIZ request) = le_bytes 2 0x9001 /\
    attached_name request = Ok name.
Proof.
  unfold tun_name_match. intros H. bool_to_prop.
  assert (str_forallb is_ascii name = true) as Hascii.
  { eapply str_forallb_impl; [|done]. intros c Hc. by destruct (tun_char_facts c). }
  set (b := String.list_byte_of_string name).
  assert (length b = String.length name) as Hlen by apply length_list_byte_of_string.
  exists (ljust IFREQ_SIZE (ljust IFNAMSIZ b ++ le_bytes 2 0x9001)).
  assert (length (ljust IFNAMSIZ b) = 16%nat) as Hl16 by (apply length_ljust; unfold IFNAMSIZ; lia).
  split; [|split; [|split]].
  - unfold ifreq, ascii_encode. rewrite Hascii. cbn [res_of_option mbind res_bind pack]. fold b.
    cbn [fst]. by rewrite (take_ge b) by (unfold IFNAMSIZ; lia).
  - apply length_ljust. rewrite length_app, Hl16. cbn. unfold IFREQ_SIZE. lia.
  - unfold ljust at 1. rewrite <- app_assoc, drop_app_length' by done.
    by rewrite take_app_length' by done.
  - unfold attached_name. unfold ljust at 1. rewrite <- app_assoc, take_app_length' by done.
    unfold ljust. replace (IFNAMSIZ - length b)%nat with (Datatypes.S (15 - length b)) by (unfold IFNAMSIZ; lia).
    cbn [replicate]. unfold b. rewrite before_nul_string by done.
    unfold ascii_decode. by rewrite string_of_list_byte_of_string, Hascii.
Qed.

Lemma ifreq_roundtrip_witness :
  exists request, ifreq "tcpcc0123456789" = Ok request /\ attached_name request = Ok "tcpcc0123456789".
Proof.
  destruct (ifreq_roundtrip "tcpcc0123456789") as (request & ? & _ & _ & ?); [reflexivity|].
  by exists request.
Defined.
