(* ===== verification/Nft.v ===== *)
(** * nftables

    The nftables part of [tools/tcpcc_host.py]: the DNAT configuration, the
    ownership marker and its parser, the ownership inspection, the atomic
    install and its lease, the two transports (a child process and the
    in-process library) and the backend over them. *)

From S2P Require Import Prelude PyStr Reports Py Effects Json IpAddr Tun.
Local Open Scope Z_scope.
Local Arguments strip_prefix : simpl never.

(** ** Names, ports and addresses *)

Definition NFT_OWNER_PREFIX : string := "tcpcc.owner.".
Definition NFT_CTX_OUTPUT_JSON : Z := Z.shiftl 1 4.

Definition is_table_char (c : ascii) : bool := is_lower c || is_digit c || is_char "_" c.

(** [NFT_TABLE_NAME.fullmatch] *)
Definition nft_table_name_match (s : string) : bool :=
  match s with
  | EmptyString => false
  | String c t => is_lower c && (String.length t <=? 31)%nat && str_forallb is_table_char t
  end.

Definition validate_nft_table_name (name : pyval) : res string :=
  let error := ValueError "nftables table name must start with a lowercase letter and contain at most 32 lowercase letters, digits, or underscores" in
  match name with
  | VStr s => if nft_table_name_match s then Ok s else Err error
  | _ => Err error
  end.

Definition validate_port (port : pyval) (field : string) : res Z :=
  let error := ValueError (field +:+ " must be an integer from 1 through 65535") in
  match port with
  | VInt p => if (1 <=? p) && (p <=? 65535) then Ok p else Err error
  | _ => Err error
  end.

Definition validate_endpoint_address (value : pyval) (field : string) : res string :=
  let error := ValueError (field +:+ " must be one usable IP address") in
  match value with
  | VStr s =>
      address ← res_of_option error (ip_address s);
      _ ← raise_if (is_unspecified address || is_multicast address) error;
      Ok (str_of_ip address)
  | _ => Err error
  end.

(** ** The DNAT configuration *)

Record NftDnatConfig := {
  listen_address : string;
  listen_port : Z;
  target_address : string;
  target_port : Z;
  dc_table_name : option string;
}.

(** [ipaddress.ip_address(text).version] *)
Definition address_version (text : string) : res Z :=
  a ← res_of_option (ValueError "not an IP address") (ip_address text); Ok (ip_version a).

(** [NftDnatConfig.__post_init__] *)
Definition new_nft_dnat_config (listen_address listen_port target_address target_port table_name : pyval)
    : res NftDnatConfig :=
  listen ← validate_endpoint_address listen_address "listen_address";
  target ← validate_endpoint_address target_address "target_address";
  lport ← validate_port listen_port "listen_port";
  tport ← validate_port target_port "target_port";
  lversion ← address_version listen;
  tversion ← address_version target;
  _ ← raise_if (negb (lversion =? tversion))
        (ValueError "DNAT listen and target address families must match");
  _ ← raise_if (bool_decide (listen = target))
        (ValueError "DNAT listen and target addresses must be different");
  name ← match table_name with
         | VNone => Ok None
         | _ => s ← validate_nft_table_name table_name; Ok (Some s)
         end;
  Ok {| listen_address := listen; listen_port := lport; target_address := target;
        target_port := tport; dc_table_name := name |}.

(** The properties of a configuration; a constructed one always has a version. *)
Definition dnat_ip_version (c : NftDnatConfig) : Z :=
  match ip_address (listen_address c) with Some a => ip_version a | None => 0 end.
Definition table_family (c : NftDnatConfig) : string :=
  if dnat_ip_version c =? 4 then "ip" else "ip6".
Definition address_selector (c : NftDnatConfig) : string :=
  if dnat_ip_version c =? 4 then "ip" else "ip6".
Definition destination_prefix (c : NftDnatConfig) : Z :=
  if dnat_ip_version c =? 4 then 32 else 128.
Definition dnat_destination (c : NftDnatConfig) : string :=
  if dnat_ip_version c =? 6
  then "[" +:+ target_address c +:+ "]:" +:+ str_of_Z (target_port c)
  else target_address c +:+ ":" +:+ str_of_Z (target_port c).

(** ** Ownership *)

Record NftOwnership := { owner_pid : Z; owner_start_time : Z; owner_tun_name : string }.

Definition positive_int (value : pyval) (field : string) : res Z :=
  let error := ValueError ("nftables ownership " +:+ field +:+ " must be positive") in
  match value with
  | VInt z => if z <? 1 then Err error else Ok z
  | _ => Err error
  end.

(** [NftOwnership.__post_init__] *)
Definition new_nft_ownership (pid start_time tun_name : pyval) : res NftOwnership :=
  p ← positive_int pid "pid";
  s ← positive_int start_time "start_time";
  t ← validate_tun_name tun_name;
  Ok {| owner_pid := p; owner_start_time := s; owner_tun_name := t |}.

(** [NftOwnership.marker] *)
Definition marker (o : NftOwnership) : string :=
  "tcpcc.owner.v1 pid=" +:+ str_of_Z (owner_pid o) +:+ " start=" +:+ str_of_Z (owner_start_time o)
  +:+ " tun=" +:+ owner_tun_name o.

(** A group [[1-9][0-9]*] at the head of a text, with what follows it. *)
Definition match_positive (s : string) : option (Z * string) :=
  match s with
  | String c _ =>
      if is_char "0" c then None
      else let '(ds, rest) := span_digits s in
           if str_empty ds then None else Some (digits_val 10 0 ds, rest)
  | EmptyString => None
  end.

(** [NFT_OWNER_MARKER.fullmatch], its three groups as [int(...)] and text. *)
Definition parse_marker (comment : string) : option (Z * Z * string) :=
  s ← strip_prefix "tcpcc.owner.v1 pid=" comment;
  '(pid, s) ← match_positive s;
  s ← strip_prefix " start=" s;
  '(start, s) ← match_positive s;
  tun ← strip_prefix " tun=" s;
  if tun_name_match tun then Some (pid, start, tun) else None.

(** The start time in the text of [/proc/<pid>/stat]. *)
Definition stat_start_time (text : string) : res Z :=
  let value := str_strip text in
  closing ← res_of_option (ValueError "process stat has no command terminator") (str_rfind ")" value);
  let fields := split_ws (str_drop (S closing) value) in
  field ← res_of_option (ValueError "process stat has no start-time field") (fields !! 19%nat);
  start_time ← res_of_option (ValueError "invalid literal for int()") (py_int field);
  _ ← raise_if (start_time <? 1) (ValueError "process start time is not positive");
  Ok start_time.

Definition stat_path (pid : Z) : string := "/proc/" +:+ str_of_Z pid +:+ "/stat".

(** One way of submitting the nftables command buffer.  The state is the
    loaded library, by the symbols it exports; the child process has none. *)
Abbreviation LibState := (option (list string)).

Record NftTransport := {
  backend_id : string;
  command_name : string;
  run : list string -> option string -> M LibState unit;
  read : list string -> M LibState string;
}.

Section nft.
Context `{E : Env}.

(** [_process_start_time] *)
Definition process_start_time {S} (pid : Z) : M S Z :=
  text ← perform (CReadText (stat_path pid));
  of_res (stat_start_time text).

Definition current_nft_ownership {S} (tun_name : string) : M S NftOwnership :=
  pid ← perform CGetPid;
  start_time ← process_start_time pid;
  of_res (new_nft_ownership (VInt pid) (VInt start_time) (VStr tun_name)).

(** Whether the recorded owner is the running process of that pid: the status
    and its detail. *)
Definition owner_status {S} (pid expected_start : Z) : M S (string * string) :=
  r ← try_except (actual_start ← process_start_time pid; mret (inl actual_start))
        (fun error =>
           if is_os_class OsFileNotFound error then mret (inr "owner process is absent")
           else if is_OSError error || is_UnicodeError error || is_ValueError error
           then mret (inr "owner process identity is unreadable")
           else raise error);
  mret (match r with
        | inl actual_start =>
            if actual_start =? expected_start
            then ("active", "owner pid and process start time match")
            else ("stale", "owner pid was reused by a different process")
        | inr detail => ("stale", detail)
        end).

(** The body of the loop over the ruleset; [None] is [continue] with nothing
    appended. *)
Definition inspect_entry {S} (family : string) (entry : json) : M S (option NftOwnershipObservation) :=
  match entry with
  | JObj e =>
      match dict_get "rule" e with
      | Some (JObj rule) =>
          match dict_get "family" rule, dict_get "comment" rule with
          | Some (JStr f), Some (JStr comment) =>
              if negb (bool_decide (f = family)) || negb (startswith NFT_OWNER_PREFIX comment)
              then mret None
              else
                let table := dict_get "table" rule in
                let safe_table := match table with
                                  | Some (JStr t) => if nft_table_name_match t then Some t else None
                                  | _ => None
                                  end in
                match safe_table, parse_marker comment with
                | Some t, Some (pid, expected_start, tun_name) =>
                    '(status, detail) ← owner_status pid expected_start;
                    mret (Some {| table_name := t; no_status := status; no_owner_pid := Some pid;
                                  no_owner_start_time := Some expected_start;
                                  no_tun_name := Some tun_name; no_detail := detail;
                                  no_remediation :=
                                    if bool_decide (status = "stale")
                                    then "verify the recorded owner is gone, then run: nft delete table "
                                         +:+ family +:+ " " +:+ t
                                    else EmptyString |})
                | _, _ =>
                    mret (Some {| table_name := match table with Some (JStr t) => t | _ => "malformed" end;
                                  no_status := "malformed"; no_owner_pid := None;
                                  no_owner_start_time := None; no_tun_name := None;
                                  no_detail := "unsupported or malformed tcpcc ownership marker";
                                  no_remediation :=
                                    match safe_table with
                                    | Some t =>
                                        "inspect with: nft list table " +:+ family +:+ " " +:+ t
                                        +:+ "; after verifying ownership, remove with: nft delete table "
                                        +:+ family +:+ " " +:+ t
                                    | None => "inspect the complete nftables ruleset manually"
                                    end |})
                end
          | _, _ => mret None
          end
      | _ => mret None
      end
  | _ => mret None
  end.

(** The entries of the listed ruleset. *)
Definition ruleset_entries (raw : string) : res (list json) :=
  match loads raw with
  | Some (JObj document) =>
      match dict_get "nftables" document with
      | Some (JArr entries) => Ok entries
      | _ => Err (RuntimeError "nftables returned malformed ruleset JSON")
      end
  | _ => Err (RuntimeError "nftables returned malformed ruleset JSON")
  end.

Definition inspect_nft_ownership (family : string) (nft_path : pyval)
    (runner : list string -> M LibState string) : M LibState OwnershipReport :=
  path ← of_res (res_of_option (ValueError "nft_path must name one executable") (valid_path nft_path));
  _ ← of_res (raise_if (negb (str_in family ["ip"; "ip6"])) (ValueError "table_family must be ip or ip6"));
  raw ← runner [path; "--json"; "list"; "ruleset"; family];
  entries ← of_res (ruleset_entries raw);
  observations ← collect entries (inspect_entry family);
  mret (NftOwnershipReport (sort_on table_name observations)).

(** ** The transaction *)

Definition dnat_batch (c : NftDnatConfig) (table_name : string) (ownership : option NftOwnership) : string :=
  let owner_comment :=
    match ownership with
    | None => EmptyString
    | Some o => " comment " +:+ chr_str dquote +:+ marker o +:+ chr_str dquote
    end in
  "create table " +:+ table_family c +:+ " " +:+ table_name +:+ nl
  +:+ "add chain " +:+ table_family c +:+ " " +:+ table_name +:+ " prerouting "
  +:+ "{ type nat hook prerouting priority dstnat; policy accept; }" +:+ nl
  +:+ "add rule " +:+ table_family c +:+ " " +:+ table_name +:+ " prerouting "
  +:+ address_selector c +:+ " daddr " +:+ listen_address c
  +:+ " tcp dport " +:+ str_of_Z (listen_port c) +:+ " counter "
  +:+ "dnat to " +:+ dnat_destination c +:+ owner_comment +:+ nl.

Definition new_nft_table_name {S} : M S string :=
  hex ← perform (CTokenHex 6); mret ("tcpcc_" +:+ hex).

Definition check_nft_dnat_compatibility (config : NftDnatConfig) (ownership : NftOwnership)
    (nft_path : pyval) (runner : list string -> option string -> M LibState unit) : M LibState unit :=
  path ← of_res (res_of_option (ValueError "nft_path must name one executable") (valid_path nft_path));
  candidate ← new_nft_table_name;
  table_name ← of_res (validate_nft_table_name (VStr candidate));
  try_except (runner [path; "--check"; "--file"; "-"] (Some (dnat_batch config table_name (Some ownership))))
    (fun error =>
       match error with
       | Sys (SCalledProcessError _ stderr) =>
           let text := match stderr with
                       | Some t => if str_empty t then "nftables rejected the dry-run" else t
                       | None => "nftables rejected the dry-run"
                       end in
           raise (NftCompatibilityError (str_strip text))
       | _ => raise error
       end).

Record NftDnatLease := {
  nl_table_name : string;
  nl_backend_id : string;
  nl_nft_path : string;
  nl_runner : list string -> option string -> M LibState unit;
  nl_table_family : string;
  nl_closed : bool;
}.

Definition set_nl_closed (l : NftDnatLease) : NftDnatLease :=
  {| nl_table_name := nl_table_name l; nl_backend_id := nl_backend_id l;
     nl_nft_path := nl_nft_path l; nl_runner := nl_runner l;
     nl_table_family := nl_table_family l; nl_closed := true |}.

(** [NftDnatLease.close], on the lease and the transport's library. *)
Definition nft_lease_close : M (NftDnatLease * LibState) unit :=
  '(l, _) ← get_state;
  if nl_closed l then mret tt
  else
    _ ← modify (fun st => (set_nl_closed st.1, st.2));
    zoom snd (fun lib st => (st.1, lib))
      (nl_runner l [nl_nft_path l; "delete"; "table"; nl_table_family l; nl_table_name l] None).

Definition install_nft_dnat (config : NftDnatConfig) (nft_path : pyval)
    (runner : list string -> option string -> M LibState unit) (ownership : option NftOwnership)
    (backend : string) : M LibState NftDnatLease :=
  path ← of_res (res_of_option (ValueError "nft_path must name one executable") (valid_path nft_path));
  candidate ← match dc_table_name config with
              | None => new_nft_table_name
              | Some name => mret name
              end;
  table_name ← of_res (validate_nft_table_name (VStr candidate));
  _ ← runner [path; "--file"; "-"] (Some (dnat_batch config table_name ownership));
  mret {| nl_table_name := table_name; nl_backend_id := backend; nl_nft_path := path;
          nl_runner := runner; nl_table_family := table_family config; nl_closed := false |}.

(** ** Transports *)

Definition NftExecTransport (nft_path : pyval) : res NftTransport :=
  path ← res_of_option (ValueError "nft_path must name one executable") (valid_path nft_path);
  Ok {| backend_id := "nft-exec"; command_name := path;
        run := fun argv input_text => _ ← perform (CRun argv input_text); mret tt;
        read := fun argv => perform (CRun argv None) |}.

Definition LIB_REQUIRED : list string :=
  ["nft_ctx_new"; "nft_ctx_free"; "nft_ctx_buffer_output"; "nft_ctx_buffer_error";
   "nft_ctx_get_output_buffer"; "nft_ctx_get_error_buffer"; "nft_ctx_set_dry_run";
   "nft_run_cmd_from_buffer"].

(** [LibNftablesTransport.library_path] *)
Definition lib_library_path (library_path : option string) : M LibState string :=
  path ← match library_path with
         | Some p => mret (Some p)
         | None => perform (CFindLibrary "nftables")
         end;
  match path with
  | Some p => if str_empty p
              then raise (Sys (SOSError OsFileNotFound None
                     "libnftables shared library was not found; install libnftables"))
              else mret p
  | None => raise (Sys (SOSError OsFileNotFound None
              "libnftables shared library was not found; install libnftables"))
  end.

(** [LibNftablesTransport._load]; the [argtypes] and [restype] it sets are the
    types of the calls. *)
Definition lib_load (library_path : option string) : M LibState (list string) :=
  cached ← get_state;
  match cached with
  | Some library => mret library
  | None =>
      path ← lib_library_path library_path;
      library ← perform (CLoadLibrary path);
      let missing := filter (fun name => name ∉ library) LIB_REQUIRED in
      _ ← of_res (raise_if (negb (bool_decide (missing = [])))
                    (RuntimeError ("libnftables is missing required symbols: " +:+ str_join ", " missing)));
      _ ← of_res (raise_if (negb (str_in "nft_ctx_output_set_json" library)
                            && negb (str_in "nft_ctx_output_get_flags" library
                                     && str_in "nft_ctx_output_set_flags" library))
                    (RuntimeError "libnftables cannot enable JSON output"));
      _ ← put_state (Some library);
      mret library
  end.

Definition lib_enable_json (library : list string) (context : Z) : M LibState unit :=
  if str_in "nft_ctx_output_set_json" library then perform (CNftSetJson context)
  else
    flags ← perform (CNftGetFlags context);
    perform (CNftSetFlags context (Z.lor flags NFT_CTX_OUTPUT_JSON)).

(** The guarded body of [_invoke], on its context. *)
Definition lib_invoke_body (library : list string) (context : Z) (command : string)
    (dry_run json_output : bool) : M LibState (Z * string * string) :=
  rc ← perform (CNftBufferOutput context);
  _ ← of_res (raise_if (negb (rc =? 0)) (RuntimeError "libnftables could not buffer output"));
  rc ← perform (CNftBufferError context);
  _ ← of_res (raise_if (negb (rc =? 0)) (RuntimeError "libnftables could not buffer errors"));
  _ ← perform (CNftSetDryRun context dry_run);
  _ ← (if json_output then lib_enable_json library context else mret tt);
  return_code ← perform (CNftRunCmd context command);
  stdout ← perform (CNftGetOutput context);
  stderr ← perform (CNftGetError context);
  mret (return_code, default EmptyString stdout, default EmptyString stderr).

(** [LibNftablesTransport._invoke] *)
Definition lib_invoke (library_path : option string) (command operation : string)
    (dry_run json_output : bool) : M LibState string :=
  _ ← of_res (raise_if (str_empty command || str_mem nul command)
                (ValueError "libnftables command buffer is invalid"));
  library ← lib_load library_path;
  context ← perform CNftCtxNew;
  _ ← of_res (raise_if (context =? 0) (RuntimeError "libnftables could not allocate a context"));
  '(return_code, stdout, stderr) ←
    try_finally (lib_invoke_body library context command dry_run json_output)
      (perform (CNftCtxFree context));
  _ ← of_res (raise_if (negb (return_code =? 0)) (LibNftablesError operation return_code stderr));
  mret stdout.

Definition LIB_COMMAND : string := "libnftables".

Definition lib_run (library_path : option string) (argv : list string) (input_text : option string)
    : M LibState unit :=
  let unsupported := raise (ValueError ("unsupported libnftables runner invocation: " +:+ py_repr_list argv)) in
  match input_text with
  | Some text =>
      if bool_decide (argv = [LIB_COMMAND; "--file"; "-"]) then
        _ ← lib_invoke library_path text "apply" false false; mret tt
      else if bool_decide (argv = [LIB_COMMAND; "--check"; "--file"; "-"]) then
        _ ← lib_invoke library_path text "dry-run" true false; mret tt
      else unsupported
  | None =>
      match argv with
      | [c; verb; object; family; name] =>
          if bool_decide ([c; verb; object] = [LIB_COMMAND; "delete"; "table"]) && str_in family ["ip"; "ip6"]
          then
            table_name ← of_res (validate_nft_table_name (VStr name));
            _ ← lib_invoke library_path ("delete table " +:+ family +:+ " " +:+ table_name +:+ nl)
                  "delete" false false;
            mret tt
          else unsupported
      | _ => unsupported
      end
  end.

Definition lib_read (library_path : option string) (argv : list string) : M LibState string :=
  let unsupported := raise (ValueError ("unsupported libnftables read invocation: " +:+ py_repr_list argv)) in
  match argv with
  | [c; flag; verb; object; family] =>
      if bool_decide ([c; flag; verb; object] = [LIB_COMMAND; "--json"; "list"; "ruleset"])
         && str_in family ["ip"; "ip6"]
      then lib_invoke library_path ("list ruleset " +:+ family +:+ nl) "list-ruleset" false true
      else unsupported
  | _ => unsupported
  end.

Definition LibNftablesTransport (library_path : pyval) : res NftTransport :=
  path ← match library_path with
         | VNone => Ok None
         | v => p ← res_of_option (ValueError "library_path must name one shared library") (valid_path v);
                Ok (Some p)
         end;
  Ok {| backend_id := "nft-lib"; command_name := LIB_COMMAND;
        run := lib_run path; read := lib_read path |}.

(** ** The backend *)

Record NftFirewallBackend := { transport : NftTransport; nb_table_family : string }.

Definition new_nft_firewall_backend (t : NftTransport) (family : string) : res NftFirewallBackend :=
  _ ← raise_if (negb (str_in (backend_id t) ["nft-lib"; "nft-exec"]))
        (ValueError "nft transport has an unsupported backend identifier");
  _ ← raise_if (negb (str_in family ["ip"; "ip6"])) (ValueError "table_family must be ip or ip6");
  Ok {| transport := t; nb_table_family := family |}.

Definition nft_inspect_ownership (b : NftFirewallBackend) : M LibState OwnershipReport :=
  inspect_nft_ownership (nb_table_family b) (VStr (command_name (transport b))) (read (transport b)).

Definition nft_check_compatibility (b : NftFirewallBackend) (config : NftDnatConfig) : M LibState unit :=
  _ ← of_res (raise_if (negb (bool_decide (table_family config = nb_table_family b)))
                (ValueError "nftables backend address family mismatch"));
  ownership ← current_nft_ownership "tcpcc-probe";
  check_nft_dnat_compatibility config ownership (VStr (command_name (transport b))) (run (transport b)).

Definition nft_install (b : NftFirewallBackend) (config : NftDnatConfig) (ownership : NftOwnership)
    : M LibState NftDnatLease :=
  _ ← of_res (raise_if (negb (bool_decide (table_family config = nb_table_family b)))
                (ValueError "nftables backend address family mismatch"));
  install_nft_dnat config (VStr (command_name (transport b))) (run (transport b)) (Some ownership)
    (backend_id (transport b)).

End nft.

(** ** The marker *)

Lemma span_digits_inv s ds rest :
  span_digits s = (ds, rest) -> s = ds +:+ rest /\ str_forallb is_digit ds = true.
Proof.
  revert ds rest. induction s as [|c s IH]; intros ds rest; cbn [span_digits]; [by intros [= <- <-]|].
  destruct (is_digit c) eqn:Hc; [|by intros [= <- <-]].
  destruct (span_digits s) as [ds' rest']. intros [= <- <-].
  destruct (IH ds' rest' eq_refl) as [-> Hds]. cbn [str_forallb]. by rewrite Hc, str_app_cons.
Qed.

Lemma match_positive_sound s n rest :
  match_positive s = Some (n, rest) -> 1 <= n /\ s = str_of_Z n +:+ rest.
Proof.
  destruct s as [|c s]; [done|]. unfold match_positive. destruct (is_char "0" c) eqn:Hc; [done|].
  destruct (span_digits (String c s)) as [ds rest'] eqn:Hspan. apply span_digits_inv in Hspan as [Heq Hds].
  destruct ds as [|d ds]; [done|]. cbn [str_empty]. intros Hn.
  assert (n = digits_val 10 0 (String d ds) /\ rest = rest') as [-> ->] by (by injection Hn). clear Hn.
  rewrite str_app_cons in Heq. injection Heq as -> ->. unfold is_char in Hc. bool_to_prop.
  assert (1 <= digits_val 10 0 (String d ds)) as Hpos.
  { cbn [str_forallb digits_val] in *. bool_to_prop. rewrite digits_val_acc.
    pose proof (digits_val_range ds ltac:(done)). destruct (digit_val_facts d) as [_ Hd]; [done|].
    specialize (Hd ltac:(congruence)). pose proof (Z.pow_pos_nonneg 10 (Z.of_nat (String.length ds))). nia. }
  split; [done|]. unfold str_of_Z. rewrite (proj2 (Z.ltb_ge (digits_val 10 0 (String d ds)) 0)) by lia.
  by rewrite digits_of_val, str_app_cons by (done || congruence).
Qed.

Lemma match_positive_complete n rest :
  1 <= n -> ends_number rest = true -> match_positive (str_of_Z n +:+ rest) = Some (n, rest).
Proof.
  intros Hn Hrest. destruct (str_of_Z_split n) as (ds & Hds & Hval & -> & Hhead).
  rewrite (proj2 (Z.ltb_ge n 0)) by lia. destruct Hhead as [->|(c & t & -> & Hc)].
  { change (0 = Z.abs n) in Hval. lia. }
  unfold match_positive. pose proof (span_digits_app (String c t) rest Hds Hrest) as Hspan.
  rewrite str_app_cons in *. rewrite Hspan. rewrite is_char_ne by congruence. cbn [str_empty].
  rewrite Hval. by rewrite Z.abs_eq by lia.
Qed.

Lemma parse_marker_complete o :
  1 <= owner_pid o -> 1 <= owner_start_time o -> tun_name_match (owner_tun_name o) = true ->
  parse_marker (marker o) = Some (owner_pid o, owner_start_time o, owner_tun_name o).
Proof.
  intros Hp Hs Ht. unfold parse_marker, marker. rewrite strip_prefix_app. cbn [mbind option_bind].
  rewrite match_positive_complete by done. cbn. rewrite strip_prefix_app. cbn.
  rewrite match_positive_complete by done. cbn. rewrite strip_prefix_app. cbn. by rewrite Ht.
Qed.

(** The ownership marker identifies its owner: a rule comment is read as
    process [pid], start time [start] and interface [tun] exactly when it is
    the marker text written for them, with positive numbers and a name of
    interface characters. *)
Theorem parse_marker_iff comment pid start tun :
  parse_marker comment = Some (pid, start, tun) <->
  1 <= pid /\ 1 <= start /\ tun_name_match tun = true /\
  comment = marker {| owner_pid := pid; owner_start_time := start; owner_tun_name := tun |}.
Proof.
  split.
  - unfold parse_marker, marker. cbn [owner_pid owner_start_time owner_tun_name].
    intros H. apply bind_Some in H as (s1 & H1%strip_prefix_Some & H).
    apply bind_Some in H as ([p s2] & H2%match_positive_sound & H).
    apply bind_Some in H as (s3 & H3%strip_prefix_Some & H).
    apply bind_Some in H as ([st s4] & H4%match_positive_sound & H).
    apply bind_Some in H as (t & H5%strip_prefix_Some & H).
    destruct (tun_name_match t) eqn:Ht; [|done]. injection H as -> -> ->.
    destruct H2 as [? ->], H4 as [? ->]. by subst.
  - intros (Hp & Hs & Ht & ->). by apply parse_marker_complete.
Qed.

(** ** Inspection *)

(** The rules of a family whose comment claims a tcpcc owner: their table and
    that comment. *)
Definition marked (family : string) (entry : json) : option (option json * string) :=
  match entry with
  | JObj e =>
      match dict_get "rule" e with
      | Some (JObj rule) =>
          match dict_get "family" rule, dict_get "comment" rule with
          | Some (JStr f), Some (JStr comment) =>
              if bool_decide (f = family) && startswith NFT_OWNER_PREFIX comment
              then Some (dict_get "table" rule, comment) else None
          | _, _ => None
          end
      | _ => None
      end
  | _ => None
  end.

Definition marked_table (m : option json * string) : string :=
  match m.1 with Some (JStr t) => t | _ => "malformed" end.

(** Only the status of processes was read. *)
Definition is_stat_read (ev : event) : Prop := exists pid, ev_call ev = CReadText (stat_path pid).

(** The trace shows the owner named by a marker running. *)
Definition owner_alive (suf : trace) (comment : string) : Prop :=
  exists pid start tun text, parse_marker comment = Some (pid, start, tun) /\
    Ev (CReadText (stat_path pid)) (Answer text) ∈ suf /\ stat_start_time text = Ok start.
Definition owner_seen_alive (suf : trace) (m : option json * string) : Prop := owner_alive suf m.2.

Lemma owner_alive_mono t u comment : owner_alive t comment -> owner_alive (t ++ u) comment.
Proof.
  intros (pid & start & tun & text & ? & ? & ?). exists pid, start, tun, text. set_solver.
Qed.

(** What an observation says of a marked rule: under its table, the recorded
    owner, called active only when that process was seen with its start time and
    stale only when its status was read and did not show it; a rule without a
    table of ours or a well-formed marker is malformed. *)
Definition safe_table (table : option json) : bool :=
  match table with Some (JStr t) => nft_table_name_match t | _ => false end.

Definition status_seen (suf : trace) (pid start : Z) (status : string) : Prop :=
  status = "active" /\ (exists text, Ev (CReadText (stat_path pid)) (Answer text) ∈ suf /\ stat_start_time text = Ok start) \/
  status = "stale" /\ (exists r, Ev (CReadText (stat_path pid)) r ∈ suf /\
    forall text, r = Answer text -> stat_start_time text <> Ok start).

Definition observes (suf : trace) (m : option json * string) (x : NftOwnershipObservation) : Prop :=
  table_name x = marked_table m /\
  match (if safe_table m.1 then parse_marker m.2 else None) with
  | Some (pid, start, tun) => no_owner_pid x = Some pid /\ no_owner_start_time x = Some start /\ no_tun_name x = Some tun /\
      status_seen suf pid start (no_status x)
  | None => no_status x = "malformed" /\ no_owner_pid x = None /\ no_owner_start_time x = None /\ no_tun_name x = None
  end.

Lemma observes_mono t u m x : observes t m x -> observes (t ++ u) m x.
Proof.
  intros [Hn H]. split; [done|]. destruct (if safe_table m.1 then _ else _) as [[[pid start] tun]|]; [|done].
  destruct H as (? & ? & ? & H). split_and!; try done.
  destruct H as [[? (text & ? & ?)]|[? (r & ? & ?)]]; [left|right]; (split; [done|]); [exists text|exists r]; set_solver.
Qed.

Lemma observes_active t m x : observes t m x -> no_status x = "active" -> owner_seen_alive t m.
Proof.
  intros [_ H] Hst. destruct (safe_table m.1); [|by destruct H as [H _]; rewrite Hst in H].
  unfold owner_seen_alive, owner_alive. destruct (parse_marker m.2) as [[[pid start] tun]|] eqn:Hm.
  2: { by destruct H as [H _]; rewrite Hst in H. }
  destruct H as (_ & _ & _ & [[_ (text & ? & ?)]|[H _]]); [|by rewrite Hst in H]. by exists pid, start, tun, text.
Qed.

Section inspect.
Context `{E : Env}.

Lemma does_owner_status {S} pid start :
  does (owner_status pid start : M S (string * string)) (fun o suf =>
    Forall is_stat_read suf /\ o <> OutOfFuel /\
    forall status detail, o = Ret (status, detail) -> status_seen suf pid start status).
Proof.
  unfold owner_status, process_start_time. apply does_bind, does_try, does_bind, does_bind. does_call; intros r.
  - apply does_of_res. assert (is_stat_read (Ev (CReadText (stat_path pid)) (Answer r))) by (by eexists).
    assert (stat_start_time r <> Ok start -> status_seen [Ev (CReadText (stat_path pid)) (Answer r)] pid start "stale") as Hstale.
    { intros Hr. right. split; [done|]. eexists. split; [apply list_elem_of_here|]. by intros text [= <-]. }
    destruct (stat_start_time r) as [actual|e] eqn:Hr.
    + apply does_ret, does_ret. rewrite !app_nil_r. split; [by repeat constructor|]. split; [done|].
      intros status detail. destruct (actual =? start) eqn:Ha; bool_to_prop; intros [= <- <-]; [subst|by apply Hstale; congruence].
      left. split; [done|]. exists r. split; [apply list_elem_of_here|done].
    + repeat case_match; (apply does_ret, does_ret || apply does_raise);
        rewrite ?app_nil_r; (split; [by repeat constructor|]); (split; [done|]); intros status detail Heq; simplify_eq; by apply Hstale.
  - assert (is_stat_read (Ev (CReadText (stat_path pid)) (Fault r))) by (by eexists).
    repeat case_match; (apply does_ret, does_ret || apply does_raise);
        rewrite ?app_nil_r; (split; [by repeat constructor|]); (split; [done|]); intros status detail Heq; simplify_eq;
        right; (split; [done|]); eexists; (split; [apply list_elem_of_here|done]).
Qed.

Lemma does_inspect_entry {S} family entry :
  does (inspect_entry family entry : M S (option NftOwnershipObservation)) (fun o suf =>
    Forall is_stat_read suf /\
    match o with
    | Ret None => marked family entry = None
    | Ret (Some obs) => exists m, marked family entry = Some m /\ observes suf m obs
    | Raise _ => True
    | OutOfFuel => False
    end).
Proof.
  unfold inspect_entry, marked.
  destruct entry as [| | | | | | |e]; try by apply does_ret.
  destruct (dict_get "rule" e) as [[| | | | | | |rule]|]; try by apply does_ret.
  destruct (dict_get "family" rule) as [[| | | | |f| |]|]; try by apply does_ret.
  destruct (dict_get "comment" rule) as [[| | | | |comment| |]|]; try by apply does_ret.
  destruct (bool_decide (f = family)); [|by apply does_ret].
  destruct (startswith NFT_OWNER_PREFIX comment); [|by apply does_ret]. cbn [negb orb andb].
  set (table := dict_get "table" rule).
  set (safe := match table with Some (JStr t) => if nft_table_name_match t then Some t else None | _ => None end).
  assert (safe_table table = bool_decide (is_Some safe)) as Hsafe.
  { unfold safe_table, safe. destruct table as [[]|]; try done. by destruct (nft_table_name_match _). }
  destruct safe as [t|] eqn:Ht.
  2: { apply does_ret. split; [done|]. eexists. split; [done|]. split; [done|]. cbn [fst snd]. by rewrite Hsafe. }
  destruct (parse_marker comment) as [[[pid start] tun]|] eqn:Hm.
  2: { apply does_ret. split; [done|]. eexists. split; [done|]. split; [done|]. cbn [fst snd]. by rewrite Hsafe, Hm. }
  apply does_bind. eapply does_mono; [|apply does_owner_status].
  intros [[status detail]|e'|] suf (Hsuf & Hf & Ho); [|done|done].
  apply does_ret. rewrite app_nil_r. split; [done|]. eexists. split; [done|]. split; cbn [fst snd table_name].
  - subst safe. unfold marked_table. cbn [fst]. destruct table as [[]|]; repeat case_match; by simplify_eq.
  - rewrite Hsafe, Hm. split_and!; try done. by eapply Ho.
Qed.

(** What the loop over the ruleset collects. *)
Lemma does_inspect_entries {S} family entries :
  does (collect entries (inspect_entry family) : M S (list NftOwnershipObservation)) (fun o suf =>
    Forall is_stat_read suf /\
    match o with
    | Ret obs => Forall2 (observes suf) (omap (marked family) entries) obs
    | Raise _ => True
    | OutOfFuel => False
    end).
Proof.
  eapply (does_collect _ _ _ (fun d acc t => Forall is_stat_read t /\ Forall2 (observes t) (omap (marked family) d) acc));
    [by split; [|constructor]| |by auto].
  intros d x acc t (Ht & Hobs). eapply does_mono; [|apply does_inspect_entry].
  intros [r|e|] t' [Ht' Ho]; [|by split; [apply Forall_app|]|done].
  split; [by apply Forall_app|]. rewrite omap_app. apply Forall2_app.
  { eapply Forall2_impl; [exact Hobs|]. intros m y. apply observes_mono. }
  destruct r as [obs|]; cbn; [|rewrite Ho; constructor]. destruct Ho as (m & -> & Hm). cbn. constructor; [|constructor].
  destruct Hm as [Hn Hm]. split; [done|]. destruct (if safe_table m.1 then _ else _) as [[[pid start] tun]|]; [|done].
  destruct Hm as (? & ? & ? & Hm). split_and!; try done.
  destruct Hm as [[? (text & ? & ?)]|[? (y & ? & ?)]]; [left|right]; (split; [done|]); [exists text|exists y]; set_solver.
Qed.

(** C22. The ownership inspection neither misses nor excuses a rule.  After the
    one ruleset listing it only reads process status files.  Its observations
    are in the order of their tables, and are, one for one, those of the rules
    of the family whose comment claims a tcpcc owner: each names its table and
    the recorded owner, is called active only when that process was seen running
    with the recorded start time, stale only when its status was read and did
    not show it, and malformed exactly when the table or the marker is not one
    of ours.  A report that does not block means that every such owner was seen
    running. *)
Theorem inspect_nft_ownership_sound family nft_path runner lib tr :
  let '(o, lib', tr') := inspect_nft_ownership family nft_path runner lib tr in
  match o with
  | Ret report =>
      exists path raw tr1 suf entries obs listed,
        nft_path = VStr path /\
        runner [path; "--json"; "list"; "ruleset"; family] lib tr = (Ret raw, lib', tr1) /\
        tr' = tr1 ++ suf /\ Forall is_stat_read suf /\
        ruleset_entries raw = Ok entries /\
        report = NftOwnershipReport obs /\ Sorted (in_order table_name) obs /\ obs ≡ₚ listed /\
        Forall2 (observes suf) (omap (marked family) entries) listed /\
        (blocking report = false -> Forall (owner_seen_alive suf) (omap (marked family) entries))
  | _ => True
  end.
Proof.
  destruct (inspect_nft_ownership family nft_path runner lib tr) as [[o lib'] tr'] eqn:Hrun.
  destruct o as [report|e|]; [|done|done]. unfold inspect_nft_ownership, mbind, M_bind in Hrun.
  destruct (valid_path nft_path) as [path|] eqn:Hpath; cbn in Hrun; [|done].
  destruct (str_in family ["ip"; "ip6"]); cbn in Hrun; [|done].
  destruct (runner _ lib tr) as [[[raw|e|] lib1] tr1] eqn:Hraw; [|done|done].
  destruct (ruleset_entries raw) as [entries|e] eqn:Hent; cbn in Hrun; [|done].
  pose proof (does_inspect_entries family entries lib1 tr1) as Hloop. unfold wp in Hloop.
  destruct (collect entries (inspect_entry family) lib1 tr1) as [[[obs|e|] lib2] tr2]; [|done|done].
  destruct Hloop as (-> & suf & -> & Hsuf & Hobs).
  unfold mret, M_ret in Hrun. injection Hrun as <- <- <-.
  exists path, raw, tr1, suf, entries, (sort_on table_name obs), obs.
  split_and!; try done; [|apply sort_on_sorted|apply sort_on_perm|].
  - destruct nft_path; try done. cbn in Hpath. destruct (_ || _); by simplify_eq.
  - intros Hb. assert (Forall (fun x => no_status x = "active") obs) as Hact.
    { rewrite <- (sort_on_perm table_name obs). apply Forall_forall. intros x Hx.
      destruct (decide (no_status x = "active")) as [|Hne]; [done|]. cbn in Hb.
      assert (existsb (fun o => negb (bool_decide (no_status o = "active"))) (sort_on table_name obs) = true) as Hex.
      { apply existsb_exists. exists x. split; [by apply list_elem_of_In|by rewrite bool_decide_false]. }
      by rewrite Hex in Hb. }
    clear -Hobs Hact. induction Hobs as [|m x ms xs Hm _ IH]; [done|]. apply Forall_cons in Hact as [Hx Hxs].
    apply Forall_cons. split; [by eapply observes_active|by apply IH].
Qed.

End inspect.

(** ** What reaches the ruleset *)

(** The dry-run mode of each library context. *)
Definition set_flag (ctx : Z) (on : bool) (flags : Z -> bool) : Z -> bool :=
  fun c => if c =? ctx then on else flags c.

Definition is_query (command : string) : bool := startswith "list ruleset " command.

Definition delete_command (family name : string) : string :=
  "delete table " +:+ family +:+ " " +:+ name +:+ nl.

Definition flags_after (ev : event) (flags : Z -> bool) : Z -> bool :=
  match ev_call ev with CNftSetDryRun ctx on => set_flag ctx on flags | _ => flags end.

(** The change to the ruleset an event submits: a batch or a deletion run by
    the child process, or a command given to the library outside dry-run. *)
Definition ev_change (flags : Z -> bool) (ev : event) : option string :=
  match ev_call ev with
  | CRun [_; "--file"; "-"] input => input
  | CRun [_; "delete"; "table"; family; name] None => Some (delete_command family name)
  | CNftRunCmd ctx command => if flags ctx || is_query command then None else Some command
  | _ => None
  end.

Fixpoint changes (flags : Z -> bool) (tr : trace) : list string :=
  match tr with
  | [] => []
  | ev :: tr => option_list (ev_change flags ev) ++ changes (flags_after ev flags) tr
  end.

(** The trace submits exactly the changes [l], whatever was set before it. *)
Definition submits (suf : trace) (l : list string) : Prop := forall flags, changes flags suf = l.

Lemma changes_app flags t u :
  changes flags (t ++ u) = changes flags t ++ changes (fold_left (fun f ev => flags_after ev f) t flags) u.
Proof. revert flags. induction t as [|ev t IH]; intros flags; cbn; [done|]. by rewrite IH, app_assoc. Qed.

Lemma submits_nil : submits [] [].
Proof. done. Qed.

Lemma submits_app t u l m : submits t l -> submits u m -> submits (t ++ u) (l ++ m).
Proof. intros Ht Hu flags. by rewrite changes_app, Ht, Hu. Qed.

Lemma submits_quiet t u l : submits t [] -> submits u l -> submits (t ++ u) l.
Proof. apply submits_app. Qed.

(** Contexts of the library: those obtained, and those given back. *)
Definition ev_ctx_new (ev : event) : option Z :=
  match ev with
  | Ev c r =>
      match c return reply (ret c) -> option Z with
      | CNftCtxNew => fun r => match r with Answer ctx => if ctx =? 0 then None else Some ctx | Fault _ => None end
      | _ => fun _ => None
      end r
  end.
Definition ev_ctx_free (ev : event) : option Z :=
  match ev_call ev with CNftCtxFree ctx => Some ctx | _ => None end.
Definition ctx_new (tr : trace) : list Z := omap ev_ctx_new tr.
Definition ctx_freed (tr : trace) : list Z := omap ev_ctx_free tr.

(** What a transport promises the backend: a batch or a deletion is submitted
    once (and at most once when the transport fails), a check and a listing
    change nothing. *)
Definition submits_upto {A} (o : outcome A) (suf : trace) (l : list string) : Prop :=
  match o with
  | Ret _ => submits suf l
  | Raise _ => submits suf [] \/ submits suf l
  | OutOfFuel => False
  end.

(** A batch that was accepted: by the child process, or by the library. *)
Definition ev_accepts (batch : string) (ev : event) : bool :=
  match ev with
  | Ev c r =>
      match c return reply (ret c) -> bool with
      | CRun _ (Some input) => fun r => bool_decide (input = batch) && match r with Answer _ => true | Fault _ => false end
      | CNftRunCmd _ command => fun r =>
          bool_decide (command = batch) && match r with Answer code => code =? 0 | Fault _ => false end
      | _ => fun _ => false
      end r
  end.
Definition accepted (batch : string) (tr : trace) : Prop := Exists (fun ev => ev_accepts batch ev = true) tr.

Class NftTransportLaws (t : NftTransport) : Prop := {
  law_name : valid_path (VStr (command_name t)) = Some (command_name t);
  law_apply batch lib : is_query batch = false ->
    acts (run t [command_name t; "--file"; "-"] (Some batch)) lib
      (fun o _ suf => submits_upto o suf [batch]);
  law_check batch lib :
    acts (run t [command_name t; "--check"; "--file"; "-"] (Some batch)) lib
      (fun o _ suf => o <> OutOfFuel /\ submits suf [] /\ (o = Ret tt -> accepted batch suf));
  law_delete family name lib :
    str_in family ["ip"; "ip6"] = true -> nft_table_name_match name = true ->
    acts (run t [command_name t; "delete"; "table"; family; name] None) lib
      (fun o _ suf => submits_upto o suf [delete_command family name]);
  law_list family lib :
    acts (read t [command_name t; "--json"; "list"; "ruleset"; family]) lib
      (fun o _ suf => o <> OutOfFuel /\ submits suf []);
}.

Section transports.
Context `{E : Env}.

Lemma valid_path_Some v path : valid_path v = Some path -> v = VStr path.
Proof. destruct v; try done. cbn. by destruct (_ || _); intros [= ->]. Qed.

(** The child-process transport keeps the promise. *)
Lemma exec_transport_lawful v t : NftExecTransport v = Ok t -> NftTransportLaws t.
Proof.
  unfold NftExecTransport. destruct (valid_path v) as [path|] eqn:Hpath; [|done]. cbn. intros [= <-].
  split; cbn [command_name run read].
  - by rewrite <- (valid_path_Some _ _ Hpath).
  - intros batch lib Hq. apply acts_bind. acts_call; intros a; [apply acts_ret; by intros flags|by right].
  - intros batch lib. apply acts_bind. acts_call; intros a; [apply acts_ret|by split_and!]. split_and!; [done|done|].
    intros _. constructor. cbn. by rewrite bool_decide_true.
  - intros family name lib _ _. apply acts_bind. acts_call; intros a; [apply acts_ret; by intros flags|by right].
  - intros family lib. by acts_call; intros a.
Qed.

(** Loading the library touches neither contexts nor the ruleset. *)
Lemma acts_lib_load path lib :
  acts (lib_load path) lib (fun o _ suf =>
    o <> OutOfFuel /\ submits suf [] /\ ctx_new suf = [] /\ ctx_freed suf = []).
Proof.
  unfold lib_load, lib_library_path. apply acts_bind, acts_get. destruct lib as [library|]; [by apply acts_ret|].
  apply acts_bind, acts_bind.
  eapply acts_mono with (P := fun o s suf => o <> OutOfFuel /\ submits suf [] /\ ctx_new suf = [] /\ ctx_freed suf = []).
  2: { destruct path; [by apply acts_ret|]. by acts_call. }
  intros [p|e|] s suf (Hf & Hs & Hn & Hfr); [|done|done].
  assert (forall (A : Type) (o : outcome A) t, o <> OutOfFuel -> submits t [] -> ctx_new t = [] -> ctx_freed t = [] ->
    o <> OutOfFuel /\ submits (suf ++ t) [] /\ ctx_new (suf ++ t) = [] /\ ctx_freed (suf ++ t) = []) as Hcat.
  { intros A o t ? ? Hn' Hfr'. unfold ctx_new, ctx_freed in *. rewrite !omap_app, Hn, Hfr, Hn', Hfr'.
    split_and!; try done. by apply submits_quiet. }
  destruct p as [p|]; [destruct (str_empty p)|]; [by apply acts_raise, Hcat| |by apply acts_raise, Hcat].
  apply acts_ret. rewrite app_nil_r. apply acts_bind. acts_call; intros a; [|by apply Hcat].
  apply acts_bind, acts_of_res. unfold raise_if. destruct (negb _); [by apply Hcat|].
  apply acts_bind, acts_of_res. destruct (_ && _); [by apply Hcat|].
  apply acts_bind, acts_put, acts_ret. by apply Hcat.
Qed.

(** Switching to JSON output leaves contexts, modes and the ruleset alone. *)
Lemma does_lib_json library ctx (json : bool) :
  does (if json then lib_enable_json library ctx else mret tt) (fun o t =>
    o <> OutOfFuel /\ ctx_new t = [] /\ ctx_freed t = [] /\
    forall flags u, changes flags (t ++ u) = changes flags u).
Proof.
  unfold lib_enable_json. destruct json; [|by apply does_ret]. destruct (str_in _ _); [by does_call|].
  apply does_bind. does_call; intros f; [|done]. by does_call.
Qed.

(** The calls on one context submit the command in the mode asked for. *)
Lemma does_lib_invoke_body library ctx command dry json :
  does (lib_invoke_body library ctx command dry json) (fun o suf =>
    ctx_new suf = [] /\ ctx_freed suf = [] /\
    submits_upto o suf (if dry || is_query command then [] else [command])).
Proof.
  unfold lib_invoke_body.
  apply does_bind. does_call; intros a; [|by split_and!; try left].
  apply does_bind, does_of_res. destruct (a =? 0); cbn [negb raise_if]; [|by split_and!; try left].
  apply does_bind. does_call; intros a'; [|by split_and!; try left].
  apply does_bind, does_of_res. destruct (a' =? 0); cbn [negb raise_if]; [|by split_and!; try left].
  apply does_bind. does_call; intros []; [|by split_and!; try left..].
  apply does_bind. eapply does_mono; [|apply does_lib_json].
  unfold ctx_new, ctx_freed. intros [[]|e|] t (Hf & Hn & Hfr & Hch); [| |done].
  2: { rewrite !omap_app, Hn, Hfr. split_and!; try done. left. intros flags. cbn.
       by rewrite <- (app_nil_r t), Hch. }
  assert (forall flags u, changes flags ([Ev (CNftBufferOutput ctx) (Answer a)] ++
      [] ++ [Ev (CNftBufferError ctx) (Answer a')] ++ [] ++ [Ev (CNftSetDryRun ctx dry) (Answer ())] ++ t ++ u)
    = changes (set_flag ctx dry flags) u) as Hpre by (intros; cbn; by rewrite Hch).
  unfold submits_upto, submits. 
  apply does_bind. does_call; [intros rc; apply does_bind; does_call; [intros out; apply does_bind; does_call;
    [intros err; apply does_ret|]|]|].
  all: intros; rewrite !omap_app, ?Hn, ?Hfr; split_and!; try done.
  all: try right; intros flags; rewrite Hpre; cbn; unfold set_flag; rewrite Z.eqb_refl;
    by destruct (dry || is_query command).
Qed.

Lemma acts_lib_invoke path command operation dry json lib :
  acts (lib_invoke path command operation dry json) lib (fun o _ suf =>
    ctx_new suf = ctx_freed suf /\ (length (ctx_new suf) <= 1)%nat /\
    submits_upto o suf (if dry || is_query command then [] else [command])).
Proof.
  assert (forall A e (l : list string), submits_upto (Raise e : outcome A) [] l) as Hstop by (intros; by left).
  unfold lib_invoke. apply acts_bind, acts_of_res. destruct (_ || _); cbn [raise_if]; [split_and!; [done|cbn; lia|apply Hstop]|].
  apply acts_bind. eapply acts_mono; [|apply acts_lib_load].
  intros [library|e|] lib' t (Hf & Hs & Hn & Hfr); [| |done].
  2: { cbn [app]. rewrite Hn, Hfr. cbn. split_and!; [done|lia|by left]. }
  unfold ctx_new, ctx_freed in *. apply acts_bind. acts_call; [intros ctx|intros e].
  2: { cbn [app]. rewrite !omap_app, Hn, Hfr. cbn. split_and!; [done|lia|]. left. by apply submits_quiet. }
  apply acts_bind, acts_of_res. destruct (ctx =? 0) eqn:Hctx; cbn [raise_if].
  { cbn [app]. rewrite !omap_app, Hn, Hfr. cbn. rewrite Hctx. cbn.
    split_and!; [done|lia|]. left. by apply submits_quiet. }
  apply acts_bind, acts_finally. eapply acts_does; [apply does_lib_invoke_body|].
  unfold ctx_new, ctx_freed. intros o u (Hnu & Hfru & Hu).
  assert (forall r, let suf := t ++ [Ev CNftCtxNew (Answer ctx)] ++ u ++ [Ev (CNftCtxFree ctx) r] in
    omap ev_ctx_new suf = omap ev_ctx_free suf /\ (length (omap ev_ctx_new suf) <= 1)%nat) as Hctxs.
  { intros r. cbn zeta. rewrite !omap_app, Hn, Hfr, Hnu, Hfru. cbn. rewrite Hctx. cbn. split; [done|lia]. }
  assert (forall r l, submits u l -> submits (t ++ [Ev CNftCtxNew (Answer ctx)] ++ u ++ [Ev (CNftCtxFree ctx) r]) l) as Hsub.
  { intros r l Hl. rewrite <- (app_nil_r l), app_assoc. apply submits_quiet; [by apply submits_quiet|].
    by apply submits_app. }
  destruct o as [[[rc out] err]|e|]; [| |done]; acts_call; intros r; cbn [app].
  - apply acts_bind, acts_of_res. destruct (rc =? 0); cbn [negb raise_if];
      [apply acts_ret; cbn [app]|]; rewrite app_nil_r; (split_and!; [apply (Hctxs (Answer r))..|]); [|right]; by apply (Hsub (Answer r)).
  - split_and!; [apply (Hctxs (Fault r))..|]. right. by apply (Hsub (Fault r)).
  - split_and!; [apply (Hctxs (Answer r))..|].
    destruct Hu as [Hu|Hu]; [left|right]; by apply (Hsub (Answer r)).
  - split_and!; [apply (Hctxs (Fault r))..|].
    destruct Hu as [Hu|Hu]; [left|right]; by apply (Hsub (Fault r)).
Qed.

(** The in-process library is used safely: whatever it answers, a request
    gives back every context it obtained (at most one), and submits its command
    at most once, in the mode asked for, so that a dry run or a listing changes
    nothing; a request that returns submitted it exactly once. *)
Theorem lib_invoke_safe path command operation dry json lib tr :
  let '(o, _, tr') := lib_invoke path command operation dry json lib tr in
  exists suf, tr' = tr ++ suf /\
    ctx_new suf = ctx_freed suf /\ (length (ctx_new suf) <= 1)%nat /\
    submits_upto o suf (if dry || is_query command then [] else [command]).
Proof.
  pose proof (acts_lib_invoke path command operation dry json lib tr) as H. unfold wp in H.
  by destruct (lib_invoke path command operation dry json lib tr) as [[o lib'] tr'].
Qed.

Lemma acts_lib_invoke_unit path command operation dry json lib :
  acts (_ ← lib_invoke path command operation dry json; mret tt) lib (fun o _ suf =>
    submits_upto o suf (if dry || is_query command then [] else [command])).
Proof.
  apply acts_bind. eapply acts_mono; [|apply acts_lib_invoke].
  intros [out|e|] lib' suf (_ & _ & H); [|done|done]. apply acts_ret. by rewrite app_nil_r.
Qed.

(** A request that returns was accepted. *)
Lemma acts_lib_accepted path command operation dry json lib :
  acts (lib_invoke path command operation dry json) lib (fun o _ suf => forall out, o = Ret out -> accepted command suf).
Proof.
  unfold lib_invoke. apply acts_bind, acts_of_res. destruct (_ || _); cbn [raise_if]; [done|].
  apply acts_bind. eapply acts_mono; [|apply acts_lib_load]. intros [library|e|] lib' t _; [|done|done].
  apply acts_bind. acts_call; [intros ctx|done]. apply acts_bind, acts_of_res. destruct (ctx =? 0); cbn [raise_if]; [done|].
  assert (does (lib_invoke_body library ctx command dry json : M LibState _) (fun o u =>
    forall rc out err, o = Ret (rc, out, err) -> rc = 0 -> accepted command u)) as Hbody.
  { unfold lib_invoke_body. apply does_bind. does_call; intros a; [|done]. apply does_bind, does_of_res.
    destruct (a =? 0); cbn [negb raise_if]; [|done]. apply does_bind. does_call; intros a'; [|done]. apply does_bind, does_of_res.
    destruct (a' =? 0); cbn [negb raise_if]; [|done]. apply does_bind. does_call; intros []; [|done..].
    apply does_bind. eapply does_mono; [|apply does_lib_json]. intros [[]|e|] u _; [|done|done].
    apply does_bind. does_call; [intros rc|done]. apply does_bind. does_call; [intros o|done]. apply does_bind.
    does_call; [intros er|done]. apply does_ret. intros ? ? ? [= <- _ _] ->. do 5 (apply Exists_app; right).
    apply Exists_app. right. apply Exists_app. left. constructor. cbn. by rewrite bool_decide_true. }
  apply acts_bind, acts_finally. eapply acts_does; [exact Hbody|]. intros o u Hu.
  destruct o as [[[rc out] err]|e|]; [| |done]; (acts_call; intros r; [|done]); [|done].
  apply acts_bind, acts_of_res. destruct (rc =? 0) eqn:Hrc; cbn [negb raise_if]; [apply acts_ret|done]. bool_to_prop.
  intros out' _. specialize (Hu rc out err eq_refl Hrc). unfold accepted in *. rewrite !Exists_app. tauto.
Qed.

Lemma submits_upto_nil {A} (o : outcome A) suf : submits_upto o suf [] -> o <> OutOfFuel /\ submits suf [].
Proof. destruct o; cbn; naive_solver. Qed.

Lemma delete_not_query family name : is_query (delete_command family name) = false.
Proof. done. Qed.

(** The library transport keeps the same promise. *)
Lemma lib_transport_lawful v t : LibNftablesTransport v = Ok t -> NftTransportLaws t.
Proof.
  unfold LibNftablesTransport. intros H. apply res_bind_Ok in H as (path & _ & [= <-]).
  split; cbn [command_name run read].
  - done.
  - intros batch lib Hq. cbn [lib_run]. rewrite bool_decide_true by done.
    eapply acts_mono; [|apply acts_lib_invoke_unit]. intros o lib' suf. by rewrite Hq.
  - intros batch lib. cbn [lib_run]. rewrite bool_decide_false by done. rewrite bool_decide_true by done.
    apply acts_bind. eapply acts_mono; [|apply acts_and; [apply acts_lib_invoke|apply acts_lib_accepted]].
    intros o lib' suf [(_ & _ & [Hf Hs]%submits_upto_nil) Ha]. destruct o as [out|e|]; [apply acts_ret|by split_and!|done].
    rewrite app_nil_r. split_and!; [done|done|]. intros _. by eapply Ha.
  - intros family name lib Hfam Hname. unfold lib_run. rewrite bool_decide_true by done. rewrite Hfam. cbn [andb].
    unfold validate_nft_table_name. rewrite Hname. apply acts_bind, acts_of_res. cbn [app].
    eapply acts_mono; [|apply acts_lib_invoke_unit]. done.
  - intros family lib. unfold lib_read. destruct (_ && _) eqn:Hok.
    + eapply acts_mono; [|apply acts_lib_invoke]. intros o lib' suf (_ & _ & H).
      apply submits_upto_nil. cbn [orb] in H. unfold is_query in H.
      by rewrite startswith_app in H.
    + by apply acts_raise.
Qed.

End transports.

(** ** The backend over any transport that keeps the promise *)

Section backend.
Context `{E : Env}.
Context (b : NftFirewallBackend) {L : NftTransportLaws (transport b)}.

Lemma table_family_cases config : str_in (table_family config) ["ip"; "ip6"] = true.
Proof. unfold table_family. by destruct (_ =? 4). Qed.

Lemma does_new_nft_table_name {S} :
  does (new_nft_table_name : M S string) (fun o suf => o <> OutOfFuel /\ submits suf []).
Proof. unfold new_nft_table_name. apply does_bind. by does_call; intros; [apply does_ret|]. Qed.

Lemma validate_nft_table_name_Ok v name :
  validate_nft_table_name v = Ok name -> v = VStr name /\ nft_table_name_match name = true.
Proof.
  unfold validate_nft_table_name. destruct v; try done. destruct (nft_table_name_match s) eqn:Hm; [|done].
  by intros [= ->].
Qed.

(** What a successful install says of its lease. *)
Definition lease_of (config : NftDnatConfig) (l : NftDnatLease) : Prop :=
  nl_closed l = false /\ nl_nft_path l = command_name (transport b) /\
  nl_runner l = run (transport b) /\ nl_table_family l = table_family config /\
  nft_table_name_match (nl_table_name l) = true /\
  (forall name, dc_table_name config = Some name -> nl_table_name l = name).

Lemma acts_nft_install config own lib :
  acts (nft_install b config own) lib (fun o _ suf =>
    match o with
    | Ret l => lease_of config l /\ submits suf [dnat_batch config (nl_table_name l) (Some own)]
    | Raise _ => submits suf [] \/ exists name, submits suf [dnat_batch config name (Some own)]
    | OutOfFuel => False
    end).
Proof.
  unfold nft_install, install_nft_dnat. apply acts_bind, acts_of_res.
  destruct (negb _); cbn [raise_if]; [by left|]. apply acts_bind, acts_of_res. rewrite law_name. cbn [res_of_option app].
  apply acts_bind.
  eapply acts_mono with (P := fun o _ suf => o <> OutOfFuel /\ submits suf [] /\
    forall name c, o = Ret c -> dc_table_name config = Some name -> c = name).
  2: { destruct (dc_table_name config); [by apply acts_ret; split_and!; [..|intros ?? [= ->] [= ->]]|].
       eapply acts_does; [apply does_new_nft_table_name|]. by intros o suf [? ?]. }
  intros [c|e|] lib' suf (Hf & Hsuf & Hc); [|by left|done].
  apply acts_bind, acts_of_res. destruct (validate_nft_table_name (VStr c)) as [name|e] eqn:Hname.
  2: { left. by rewrite app_nil_r. }
  apply validate_nft_table_name_Ok in Hname as [[= ->] Hmatch]. cbn [app].
  apply acts_bind. eapply acts_mono; [|by apply law_apply].
  intros [[]|e|] lib'' suf' Hs'; [| |done].
  - apply acts_ret. rewrite app_nil_r. split; [|by apply submits_quiet].
    unfold lease_of. cbn. split_and!; naive_solver.
  - destruct Hs' as [Hs'|Hs']; [left|right; exists name]; by apply submits_quiet.
Qed.

Lemma acts_nft_lease_close config l lib :
  lease_of config l ->
  acts nft_lease_close (l, lib) (fun o st suf =>
    st.1 = set_nl_closed l /\ submits_upto o suf [delete_command (table_family config) (nl_table_name l)]).
Proof.
  intros (Hc & Hpath & Hrun & Hfam & Hname & _). unfold nft_lease_close.
  apply acts_bind, acts_get. cbn [fst snd]. rewrite Hc.
  apply acts_bind, acts_modify. cbn [app]. apply acts_zoom. cbn [fst snd].
  rewrite Hpath, Hrun, Hfam. eapply acts_mono; [|apply law_delete; [apply table_family_cases|done]].
  intros o lib' suf Hs. by split.
Qed.

(** C25. The DNAT lease owns exactly one table: an install submits one batch
    creating it under a valid name (the configured one when there is one), a
    failed one at most that; closing the lease submits exactly the deletion of
    that table in its family, and closing again does nothing at all. *)
Theorem nft_lease_lifecycle config own lib tr :
  let '(o, _, tr') := nft_install b config own lib tr in
  exists suf, tr' = tr ++ suf /\
  match o with
  | Ret l =>
      nft_table_name_match (nl_table_name l) = true /\
      (forall name, dc_table_name config = Some name -> nl_table_name l = name) /\
      submits suf [dnat_batch config (nl_table_name l) (Some own)] /\
      forall lib1 tr1,
        let '(o1, st1, tr2) := nft_lease_close (l, lib1) tr1 in
        (exists suf1, tr2 = tr1 ++ suf1 /\
           submits_upto o1 suf1 [delete_command (table_family config) (nl_table_name l)]) /\
        forall tr3, nft_lease_close st1 tr3 = (Ret tt, st1, tr3)
  | Raise _ => submits suf [] \/ exists name, submits suf [dnat_batch config name (Some own)]
  | OutOfFuel => False
  end.
Proof.
  destruct (nft_install b config own lib tr) as [[o lib'] tr'] eqn:Hrun.
  destruct (acts_run _ _ _ _ _ _ _ (acts_nft_install config own lib) Hrun) as (suf & -> & Ho).
  exists suf. split; [done|]. destruct o as [l|e|]; [|done|done]. destruct Ho as [Hl Hs].
  split_and!; [apply Hl|apply Hl|done|]. intros lib1 tr1.
  destruct (nft_lease_close (l, lib1) tr1) as [[o1 [l1 lib2]] tr2] eqn:Hclose.
  destruct (acts_run _ _ _ _ _ _ _ (acts_nft_lease_close config l lib1 Hl) Hclose) as (suf1 & -> & Hcl & Ho1).
  split; [by exists suf1|]. intros tr3. unfold nft_lease_close, mbind, M_bind. cbn in *. by rewrite Hcl.
Qed.

Lemma stat_reads_submit_nothing suf : Forall is_stat_read suf -> submits suf [].
Proof.
  induction 1 as [|ev suf [pid Hev] _ IH]; [done|]. intros flags. cbn. unfold ev_change. rewrite Hev. apply IH.
Qed.

Lemma acts_process_start_time pid (lib : LibState) :
  acts (process_start_time pid) lib (fun o _ suf => o <> OutOfFuel /\ submits suf []).
Proof.
  unfold process_start_time. apply acts_bind. acts_call; intros a; [|done].
  apply acts_of_res. by destruct (stat_start_time a).
Qed.

Lemma acts_nft_inspect lib :
  acts (nft_inspect_ownership b) lib (fun o _ suf => o <> OutOfFuel /\ submits suf []).
Proof.
  unfold nft_inspect_ownership, inspect_nft_ownership. apply acts_bind, acts_of_res. rewrite law_name.
  cbn [res_of_option app]. apply acts_bind, acts_of_res. destruct (negb _); cbn [raise_if app]; [done|].
  apply acts_bind. eapply acts_mono; [|apply law_list].
  intros [raw|e|] lib' suf [Hf Hs]; [|done|done].
  apply acts_bind, acts_of_res. destruct (ruleset_entries raw) as [entries|e]; [|by rewrite app_nil_r].
  apply acts_bind. eapply acts_does; [apply does_inspect_entries|]. intros [obs|e|] suf' [Hr Ho]; [| |done].
  all: apply stat_reads_submit_nothing in Hr. 
  + apply acts_ret. split; [done|]. cbn [app]. rewrite app_nil_r. by apply submits_quiet.
  + split; [done|]. by apply submits_quiet.
Qed.

(** The probe changes nothing, and one that returns had a batch for the
    configuration accepted. *)
Lemma acts_nft_check config lib :
  acts (nft_check_compatibility b config) lib (fun o _ suf => o <> OutOfFuel /\ submits suf [] /\
    (o = Ret tt -> exists name own, accepted (dnat_batch config name (Some own)) suf)).
Proof.
  unfold nft_check_compatibility, check_nft_dnat_compatibility, current_nft_ownership.
  apply acts_bind, acts_of_res. destruct (negb _); cbn [raise_if app]; [done|].
  apply acts_bind, acts_bind. acts_call; intros pid; [|done].
  apply acts_bind. eapply acts_mono; [|apply acts_process_start_time].
  intros [start|e|] lib' suf [Hf Hs]; [|by split_and!; [|apply submits_quiet|]|done].
  apply acts_of_res. destruct (new_nft_ownership _ _ _) as [own|e]; rewrite app_nil_r;
    [|by split_and!; [|apply submits_quiet|]].
  apply acts_bind, acts_of_res. rewrite law_name. cbn [res_of_option app].
  apply acts_bind. eapply acts_does; [apply does_new_nft_table_name|].
  intros [c|e|] suf' [Hf' Hs']; [|split_and!; [done| |done]; by repeat apply submits_quiet|done].
  apply acts_bind, acts_of_res. destruct (validate_nft_table_name _) as [name|e].
  2: { split_and!; [done| |done]. rewrite app_nil_r. by repeat apply submits_quiet. }
  apply acts_try. eapply acts_mono; [|apply law_check]. intros [[]|e|] lib'' suf'' (Hf'' & Hs'' & Ha); [| |done].
  + split_and!; [done|by repeat apply submits_quiet|]. intros _. exists name, own. unfold accepted in *.
    specialize (Ha eq_refl). repeat (rewrite Exists_cons || rewrite Exists_app). tauto.
  + case_match; [case_match|..]; apply acts_raise; (split_and!; [done| |done]);
      rewrite app_nil_r; by repeat apply submits_quiet.
Qed.

(** Neither the ownership inspection nor the compatibility probe changes
    the ruleset, whatever the transport answers: the probe is always a check. *)
Theorem nft_probes_change_nothing config lib tr :
  (let '(o, _, tr') := nft_inspect_ownership b lib tr in
   exists suf, tr' = tr ++ suf /\ o <> OutOfFuel /\ submits suf []) /\
  (let '(o, _, tr') := nft_check_compatibility b config lib tr in
   exists suf, tr' = tr ++ suf /\ o <> OutOfFuel /\ submits suf []).
Proof.
  pose proof (acts_nft_inspect lib tr) as Hi. pose proof (acts_nft_check config lib tr) as Hc. unfold wp in *.
  destruct (nft_inspect_ownership b lib tr) as [[? ?] ?], (nft_check_compatibility b config lib tr) as [[? ?] ?]. naive_solver.
Qed.

End backend.

(** A configuration and an owner, for the witnesses. *)
Definition sample_config : NftDnatConfig :=
  {| listen_address := "192.0.2.10"; listen_port := 443; target_address := "10.200.0.2";
     target_port := 443; dc_table_name := Some "tcpcc_a" |}.
Definition sample_owner : NftOwnership :=
  {| owner_pid := 42; owner_start_time := 99; owner_tun_name := "tcpcc0" |}.

Lemma nft_lease_lifecycle_witness :
  exists t, @NftExecTransport plain_host (VStr "nft") = Ok t /\
  exists l tr', @nft_install plain_host {| transport := t; nb_table_family := "ip" |}
      sample_config sample_owner None [] = (Ret l, None, tr') /\
    nft_table_name_match (nl_table_name l) = true.
Proof.
  eexists. split; [reflexivity|].
  match goal with |- context [{| transport := ?t; nb_table_family := _ |}] => set (b := {| transport := t; nb_table_family := "ip" |}) end.
  pose proof (@nft_lease_lifecycle plain_host b
    (@exec_transport_lawful plain_host (VStr "nft") (transport b) eq_refl) sample_config sample_owner None []) as H.
  destruct (nft_install b sample_config sample_owner None []) as [[[l|e|] lib'] tr'] eqn:Hrun;
    [|vm_compute in Hrun; discriminate Hrun..].
  exists l, tr'. destruct H as (suf & _ & Hname & _).
  assert (lib' = None) as -> by (vm_compute in Hrun; by injection Hrun). by split.
Defined.

Lemma nft_probes_change_nothing_witness :
  exists t, @NftExecTransport plain_host (VStr "nft") = Ok t /\
  (let '(o, _, tr') := @nft_inspect_ownership plain_host {| transport := t; nb_table_family := "ip" |} None [] in
   exists suf, tr' = [] ++ suf /\ o <> OutOfFuel /\ submits suf []).
Proof.
  eexists. split; [reflexivity|].
  match goal with |- context [{| transport := ?t; nb_table_family := _ |}] => set (b := {| transport := t; nb_table_family := "ip" |}) end.
  apply (@nft_probes_change_nothing plain_host b
    (@exec_transport_lawful plain_host (VStr "nft") (transport b) eq_refl) sample_config None []).
Defined.

(** ** The configuration *)

Lemma validate_endpoint_address_Ok v field s :
  validate_endpoint_address v field = Ok s ->
  exists a, ip_wf a = true /\ s = str_of_ip a /\ is_unspecified a = false /\ is_multicast a = false.
Proof.
  unfold validate_endpoint_address. destruct v as [| | | |t| |]; try done. intros H. res_inv.
  destruct (ip_address t) as [a'|] eqn:Ha; [|done]. cbn in H0. simplify_eq. bool_to_prop.
  eexists. split_and!; try done. by apply ip_address_wf in Ha.
Qed.

Lemma validate_endpoint_address_str a field :
  ip_wf a = true -> is_unspecified a = false -> is_multicast a = false ->
  validate_endpoint_address (VStr (str_of_ip a)) field = Ok (str_of_ip a).
Proof.
  intros Hwf Hu Hm. unfold validate_endpoint_address. rewrite ip_address_str by done. cbn. by rewrite Hu, Hm.
Qed.

Lemma validate_port_Ok v field p : validate_port v field = Ok p -> v = VInt p /\ 1 <= p <= 65535.
Proof.
  unfold validate_port. destruct v; try done. destruct (_ && _) eqn:H; [|done]. intros [= ->].
  by bool_to_prop.
Qed.

(** What [NftDnatConfig] accepts is one exact redirection: both addresses
    are canonical usable unicast addresses of the same family and differ, the
    ports are TCP ports, the table name (when given) is valid, the table family
    matches the addresses, and validating the stored fields again gives the
    same configuration. *)
Theorem new_nft_dnat_config_canonical la lp ta tp tn c :
  new_nft_dnat_config la lp ta tp tn = Ok c ->
  (exists l t, listen_address c = str_of_ip l /\ target_address c = str_of_ip t /\
     ip_address (listen_address c) = Some l /\ ip_address (target_address c) = Some t /\
     ip_version l = ip_version t /\ l <> t /\
     is_unspecified l = false /\ is_multicast l = false /\
     is_unspecified t = false /\ is_multicast t = false /\
     dnat_ip_version c = ip_version l) /\
  1 <= listen_port c <= 65535 /\ 1 <= target_port c <= 65535 /\
  (forall name, dc_table_name c = Some name -> nft_table_name_match name = true) /\
  new_nft_dnat_config (VStr (listen_address c)) (VInt (listen_port c)) (VStr (target_address c))
    (VInt (target_port c)) (from_option VStr VNone (dc_table_name c)) = Ok c.
Proof.
  unfold new_nft_dnat_config. intros H. res_inv.
  apply validate_endpoint_address_Ok in H0 as (l & Hl & -> & Hlu & Hlm).
  apply validate_endpoint_address_Ok in H1 as (t & Ht & -> & Htu & Htm).
  apply validate_port_Ok in H2 as [-> Hlp]. apply validate_port_Ok in H3 as [-> Htp].
  unfold address_version in *. rewrite ip_address_str in * by done. cbn in H4, H5. simplify_eq. bool_to_prop.
  unfold dnat_ip_version. cbn [listen_address listen_port target_address target_port dc_table_name].
  rewrite !ip_address_str by done.
  assert (from_option VStr VNone x5 = tn /\ forall n, x5 = Some n -> nft_table_name_match n = true) as [Htn Hn].
  { destruct tn; try done; [naive_solver|]. res_inv.
    match goal with H : validate_nft_table_name _ = Ok _ |- _ => apply validate_nft_table_name_Ok in H end.
    naive_solver. }
  split_and!; try lia; try done.
  - exists l, t. split_and!; try done; congruence.
  - rewrite Htn, !validate_endpoint_address_str by done. cbn [mbind res_bind].
    unfold validate_port. rewrite !(proj2 (andb_true_iff _ _)) by lia. cbn [mbind res_bind].
    rewrite !ip_address_str by done. cbn. rewrite H6, Z.eqb_refl. cbn. rewrite bool_decide_false by done. cbn.
    by rewrite H8.
Qed.

Lemma new_nft_dnat_config_canonical_witness :
  exists c, new_nft_dnat_config (VStr "2001:DB8::0:10") (VInt 443) (VStr "fd00::2") (VInt 8443) VNone = Ok c /\
    listen_address c = "2001:db8::10" /\ 1 <= listen_port c <= 65535.
Proof.
  destruct (new_nft_dnat_config (VStr "2001:DB8::0:10") (VInt 443) (VStr "fd00::2") (VInt 8443) VNone)
    as [c|e] eqn:Hc; [|vm_compute in Hc; discriminate Hc].
  exists c. split; [done|]. split; [vm_compute in Hc; by injection Hc as <-|].
  apply (new_nft_dnat_config_canonical _ _ _ _ _ c Hc).
Defined.

(** An IPv6 scope identifier is not restricted: the configuration accepts one
    that carries whole nftables commands into the batch. *)
Theorem dnat_batch_scope_injection :
  exists c, new_nft_dnat_config (VStr ("fe80::1%x" +:+ nl +:+ "flush ruleset" +:+ nl)) (VInt 443)
              (VStr "fd00::2") (VInt 443) VNone = Ok c /\
    "flush ruleset" ∈ splitlines (dnat_batch c "tcpcc_a" None).
Proof.
  destruct (new_nft_dnat_config (VStr ("fe80::1%x" +:+ nl +:+ "flush ruleset" +:+ nl)) (VInt 443)
              (VStr "fd00::2") (VInt 443) VNone) as [c|e] eqn:Hc; [|vm_compute in Hc; discriminate Hc].
  exists c. split; [done|]. vm_compute in Hc. injection Hc as <-.
  apply (bool_decide_unpack _). vm_compute. exact I.
Qed.
