(* ===== verification/Shlex.v ===== *)
(** * Shell words

    Python's [shlex.split(s)] in its default POSIX mode without comments, as
    the state machine of [shlex.read_token]. *)

From S2P Require Import Prelude PyStr.

(** [shlex.whitespace] *)
Definition is_shlex_space (c : ascii) : bool :=
  is_char " " c || is_char "009" c || is_char carriage_return c || is_char newline c.

Inductive shlex_state :=
  | Between                          (* the state [" "] *)
  | InWord                           (* the state ["a"] *)
  | InQuote (q : ascii)              (* inside quotes *)
  | AfterEscape (back : option ascii) (* after a backslash, in a word or inside quotes *).

(** [token] is the text read so far and [quoted] whether it had quotes; [None]
    is the [ValueError] on an unfinished quotation or escape. *)
Fixpoint shlex (st : shlex_state) (token : string) (quoted : bool) (s : string) : option (list string) :=
  match s with
  | EmptyString =>
      match st with
      | Between => Some []
      | InWord => Some (if str_empty token && negb quoted then [] else [token])
      | InQuote _ | AfterEscape _ => None
      end
  | String c s =>
      match st with
      | Between =>
          if is_shlex_space c then shlex Between EmptyString false s
          else if is_char backslash c then shlex (AfterEscape None) EmptyString false s
          else if is_char dquote c || is_char "'" c then shlex (InQuote c) EmptyString false s
          else shlex InWord (chr_str c) false s
      | InWord =>
          if is_shlex_space c then
            rest ← shlex Between EmptyString false s;
            Some (if str_empty token && negb quoted then rest else token :: rest)
          else if is_char dquote c || is_char "'" c then shlex (InQuote c) token quoted s
          else if is_char backslash c then shlex (AfterEscape None) token quoted s
          else shlex InWord (token +:+ chr_str c) quoted s
      | InQuote q =>
          if is_char q c then shlex InWord token true s
          else if is_char backslash c && is_char dquote q then shlex (AfterEscape (Some q)) token true s
          else shlex (InQuote q) (token +:+ chr_str c) true s
      | AfterEscape None => shlex InWord (token +:+ chr_str c) quoted s
      | AfterEscape (Some q) =>
          let token := if is_char backslash c || is_char q c then token else token +:+ chr_str backslash in
          shlex (InQuote q) (token +:+ chr_str c) quoted s
      end
  end.

Definition shlex_split (s : string) : option (list string) := shlex Between EmptyString false s.

(** ** Lemmas *)

(** A character that stands for itself in an unquoted word. *)
Definition plain_char (c : ascii) : bool :=
  negb (is_shlex_space c || is_char dquote c || is_char "'" c || is_char backslash c).

Lemma shlex_word token quoted w s :
  str_forallb plain_char w = true ->
  shlex InWord token quoted (w +:+ s) = shlex InWord (token +:+ w) quoted s.
Proof.
  revert token. induction w as [|c w IH]; intros token; [by rewrite str_app_nil_r, str_app_nil_l|].
  cbn [str_forallb]. intros H. bool_to_prop. unfold plain_char in H. bool_to_prop.
  rewrite str_app_cons. cbn [shlex]. rewrite H, H2, H3, H1. cbn [orb].
  rewrite IH by done. by rewrite str_app_assoc.
Qed.

(** A character that stands for itself between double quotes. *)
Definition quotable_char (c : ascii) : bool := negb (is_char dquote c || is_char backslash c).

Lemma shlex_quoted token quoted w s :
  str_forallb quotable_char w = true ->
  shlex (InQuote dquote) token quoted (w +:+ String dquote s) = shlex InWord (token +:+ w) true s.
Proof.
  revert token quoted. induction w as [|c w IH]; intros token quoted; [by rewrite str_app_nil_r, str_app_nil_l|].
  cbn [str_forallb]. intros H. bool_to_prop. unfold quotable_char in H. bool_to_prop.
  rewrite str_app_cons. cbn [shlex]. rewrite H, H1. cbn [andb].
  rewrite IH by done. by rewrite str_app_assoc.
Qed.
