(* ===== verification/Iptables.v ===== *)
(** * iptables

    The iptables part of [tools/tcpcc_host.py]: the private chain and its exact
    jump, the restore batch, the lease, and the backend with its ownership
    inspection, compatibility test and rollback of a failed install. *)

From S2P Require Import Prelude PyStr Reports Py Effects Json IpAddr Journal Tun Nft Shlex.
Local Open Scope Z_scope.

Definition IPTABLES_CHAIN_PREFIX : string := "TCPCC_".

Definition is_chain_char (c : ascii) : bool :=
  is_alpha c || is_digit c || is_char "_" c || is_char "-" c.

(** [IPTABLES_CHAIN_NAME.fullmatch] *)
Definition chain_name_match (s : string) : bool :=
  match s with
  | EmptyString => false
  | String c t => is_alpha c && (String.length t <=? 27)%nat && str_forallb is_chain_char t
  end.

(** [IPTABLES_OWNED_CHAIN.fullmatch] *)
Definition owned_chain_match (s : string) : bool :=
  match strip_prefix "TCPCC_" s with
  | Some t => (String.length t =? 12)%nat
              && str_forallb (fun c => is_digit c || in_range "a" "f" c) t
  | None => false
  end.

Definition validate_iptables_chain_name (name : pyval) : res string :=
  let error := ValueError "iptables chain name must contain 1-28 ASCII letters, digits, underscores, or hyphens and start with a letter" in
  match name with
  | VStr s => if chain_name_match s then Ok s else Err error
  | _ => Err error
  end.

(** ** Rules *)

(** The match part shared by the jump and the DNAT rule. *)
Definition exact_match (c : NftDnatConfig) : list string :=
  ["-d"; listen_address c +:+ "/" +:+ str_of_Z (destination_prefix c); "-p"; "tcp"; "-m"; "tcp";
   "--dport"; str_of_Z (listen_port c)].

(** [_iptables_rules]: the jump and the DNAT arguments. *)
Definition iptables_rules (c : NftDnatConfig) (chain_name : string) (ownership : NftOwnership)
    : list string * list string :=
  let exact := exact_match c in
  (exact ++ ["-m"; "comment"; "--comment"; "tcpcc.jump.v1 chain=" +:+ chain_name; "-j"; chain_name],
   exact ++ ["-m"; "comment"; "--comment"; marker ownership; "-j"; "DNAT";
             "--to-destination"; dnat_destination c]).

Definition render_argument (argument : string) : res string :=
  if str_existsb is_space argument then
    if str_mem dquote argument || str_mem carriage_return argument || str_mem newline argument
    then Err (ValueError "iptables argument cannot be quoted safely")
    else Ok (String dquote (argument +:+ chr_str dquote))
  else Ok argument.

Fixpoint render_arguments (arguments : list string) : res (list string) :=
  match arguments with
  | [] => Ok []
  | a :: l => x ← render_argument a; rest ← render_arguments l; Ok (x :: rest)
  end.

Definition iptables_restore_line (chain : string) (arguments : list string) : res string :=
  rendered ← render_arguments arguments;
  Ok (str_join " " ("-A" :: chain :: rendered)).

Definition iptables_restore_batch (c : NftDnatConfig) (chain_name : string) (ownership : NftOwnership)
    (declare_chain : bool) : res string :=
  let '(jump, dnat) := iptables_rules c chain_name ownership in
  dnat_line ← iptables_restore_line chain_name dnat;
  jump_line ← iptables_restore_line "PREROUTING" jump;
  let lines := ["*nat"] ++ (if declare_chain then [":" +:+ chain_name +:+ " - [0:0]"] else [])
               ++ [dnat_line; jump_line; "COMMIT"] in
  Ok (str_join nl lines +:+ nl).

(** ** Reading the saved table *)

(** [tokens.index("--comment")] and the token after it. *)
Fixpoint comment_of (tokens : list string) : option string :=
  match tokens with
  | [] => None
  | t :: l => if bool_decide (t = "--comment") then head l else comment_of l
  end.

(** The reserved chains and the markers of each chain, in order of appearance. *)
Record saved := { reserved_chains : list string; markers : list (string * list string) }.

(** The body of the loop over the lines. *)
Definition read_line (acc : saved) (line : string) : res saved :=
  match strip_prefix ":" line with
  | Some rest =>
      chain_name ← res_of_option (Sys (SException "IndexError" "list index out of range")) (head (split_ws rest));
      Ok (if owned_chain_match chain_name
          then {| reserved_chains := reserved_chains acc ++ [chain_name]; markers := markers acc |}
          else acc)
  | None =>
      if negb (startswith "-A " line) then Ok acc
      else
        match shlex_split line with
        | Some ("-A" :: chain :: tokens) =>
            match comment_of ("-A" :: chain :: tokens) with
            | Some comment =>
                if startswith NFT_OWNER_PREFIX comment
                then Ok {| reserved_chains := reserved_chains acc;
                           markers := dict_set chain (default [] (dict_get chain (markers acc)) ++ [comment])
                                        (markers acc) |}
                else Ok acc
            | None => Ok acc
            end
        | _ => Ok acc
        end
  end.

Fixpoint read_lines (acc : saved) (lines : list string) : res saved :=
  match lines with
  | [] => Ok acc
  | line :: lines => acc ← read_line acc line; read_lines acc lines
  end.

Definition read_saved (raw : string) : res saved :=
  read_lines {| reserved_chains := []; markers := [] |} (splitlines raw).

(** [sorted(reserved_chains | set(markers))] *)
Definition saved_chains (s : saved) : list string :=
  sort_on (fun x => x) (remove_dups (reserved_chains s ++ (markers s).*1)).

(** ** The lease *)

Record IptablesDnatLease := {
  il_chain_name : string;
  il_jump_arguments : list string;
  il_iptables_path : string;
  il_closed : bool;
}.

Definition iptables_command (path action chain : string) : list string :=
  [path; "--wait"; "-t"; "nat"; action; chain].

Definition lease_commands (l : IptablesDnatLease) : list (string * list string) :=
  [("jump", [il_iptables_path l; "--wait"; "-t"; "nat"; "-D"; "PREROUTING"] ++ il_jump_arguments l);
   ("flush", iptables_command (il_iptables_path l) "-F" (il_chain_name l));
   ("delete-chain", iptables_command (il_iptables_path l) "-X" (il_chain_name l))].

Record IptablesFirewallBackend := {
  iptables_path : string;
  restore_path : string;
  save_path : string;
}.

Definition new_iptables_firewall_backend (iptables_path restore_path save_path : pyval)
    : res IptablesFirewallBackend :=
  i ← res_of_option (ValueError "iptables_path must name one executable") (valid_path iptables_path);
  r ← res_of_option (ValueError "restore_path must name one executable") (valid_path restore_path);
  s ← res_of_option (ValueError "save_path must name one executable") (valid_path save_path);
  Ok {| iptables_path := i; restore_path := r; save_path := s |}.

Definition remediation (b : IptablesFirewallBackend) (chain_name : string) : string :=
  "inspect with: " +:+ iptables_path b +:+ " -t nat -S PREROUTING and " +:+ iptables_path b
  +:+ " -t nat -S " +:+ chain_name
  +:+ "; after verifying ownership, delete the exact tcpcc.jump.v1 rule shown after -A PREROUTING with: "
  +:+ iptables_path b +:+ " -t nat -D PREROUTING <rule arguments>; then run: " +:+ iptables_path b
  +:+ " -t nat -F " +:+ chain_name +:+ "; then run: " +:+ iptables_path b +:+ " -t nat -X " +:+ chain_name.

Definition malformed_chain (chain detail remedy : string) : IptablesOwnershipObservation :=
  {| chain_name := chain; io_status := "malformed"; io_owner_pid := None; io_owner_start_time := None;
     io_tun_name := None; io_detail := detail; io_remediation := remedy |}.

Section iptables.
Context `{E : Env}.

Definition iptables_lease_close : M IptablesDnatLease unit :=
  l ← get_state;
  if il_closed l then mret tt
  else
    _ ← put_state {| il_chain_name := il_chain_name l; il_jump_arguments := il_jump_arguments l;
                     il_iptables_path := il_iptables_path l; il_closed := true |};
    failures ← collect (lease_commands l) (fun lc =>
      r ← attempt (_ ← perform (CRun lc.2 None); mret tt);
      mret (pair ("iptables:" +:+ il_chain_name l +:+ ":" +:+ lc.1) <$> r));
    if bool_decide (failures = []) then mret tt else raise (CleanupError failures).

Context {S : Type}.

(** [IptablesFirewallBackend._classify] *)
Definition classify (b : IptablesFirewallBackend) (chain comment : string)
    : M S IptablesOwnershipObservation :=
  match parse_marker comment with
  | Some (pid, expected_start, tun_name) =>
      if chain_name_match chain then
        '(status, detail) ← owner_status pid expected_start;
        mret {| chain_name := chain; io_status := status; io_owner_pid := Some pid;
                io_owner_start_time := Some expected_start; io_tun_name := Some tun_name;
                io_detail := detail;
                io_remediation := if bool_decide (status = "active") then EmptyString
                                  else remediation b chain |}
      else
        mret (malformed_chain "malformed" "unsupported or malformed tcpcc ownership marker"
                "inspect the complete iptables nat table manually")
  | None =>
      let safe_chain := if chain_name_match chain then chain else "malformed" in
      mret (malformed_chain safe_chain "unsupported or malformed tcpcc ownership marker"
              (if bool_decide (safe_chain = "malformed")
               then "inspect the complete iptables nat table manually"
               else remediation b safe_chain))
  end.

Definition inspect_chain (b : IptablesFirewallBackend) (s : saved) (chain : string)
    : M S (option IptablesOwnershipObservation) :=
  match default [] (dict_get chain (markers s)) with
  | [comment] => o ← classify b chain comment; mret (Some o)
  | [] => mret (Some (malformed_chain chain "reserved tcpcc chain has no ownership marker"
                        (remediation b chain)))
  | _ => mret (Some (malformed_chain chain "tcpcc chain has multiple ownership markers"
                       (remediation b chain)))
  end.

Definition iptables_inspect_ownership (b : IptablesFirewallBackend) : M S OwnershipReport :=
  raw ← perform (CRun [save_path b; "-t"; "nat"] None);
  s ← of_res (read_saved raw);
  observations ← collect (saved_chains s) (inspect_chain b s);
  mret (IptablesOwnershipReport observations).

Definition new_iptables_chain_name : M S string :=
  hex ← perform (CTokenHex 6); mret (IPTABLES_CHAIN_PREFIX +:+ hex).

Definition iptables_check_compatibility (b : IptablesFirewallBackend) (config : NftDnatConfig) : M S unit :=
  candidate ← new_iptables_chain_name;
  chain_name ← of_res (validate_iptables_chain_name (VStr candidate));
  ownership ← current_nft_ownership "tcpcc-probe";
  batch ← of_res (iptables_restore_batch config chain_name ownership true);
  _ ← perform (CRun [restore_path b; "--wait"; "--test"; "--noflush"] (Some batch));
  mret tt.

(** The rollback of a failed install: both commands are attempted. *)
Definition iptables_rollback (b : IptablesFirewallBackend) (chain_name : string) : M S (list exn) :=
  collect ["-F"; "-X"] (fun action =>
    attempt (_ ← perform (CRun (iptables_command (iptables_path b) action chain_name) None); mret tt)).

Definition iptables_install (b : IptablesFirewallBackend) (config : NftDnatConfig) (ownership : NftOwnership)
    : M S IptablesDnatLease :=
  candidate ← match dc_table_name config with
              | None => new_iptables_chain_name
              | Some name => mret name
              end;
  chain_name ← of_res (validate_iptables_chain_name (VStr candidate));
  let '(jump, _) := iptables_rules config chain_name ownership in
  _ ← perform (CRun (iptables_command (iptables_path b) "-N" chain_name) None);
  _ ← try_except
        (batch ← of_res (iptables_restore_batch config chain_name ownership false);
         _ ← perform (CRun [restore_path b; "--wait"; "--noflush"] (Some batch));
         mret tt)
        (fun install_error =>
           cleanup_errors ← iptables_rollback b chain_name;
           if bool_decide (cleanup_errors = []) then raise install_error
           else raise (IptablesInstallRollbackError install_error cleanup_errors));
  _ ← of_res (validate_iptables_chain_name (VStr chain_name));
  mret {| il_chain_name := chain_name; il_jump_arguments := jump;
          il_iptables_path := iptables_path b; il_closed := false |}.

End iptables.

(** ** Writing and reading back *)

(** Characters that need no quoting. *)
Definition rule_char (c : ascii) : bool :=
  (33 <=? char_code c) && (char_code c <=? 126)
  && negb (is_char dquote c || is_char "'" c || is_char backslash c).

(** Arguments that survive rendering: one line of them, perhaps with spaces. *)
Definition arg_ok (a : string) : bool :=
  str_forallb (fun c => rule_char c || is_char " " c) a && negb (str_empty a).

Abbreviation one_line := (str_forallb (fun c => negb (is_line_end c))).

Lemma rule_char_facts c :
  rule_char c || is_char " " c = true ->
  (is_space c = false -> plain_char c = true) /\ quotable_char c = true /\ is_line_end c = false.
Proof. by_char c. Qed.

Lemma arg_ok_line a : arg_ok a = true -> one_line a = true.
Proof.
  unfold arg_ok. intros H. bool_to_prop. eapply str_forallb_impl; [|done].
  intros c Hc. destruct (rule_char_facts c Hc) as (_ & _ & ->). done.
Qed.

(** One rendered argument reads back as the argument. *)
Lemma render_argument_shlex a :
  arg_ok a = true ->
  exists r, render_argument a = Ok r /\ one_line r = true /\ shlex_split r = Some [a] /\
    forall s, shlex_split (r +:+ String " " s) = cons a <$> shlex_split s.
Proof.
  intros Ha. pose proof (arg_ok_line a Ha) as Hline. unfold arg_ok in Ha. bool_to_prop.
  assert (str_mem dquote a = false /\ str_mem carriage_return a = false /\ str_mem newline a = false) as (H1 & H2 & H3).
  { split_and!; (eapply str_forallb_not_mem; [exact H|done]). }
  unfold render_argument. destruct (str_existsb is_space a) eqn:Hspace.
  - rewrite H1, H2, H3. cbn [orb]. exists (String dquote (a +:+ chr_str dquote)).
    assert (forall s, shlex_split (String dquote (a +:+ chr_str dquote) +:+ s) = shlex InWord a true s) as Hq.
    { intros s. unfold shlex_split. rewrite str_app_cons, str_app_assoc.
      change (chr_str dquote +:+ s) with (String dquote s). cbn [shlex].
      change (shlex (InQuote dquote) EmptyString false (a +:+ String dquote s) = shlex InWord a true s).
      rewrite shlex_quoted, str_app_nil_l; [done|]. eapply str_forallb_impl; [|exact H].
      intros c Hc. by destruct (rule_char_facts c Hc) as (_ & ? & _). }
    split_and!; [done| | |].
    + cbn [str_forallb]. rewrite str_forallb_app, Hline. done.
    + rewrite <- (str_app_nil_r (String dquote _)), Hq. cbn [shlex]. by destruct (str_empty a).
    + intros s. rewrite Hq. cbn [shlex]. change (is_shlex_space " ") with true. cbn [andb negb].
      rewrite andb_false_r. unfold shlex_split. by destruct (shlex Between EmptyString false s).
  - exists a. assert (str_forallb plain_char a = true) as Hplain.
    { clear -H Hspace. induction a as [|c a IH]; [done|]. cbn [str_forallb str_existsb] in *. bool_to_prop.
      destruct (rule_char_facts c) as (Hp & _ & _); [done|]. rewrite Hp by done. by apply IH. }
    assert (forall s, shlex_split (a +:+ s) = shlex InWord a false s) as Hw.
    { intros s. destruct a as [|c a]; [done|]. cbn [str_forallb] in Hplain. bool_to_prop.
      rewrite str_app_cons. unfold shlex_split. cbn [shlex]. pose proof H4 as Hc. unfold plain_char in Hc. bool_to_prop.
      rewrite H6, H7, H8, H9. cbn [orb]. by rewrite shlex_word. }
    split_and!; [done|done| |].
    + rewrite <- (str_app_nil_r a) at 1. rewrite Hw. cbn [shlex]. by rewrite H0.
    + intros s. rewrite Hw. cbn [shlex]. change (is_shlex_space " ") with true. cbn iota. rewrite H0. cbn [andb].
      unfold shlex_split. by destruct (shlex Between EmptyString false s).
Qed.

Lemma render_arguments_shlex args :
  Forall (fun a => arg_ok a = true) args -> args <> [] ->
  exists rs, render_arguments args = Ok rs /\ one_line (str_join " " rs) = true /\
    shlex_split (str_join " " rs) = Some args.
Proof.
  induction 1 as [|a [|a' args] Ha Hargs IH]; [done|..]; intros _;
    destruct (render_argument_shlex a Ha) as (r & Hr & Hline & Hone & Hmore).
  - exists [r]. cbn [render_arguments]. rewrite Hr. by split_and!.
  - destruct (IH ltac:(done)) as (rs & Hrs & Hl & Hs). exists (r :: rs).
    remember (a' :: args) as l eqn:Heql. cbn [render_arguments]. rewrite Hr. cbn [mbind res_bind]. rewrite Hrs.
    destruct rs as [|r' rs]; [subst; cbn in Hrs; destruct (render_argument a'); [destruct (render_arguments args)|]; done|].
    split; [done|]. change (str_join " " (r :: r' :: rs)) with (r +:+ String " " (str_join " " (r' :: rs))).
    split; [|by rewrite Hmore, Hs]. rewrite str_forallb_app, Hline. cbn [andb str_forallb]. by rewrite Hl.
Qed.

Abbreviation arg_chars := (str_forallb (fun c => rule_char c || is_char " " c)).

Lemma arg_chars_digits n : 0 <= n -> arg_chars (str_of_Z n) = true.
Proof. intros Hn. eapply str_forallb_impl; [|by apply str_of_Z_digits]. intros c. by_char c. Qed.

Lemma arg_chars_ip a : unscoped a = true -> arg_chars (str_of_ip a) = true.
Proof. intros Ha. eapply str_forallb_impl; [|by apply str_of_ip_chars]. intros c. by_char c. Qed.

Lemma arg_chars_tun t : tun_name_match t = true -> arg_chars t = true.
Proof.
  unfold tun_name_match. intros H. bool_to_prop. eapply str_forallb_impl; [|done]. intros c. by_char c.
Qed.

Lemma chain_name_facts chain :
  chain_name_match chain = true ->
  arg_chars chain = true /\ str_empty chain = false /\ str_existsb is_space chain = false /\
  chain <> "--comment".
Proof.
  destruct chain as [|c t]; [done|]. cbn [chain_name_match]. intros H. bool_to_prop.
  assert (forall p : ascii -> bool, (forall c, is_chain_char c = true -> p c = true) ->
    str_forallb p (String c t) = true) as Hall.
  { intros p Hp. cbn [str_forallb]. rewrite (str_forallb_impl _ _ t Hp) by done.
    rewrite Hp; [done|]. unfold is_chain_char. by rewrite H. }
  split_and!; [by apply Hall; intros d; by_char d|done| |intros [= -> ->]; done].
  apply str_existsb_forallb. apply Hall. intros d. by_char d.
Qed.

Lemma marker_facts o :
  1 <= owner_pid o -> 1 <= owner_start_time o -> tun_name_match (owner_tun_name o) = true ->
  arg_ok (marker o) = true.
Proof.
  intros Hp Hs Ht. unfold arg_ok, marker. rewrite !str_forallb_app.
  by rewrite !arg_chars_digits, (arg_chars_tun (owner_tun_name o)) by (done || lia).
Qed.

(** The texts of a configuration without scope identifiers. *)
Definition config_plain (c : NftDnatConfig) : Prop :=
  (exists l, unscoped l = true /\ ip_wf l = true /\ listen_address c = str_of_ip l) /\
  (exists t, unscoped t = true /\ target_address c = str_of_ip t) /\
  1 <= listen_port c /\ 1 <= target_port c.

Lemma str_of_ip_nonempty a : ip_wf a = true -> str_empty (str_of_ip a) = false.
Proof.
  intros Ha. destruct (str_of_ip a) eqn:Hs; [|done]. apply ip_address_str in Ha. by rewrite Hs in Ha.
Qed.

Lemma destination_prefix_pos c : 0 <= destination_prefix c.
Proof. unfold destination_prefix. destruct (_ =? 4); lia. Qed.

Lemma exact_match_ok c : config_plain c ->
  Forall (fun a => arg_ok a = true /\ a <> "--comment") (exact_match c).
Proof.
  intros ((l & Hl & _ & Hla) & _ & Hlp & _). unfold exact_match.
  repeat apply Forall_cons_2; try (by split); try apply Forall_nil_2.
  - split.
    + unfold arg_ok. rewrite Hla, !str_forallb_app, arg_chars_ip, arg_chars_digits by (done || apply destination_prefix_pos).
      destruct (str_of_ip l); done.
    + intros Heq. assert (str_mem "/" "--comment" = true) as Hm; [|done].
      rewrite <- Heq, !str_mem_app. cbn [str_mem]. by rewrite orb_true_r.
  - split.
    + unfold arg_ok. rewrite arg_chars_digits by lia. unfold str_of_Z. rewrite (proj2 (Z.ltb_ge _ 0)) by lia.
      by rewrite digits_nonempty by lia.
    + intros Heq. pose proof (str_of_Z_digits (listen_port c) ltac:(lia)) as Hd. by rewrite Heq in Hd.
Qed.

Lemma dnat_destination_ok c : config_plain c -> arg_ok (dnat_destination c) = true.
Proof.
  intros (_ & (t & Ht & Hta) & _ & Htp). unfold dnat_destination, arg_ok.
  destruct (_ =? 6); rewrite Hta, !str_forallb_app, arg_chars_ip, arg_chars_digits by (done || lia); [done|].
  by destruct (str_of_ip t).
Qed.

(** [comment_of] finds the comment after the match part. *)
Lemma comment_of_rule pre comment post :
  Forall (fun a => a <> "--comment") pre -> comment_of (pre ++ "--comment" :: comment :: post) = Some comment.
Proof.
  induction 1 as [|a pre Ha Hpre IH]; cbn [app comment_of]; [done|]. by rewrite bool_decide_false.
Qed.

Lemma comment_of_exact c chain x post :
  config_plain c -> chain <> "--comment" ->
  comment_of ("-A" :: chain :: exact_match c ++ "-m" :: "comment" :: "--comment" :: x :: post) = Some x.
Proof.
  intros Hc Hchain. change ("-m" :: "comment" :: "--comment" :: x :: post)
    with (["-m"; "comment"] ++ "--comment" :: x :: post). rewrite (app_assoc (exact_match c)).
  apply (comment_of_rule ("-A" :: chain :: (exact_match c ++ ["-m"; "comment"]))).
  apply Forall_cons_2; [done|]. apply Forall_cons_2; [done|]. apply Forall_app. split; [|by repeat constructor].
  eapply Forall_impl; [by apply exact_match_ok|]. naive_solver.
Qed.

Lemma restore_line_shlex chain args :
  chain_name_match chain = true -> Forall (fun a => arg_ok a = true) args ->
  exists line, iptables_restore_line chain args = Ok line /\ one_line line = true /\
    startswith "-A " line = true /\ strip_prefix ":" line = None /\
    shlex_split line = Some ("-A" :: chain :: args).
Proof.
  intros Hchain Hargs. destruct (chain_name_facts chain Hchain) as (Hc & Hne & Hsp & _).
  destruct (render_arguments_shlex ("-A" :: chain :: args)) as (rs & Hrs & Hline & Hs); [|done|].
  { constructor; [done|]. constructor; [|done]. unfold arg_ok. by rewrite Hc, Hne. }
  cbn [render_arguments] in Hrs. change (render_argument "-A") with (Ok "-A" : res string) in Hrs.
  unfold render_argument in Hrs. rewrite Hsp in Hrs. cbn [mbind res_bind] in Hrs.
  unfold iptables_restore_line. destruct (render_arguments args) as [rs'|e]; [|done].
  cbn [mbind res_bind] in *. injection Hrs as <-. eexists. split; [done|]. by split_and!.
Qed.

Lemma unscoped_of_text a : str_mem "%" (str_of_ip a) = false -> unscoped a = true.
Proof.
  destruct a as [v|v [scope|]]; try done. cbn [str_of_ip]. rewrite !str_mem_app. cbn. by rewrite orb_true_r.
Qed.

Lemma new_config_plain la lp ta tp tn c :
  new_nft_dnat_config la lp ta tp tn = Ok c ->
  str_mem "%" (listen_address c) = false -> str_mem "%" (target_address c) = false -> config_plain c.
Proof.
  unfold new_nft_dnat_config. intros H. res_inv. cbn [listen_address target_address listen_port target_port].
  apply validate_endpoint_address_Ok in H0 as (l & Hl & -> & _).
  apply validate_endpoint_address_Ok in H1 as (t & Ht & -> & _).
  apply validate_port_Ok in H2 as [_ ?]. apply validate_port_Ok in H3 as [_ ?].
  intros Hls%unscoped_of_text Hts%unscoped_of_text.
  split_and!; cbn; [by exists l|by exists t|lia|lia].
Qed.

Lemma new_nft_ownership_facts pid start tun o :
  new_nft_ownership pid start tun = Ok o ->
  1 <= owner_pid o /\ 1 <= owner_start_time o /\ tun_name_match (owner_tun_name o) = true.
Proof.
  unfold new_nft_ownership, positive_int. intros H. res_inv. cbn.
  destruct pid; try done. destruct (z <? 1) eqn:Hz in H0; [done|]. bool_to_prop.
  destruct start as [| |z'| | | |]; try done. destruct (z' <? 1) eqn:Hz' in H1; [done|]. bool_to_prop.
  apply validate_tun_name_Ok in H2 as (-> & ? & _). simplify_eq. by split_and!; [lia|lia|].
Qed.

Lemma read_line_owned acc chain args comment :
  chain_name_match chain = true -> startswith NFT_OWNER_PREFIX comment = true ->
  comment_of ("-A" :: chain :: args) = Some comment ->
  forall line, startswith "-A " line = true -> strip_prefix ":" line = None ->
  shlex_split line = Some ("-A" :: chain :: args) ->
  read_line acc line = Ok {| reserved_chains := reserved_chains acc;
    markers := dict_set chain (default [] (dict_get chain (markers acc)) ++ [comment]) (markers acc) |}.
Proof.
  intros Hchain Hown Hcom line Hst Hcolon Hsplit. unfold read_line.
  rewrite Hcolon, Hst, Hsplit. cbn [negb]. by rewrite Hcom, Hown.
Qed.

Lemma read_line_foreign acc chain args comment line :
  startswith "-A " line = true -> strip_prefix ":" line = None ->
  shlex_split line = Some ("-A" :: chain :: args) ->
  comment_of ("-A" :: chain :: args) = Some comment -> startswith NFT_OWNER_PREFIX comment = false ->
  read_line acc line = Ok acc.
Proof.
  intros Hst Hcolon Hsplit Hcom Hown. unfold read_line.
  rewrite Hcolon, Hst, Hsplit. cbn [negb]. by rewrite Hcom, Hown.
Qed.

Lemma read_line_declared acc chain :
  chain_name_match chain = true ->
  read_line acc (":" +:+ chain +:+ " - [0:0]") =
    Ok (if owned_chain_match chain
        then {| reserved_chains := reserved_chains acc ++ [chain]; markers := markers acc |} else acc).
Proof.
  intros Hchain. destruct (chain_name_facts chain Hchain) as (_ & Hne & Hsp & _).
  unfold read_line. rewrite strip_prefix_app.
  unfold split_ws. rewrite split_ws_aux_word; [done| |done]. by apply str_existsb_forallb.
Qed.

Lemma saved_chains_one chain (declared : bool) comment :
  saved_chains {| reserved_chains := if declared then [chain] else []; markers := [(chain, [comment])] |} = [chain].
Proof.
  assert (remove_dups [chain; chain] = [chain]) as Hdup.
  { cbn [remove_dups]. destruct (decide_rel _ chain []) as [?|_]; [set_solver|]. destruct (decide_rel _ chain [chain]); [done|set_solver]. }
  unfold saved_chains. destruct declared; [|done]. change (sort_on (fun x => x) (remove_dups [chain; chain]) = [chain]).
  by rewrite Hdup.
Qed.

(** C24. What an install restores, the inspection recognises.  For a validated
    configuration whose addresses carry no IPv6 scope, a validated owner and a
    valid chain, the restore batch is written, and reading it back finds exactly
    that chain, with exactly one marker, which identifies the owner.  This holds
    of the batch that declares the chain, as the dry run and a saved table do,
    which besides finds the chain reserved when its name is, and of the one
    without the declaration, which the install submits. *)
Theorem iptables_batch_readback la lp ta tp tn c pid start tun own chain declare_chain :
  new_nft_dnat_config la lp ta tp tn = Ok c ->
  str_mem "%" (listen_address c) = false -> str_mem "%" (target_address c) = false ->
  new_nft_ownership pid start tun = Ok own ->
  chain_name_match chain = true ->
  exists batch saved, iptables_restore_batch c chain own declare_chain = Ok batch /\ read_saved batch = Ok saved /\
    saved_chains saved = [chain] /\
    saved = {| reserved_chains := if declare_chain && owned_chain_match chain then [chain] else [];
               markers := [(chain, [marker own])] |} /\
    parse_marker (marker own) = Some (owner_pid own, owner_start_time own, owner_tun_name own).
Proof.
  intros Hc Hl Ht Hown Hchain. pose proof (new_config_plain _ _ _ _ _ _ Hc Hl Ht) as Hplain.
  apply new_nft_ownership_facts in Hown as (Hp & Hs & Htun).
  destruct (chain_name_facts chain Hchain) as (Hch & Hne & Hsp & Hcc).
  pose proof (exact_match_ok c Hplain) as Hexact.
  assert (Forall (fun a => arg_ok a = true) (exact_match c) /\ Forall (fun a => a <> "--comment") (exact_match c))
    as [Hok Hnc] by (split; eapply Forall_impl; try exact Hexact; naive_solver).
  destruct (restore_line_shlex chain (iptables_rules c chain own).2) as (dline & Hd & Hdl & Hd1 & Hd2 & Hds); [done|..].
  { cbn [iptables_rules snd]. apply Forall_app. split; [done|].
    repeat apply Forall_cons_2; try done; [by apply marker_facts|by apply dnat_destination_ok]. }
  destruct (restore_line_shlex "PREROUTING" (iptables_rules c chain own).1) as (jline & Hj & Hjl & Hj1 & Hj2 & Hjs); [done|..].
  { cbn [iptables_rules fst]. apply Forall_app. split; [done|].
    repeat apply Forall_cons_2; try done; unfold arg_ok; rewrite ?str_forallb_app, Hch; [done|by rewrite Hne]. }
  eexists _, _. split; [unfold iptables_restore_batch; cbn [iptables_rules fst snd] in *;
    rewrite Hd; cbn [mbind res_bind]; rewrite Hj; reflexivity|].
  split; [|split_and!; [apply saved_chains_one|reflexivity|by apply parse_marker_complete]].
  assert (one_line (":" +:+ chain +:+ " - [0:0]") = true) as Hcl.
  { rewrite !str_forallb_app, (arg_ok_line chain); [done|]. unfold arg_ok. by rewrite Hch, Hne. }
  unfold read_saved. rewrite splitlines_join; [|destruct declare_chain; cbn [app]; by repeat apply Forall_cons_2|done].
  assert (forall lines, read_lines {| reserved_chains := []; markers := [] |}
      ((if declare_chain then [":" +:+ chain +:+ " - [0:0]"] else []) ++ lines) =
    read_lines {| reserved_chains := if declare_chain && owned_chain_match chain then [chain] else []; markers := [] |} lines) as Hdecl.
  { intros lines. destruct declare_chain; [|done]. cbn [app read_lines andb]. rewrite read_line_declared by done.
    by destruct (owned_chain_match chain). }
  cbn [app read_lines]. change (read_line _ "*nat") with (Ok {| reserved_chains := []; markers := [] |}).
  cbn [mbind res_bind]. rewrite Hdecl. cbn [read_lines].
  rewrite (read_line_owned _ chain (iptables_rules c chain own).2 (marker own) Hchain) with (line := dline); try done.
  2: { by apply comment_of_exact. }
  cbn [mbind res_bind]. rewrite (read_line_foreign _ "PREROUTING" (iptables_rules c chain own).1
    ("tcpcc.jump.v1 chain=" +:+ chain) jline); [|done..|by apply comment_of_exact|done].
  by cbn [mbind res_bind].
Qed.

Lemma iptables_batch_readback_witness :
  exists c own batch, new_nft_dnat_config (VStr "192.0.2.10") (VInt 443) (VStr "10.200.0.2") (VInt 443) VNone = Ok c /\
    new_nft_ownership (VInt 42) (VInt 99) (VStr "tcpcc0") = Ok own /\
    iptables_restore_batch c "TCPCC_0123456789ab" own false = Ok batch /\
    read_saved batch = Ok {| reserved_chains := []; markers := [("TCPCC_0123456789ab", [marker own])] |}.
Proof.
  eexists _, _. destruct (iptables_batch_readback (VStr "192.0.2.10") (VInt 443) (VStr "10.200.0.2") (VInt 443) VNone
    _ (VInt 42) (VInt 99) (VStr "tcpcc0") _ "TCPCC_0123456789ab" false ltac:(vm_compute; reflexivity) ltac:(reflexivity)
    ltac:(reflexivity) ltac:(vm_compute; reflexivity) ltac:(reflexivity)) as (batch & saved & Hb & Hr & _ & -> & _).
  exists batch. split; [vm_compute; reflexivity|]. split; [vm_compute; reflexivity|]. by split.
Defined.

(** ** The lease *)

Section lease.
Context `{E : Env}.

(** A loop that attempts every command runs them all, in order, and collects
    the failures of exactly those that failed. *)
Lemma does_run_all {S A} (cmds : list (A * list string)) (label : A -> string) :
  does (collect cmds (fun lc => r ← attempt (_ ← perform (CRun lc.2 None); mret tt);
                                mret (pair (label lc.1) <$> r)) : M S (list (string * exn)))
    (fun o suf => ev_call <$> suf = (fun lc => CRun lc.2 None) <$> cmds /\
       o = Ret (omap (fun p => pair (label p.1.1) <$> ev_failed p.2) (zip cmds suf))).
Proof.
  eapply (does_collect _ _ _ (fun d acc t => ev_call <$> t = (fun lc => CRun lc.2 None) <$> d /\
    acc = omap (fun p => pair (label p.1.1) <$> ev_failed p.2) (zip d t))); [done| |naive_solver].
  intros d lc acc t [Ht ->]. assert (length d = length t) as Hlen.
  { apply (f_equal length) in Ht. by rewrite !length_fmap in Ht. }
  apply does_bind.
  eapply does_mono with (P := fun o t' => exists ev, t' = [ev] /\ ev_call ev = CRun lc.2 None /\ o = Ret (ev_failed ev)).
  - intros o t' (ev & -> & Hev & ->). apply does_ret. rewrite app_nil_r, !fmap_app, Ht. cbn. rewrite Hev.
    split; [done|]. rewrite zip_with_app by done. rewrite omap_app. cbn. by destruct (ev_failed ev).
  - intros s tr. apply wp_attempt, wp_bind. wp_call; intros a Ha; [apply wp_ret|];
      (split; [done|]); eexists; (split; [done|]); eexists; by split_and!.
Qed.

(** Closing an iptables lease withdraws everything it owns once: the jump
    is deleted, the chain flushed and then deleted, in that order, each
    attempted even when an earlier one fails; the error lists exactly the
    failed steps; a closed lease does nothing more. *)
Theorem iptables_lease_close_all l tr :
  let '(o, l', tr') := iptables_lease_close l tr in
  il_closed l' = true /\
  if il_closed l then o = Ret tt /\ l' = l /\ tr' = tr
  else exists suf, tr' = tr ++ suf /\
    ev_call <$> suf = [
      CRun ([il_iptables_path l; "--wait"; "-t"; "nat"; "-D"; "PREROUTING"] ++ il_jump_arguments l) None;
      CRun [il_iptables_path l; "--wait"; "-t"; "nat"; "-F"; il_chain_name l] None;
      CRun [il_iptables_path l; "--wait"; "-t"; "nat"; "-X"; il_chain_name l] None] /\
    let failures := omap (fun p => pair ("iptables:" +:+ il_chain_name l +:+ ":" +:+ p.1) <$> ev_failed p.2)
                      (zip ["jump"; "flush"; "delete-chain"] suf) in
    o = if bool_decide (failures = []) then Ret tt else Raise (CleanupError failures).
Proof.
  destruct (iptables_lease_close l tr) as [[o l'] tr'] eqn:Hrun.
  unfold iptables_lease_close, mbind, M_bind in Hrun. cbn [get_state] in Hrun.
  destruct (il_closed l) eqn:Hc; [unfold mret, M_ret in Hrun; by simplify_eq|]. cbn [put_state] in Hrun.
  pose proof (does_run_all (lease_commands l) (fun x => "iptables:" +:+ il_chain_name l +:+ ":" +:+ x)
    {| il_chain_name := il_chain_name l; il_jump_arguments := il_jump_arguments l;
       il_iptables_path := il_iptables_path l; il_closed := true |} tr) as H.
  unfold wp, mbind, M_bind in H. destruct (collect _ _ _ tr) as [[o1 l1] tr1].
  destruct H as (-> & suf & -> & Hsuf & ->). cbn [lease_commands] in Hsuf.
  destruct suf as [|e1 [|e2 [|e3 [|]]]]; try done.
  cbn in Hrun. destruct (bool_decide _) eqn:Hb in Hrun; unfold mret, M_ret, raise in Hrun; injection Hrun as <- <- <-;
    (split; [done|]); eexists; (split; [done|]); (split; [exact Hsuf|]); cbn; by rewrite Hb.
Qed.

(** ** Installing *)

(** The chains whose creation was reported to succeed. *)
Definition ev_created (ev : event) : option string :=
  match ev with
  | Ev c r =>
      match c return reply (ret c) -> option string with
      | CRun [_; _; _; _; "-N"; chain] None => fun r =>
          match r with Answer _ => Some chain | Fault _ => None end
      | _ => fun _ => None
      end r
  end.
Definition created (tr : trace) : list string := omap ev_created tr.

(** A command on the private chain, with its reply. *)
Definition chain_event (b : IptablesFirewallBackend) (action chain : string) (r : reply string) : event :=
  Ev (CRun (iptables_command (iptables_path b) action chain) None) r.

(** The rollback attempts both commands, and gives the errors of those that
    failed. *)
Lemma does_iptables_rollback {S} b chain :
  does (iptables_rollback b chain : M S (list exn)) (fun o suf => exists r1 r2,
    suf = [chain_event b "-F" chain r1; chain_event b "-X" chain r2] /\ o = Ret (omap ev_failed suf)).
Proof.
  assert (forall action,
    does (attempt (_ ← perform (CRun (iptables_command (iptables_path b) action chain) None); mret tt) : M S _)
      (fun o suf => exists r, suf = [chain_event b action chain r] /\ o = Ret (ev_failed (chain_event b action chain r)))) as Hone.
  { intros action s tr. apply wp_attempt, wp_bind.
    wp_call; intros a Ha; [apply wp_ret|]; (split; [done|]); eexists; (split; [done|]); by eexists. }
  unfold iptables_rollback. cbn [collect]. apply does_bind. eapply does_mono; [|by apply Hone]. intros o t (r1 & -> & ->).
  apply does_bind, does_bind. eapply does_mono; [|by apply Hone]. intros o t (r2 & -> & ->).
  apply does_bind, does_ret, does_ret, does_ret. rewrite !app_nil_r. exists r1, r2. split; [done|]. cbn.
  by destruct (ev_failed (chain_event b "-F" chain r1)), (ev_failed (chain_event b "-X" chain r2)).
Qed.

Lemma validate_iptables_chain_name_Ok v name :
  validate_iptables_chain_name v = Ok name -> v = VStr name /\ chain_name_match name = true.
Proof.
  unfold validate_iptables_chain_name. destruct v; try done. destruct (chain_name_match s) eqn:Hm; [|done].
  by intros [= ->].
Qed.

(** The rules were not committed: the batch could not be written, or its
    submission failed. *)
Definition refused (b : IptablesFirewallBackend) (config : NftDnatConfig) (own : NftOwnership) (chain : string)
    (t : trace) (e : exn) : Prop :=
  match iptables_restore_batch config chain own false with
  | Err x => t = [] /\ e = x
  | Ok batch => exists x, t = [Ev (CRun [restore_path b; "--wait"; "--noflush"] (Some batch)) (Fault x)] /\ e = Sys x
  end.

(** The error of an install that failed with [e], and whose rollback failed with
    [errors]. *)
Definition rollback_error (e : exn) (errors : list exn) : exn :=
  if bool_decide (errors = []) then e else IptablesInstallRollbackError e errors.

(** What an install leaves behind. *)
Definition install_post (b : IptablesFirewallBackend) (config : NftDnatConfig) (own : NftOwnership)
    (o : outcome IptablesDnatLease) (suf : trace) : Prop :=
  let cmd action chain := (iptables_command (iptables_path b) action chain, None) in
  match o with
  | Ret l =>
      exists batch, iptables_restore_batch config (il_chain_name l) own false = Ok batch /\
        created suf = [il_chain_name l] /\
        commands suf = [cmd "-N" (il_chain_name l); ([restore_path b; "--wait"; "--noflush"], Some batch)] /\
        l = {| il_chain_name := il_chain_name l; il_iptables_path := iptables_path b; il_closed := false;
               il_jump_arguments := (iptables_rules config (il_chain_name l) own).1 |} /\
        chain_name_match (il_chain_name l) = true /\
        (forall name, dc_table_name config = Some name -> il_chain_name l = name)
  | Raise e => exists t, commands t = [] /\
      (suf = t \/ exists chain, chain_name_match chain = true /\
         ((exists x, suf = t ++ [chain_event b "-N" chain (Fault x)] /\ e = Sys x) \/
          exists r0 mid e0 r1 r2,
            suf = t ++ [chain_event b "-N" chain (Answer r0)] ++ mid ++ [chain_event b "-F" chain r1; chain_event b "-X" chain r2] /\
            refused b config own chain mid e0 /\
            e = rollback_error e0 (omap ev_failed [chain_event b "-F" chain r1; chain_event b "-X" chain r2])))
  | OutOfFuel => False
  end.

Lemma does_install_chain {S} b config own chain :
  chain_name_match chain = true ->
  (forall name, dc_table_name config = Some name -> chain = name) ->
  does (_ ← perform (CRun (iptables_command (iptables_path b) "-N" chain) None);
        _ ← try_except
          (batch ← of_res (iptables_restore_batch config chain own false);
           _ ← perform (CRun [restore_path b; "--wait"; "--noflush"] (Some batch)); mret tt)
          (fun install_error =>
             cleanup_errors ← iptables_rollback b chain;
             if bool_decide (cleanup_errors = []) then raise install_error
             else raise (IptablesInstallRollbackError install_error cleanup_errors));
        _ ← of_res (validate_iptables_chain_name (VStr chain));
        mret {| il_chain_name := chain; il_jump_arguments := (iptables_rules config chain own).1;
                il_iptables_path := iptables_path b; il_closed := false |} : M S IptablesDnatLease)
    (install_post b config own).
Proof.
  intros Hchain Hname. apply does_bind. does_call; [intros a|intros x].
  2: { exists []. split; [done|]. right. exists chain. split; [done|]. left. by exists x. }
  apply does_bind, does_try.
  eapply does_mono with (P := fun o t => match o with
    | Ret _ => exists batch, iptables_restore_batch config chain own false = Ok batch /\ created t = [] /\
        commands t = [([restore_path b; "--wait"; "--noflush"], Some batch)]
    | Raise e => refused b config own chain t e
    | OutOfFuel => False end).
  2: { unfold refused. apply does_bind, does_of_res. destruct (iptables_restore_batch config chain own false) as [batch|e]; [|done].
       apply does_bind. does_call; intros r; [apply does_ret; by exists batch|by exists r]. }
  intros [[]|e0|] t Ht; [| |done].
  - destruct Ht as (batch & Hbatch & Hcr & Hcmd).
    apply does_bind, does_of_res. unfold validate_iptables_chain_name. rewrite Hchain.
    apply does_ret. rewrite !app_nil_r. exists batch. unfold created in *. cbn [il_chain_name].
    rewrite omap_app, commands_app, Hcr, Hcmd. by split_and!.
  - apply does_bind. eapply does_mono; [|apply does_iptables_rollback]. intros o t' (r1 & r2 & -> & ->).
    assert (install_post b config own (Raise (rollback_error e0 (omap ev_failed
        [chain_event b "-F" chain r1; chain_event b "-X" chain r2])))
      ([chain_event b "-N" chain (Answer a)] ++ t ++ [chain_event b "-F" chain r1; chain_event b "-X" chain r2])) as Hpost.
    { exists []. split; [done|]. right. exists chain. split; [done|]. right. by exists a, t, e0, r1, r2. }
    unfold rollback_error in Hpost. destruct (bool_decide _); apply does_raise; rewrite app_nil_r; exact Hpost.
Qed.

Lemma does_iptables_install {S} b config own :
  does (iptables_install b config own : M S _) (install_post b config own).
Proof.
  unfold iptables_install, new_iptables_chain_name. apply does_bind.
  eapply does_mono with (P := fun o t => created t = [] /\ commands t = [] /\ o <> OutOfFuel /\
    forall c name, o = Ret c -> dc_table_name config = Some name -> c = name).
  2: { destruct (dc_table_name config).
       - apply does_ret. split_and!; try done. by intros ? ? [= ->] [= ->].
       - apply does_bind. by does_call; intros a; [apply does_ret|]. }
  assert (forall o t u, created t = [] -> commands t = [] -> install_post b config own o u ->
    install_post b config own o (t ++ u)) as Hquiet.
  { intros o t u Hc Hm Hu. unfold install_post, created in *. destruct o as [l|e|]; [by rewrite omap_app, commands_app, Hc, Hm| |done].
    destruct Hu as (t' & Ht' & Hu). exists (t ++ t'). rewrite commands_app, Hm, Ht'. split; [done|].
    destruct Hu as [->|(chain & Hch & Hu)]; [by left|right]. exists chain. split; [done|].
    destruct Hu as [(x & -> & ?)|(r0 & mid & e0 & r1 & r2 & -> & ?)]; [left; exists x|right; exists r0, mid, e0, r1, r2];
      by rewrite <- ?app_assoc. }
  intros [c|e|] t (Hc & Hm & Hf & Hname); [| |done].
  2: { exists t. split; [done|by left]. }
  apply does_bind, does_of_res. destruct (validate_iptables_chain_name (VStr c)) as [chain|e] eqn:Hv.
  2: { exists t. rewrite app_nil_r. split; [done|by left]. }
  apply validate_iptables_chain_name_Ok in Hv as [[= ->] Hchain]. cbn [app].
  eapply does_mono; [intros o u; by apply Hquiet|]. apply does_install_chain; [done|].
  intros name. by apply Hname.
Qed.

(** The dry run submits a batch for the configuration to the test mode of the
    restore command, and one that returns had it accepted. *)
Lemma acts_iptables_check {S} b config (s : S) :
  acts (iptables_check_compatibility b config) s (fun o s' suf => o <> OutOfFuel /\ s' = s /\
    Forall (fun c => c.1 = [restore_path b; "--wait"; "--test"; "--noflush"]) (commands suf) /\
    (o = Ret tt -> exists chain own batch, iptables_restore_batch config chain own true = Ok batch /\ accepted batch suf)).
Proof.
  unfold iptables_check_compatibility, new_iptables_chain_name, current_nft_ownership, process_start_time.
  apply acts_bind, acts_bind. acts_call; intros a; [apply acts_ret|by split_and!].
  apply acts_bind, acts_of_res. destruct (validate_iptables_chain_name _) as [chain|e]; [|by split_and!].
  apply acts_bind, acts_bind. acts_call; intros pid; [|by split_and!]. apply acts_bind, acts_bind.
  acts_call; intros text; [|by split_and!]. apply acts_of_res. destruct (stat_start_time text); [|by split_and!].
  apply acts_of_res. destruct (new_nft_ownership _ _ _) as [own|]; [|by split_and!].
  apply acts_bind, acts_of_res. destruct (iptables_restore_batch config chain own true) as [batch|e] eqn:Hb; [|by split_and!].
  apply acts_bind. acts_call; intros r.
  - apply acts_ret. split_and!; [done|done|by repeat constructor|]. intros _. exists chain, own, batch. split; [done|].
    cbn. do 3 apply Exists_cons_tl. constructor. cbn. by rewrite bool_decide_true.
  - split_and!; [done|done|by repeat constructor|done].
Qed.

(** C23. An iptables install is all or nothing.  On success the private chain
    was created and the restore batch of the validated chain (the configured
    one when there is one) committed, and the lease owns exactly them.  One that
    fails before the chain exists has touched nothing and raises that failure;
    one that fails after has attempted to flush the chain and then to delete it,
    and raises the failure itself when both succeed, and otherwise an error that
    holds it together with every failure of the two. *)
Theorem iptables_install_rolls_back {S} b config own (s : S) tr :
  let '(o, s', tr') := iptables_install b config own s tr in
  s' = s /\ exists suf, tr' = tr ++ suf /\ install_post b config own o suf.
Proof.
  pose proof (does_iptables_install b config own s tr) as H. unfold wp in H.
  by destruct (iptables_install b config own s tr) as [[o s'] tr'].
Qed.

End lease.

(** ** Inspection *)

Section inspect.
Context `{E : Env}.

Lemma does_inspect_chain {S} b s chain :
  does (inspect_chain b s chain : M S (option IptablesOwnershipObservation)) (fun o suf =>
    Forall is_stat_read suf /\
    match o with
    | Ret r => exists obs, r = Some obs /\
        (io_status obs = "active" ->
         chain_name obs = chain /\
         exists comment, dict_get chain (markers s) = Some [comment] /\ owner_alive suf comment)
    | Raise _ => True
    | OutOfFuel => False
    end).
Proof.
  unfold inspect_chain, classify.
  destruct (dict_get chain (markers s)) as [[|comment [|]]|]; cbn [default from_option];
    try (apply does_ret; split; [done|]; eexists; by split).
  apply does_bind. destruct (parse_marker comment) as [[[pid start] tun]|] eqn:Hm.
  2: { apply does_ret, does_ret. split; [done|]. eexists. by split. }
  destruct (chain_name_match chain); [|apply does_ret, does_ret; split; [done|]; eexists; by split].
  apply does_bind. eapply does_mono; [|apply does_owner_status].
  intros [[status detail]|e|] suf (Hsuf & Hf & Ho); [|done|done].
  apply does_ret, does_ret. rewrite !app_nil_r. split; [done|]. eexists. split; [done|]. cbn [io_status chain_name].
  intros ->. split; [done|]. exists comment. split; [done|].
  destruct (Ho "active" detail eq_refl) as [[_ (text & Hin & Hstart)]|[? _]]; [|done].
  by exists pid, start, tun, text.
Qed.

(** A chain the saved table reserves or marks for tcpcc. *)
Lemma saved_chains_spec s chain :
  chain ∈ saved_chains s <-> chain ∈ reserved_chains s \/ chain ∈ (markers s).*1.
Proof. unfold saved_chains. rewrite sort_on_perm, elem_of_remove_dups. set_solver. Qed.

Lemma does_iptables_inspect {S} b :
  does (iptables_inspect_ownership b : M S OwnershipReport) (fun o suf => o <> OutOfFuel /\
    forall report, o = Ret report -> exists raw s obs suf',
      suf = Ev (CRun [save_path b; "-t"; "nat"] None) (Answer raw) :: suf' /\
      Forall is_stat_read suf' /\ read_saved raw = Ok s /\ report = IptablesOwnershipReport obs /\
      length obs = length (saved_chains s) /\
      (blocking report = false -> chain_name <$> obs = saved_chains s /\
       Forall (fun chain => exists comment, dict_get chain (markers s) = Some [comment] /\ owner_alive suf' comment)
         (saved_chains s))).
Proof.
  unfold iptables_inspect_ownership. apply does_bind. does_call; [intros raw|done].
  apply does_bind, does_of_res. destruct (read_saved raw) as [s|e] eqn:Hs; [|done].
  apply does_bind. eapply (does_collect _ _ _ (fun d acc t =>
    Forall is_stat_read t /\ length acc = length d /\
    (existsb (fun o => negb (bool_decide (io_status o = "active"))) acc = false -> chain_name <$> acc = d /\
     Forall (fun chain => exists comment, dict_get chain (markers s) = Some [comment] /\ owner_alive t comment) d))).
  - done.
  - intros d chain acc t (Ht & Hlen & Hact). eapply does_mono; [|apply does_inspect_chain].
    intros [r|e|] t' [Ht' Ho]; [|by split|done].
    destruct Ho as (obs & -> & Hobs). cbn [from_option]. rewrite !length_app, Hlen.
    split_and!; [by apply Forall_app|done|]. rewrite existsb_app. cbn. rewrite orb_false_r. intros H. bool_to_prop.
    destruct (Hact H) as [Hnames Hall]. destruct (Hobs ltac:(done)) as [Hname (comment & Hc & Halive)].
    rewrite fmap_app, Hnames. cbn. rewrite Hname. split; [done|]. apply Forall_app. split.
    + eapply Forall_impl; [exact Hall|]. intros x (com & ? & ?). exists com. split; [done|]. by apply owner_alive_mono.
    + apply Forall_singleton. exists comment. split; [done|].
      destruct Halive as (pid & start & tun & text & ? & ? & ?). exists pid, start, tun, text. set_solver.
  - intros acc t (Ht & Hlen & Hact). apply does_ret. split; [done|]. intros report [= <-].
    exists raw, s, acc, t. cbn [app]. by rewrite app_nil_r.
Qed.

(** The iptables inspection neither misses nor excuses a chain: after the
    one save of the nat table it only reads process status files, it reports
    each chain that is reserved or marked for tcpcc exactly once, and a report
    that does not block means that every such chain carries exactly one marker,
    well formed, whose process was seen running with the recorded start time. *)
Theorem iptables_inspect_sound {S} b (st : S) tr :
  let '(o, st', tr') := iptables_inspect_ownership b st tr in
  st' = st /\ o <> OutOfFuel /\
  forall report, o = Ret report ->
    exists raw s obs suf,
      tr' = tr ++ Ev (CRun [save_path b; "-t"; "nat"] None) (Answer raw) :: suf /\
      Forall is_stat_read suf /\ read_saved raw = Ok s /\
      report = IptablesOwnershipReport obs /\
      length obs = length (saved_chains s) /\
      (blocking report = false ->
       chain_name <$> obs = saved_chains s /\
       forall chain, chain ∈ reserved_chains s \/ chain ∈ (markers s).*1 ->
         exists comment, dict_get chain (markers s) = Some [comment] /\ owner_alive suf comment).
Proof.
  pose proof (does_iptables_inspect b st tr) as H. unfold wp in H. destruct (iptables_inspect_ownership b st tr) as [[o st'] tr'].
  destruct H as (-> & suf & -> & Hf & H). split_and!; [done|done|]. intros report Hr.
  destruct (H report Hr) as (raw & s & obs & suf' & -> & ? & ? & ? & ? & Hb). exists raw, s, obs, suf'.
  split_and!; try done. intros Hbl. destruct (Hb Hbl) as [? Hall]. split; [done|].
  intros chain Hc. rewrite Forall_forall in Hall. apply Hall. by apply saved_chains_spec.
Qed.

End inspect.
