(* ===== verification/HostNetwork.v ===== *)
(** * The host network transaction

    The composed lifecycle of [tools/tcpcc_host.py]: the choice of a firewall
    backend, [HostNetworkConfig], the rollback helpers, [acquire_host_network]
    and the lease it returns. *)

From S2P Require Import Prelude PyStr Reports Py Effects Json Struct IpAddr Journal Preflight Tun Nft Shlex Iptables.
Local Open Scope Z_scope.

(** ** Firewall backends *)

Inductive FirewallBackend :=
  | NftBackend (b : NftFirewallBackend)
  | IptablesBackend (b : IptablesFirewallBackend).

Inductive FirewallDnatLease :=
  | NftLease (l : NftDnatLease)
  | IptablesLease (l : IptablesDnatLease).

Definition firewall_id (f : FirewallBackend) : string :=
  match f with NftBackend b => backend_id (transport b) | IptablesBackend _ => "iptables" end.

Definition lease_backend_id (d : FirewallDnatLease) : string :=
  match d with NftLease l => nl_backend_id l | IptablesLease _ => "iptables" end.
Definition resource_name (d : FirewallDnatLease) : string :=
  match d with NftLease l => nl_table_name l | IptablesLease l => il_chain_name l end.
Definition dnat_closed (d : FirewallDnatLease) : bool :=
  match d with NftLease l => nl_closed l | IptablesLease l => il_closed l end.

(** ** Configuration *)

Record HostNetworkConfig := {
  hc_requested_cc : string;
  hc_tun : TunConfig;
  hc_dnat : NftDnatConfig;
  hc_firewall_backend : string;
}.

Definition backend_choice_error (what : string) : exn :=
  ValueError (what +:+ " must be one of: " +:+ str_join ", " (sort_on (fun x => x) FIREWALL_BACKENDS)).

(** [HostNetworkConfig.__post_init__] *)
Definition new_host_network_config (requested_cc : pyval) (tun : TunConfig) (dnat : NftDnatConfig)
    (firewall_backend : string) : res HostNetworkConfig :=
  cc ← match requested_cc with
       | VStr s => if cc_name_match s then Ok s
                   else Err (ValueError "requested_cc is not a supported algorithm name")
       | _ => Err (ValueError "requested_cc is not a supported algorithm name")
       end;
  _ ← raise_if (negb (str_in firewall_backend FIREWALL_BACKENDS)) (backend_choice_error "firewall_backend");
  _ ← raise_if (negb (bool_decide (target_address dnat = guest_address tun)))
        (ValueError "DNAT target address must equal the TUN guest address");
  Ok {| hc_requested_cc := cc; hc_tun := tun; hc_dnat := dnat; hc_firewall_backend := firewall_backend |}.

(** The paths of the firewall tools. *)
Record tool_paths := { tp_nft : string; tp_iptables : string; tp_restore : string; tp_save : string }.

(** ** The resources of one instance *)

(** The loaded library and the resource objects; the journal beside them holds
    the cleanup callbacks, each the [close] of one of these objects. *)
Record world := { w_lib : LibState; w_tun : option TunQueue; w_dnat : option FirewallDnatLease }.

Definition set_lib (lib : LibState) (w : world) : world :=
  {| w_lib := lib; w_tun := w_tun w; w_dnat := w_dnat w |}.
Definition set_tun (q : TunQueue) (w : world) : world :=
  {| w_lib := w_lib w; w_tun := Some q; w_dnat := w_dnat w |}.
Definition set_dnat (d : FirewallDnatLease) (w : world) : world :=
  {| w_lib := w_lib w; w_tun := w_tun w; w_dnat := Some d |}.

Inductive callback := CloseTun | CloseDnat.

Abbreviation HostState := (journal callback * world)%type.

Record HostNetworkLease := { hl_preflight : PreflightReport; hl_ownership : OwnershipReport }.

Section host.
Context `{E : Env}.

Definition create_firewall_backend (backend_id table_family : string) (paths : tool_paths) : res FirewallBackend :=
  if bool_decide (backend_id = "nft-lib") then
    t ← LibNftablesTransport VNone; b ← new_nft_firewall_backend t table_family; Ok (NftBackend b)
  else if bool_decide (backend_id = "nft-exec") then
    t ← NftExecTransport (VStr (tp_nft paths)); b ← new_nft_firewall_backend t table_family; Ok (NftBackend b)
  else if bool_decide (backend_id = "iptables") then
    b ← new_iptables_firewall_backend (VStr (tp_iptables paths)) (VStr (tp_restore paths)) (VStr (tp_save paths));
    Ok (IptablesBackend b)
  else Err (backend_choice_error "firewall backend").

(** The three operations of a [FirewallBackend]. *)
Definition inspect_ownership (f : FirewallBackend) : M LibState OwnershipReport :=
  match f with NftBackend b => nft_inspect_ownership b | IptablesBackend b => iptables_inspect_ownership b end.
Definition check_compatibility (f : FirewallBackend) (config : NftDnatConfig) : M LibState unit :=
  match f with
  | NftBackend b => nft_check_compatibility b config
  | IptablesBackend b => iptables_check_compatibility b config
  end.
Definition install (f : FirewallBackend) (config : NftDnatConfig) (own : NftOwnership) : M LibState FirewallDnatLease :=
  match f with
  | NftBackend b => l ← nft_install b config own; mret (NftLease l)
  | IptablesBackend b => l ← iptables_install b config own; mret (IptablesLease l)
  end.

(** The [close] of each resource object. *)
Definition run_callback (c : callback) : M world unit :=
  w ← get_state;
  match c with
  | CloseTun =>
      match w_tun w with
      | Some q =>
          '(o, q) ← with_state q tun_queue_close;
          _ ← modify (set_tun q);
          of_outcome o
      | None => mret tt
      end
  | CloseDnat =>
      match w_dnat w with
      | Some (NftLease l) =>
          '(o, (l, lib)) ← with_state (l, w_lib w) nft_lease_close;
          _ ← modify (fun w => set_dnat (NftLease l) (set_lib lib w));
          of_outcome o
      | Some (IptablesLease l) =>
          '(o, l) ← with_state l iptables_lease_close;
          _ ← modify (set_dnat (IptablesLease l));
          of_outcome o
      | None => mret tt
      end
  end.

(** [OwnershipJournal.close] over these callbacks, and the lease's [close]. *)
Definition journal_close : M HostState unit := close run_callback.
Definition host_lease_close : M HostState unit := journal_close.

Definition on_world {A} (m : M world A) : M HostState A := on_owner m.
Definition on_lib {A} (m : M LibState A) : M HostState A := on_world (zoom w_lib set_lib m).

(** [_rollback_unregistered_resource] *)
Definition rollback_unregistered_resource (label : string) (c : callback) (startup_error : exn) : M HostState unit :=
  r ← attempt (on_world (run_callback c));
  closing ← try_except (_ ← journal_close; mret [])
    (fun error => match error with CleanupError failures => mret failures | _ => raise error end);
  let failures := from_option (fun e => [(label, e)]) [] r ++ closing in
  if bool_decide (failures = []) then raise startup_error
  else raise (StartupRollbackError startup_error failures).

Definition register_resource (label : string) (c : callback) : M HostState unit :=
  try_except (defer label c) (fun error => rollback_unregistered_resource label c error).

(** The guarded block of [acquire_host_network]. *)
Definition acquire_resources (config : HostNetworkConfig) (firewall : FirewallBackend) : M HostState unit :=
  tun ← on_world (create_tun_queue (hc_tun config) DEFAULT_TUN_PATH (VStr "ip") (VInt DEFAULT_NAME_ATTEMPTS));
  _ ← on_world (modify (set_tun tun));
  _ ← register_resource ("tun:" +:+ tq_name tun) CloseTun;
  owner ← current_nft_ownership (tq_name tun);
  dnat ← on_lib (install firewall (hc_dnat config) owner);
  _ ← on_world (modify (set_dnat dnat));
  _ ← of_res (raise_if (str_empty (resource_name dnat))
                (TypeError "dnat_acquirer returned an invalid firewall lease"));
  register_resource (lease_backend_id dnat +:+ ":" +:+ resource_name dnat) CloseDnat.

(** Its handler. *)
Definition acquire_rollback (startup_error : exn) : M HostState unit :=
  match startup_error with
  | StartupRollbackError _ _ => raise startup_error
  | _ =>
      _ ← try_except journal_close
            (fun error => match error with
                          | CleanupError failures => raise (StartupRollbackError startup_error failures)
                          | _ => raise error
                          end);
      raise startup_error
  end.

Definition acquire_host_network (config : HostNetworkConfig) (paths : tool_paths) : M HostState HostNetworkLease :=
  firewall ← of_res (create_firewall_backend (hc_firewall_backend config) (table_family (hc_dnat config)) paths);
  _ ← of_res (raise_if (negb (bool_decide (firewall_id firewall = hc_firewall_backend config)))
                (ValueError "configured firewall backend does not match injected backend"));
  preflight ← collect_preflight (hc_requested_cc config) (dnat_ip_version (hc_dnat config))
                (hc_firewall_backend config) (tp_nft paths) (tp_iptables paths) (tp_restore paths) (tp_save paths);
  _ ← of_res (raise_if (negb (report_ok preflight)) (HostPreflightError preflight));
  ownership ← on_lib (inspect_ownership firewall);
  _ ← of_res (raise_if (blocking ownership) (StaleOwnershipError ownership));
  _ ← on_lib (check_compatibility firewall (hc_dnat config));
  _ ← modify (fun js => (new_journal, js.2));
  _ ← try_except (acquire_resources config firewall) acquire_rollback;
  mret {| hl_preflight := preflight; hl_ownership := ownership |}.

End host.

(** ** Lemmas *)

Section proofs.
Context `{E : Env}.

(** A transport that leaves descriptors alone. *)
Definition transport_quiet (t : NftTransport) : Prop :=
  (forall argv input, emits passive (run t argv input)) /\ (forall argv, emits passive (read t argv)).

Lemma exec_quiet v t : NftExecTransport v = Ok t -> transport_quiet t.
Proof. unfold NftExecTransport. intros H. res_inv. split; intros; cbn; emits. Qed.

Lemma emits_lib_invoke path command op dry json : emits passive (lib_invoke path command op dry json).
Proof. unfold lib_invoke, lib_load, lib_library_path, lib_invoke_body, lib_enable_json. emits. Qed.

#[local] Hint Resolve emits_lib_invoke : emits.

Lemma lib_quiet v t : LibNftablesTransport v = Ok t -> transport_quiet t.
Proof.
  unfold LibNftablesTransport. intros H. res_inv. split; intros; cbn [run read]; unfold lib_run, lib_read; emits.
Qed.

(** The backends that [create_firewall_backend] gives. *)
Definition firewall_good (f : FirewallBackend) : Prop :=
  match f with
  | NftBackend b => NftTransportLaws (transport b) /\ transport_quiet (transport b)
  | IptablesBackend _ => True
  end.

Lemma create_firewall_backend_good id family paths f :
  create_firewall_backend id family paths = Ok f -> firewall_good f.
Proof.
  unfold create_firewall_backend. intros H. repeat case_bool_decide; try done; res_inv; try done;
    unfold new_nft_firewall_backend in *; res_inv; cbn.
  - split; [by eapply lib_transport_lawful|by eapply lib_quiet].
  - split; [by eapply exec_transport_lawful|by eapply exec_quiet].
Qed.

Lemma emits_process_start_time {S} pid : emits passive (process_start_time pid : M S Z).
Proof. unfold process_start_time. emits. Qed.
Lemma emits_current_nft_ownership {S} name : emits passive (current_nft_ownership name : M S _).
Proof. unfold current_nft_ownership. pose proof (@emits_process_start_time S). emits; auto. Qed.
Lemma emits_owner_status {S} pid start : emits passive (owner_status pid start : M S _).
Proof. unfold owner_status. pose proof (@emits_process_start_time S). emits; auto. Qed.
Lemma emits_inspect_entry {S} family entry : emits passive (inspect_entry family entry : M S _).
Proof. unfold inspect_entry. pose proof (@emits_owner_status S). emits; auto. Qed.

#[local] Hint Resolve emits_process_start_time emits_current_nft_ownership emits_owner_status emits_inspect_entry : emits.

Lemma emits_inspect_ownership f : firewall_good f -> emits passive (inspect_ownership f).
Proof.
  destruct f as [b|b]; cbn.
  - intros [_ [Hrun Hread]]. unfold nft_inspect_ownership, inspect_nft_ownership. emits.
  - intros _. unfold iptables_inspect_ownership, inspect_chain, classify. emits.
Qed.

Lemma emits_check_compatibility f config : firewall_good f -> emits passive (check_compatibility f config).
Proof.
  destruct f as [b|b]; cbn.
  - intros [_ [Hrun Hread]]. unfold nft_check_compatibility, check_nft_dnat_compatibility, new_nft_table_name.
    emits.
  - intros _. unfold iptables_check_compatibility, new_iptables_chain_name. emits.
Qed.

Lemma emits_install f config own : firewall_good f -> emits passive (install f config own).
Proof.
  destruct f as [b|b]; cbn.
  - intros [_ [Hrun Hread]]. unfold nft_install, install_nft_dnat, new_nft_table_name. emits.
  - intros _. unfold iptables_install, new_iptables_chain_name, iptables_rollback. emits.
Qed.

Lemma emits_preflight {S} cc v backend nft ipt iptr ipts :
  emits passive (collect_preflight cc v backend nft ipt iptr ipts : M S _).
Proof. eapply emits_mono; [|apply emits_collect_preflight]. by intros []. Qed.

(** ** Closing one resource *)

Lemma acts_on_world {A} (m : M world A) j w Q :
  acts m w (fun o w' suf => Q o (j, w') suf) -> acts (on_world m) (j, w) Q.
Proof.
  intros Hm tr. specialize (Hm tr). unfold wp, on_world, on_owner in *. cbn [fst snd].
  by destruct (m w tr) as [[o w'] tr'].
Qed.

Lemma acts_of_outcome {S A} (o : outcome A) (s : S) Q : Q o s [] -> acts (of_outcome o) s Q.
Proof. by apply acts_nil. Qed.

(** The queue of the world is open on [fd]. *)
Definition tun_open (w : world) (fd : Z) : Prop := exists name, w_tun w = Some {| tq_name := name; tq_fd := Some fd |}.
Definition tun_shut (w : world) : Prop := forall q, w_tun w = Some q -> tq_fd q = None.

(** The outcome of a call that answers nothing. *)
Definition unit_outcome (r : reply unit) : outcome unit := match r with Answer _ => Ret tt | Fault x => Raise (Sys x) end.

Lemma acts_close_tun w fd :
  tun_open w fd ->
  acts (run_callback CloseTun) w (fun o w' suf =>
    tun_shut w' /\ w_dnat w' = w_dnat w /\ exists r, suf = [Ev (CClose fd) r] /\ o = unit_outcome r).
Proof.
  intros [name Hw]. unfold run_callback. apply acts_bind, acts_get. rewrite Hw.
  apply acts_bind, acts_with_state. unfold tun_queue_close. apply acts_bind, acts_get. cbn [tq_fd tq_name].
  apply acts_bind, acts_put. acts_call; intros a; [destruct a|]; apply acts_bind, acts_modify, acts_of_outcome;
    (split_and!; [|done|by eexists]); intros q; cbn; by intros [= <-].
Qed.

(** What the leases of a good backend are. *)
Definition lease_good (config : NftDnatConfig) (d : FirewallDnatLease) : Prop :=
  dnat_closed d = false /\ str_empty (resource_name d) = false /\
  match d with
  | NftLease l => exists b, NftTransportLaws (transport b) /\ transport_quiet (transport b) /\ lease_of b config l
  | IptablesLease l => True
  end.

Lemma acts_install f config own lib :
  firewall_good f ->
  acts (install f config own) lib (fun o _ suf =>
    o <> OutOfFuel /\ opened suf = [] /\ closed suf = [] /\ forall d, o = Ret d -> lease_good config d).
Proof.
  intros Hf. eapply acts_mono; [|apply (acts_emits passive _ _
    (fun o _ _ => o <> OutOfFuel /\ forall d, o = Ret d -> lease_good config d)); [|by apply emits_install]].
  { intros o lib' suf [Hpost [? ?]%passive_trace]. split_and!; try done; apply Hpost. }
  destruct f as [b|b]; cbn [install firewall_good] in *.
  - destruct Hf as [Hlaws Hquiet]. apply acts_bind. eapply acts_mono; [|apply (acts_nft_install b config own)].
    intros [l|e|] lib' suf Ho; [|done|done]. apply acts_ret. split; [done|]. intros d [= <-].
    destruct Ho as [Hl _]. pose proof Hl as (Hc & _ & _ & _ & Hname & _).
    split_and!; [done|cbn; by destruct (nl_table_name l)|by exists b].
  - apply acts_bind. eapply acts_does; [apply does_iptables_install|].
    intros [l|e|] suf Ho; [|done|done]. apply acts_ret. split; [done|]. intros d [= <-].
    destruct Ho as (batch & _ & _ & _ & Hl & Hname & _).
    split_and!; [by rewrite Hl|cbn; by destruct (il_chain_name l)|done].
Qed.

(** The steering of a lease is withdrawn: the deletion of the table submitted,
    or every step on the private chain attempted, and succeeding exactly when
    the close does. *)
Definition withdrawn (d : FirewallDnatLease) (o : outcome unit) (suf : trace) : Prop :=
  match d with
  | NftLease l => submits_upto o suf [delete_command (nl_table_family l) (nl_table_name l)]
  | IptablesLease l => ev_call <$> suf = (fun lc => CRun lc.2 None) <$> lease_commands l /\
      (o = Ret tt <-> omap ev_failed suf = [])
  end.

(** The lease, closed. *)
Definition dnat_shut (d : FirewallDnatLease) : FirewallDnatLease :=
  match d with
  | NftLease l => NftLease (set_nl_closed l)
  | IptablesLease l => IptablesLease {| il_chain_name := il_chain_name l; il_jump_arguments := il_jump_arguments l;
                                        il_iptables_path := il_iptables_path l; il_closed := true |}
  end.
Lemma dnat_shut_closed d : dnat_closed (dnat_shut d) = true.
Proof. by destruct d. Qed.

Lemma acts_nft_close_quiet l lib :
  (forall argv input, emits passive (nl_runner l argv input)) ->
  acts nft_lease_close (l, lib) (fun _ _ suf => Forall (fun ev => passive (ev_call ev)) suf).
Proof.
  intros Hrun. unfold nft_lease_close. apply acts_bind, acts_get. cbn [app]. destruct (nl_closed l); [by apply acts_ret|].
  apply acts_bind, acts_modify, acts_zoom. cbn [app]. apply acts_of_emits, Hrun.
Qed.

Lemma acts_iptables_close l :
  il_closed l = false ->
  acts iptables_lease_close l (fun o l' suf =>
    o <> OutOfFuel /\ IptablesLease l' = dnat_shut (IptablesLease l) /\ withdrawn (IptablesLease l) o suf).
Proof.
  intros Hc. unfold iptables_lease_close. apply acts_bind, acts_get. rewrite Hc.
  apply acts_bind, acts_put, acts_bind. eapply acts_does; [apply (does_run_all (lease_commands l) (fun x => "iptables:" +:+ il_chain_name l +:+ ":" +:+ x))|].
  intros o suf [Hsuf ->]. set (fs := omap _ _).
  assert (fs = [] <-> omap ev_failed suf = []) as Hfs.
  { subst fs. cbn [lease_commands] in *. destruct suf as [|e1 [|e2 [|e3 [|]]]]; try done. cbn.
    by destruct (ev_failed e1), (ev_failed e2), (ev_failed e3). }
  destruct (bool_decide (fs = [])) eqn:Hb; bool_to_prop; [apply acts_ret|apply acts_raise]; cbn [app]; rewrite app_nil_r;
    (split_and!; [done|done|]); (split; [done|]); rewrite <- Hfs; naive_solver.
Qed.

Lemma runs_passive suf l : ev_call <$> suf = (fun lc => CRun lc.2 None) <$> (l : list (string * list string)) ->
  opened suf = [] /\ closed suf = [].
Proof.
  intros Hsuf. apply passive_trace, Forall_forall. intros ev Hev.
  assert (ev_call ev ∈ ((fun lc => CRun lc.2 None) <$> l)) as Hin by (rewrite <- Hsuf; by apply list_elem_of_fmap_2).
  apply list_elem_of_fmap_1 in Hin as (lc & -> & _). done.
Qed.

Lemma acts_close_dnat config w d :
  w_dnat w = Some d -> lease_good config d ->
  acts (run_callback CloseDnat) w (fun o w' suf =>
    o <> OutOfFuel /\ w_tun w' = w_tun w /\ w_dnat w' = Some (dnat_shut d) /\
    opened suf = [] /\ closed suf = [] /\ withdrawn d o suf).
Proof.
  intros Hw (Hc & Hname & Hgood). unfold run_callback. apply acts_bind, acts_get. rewrite Hw.
  destruct d as [l|l]; apply acts_bind, acts_with_state.
  - destruct Hgood as (b & Hlaws & [Hrun _] & Hl). pose proof Hl as (_ & _ & Hr & Hfam & _).
    eapply acts_mono; [|apply acts_and; [by apply (acts_nft_lease_close b config)|by apply acts_nft_close_quiet; rewrite Hr]].
    intros o [l' lib'] suf [[Hcl Ho] [Hop Hcs]%passive_trace]. cbn in Hcl. subst l'. apply acts_bind, acts_modify, acts_of_outcome.
    cbn [app]. rewrite app_nil_r. split_and!; try done; [by destruct o|by cbn; rewrite Hfam].
  - eapply acts_mono; [|by apply acts_iptables_close].
    intros o l' suf (Hf & Hcl & Hsuf). apply acts_bind, acts_modify, acts_of_outcome. cbn [app]. rewrite app_nil_r.
    destruct (runs_passive _ _ (proj1 Hsuf)). split_and!; try done. by rewrite <- Hcl.
Qed.

(** ** Closing the journal *)

(** How [journal.close] ends: with the aggregate of the failures, if any. *)
Definition cleanup_outcome (fs : list (string * exn)) : outcome unit :=
  if bool_decide (fs = []) then Ret tt else Raise (CleanupError fs).
Definition exc_of (o : outcome unit) : option exn := match o with Raise e => Some e | _ => None end.
Definition failure_of (label : string) (o : outcome unit) : list (string * exn) :=
  from_option (fun e => [(label, e)]) [] (exc_of o).

Lemma acts_close_end (fs : list (string * exn)) (js : HostState) Q :
  Q (cleanup_outcome fs) js [] -> acts (if bool_decide (fs = []) then mret tt else raise (CleanupError fs)) js Q.
Proof. unfold cleanup_outcome. destruct (bool_decide _); [apply acts_ret|apply acts_raise]. Qed.

Lemma acts_close_none w :
  acts journal_close (Journal [] false, w) (fun o js suf => o = Ret tt /\ js = (Journal [] true, w) /\ suf = []).
Proof. by apply (acts_nil _ _ (Ret tt) (Journal [] true, w)). Qed.

(** A failing or succeeding callback of the loop. *)
Lemma acts_callback (label : string) c w (j : journal callback) (P : outcome unit -> world -> trace -> Prop) :
  acts (run_callback c) w P -> (forall w' suf, ~ P OutOfFuel w' suf) ->
  acts (r ← attempt (on_owner (run_callback c)); mret (pair label <$> r)) (j, w)
    (fun r js suf => exists o w', js = (j, w') /\ P o w' suf /\ r = Ret (pair label <$> exc_of o)).
Proof.
  intros Hrun HF. apply acts_bind, acts_attempt, acts_on_world. eapply acts_mono; [|exact Hrun].
  intros [[]|e|] w' suf HP; [| |by destruct (HF w' suf)]; apply acts_ret; rewrite app_nil_r;
    eexists _, w'; (split; [done|]); (split; [exact HP|done]).
Qed.

Lemma failure_of_label label o : from_option (fun b => [b]) [] (pair label <$> exc_of o) = failure_of label o.
Proof. by destruct o. Qed.

Lemma acts_close_one label w fd :
  tun_open w fd ->
  acts journal_close (Journal [(label, CloseTun)] false, w) (fun o js suf =>
    js.1 = Journal [] true /\ tun_shut js.2 /\ w_dnat js.2 = w_dnat w /\
    exists r, suf = [Ev (CClose fd) r] /\ o = cleanup_outcome (failure_of label (unit_outcome r))).
Proof.
  intros Hw. unfold journal_close, close. apply acts_bind, acts_get. cbn [j_closed j_entries].
  apply acts_bind, acts_put, acts_bind. cbn [app reverse rev_append collect snd fst].
  apply acts_bind. eapply acts_mono; [|apply (acts_callback label CloseTun w); [by apply acts_close_tun|]].
  2: { intros w' suf (_ & _ & [] & _ & ?); done. }
  intros r js suf (o & w' & -> & (Hshut & Hd & x & -> & ->) & ->). apply acts_bind, acts_ret, acts_ret.
  rewrite failure_of_label, !app_nil_r. apply acts_close_end. split_and!; try done. by eexists.
Qed.

Lemma acts_close_both label1 label2 config w fd d :
  tun_open w fd -> w_dnat w = Some d -> lease_good config d ->
  acts journal_close (Journal [(label1, CloseTun); (label2, CloseDnat)] false, w) (fun o js suf =>
    js.1 = Journal [] true /\ tun_shut js.2 /\ w_dnat js.2 = Some (dnat_shut d) /\
    exists suf1 o1 r, suf = suf1 ++ [Ev (CClose fd) r] /\ opened suf1 = [] /\ closed suf1 = [] /\ withdrawn d o1 suf1 /\
      o1 <> OutOfFuel /\ o = cleanup_outcome (failure_of label2 o1 ++ failure_of label1 (unit_outcome r))).
Proof.
  intros Hw Hd Hgood. unfold journal_close, close. apply acts_bind, acts_get. cbn [j_closed j_entries].
  apply acts_bind, acts_put, acts_bind. cbn [app reverse rev_append collect snd fst].
  apply acts_bind. eapply acts_mono; [|apply (acts_callback label2 CloseDnat w); [by eapply acts_close_dnat|naive_solver]].
  intros r js suf1 (o1 & w1 & -> & (Hf & Htun & Hd' & Hop & Hcl & Hwd) & ->).
  apply acts_bind, acts_bind. eapply acts_mono; [|apply (acts_callback label1 CloseTun w1); [apply acts_close_tun|]].
  2: { destruct Hw as [name Hw]. exists name. by rewrite Htun. }
  2: { intros w' suf (_ & _ & [] & _ & ?); done. }
  intros r js suf2 (o2 & w2 & -> & (Hshut & Hd2 & x & -> & ->) & ->). apply acts_bind, acts_ret, acts_ret, acts_ret.
  rewrite !failure_of_label, !app_nil_r. apply acts_close_end. cbn [fst snd]. rewrite !app_nil_r.
  split_and!; [done|done|by rewrite Hd2|]. by exists suf1, o1, x.
Qed.

(** ** The components raise none of the lifecycle errors *)

Definition component_error (e : exn) : Prop :=
  match e with
  | StartupRollbackError _ _ | HostPreflightError _ | StaleOwnershipError _ => False
  | _ => True
  end.

#[local] Instance component_error_sys : CatchAll component_error.
Proof. by intros e. Qed.

Lemma rthrows_pack fs v : rthrows component_error (pack fs v).
Proof. induction fs as [|[]]; cbn [pack]; throws. Qed.

#[local] Hint Resolve rthrows_pack : throws.

Lemma throws_tun_setup config ip gen host guest fd name :
  throws component_error (tun_setup config ip gen host guest fd name).
Proof. unfold tun_setup, ifreq, attached_name, run_command. throws. Qed.

Lemma throws_tun_attempts {S} config ip path gen n total :
  throws component_error (tun_attempts config ip path gen n total : M S TunQueue).
Proof.
  induction n as [|n IH]; cbn [tun_attempts]; [throws|].
  apply throws_bind; [unfold new_tun_name; throws|intros candidate].
  apply throws_bind; [unfold validate_tun_name; throws|intros name].
  apply throws_bind; [throws|intros host]. apply throws_bind; [throws|intros guest].
  apply throws_bind; [throws|intros fd]. intros s tr. apply wp_bind, wp_with_state.
  eapply wp_mono; [|apply throws_tun_setup]. intros [q|e|] coll tr' He; [done| |done].
  unfold close_after_setup_error. specialize (He e eq_refl).
  enough (throws component_error (S := S) (_ ← try_except (perform (CClose fd)) (fun cleanup_error =>
    raise (TunSetupCleanupError e cleanup_error)); if coll : bool then tun_attempts config ip path gen n total
    else raise e)) as H by apply H.
  throws.
Qed.

Lemma throws_create_tun_queue {S} config path ip attempts :
  throws component_error (create_tun_queue config path ip attempts : M S TunQueue).
Proof.
  unfold create_tun_queue. apply throws_bind; [throws|intros ?]. apply throws_bind; [throws|intros ?].
  apply throws_tun_attempts.
Qed.

Lemma throws_current_nft_ownership {S} name : throws component_error (current_nft_ownership name : M S _).
Proof.
  unfold current_nft_ownership, process_start_time, stat_start_time, new_nft_ownership, positive_int, validate_tun_name.
  throws.
Qed.

Definition transport_tame (t : NftTransport) : Prop :=
  (forall argv input, throws component_error (run t argv input)) /\ (forall argv, throws component_error (read t argv)).

Definition firewall_tame (f : FirewallBackend) : Prop :=
  match f with NftBackend b => transport_tame (transport b) | IptablesBackend _ => True end.

Lemma create_firewall_backend_tame id family paths f :
  create_firewall_backend id family paths = Ok f -> firewall_tame f.
Proof.
  unfold create_firewall_backend. intros H. repeat case_bool_decide; try done; res_inv;
    unfold new_nft_firewall_backend in *; res_inv; cbn [firewall_tame transport]; [| |done].
  - unfold LibNftablesTransport in *. res_inv. split; intros; cbn [run read];
      unfold lib_run, lib_read, lib_invoke, lib_load, lib_library_path, lib_invoke_body, lib_enable_json,
        validate_nft_table_name; throws.
  - unfold NftExecTransport in *. res_inv. split; intros; cbn [run read]; throws.
Qed.

Lemma rthrows_restore_batch c chain own declare : rthrows component_error (iptables_restore_batch c chain own declare).
Proof.
  assert (forall l, rthrows component_error (render_arguments l)) as Hr.
  { intros l. induction l; cbn [render_arguments]; unfold render_argument; throws. }
  unfold iptables_restore_batch, iptables_restore_line. throws.
Qed.

#[local] Hint Resolve rthrows_restore_batch throws_current_nft_ownership : throws.

Lemma throws_install f config own : firewall_tame f -> throws component_error (install f config own).
Proof.
  destruct f as [b|b]; cbn [install firewall_tame].
  - intros [Hrun _]. unfold nft_install, install_nft_dnat, new_nft_table_name, validate_nft_table_name. throws.
  - intros _. unfold iptables_install, new_iptables_chain_name, validate_iptables_chain_name, iptables_rollback. throws.
Qed.

Lemma throws_owner_status {S} pid start : throws component_error (owner_status pid start : M S _).
Proof. unfold owner_status, process_start_time, stat_start_time. throws. Qed.

#[local] Hint Resolve throws_owner_status : throws.

Lemma rthrows_read_saved raw : rthrows component_error (read_saved raw).
Proof.
  unfold read_saved. generalize {| reserved_chains := []; markers := [] |}.
  induction (splitlines raw) as [|line lines IH]; intros acc; cbn [read_lines]; [throws|].
  apply rthrows_bind; [unfold read_line; throws|apply IH].
Qed.

#[local] Hint Resolve rthrows_read_saved : throws.

Lemma throws_inspect f : firewall_tame f -> throws component_error (inspect_ownership f).
Proof.
  destruct f as [b|b]; cbn [inspect_ownership firewall_tame].
  - intros [_ Hread]. unfold nft_inspect_ownership, inspect_nft_ownership, ruleset_entries, inspect_entry. throws.
  - intros _. unfold iptables_inspect_ownership, inspect_chain, classify. throws.
Qed.

Lemma throws_check f config : firewall_tame f -> throws component_error (check_compatibility f config).
Proof.
  destruct f as [b|b]; cbn [check_compatibility firewall_tame].
  - intros [Hrun _]. unfold nft_check_compatibility, check_nft_dnat_compatibility, new_nft_table_name, validate_nft_table_name.
    throws.
  - intros _. unfold iptables_check_compatibility, new_iptables_chain_name, validate_iptables_chain_name. throws.
Qed.

Lemma throws_preflight {S} cc v backend nft ipt iptr ipts :
  throws component_error (collect_preflight cc v backend nft ipt iptr ipts : M S _).
Proof.
  assert (forall rel, throws component_error (read_proc rel : M S _)) as Hproc by (intros; unfold read_proc; throws).
  assert (forall name rem cn, throws component_error (tool name rem cn : M S _)) as Htool by (intros; unfold tool, lookup; throws).
  assert (forall scope, throws component_error (rp_filter scope : M S _)) as Hrp by (intros; unfold rp_filter; throws).
  assert (forall ms : list (M S CheckResult), Forall (throws component_error) ms -> throws component_error (sequence ms)) as Hseq.
  { induction 1; cbn [sequence]; throws; done. }
  assert (forall fw, firewall_checks backend nft ipt iptr ipts = Some fw -> Forall (throws (S := S) component_error) fw) as Hfw.
  { unfold firewall_checks. intros fw H. repeat case_match; simplify_eq; cbn; repeat apply Forall_cons_2; try apply Forall_nil_2; auto.
    unfold library, lookup. throws. }
  unfold collect_preflight. apply throws_bind; [throws|intros _]. apply throws_bind; [throws|intros _].
  apply throws_bind.
  { apply Hseq. repeat apply Forall_cons_2; try apply Forall_nil_2; auto.
    - unfold cap_net_admin. throws.
    - unfold tun_device, tun_probe. throws. }
  intros prefix. destruct (firewall_checks backend nft ipt iptr ipts) as [fw|] eqn:Heq; cbn [res_of_option].
  2: { intros s tr e [= <-]. done. }
  change (of_res (Ok fw) ≫= ?k) with (k fw). apply throws_bind; [by apply Hseq, Hfw|intros fws].
  apply throws_bind; [unfold forwarding_check, required_sysctl; throws|intros fwd].
  apply throws_bind; [|intros; throws]. apply Hseq. destruct (v =? 4); repeat apply Forall_cons_2; try apply Forall_nil_2; auto.
Qed.

(** ** The transaction *)

Definition fresh_world (lib : LibState) : world := {| w_lib := lib; w_tun := None; w_dnat := None |}.

(** The guarded block: both resources registered, or at most the queue. *)
Definition resources_post (config : HostNetworkConfig) (o : outcome unit) (js : HostState) (suf : trace) : Prop :=
  match o with
  | Ret _ => exists l1 l2 fd d, js.1 = Journal [(l1, CloseTun); (l2, CloseDnat)] false /\
      tun_open js.2 fd /\ w_dnat js.2 = Some d /\ lease_good (hc_dnat config) d /\ opened suf = closed suf ++ [fd]
  | Raise e => component_error e /\ w_dnat js.2 = None /\
      ((js.1 = new_journal /\ tun_shut js.2 /\ opened suf = closed suf) \/
       exists l1 fd, js.1 = Journal [(l1, CloseTun)] false /\ tun_open js.2 fd /\ opened suf = closed suf ++ [fd])
  | OutOfFuel => False
  end.

Lemma acts_register label c j w Q :
  j_closed j = false -> str_empty label = false ->
  Q (Ret tt) (Journal (j_entries j ++ [(label, c)]) false, w) [] -> acts (register_resource label c) (j, w) Q.
Proof.
  intros Hj Hl HQ. apply acts_try. unfold defer. apply acts_bind, acts_get. cbn [app]. rewrite Hj, Hl.
  by apply acts_put.
Qed.

Lemma str_empty_app_cons a c b : str_empty (a +:+ String c b) = false.
Proof. by destruct a. Qed.

Lemma acts_current_ownership {S} name (s : S) :
  acts (current_nft_ownership name) s (fun o s' _ => o <> OutOfFuel /\ s' = s).
Proof.
  unfold current_nft_ownership, process_start_time. apply acts_bind. acts_call; intros pid; [|done].
  apply acts_bind, acts_bind. acts_call; intros text; [|done].
  apply acts_of_res. destruct (stat_start_time text); [|done]. apply acts_of_res. by destruct (new_nft_ownership _ _ _).
Qed.

(** The part of the guarded block after the queue is registered. *)
Lemma acts_steer config f j w fd label name :
  firewall_good f -> (forall own, throws component_error (install f (hc_dnat config) own)) ->
  j = Journal [(label, CloseTun)] false -> tun_open w fd -> w_dnat w = None ->
  acts (owner ← current_nft_ownership name;
        dnat ← on_lib (install f (hc_dnat config) owner);
        _ ← on_world (modify (set_dnat dnat));
        _ ← of_res (raise_if (str_empty (resource_name dnat))
                (TypeError "dnat_acquirer returned an invalid firewall lease"));
        register_resource (lease_backend_id dnat +:+ ":" +:+ resource_name dnat) CloseDnat) (j, w)
    (fun o js suf => opened suf = [] /\ closed suf = [] /\
       match o with
       | Ret _ => exists l2 d, js.1 = Journal [(label, CloseTun); (l2, CloseDnat)] false /\ tun_open js.2 fd /\
                    w_dnat js.2 = Some d /\ lease_good (hc_dnat config) d
       | Raise e => component_error e /\ js.1 = j /\ tun_open js.2 fd /\ w_dnat js.2 = None
       | OutOfFuel => False
       end).
Proof.
  intros Hf Ht -> Hw Hd. apply acts_bind. eapply acts_mono; [|apply (acts_emits passive); [|apply emits_current_nft_ownership]].
  2: { apply (acts_and_throws component_error); [|apply throws_current_nft_ownership]. apply acts_current_ownership. }
  intros [own|e|] js suf [[[Hof ->] He] [Hop Hcl]%passive_trace]; [|by naive_solver|done].
  apply acts_bind, acts_on_world, acts_zoom. eapply acts_mono; [|apply (acts_and_throws component_error); [by apply acts_install|apply Ht]].
  intros [d|e|] lib' suf' [(Hof' & Hop' & Hcl' & Hd') He']; [| |done].
  2: { autorewrite with trace. rewrite Hop, Hop', Hcl, Hcl'. split_and!; try done. by apply He'. }
  specialize (Hd' d eq_refl). pose proof Hd' as (_ & Hname & _).
  apply acts_bind, acts_on_world, acts_modify, acts_bind, acts_of_res. rewrite Hname. cbn [raise_if app].
  apply acts_register; [done|apply str_empty_app_cons|]. autorewrite with trace. rewrite Hop, Hop', Hcl, Hcl'.
  split_and!; [done|done|]. eexists _, d. cbn. split_and!; try done.
Qed.

Lemma acts_acquire_resources config f lib :
  firewall_good f -> (forall own, throws component_error (install f (hc_dnat config) own)) ->
  acts (acquire_resources config f) (new_journal, fresh_world lib) (resources_post config).
Proof.
  intros Hf Ht. unfold acquire_resources. apply acts_bind, acts_on_world.
  eapply acts_mono; [|apply (acts_and_throws component_error); [|apply throws_create_tun_queue]].
  2: { eapply (acts_does _ _ _ (fun o w' suf => w' = fresh_world lib /\
         match o with
         | Ret q => exists fd, tq_fd q = Some fd /\ opened suf = closed suf ++ [fd]
         | Raise _ => opened suf = closed suf
         | OutOfFuel => False
         end)); [apply create_tun_queue_post|].
       intros o suf (ip & n & [_ Hpost] & _). split; [done|]. destruct o; [|done|done]. naive_solver. }
  intros [q|e|] w suf [[-> Ho] He]; [| |done].
  2: { split_and!; [by apply He|done|]. left. split_and!; try done. }
  destruct Ho as (fd & Hfd & Hopen). destruct q as [name ofd]. cbn in Hfd. subst ofd.
  apply acts_bind, acts_on_world, acts_modify, acts_bind.
  apply acts_register; [done|done|]. cbn [app]. change (Journal _ false) with (Journal [("tun:" +:+ name, CloseTun)] false).
  eapply acts_mono; [|apply (acts_steer config f _ _ fd ("tun:" +:+ name)); try done; by exists name].
  intros o js suf' (Hop & Hcl & Hpost). unfold resources_post. autorewrite with trace. rewrite Hop, Hcl, !app_nil_r.
  destruct o as [[]|e|]; [| |done].
  - destruct Hpost as (l2 & d & ? & ? & ? & ?). exists ("tun:" +:+ name), l2, fd, d. by split_and!.
  - destruct Hpost as (? & ? & ? & ?). split_and!; try done. right. exists ("tun:" +:+ name), fd. by split_and!.
Qed.

Definition gate_error (e : exn) : bool :=
  match e with HostPreflightError _ | StaleOwnershipError _ => true | _ => false end.

Lemma component_not_gate e : component_error e -> gate_error e = false.
Proof. by destruct e. Qed.

(** Undoing what the guarded block registered, with the exception [e] that is
    left in the end: the failure itself, or the failure together with that of the
    one close. *)
Definition rolled_back (j : journal callback) (failure e : exn) (t : trace) : Prop :=
  match j_entries j with
  | [] => t = [] /\ e = failure
  | [(label, CloseTun)] => exists fd r, t = [Ev (CClose fd) r] /\
      e = match r with Answer _ => failure | Fault x => StartupRollbackError failure [(label, Sys x)] end
  | _ => False
  end.

Lemma acts_acquire_rollback config e js suf :
  resources_post config (Raise e) js suf ->
  acts (acquire_rollback e) js (fun o js' suf' =>
    (exists e', o = Raise e' /\ gate_error e' = false /\ rolled_back js.1 e e' suf') /\
    j_closed js'.1 = true /\ tun_shut js'.2 /\ w_dnat js'.2 = None /\ opened (suf ++ suf') = closed (suf ++ suf')).
Proof.
  intros (He & Hd & Hcases). destruct js as [j w]. cbn [fst snd] in *.
  assert (acquire_rollback e = (_ ← try_except journal_close
      (fun error => match error with
                    | CleanupError failures => raise (StartupRollbackError e failures)
                    | _ => raise error
                    end); raise e)) as -> by (by destruct e).
  apply acts_bind, acts_try. autorewrite with trace. pose proof (component_not_gate e He) as Hgate.
  destruct Hcases as [(-> & Hshut & Hfds)|(l1 & fd & -> & Hopen & Hfds)].
  - eapply acts_mono; [|apply acts_close_none]. intros o js' suf' (-> & -> & ->).
    apply acts_raise. autorewrite with trace. rewrite Hfds. split_and!; try done. by exists e.
  - eapply acts_mono; [|by apply (acts_close_one l1)]. intros o js' suf' (Hj & Hshut & Hd' & r & -> & ->).
    destruct r as [[]|x]; apply acts_raise; rewrite app_nil_r; (split; [eexists; split_and!; [done|done|by eexists _, _]|]);
      autorewrite with trace; rewrite Hfds, Hj, Hd', Hd, app_nil_r; by split_and!.
Qed.

(** ** Gates *)

(** Calls that change nothing: everything but device access, and of commands
    only the listings. *)
Definition query_call (c : call) : Prop :=
  match c with
  | COpen _ _ | CIoctl _ _ _ | CClose _ => False
  | CRun argv input => input = None /\
      ((exists p, argv = [p; "-t"; "nat"]) \/ exists p family, argv = [p; "--json"; "list"; "ruleset"; family])
  | CNftRunCmd _ command => is_query command = true
  | _ => True
  end.

Lemma emits_lib_query path family : emits query_call (lib_invoke path ("list ruleset " +:+ family +:+ nl) "list-ruleset" false true).
Proof.
  assert (is_query ("list ruleset " +:+ family +:+ nl) = true) as Hq by apply startswith_app.
  unfold lib_invoke, lib_load, lib_library_path, lib_invoke_body, lib_enable_json. emits.
Qed.

Lemma emits_query_inspect id family paths f :
  create_firewall_backend id family paths = Ok f -> emits query_call (inspect_ownership f).
Proof.
  assert (forall pid start, emits query_call (owner_status pid start : M LibState _)) as Hstatus.
  { intros. unfold owner_status, process_start_time. emits. }
  assert (forall family entry, emits query_call (inspect_entry family entry : M LibState _)) as Hentry.
  { intros. unfold inspect_entry. emits. }
  assert (forall t, (forall path family, emits query_call (read t [path; "--json"; "list"; "ruleset"; family])) ->
    emits query_call (nft_inspect_ownership {| transport := t; nb_table_family := family |})) as Hnft.
  { intros t Ht. unfold nft_inspect_ownership, inspect_nft_ownership. emits. }
  unfold create_firewall_backend. intros H. repeat case_bool_decide; try done; res_inv;
    unfold new_nft_firewall_backend in *; res_inv; cbn [inspect_ownership].
  - unfold LibNftablesTransport in *. res_inv. apply Hnft. intros path fam. cbn [read]. unfold lib_read.
    pose proof emits_lib_query. emits.
  - unfold NftExecTransport in *. res_inv. apply Hnft. intros path fam. cbn [read].
    apply (emits_perform query_call (CRun _ None)). cbn. eauto.
  - unfold iptables_inspect_ownership, inspect_chain, classify.
    apply emits_bind; [apply (emits_perform query_call (CRun _ None)); cbn; eauto|intros raw]. emits.
Qed.

Lemma acts_inspect f lib : firewall_good f -> acts (inspect_ownership f) lib (fun o _ _ => o <> OutOfFuel).
Proof.
  destruct f as [b|b]; cbn [inspect_ownership firewall_good].
  - intros [Hlaws _]. eapply acts_mono; [|apply (acts_nft_inspect b)]. by intros o lib' suf [? _].
  - intros _. eapply acts_does; [apply does_iptables_inspect|]. by intros o suf [? _].
Qed.

(** Calls that change nothing, dry runs included. *)
Definition probe_call (c : call) : Prop :=
  match c with
  | COpen _ _ | CIoctl _ _ _ | CClose _ => False
  | CRun argv input => query_call (CRun argv input) \/
      (exists p, argv = [p; "--check"; "--file"; "-"]) \/ exists p, argv = [p; "--wait"; "--test"; "--noflush"]
  | _ => True
  end.

(** Nothing of the host was changed: no device opened, only listings and dry
    runs among the commands, and no change submitted to the ruleset. *)
Definition untouched (t : trace) : Prop := Forall (fun ev => probe_call (ev_call ev)) t /\ submits t [].

Lemma untouched_app t u : untouched t -> untouched u -> untouched (t ++ u).
Proof. intros [H1 H2] [H3 H4]. split; [by apply Forall_app|by apply submits_quiet]. Qed.

Lemma query_untouched t : Forall (fun ev => query_call (ev_call ev)) t -> untouched t.
Proof.
  intros H. split.
  - eapply Forall_impl; [exact H|]. intros [c r]. cbn. destruct c; cbn; auto.
  - intros flags. revert flags. induction H as [|[c r] t Hc _ IH]; intros flags; [done|]. cbn [changes]. rewrite IH, app_nil_r.
    cbn in Hc. destruct c; try done; cbn in Hc |- *.
    + destruct Hc as [-> [[p ->]|(p & family & ->)]]; done.
    + by rewrite Hc, orb_true_r.
Qed.

(** The calls of the iptables dry run. *)
Definition iptables_probe (c : call) : Prop :=
  match c with
  | CTokenHex _ | CGetPid | CReadText _ => True
  | CRun argv _ => exists p, argv = [p; "--wait"; "--test"; "--noflush"]
  | _ => False
  end.
Lemma iptables_probe_untouched t : Forall (fun ev => iptables_probe (ev_call ev)) t -> untouched t.
Proof.
  intros H. split.
  - eapply Forall_impl; [exact H|]. intros [c r]. cbn. destruct c; cbn; auto.
  - intros flags. revert flags. induction H as [|[c r] t Hc _ IH]; intros flags; [done|]. cbn [changes]. rewrite IH, app_nil_r.
    cbn in Hc. destruct c; try done. by destruct Hc as [p ->].
Qed.

Lemma emits_probe_check id family paths f config :
  create_firewall_backend id family paths = Ok f -> emits probe_call (check_compatibility f config).
Proof.
  assert (forall name, emits probe_call (current_nft_ownership name : M LibState _)) as Hown.
  { intros. unfold current_nft_ownership, process_start_time. emits. }
  assert (forall t, (forall path batch, emits probe_call (run t [path; "--check"; "--file"; "-"] (Some batch))) ->
    emits probe_call (nft_check_compatibility {| transport := t; nb_table_family := family |} config)) as Hnft.
  { intros t Ht. unfold nft_check_compatibility, check_nft_dnat_compatibility, new_nft_table_name. emits. }
  assert (forall path command operation dry json, emits probe_call (lib_invoke path command operation dry json)) as Hlib.
  { intros. unfold lib_invoke, lib_load, lib_library_path, lib_invoke_body, lib_enable_json. emits. }
  unfold create_firewall_backend. intros H. repeat case_bool_decide; try done; res_inv;
    unfold new_nft_firewall_backend in *; res_inv; cbn [check_compatibility].
  - unfold LibNftablesTransport in *. res_inv. apply Hnft. intros path batch. cbn [run]. unfold lib_run. emits.
  - unfold NftExecTransport in *. res_inv. apply Hnft. intros path batch. cbn [run].
    apply emits_bind; [|intros; apply emits_ret]. apply (emits_perform probe_call (CRun _ _)). cbn. eauto.
  - unfold iptables_check_compatibility, new_iptables_chain_name. emits.
    apply (emits_perform probe_call (CRun _ _)). cbn. eauto.
Qed.

Lemma emits_iptables_probe {S} b config : emits iptables_probe (iptables_check_compatibility b config : M S unit).
Proof.
  unfold iptables_check_compatibility, new_iptables_chain_name, current_nft_ownership, process_start_time. emits.
  apply (emits_perform iptables_probe (CRun _ _)). cbn. eauto.
Qed.

(** The host accepted a dry run of the steering of the configuration. *)
Definition tried (f : FirewallBackend) (config : NftDnatConfig) (t : trace) : Prop :=
  exists batch, accepted batch t /\
  match f with
  | NftBackend _ => exists name own, batch = dnat_batch config name (Some own)
  | IptablesBackend _ => exists chain own, iptables_restore_batch config chain own true = Ok batch
  end.

Lemma tried_app f config t u : tried f config u -> tried f config (t ++ u).
Proof. intros (batch & Ha & Hb). exists batch. split; [by apply Exists_app; right|done]. Qed.

Lemma acts_check id family paths f config lib :
  create_firewall_backend id family paths = Ok f ->
  acts (check_compatibility f config) lib (fun o _ suf => o <> OutOfFuel /\ untouched suf /\ (o = Ret tt -> tried f config suf)).
Proof.
  intros Hf. pose proof (create_firewall_backend_good _ _ _ _ Hf) as Hgood. pose proof (emits_probe_check _ _ _ _ config Hf) as Hem.
  destruct f as [b|b]; cbn [check_compatibility firewall_good] in *.
  - destruct Hgood as [Hlaws _]. eapply acts_mono; [|apply acts_emits; [apply (acts_nft_check b)|exact Hem]].
    intros o lib' suf [(Hof & Hs & Ha) Hp]. split_and!; [done|by split|]. intros Ho. destruct (Ha Ho) as (name & own & Hacc).
    eexists. split; [exact Hacc|by eexists _, _].
  - eapply acts_mono; [|apply acts_emits; [apply acts_iptables_check|apply (emits_iptables_probe b)]].
    intros o lib' suf [(Hof & _ & _ & Ha) Hp%iptables_probe_untouched]. split_and!; [done|done|].
    intros Ho. destruct (Ha Ho) as (chain & own & batch & Hb & Hacc). exists batch. split; [done|by eexists _, _].
Qed.

(** Where an acquisition can end. *)
Definition acquire_post (config : HostNetworkConfig) (j0 : journal callback) (o : outcome HostNetworkLease) (js : HostState)
    (suf : trace) : Prop :=
  match o with
  | Ret l => report_ok (hl_preflight l) = true /\ blocking (hl_ownership l) = false /\
      resources_post config (Ret tt) js suf
  | Raise e => (js.1 = j0 \/ j_closed js.1 = true) /\ tun_shut js.2 /\ w_dnat js.2 = None /\ opened suf = closed suf /\
      match e with
      | HostPreflightError r => report_ok r = false /\ Forall (fun ev => inspecting (ev_call ev)) suf
      | StaleOwnershipError r => blocking r = true /\ Forall (fun ev => query_call (ev_call ev)) suf
      | _ => True
      end
  | OutOfFuel => False
  end.

Lemma acquire_post_error config j0 e js suf :
  gate_error e = false -> js.1 = j0 \/ j_closed js.1 = true -> tun_shut js.2 -> w_dnat js.2 = None -> opened suf = closed suf ->
  acquire_post config j0 (Raise e) js suf.
Proof. intros He Hj Ht Hd Ho. unfold acquire_post. split_and!; try done. by destruct e. Qed.

Lemma rthrows_create_firewall_backend id family paths : rthrows component_error (create_firewall_backend id family paths).
Proof.
  unfold create_firewall_backend, LibNftablesTransport, NftExecTransport, new_nft_firewall_backend,
    new_iptables_firewall_backend. throws.
Qed.

(** The gates in front of the guarded block. *)
Lemma acts_on_lib {A} (m : M LibState A) j lib Q :
  acts m lib (fun o lib' suf => Q o (j, fresh_world lib') suf) -> acts (on_lib m) (j, fresh_world lib) Q.
Proof. intros Hm. by apply acts_on_world, acts_zoom. Qed.

Lemma acts_guarded config f j0 lib t preflight ownership :
  firewall_good f -> firewall_tame f -> report_ok preflight = true -> blocking ownership = false ->
  opened t = [] -> closed t = [] ->
  acts (_ ← modify (fun js => (new_journal, js.2));
        _ ← try_except (acquire_resources config f) acquire_rollback;
        mret {| hl_preflight := preflight; hl_ownership := ownership |}) (j0, fresh_world lib)
    (fun o js suf => acquire_post config j0 o js (t ++ suf)).
Proof.
  intros Hgood Htame Hok Hnb Hop Hcl. apply acts_bind, acts_modify, acts_bind, acts_try. cbn [fst snd app].
  eapply acts_mono; [|apply acts_acquire_resources; [done|intros own; by apply throws_install]].
  intros [[]|e|] js suf Hpost; [| |done].
  - apply acts_ret. rewrite app_nil_r. split_and!; [done|done|].
    destruct Hpost as (l1 & l2 & fd & d & ? & ? & ? & ? & Hfds). exists l1, l2, fd, d. split_and!; try done.
    autorewrite with trace. by rewrite Hop, Hcl, Hfds.
  - eapply acts_mono; [|apply (acts_acquire_rollback config _ _ _ Hpost)].
    intros o js' suf' ((e' & -> & Hg & _) & Hj & Hshut & Hd & Hfds). apply acquire_post_error; auto.
    autorewrite with trace in *. by rewrite Hop, Hcl.
Qed.

Lemma inspecting_quiet t : Forall (fun ev => inspecting (ev_call ev)) t ->
  opened t = [] /\ closed t = [] /\ Forall (fun ev => query_call (ev_call ev)) t.
Proof.
  intros H. assert (opened t = [] /\ closed t = []) as [? ?].
  { apply passive_trace. eapply Forall_impl; [exact H|]. by intros [[]]. }
  split_and!; try done. eapply Forall_impl; [exact H|]. by intros [[]].
Qed.

(** From the ownership inspection on. *)
Lemma acts_after_preflight config paths f j0 lib t preflight :
  create_firewall_backend (hc_firewall_backend config) (table_family (hc_dnat config)) paths = Ok f ->
  report_ok preflight = true -> Forall (fun ev => inspecting (ev_call ev)) t ->
  acts (ownership ← on_lib (inspect_ownership f);
        _ ← of_res (raise_if (blocking ownership) (StaleOwnershipError ownership));
        _ ← on_lib (check_compatibility f (hc_dnat config));
        _ ← modify (fun js => (new_journal, js.2));
        _ ← try_except (acquire_resources config f) acquire_rollback;
        mret {| hl_preflight := preflight; hl_ownership := ownership |}) (j0, fresh_world lib)
    (fun o js suf => acquire_post config j0 o js (t ++ suf)).
Proof.
  intros Hf Hok (Hop & Hcl & Hqt)%inspecting_quiet.
  pose proof (create_firewall_backend_good _ _ _ _ Hf) as Hgood.
  pose proof (create_firewall_backend_tame _ _ _ _ Hf) as Htame.
  apply acts_bind, acts_on_lib. eapply acts_mono; [|apply (acts_and_throws component_error); [|by apply throws_inspect]].
  2: { apply (acts_emits query_call); [|by eapply emits_query_inspect].
       apply (acts_emits passive); [by apply acts_inspect|by apply emits_inspect_ownership]. }
  intros [ownership|e|] lib2 t2 [[[Hof2 [Hop2 Hcl2]%passive_trace] Hq] He2]; [| |done].
  2: { apply acquire_post_error; [by apply component_not_gate, He2|by left|done|done|]. autorewrite with trace. congruence. }
  assert (opened (t ++ t2) = [] /\ closed (t ++ t2) = []) as [Hop' Hcl'] by (autorewrite with trace; by rewrite Hop, Hcl, Hop2, Hcl2).
  apply acts_bind, acts_of_res. destruct (blocking ownership) eqn:Hb; cbn [raise_if].
  { unfold acquire_post. rewrite app_nil_r. split_and!; auto; [done|congruence|]. by apply Forall_app. }
  cbn [app]. apply acts_bind, acts_on_lib. eapply acts_mono; [|apply (acts_and_throws component_error); [|by apply throws_check]].
  2: { apply (acts_emits passive); [by eapply acts_check|by apply emits_check_compatibility]. }
  intros [[]|e|] lib3 t3 [[(Hof3 & _) [Hop3 Hcl3]%passive_trace] He3]; [| |done].
  2: { apply acquire_post_error; [by apply component_not_gate, He3|by left|done|done|].
       rewrite app_assoc. autorewrite with trace in *. by rewrite Hop3, Hcl3, Hop', Hcl'. }
  eapply acts_mono; [|apply (acts_guarded config f j0 lib3 ((t ++ t2) ++ t3)); try done].
  - intros o js suf. by rewrite !app_assoc.
  - autorewrite with trace in *. by rewrite Hop3, Hop'.
  - autorewrite with trace in *. by rewrite Hcl3, Hcl'.
Qed.

Lemma acts_acquire config paths j0 lib :
  acts (acquire_host_network config paths) (j0, fresh_world lib) (acquire_post config j0).
Proof.
  unfold acquire_host_network. apply acts_bind, acts_of_res.
  pose proof (rthrows_create_firewall_backend (hc_firewall_backend config) (table_family (hc_dnat config)) paths) as Herr.
  destruct (create_firewall_backend _ _ _) as [f|e] eqn:Hf; [|by apply acquire_post_error; auto using component_not_gate].
  cbn [app]. apply acts_bind, acts_of_res. destruct (negb _); cbn [raise_if app]; [by apply acquire_post_error; auto|].
  apply acts_bind. eapply acts_mono; [|apply (acts_and_throws component_error); [|apply throws_preflight]].
  2: { apply (acts_emits inspecting); [|apply emits_collect_preflight].
       eapply (acts_does _ _ _ (fun o js' suf => js' = (j0, fresh_world lib) /\ o <> OutOfFuel));
         [apply does_collect_preflight|]. by intros o suf [? _]. }
  intros [preflight|e|] js t [[[-> Hof] Hins] He]; [| |done].
  2: { destruct (inspecting_quiet t Hins) as (Hop & Hcl & _).
       apply acquire_post_error; [by apply component_not_gate, He|by left|done|done|congruence]. }
  apply acts_bind, acts_of_res. destruct (report_ok preflight) eqn:Hok; cbn [negb raise_if].
  2: { destruct (inspecting_quiet t Hins) as (Hop & Hcl & _). unfold acquire_post. rewrite app_nil_r.
       split_and!; auto; [done|congruence]. }
  cbn [app]. by apply (acts_after_preflight config paths).
Qed.

(** The stages of an acquisition: it stops at a gate, with nothing changed, or
    the gates are passed, and it is the guarded block and, when that fails, its
    rollback. *)
Definition stages (config : HostNetworkConfig) (paths : tool_paths) (j0 : journal callback) (tr : trace)
    (o : outcome HostNetworkLease) (js : HostState) (tr' : trace) : Prop :=
  (exists e t, o = Raise e /\ js.1 = j0 /\ tr' = tr ++ t /\ untouched t) \/
  exists f lib t1 o1 js1 t2,
    create_firewall_backend (hc_firewall_backend config) (table_family (hc_dnat config)) paths = Ok f /\
    untouched t1 /\ tried f (hc_dnat config) t1 /\
    acquire_resources config f (new_journal, fresh_world lib) (tr ++ t1) = (o1, js1, tr ++ t1 ++ t2) /\
    match o1 with
    | Ret _ => (exists l, o = Ret l) /\ js = js1 /\ tr' = tr ++ t1 ++ t2
    | Raise failure => exists e t3, o = Raise e /\ tr' = tr ++ t1 ++ t2 ++ t3 /\ rolled_back js1.1 failure e t3
    | OutOfFuel => False
    end.

Lemma stages_guarded config paths f j0 lib tr t1 (l : HostNetworkLease) :
  create_firewall_backend (hc_firewall_backend config) (table_family (hc_dnat config)) paths = Ok f ->
  untouched t1 -> tried f (hc_dnat config) t1 ->
  wp (_ ← modify (fun js => (new_journal, js.2));
      _ ← try_except (acquire_resources config f) acquire_rollback;
      mret l) (stages config paths j0 tr) (j0, fresh_world lib) (tr ++ t1).
Proof.
  intros Hf Ht1 Htried. apply wp_bind, wp_modify, wp_bind, wp_try. cbn [fst snd].
  pose proof (create_firewall_backend_good _ _ _ _ Hf) as Hgood. pose proof (create_firewall_backend_tame _ _ _ _ Hf) as Htame.
  pose proof (acts_acquire_resources config f lib Hgood (fun own => throws_install f _ own Htame) (tr ++ t1)) as Hres.
  unfold wp in Hres. destruct (acquire_resources config f (new_journal, fresh_world lib) (tr ++ t1)) as [[o1 js1] tr2] eqn:Hrun.
  destruct Hres as (t2 & -> & Hpost). apply (wp_run _ _ _ _ _ _ _ Hrun). rewrite <- app_assoc in *.
  destruct o1 as [[]|e|]; [| |done].
  - apply wp_ret. right. exists f, lib, t1, (Ret tt), js1, t2. split_and!; try done. by eexists.
  - eapply wp_of_acts; [apply (acts_acquire_rollback config _ _ _ Hpost)|].
    intros o js' t3 ((e' & -> & _ & Hback) & _). right. exists f, lib, t1, (Raise e), js1, t2. split_and!; try done.
    exists e', t3. by rewrite !app_assoc.
Qed.

Lemma stages_acquire config paths j0 lib tr :
  wp (acquire_host_network config paths) (stages config paths j0 tr) (j0, fresh_world lib) tr.
Proof.
  assert (forall e js t, js.1 = j0 -> untouched t -> stages config paths j0 tr (Raise e) js (tr ++ t)) as Hgate.
  { intros e js t Hj Ht. left. by exists e, t. }
  assert (forall e js, js.1 = j0 -> stages config paths j0 tr (Raise e) js tr) as Hstop.
  { intros e js Hj. left. exists e, []. rewrite app_nil_r. by split_and!; [..|split; [constructor|apply submits_nil]]. }
  unfold acquire_host_network. apply wp_bind, wp_of_res.
  destruct (create_firewall_backend _ _ _) as [f|e] eqn:Hf; [|by apply Hstop].
  apply wp_bind, wp_of_res. destruct (negb _); cbn [raise_if]; [by apply Hstop|].
  apply wp_bind. eapply wp_of_acts; [apply (acts_emits inspecting); [|apply emits_collect_preflight]|].
  { eapply (acts_does _ _ _ (fun o js' suf => js' = (j0, fresh_world lib) /\ o <> OutOfFuel)); [apply does_collect_preflight|].
    by intros o suf [? _]. }
  intros [preflight|e|] js t [[-> Hof] (_ & _ & Ht%query_untouched)%inspecting_quiet]; [|by apply Hgate|done].
  apply wp_bind, wp_of_res. destruct (negb (report_ok preflight)); cbn [raise_if]; [by apply Hgate|].
  apply wp_bind. eapply wp_of_acts; [apply (acts_on_lib _ _ _ (fun o js suf => exists lib', js = (j0, fresh_world lib') /\
    o <> OutOfFuel /\ untouched suf))|].
  { eapply acts_mono; [|apply (acts_emits query_call); [by apply acts_inspect, (create_firewall_backend_good _ _ _ _ Hf)|
      by eapply emits_query_inspect]].
    intros o lib' suf [Ho Hq%query_untouched]. by exists lib'. }
  intros o js t' (lib2 & -> & Ho & Ht'). rewrite <- app_assoc. assert (untouched (t ++ t')) as Htt by by apply untouched_app.
  destruct o as [ownership|e|]; [|by apply Hgate|done].
  apply wp_bind, wp_of_res. destruct (blocking ownership); cbn [raise_if]; [by apply Hgate|].
  apply wp_bind. eapply wp_of_acts; [apply (acts_on_lib _ _ _ (fun o js suf => exists lib', js = (j0, fresh_world lib') /\
    o <> OutOfFuel /\ untouched suf /\ (o = Ret tt -> tried f (hc_dnat config) suf)))|].
  { eapply acts_mono; [|by eapply acts_check]. intros o lib' suf H. by exists lib'. }
  intros o js t3 (lib3 & -> & Hof3 & Ht3 & Htried). rewrite <- app_assoc.
  assert (untouched ((t ++ t') ++ t3)) as Hall by by apply untouched_app.
  destruct o as [[]|e|]; [|by apply Hgate|done].
  apply stages_guarded; [done|done|]. by apply tried_app, Htried.
Qed.

(** C3. Acquiring the host network is a transaction.  Nothing is changed before
    the gates have passed: until then only inspection, listings and dry runs.
    On success the preflight was ok, the ownership report did not block, and the
    host accepted a dry run of the steering before anything was acquired;
    exactly one TUN descriptor is left open, the DNAT lease is held open, and
    both are registered for cleanup.  On any failure every descriptor that was
    opened has been closed, no queue and no DNAT lease is left, and the journal
    is closed or was never replaced.  The exception is that of the gate, or that
    of the guarded block when its rollback succeeded or had nothing to do, or
    both that one and the failure to close the queue.  A failing preflight stops
    after pure inspection, and unsafe ownership after listings only. *)
Theorem acquire_host_network_transaction config paths j0 lib tr :
  let '(o, js, tr') := acquire_host_network config paths (j0, fresh_world lib) tr in
  exists suf, tr' = tr ++ suf /\
  match o with
  | Ret l =>
      report_ok (hl_preflight l) = true /\ blocking (hl_ownership l) = false /\
      (exists label1 label2 fd name d,
        js.1 = Journal [(label1, CloseTun); (label2, CloseDnat)] false /\
        w_tun js.2 = Some {| tq_name := name; tq_fd := Some fd |} /\
        w_dnat js.2 = Some d /\ dnat_closed d = false /\
        opened suf = closed suf ++ [fd]) /\
      exists f lib1 t1 t2,
        create_firewall_backend (hc_firewall_backend config) (table_family (hc_dnat config)) paths = Ok f /\
        suf = t1 ++ t2 /\ untouched t1 /\ tried f (hc_dnat config) t1 /\
        acquire_resources config f (new_journal, fresh_world lib1) (tr ++ t1) = (Ret tt, js, tr')
  | Raise e =>
      (js.1 = j0 \/ j_closed js.1 = true) /\
      (forall q, w_tun js.2 = Some q -> tq_fd q = None) /\ w_dnat js.2 = None /\ opened suf = closed suf /\
      match e with
      | HostPreflightError r => report_ok r = false /\ Forall (fun ev => inspecting (ev_call ev)) suf
      | StaleOwnershipError r => blocking r = true /\ Forall (fun ev => query_call (ev_call ev)) suf
      | _ => js.1 = j0 /\ untouched suf \/
          exists f lib1 t1 t2 t3 failure js1,
            create_firewall_backend (hc_firewall_backend config) (table_family (hc_dnat config)) paths = Ok f /\
            suf = t1 ++ t2 ++ t3 /\ untouched t1 /\ tried f (hc_dnat config) t1 /\
            acquire_resources config f (new_journal, fresh_world lib1) (tr ++ t1) = (Raise failure, js1, tr ++ t1 ++ t2) /\
            rolled_back js1.1 failure e t3
      end
  | OutOfFuel => False
  end.
Proof.
  pose proof (stages_acquire config paths j0 lib tr) as Hst. unfold wp in Hst.
  destruct (acquire_host_network config paths (j0, fresh_world lib) tr) as [[o js] tr'] eqn:Hrun.
  destruct (acts_run _ _ _ _ _ _ _ (acts_acquire config paths j0 lib) Hrun) as (suf & -> & Hpost).
  exists suf. split; [done|]. destruct o as [l|e|]; [| |done].
  - destruct Hpost as (Hok & Hb & l1 & l2 & fd & d & Hj & [name Htun] & Hd & [Hc _] & Hfds).
    split_and!; [done|done|by exists l1, l2, fd, name, d|].
    destruct Hst as [(? & ? & ? & _)|(f & lib1 & t1 & o1 & js1 & t2 & Hf & Hu & Ht & Hres & Ho)]; [done|].
    destruct o1 as [[]|?|]; [|naive_solver|done]. destruct Ho as (_ & -> & Heq). exists f, lib1, t1, t2. rewrite Heq.
    apply app_inv_head in Heq. by split_and!.
  - destruct Hpost as (H1 & H2 & H3 & H4 & H5). split_and!; try done.
    enough (js.1 = j0 /\ untouched suf \/ exists f lib1 t1 t2 t3 failure js1,
      create_firewall_backend (hc_firewall_backend config) (table_family (hc_dnat config)) paths = Ok f /\
      suf = t1 ++ t2 ++ t3 /\ untouched t1 /\ tried f (hc_dnat config) t1 /\
      acquire_resources config f (new_journal, fresh_world lib1) (tr ++ t1) = (Raise failure, js1, tr ++ t1 ++ t2) /\
      rolled_back js1.1 failure e t3) as Hend by by destruct e.
    destruct Hst as [(? & t & _ & Hj & ->%app_inv_head & Hu)|(f & lib1 & t1 & o1 & js1 & t2 & Hf & Hu & Ht & Hres & Ho)]; [by left|].
    destruct o1 as [[]|failure|]; [naive_solver| |done]. destruct Ho as (e' & t3 & [= <-] & ->%app_inv_head & Hback).
    right. by exists f, lib1, t1, t2, t3, failure, js1.
Qed.

(** C4. Closing the host network lease releases everything it owns, DNAT
    first: the steering is withdrawn (a failure there does not stop the rest,
    and a clean close means it was withdrawn without error), then the TUN
    descriptor is closed, once; both objects end closed, and closing again
    does nothing. *)
Theorem host_lease_close_releases config paths j0 lib tr :
  let '(o, js, tr1) := acquire_host_network config paths (j0, fresh_world lib) tr in
  match o with
  | Ret _ =>
      let '(o2, js2, tr2) := host_lease_close js tr1 in
      exists fd name d suf1 suf2 o1,
        w_tun js.2 = Some {| tq_name := name; tq_fd := Some fd |} /\ w_dnat js.2 = Some d /\
        tr2 = tr1 ++ suf1 ++ suf2 /\
        withdrawn d o1 suf1 /\ (o2 = Ret tt -> o1 = Ret tt) /\
        ev_call <$> suf2 = [CClose fd] /\
        (forall q, w_tun js2.2 = Some q -> tq_fd q = None) /\
        (exists d', w_dnat js2.2 = Some d' /\ dnat_closed d' = true) /\
        forall tr3, host_lease_close js2 tr3 = (Ret tt, js2, tr3)
  | _ => True
  end.
Proof.
  destruct (acquire_host_network config paths (j0, fresh_world lib) tr) as [[o [j w]] tr1] eqn:Hrun.
  destruct (acts_run _ _ _ _ _ _ _ (acts_acquire config paths j0 lib) Hrun) as (suf & -> & Hpost).
  destruct o as [l|e|]; [|done|done].
  destruct Hpost as (_ & _ & l1 & l2 & fd & d & Hj & Htun & Hd & Hgood & _). cbn [fst snd] in *. subst j.
  destruct (host_lease_close (Journal [(l1, CloseTun); (l2, CloseDnat)] false, w) (tr ++ suf)) as [[o2 [j2 w2]] tr2] eqn:Hclose.
  destruct (acts_run _ _ _ _ _ _ _ (acts_close_both l1 l2 _ w fd d Htun Hd Hgood) Hclose)
    as (suf' & -> & Hj2 & Hshut & Hd2 & suf1 & o1 & r & -> & _ & _ & Hwd & Hof & ->).
  destruct Htun as [name Htun]. cbn [fst snd] in *. subst j2.
  exists fd, name, d, suf1, [Ev (CClose fd) r], o1. split_and!; try done.
  - unfold cleanup_outcome. by destruct o1 as [[]|e|], r.
  - exists (dnat_shut d). split; [done|apply dnat_shut_closed].
Qed.

End proofs.
