(* ===== verification/Config.v ===== *)
(** * Service configuration

    The endpoints, the configuration record and its validation, the check of
    the hosted kernel image and the configurations derived from it, of
    [tools/tcpcc_cli.py].  A [float] is an exact rational; the infinities and
    NaN fail every range check of this file and are values that are not numbers. *)

From S2P Require Import Prelude PyStr Reports Py Effects Struct IpAddr Preflight Tun Nft HostNetwork.
Local Open Scope Z_scope.

Definition DEFAULT_TUN_HOST_ADDRESS : string := "198.18.0.1".
Definition DEFAULT_TUN_GUEST_ADDRESS : string := "198.18.0.2".
Definition DEFAULT_TUN_HOST_ADDRESS_IPV6 : string := "fd00:198:18::1".
Definition DEFAULT_TUN_GUEST_ADDRESS_IPV6 : string := "fd00:198:18::2".
Definition DEFAULT_BACKLOG : Z := 128.
Definition DEFAULT_POLL_INTERVAL : Q := 1 # 100.
Definition DEFAULT_KERNEL_SHUTDOWN_TIMEOUT : Q := 10.
Definition DEFAULT_MEMORY_MIB : Z := 128.
Definition MINIMUM_MEMORY_MIB : Z := 128.
Definition BRIDGE_SESSION_LIMIT : Z := 1048575.
Definition DEFAULT_MAX_CONNECTIONS : Z := 0.
Definition DEFAULT_SHUTDOWN_GRACE_PERIOD : Q := 5.
Definition MAX_SHUTDOWN_GRACE_PERIOD : Q := 300.
Definition IPTABLES_VARIANTS : list string := ["iptables"; "iptables-nft"; "iptables-legacy"].

(** ** Endpoints *)

Record Endpoint := { address : string; port : Z }.

(** An address a listener can have. *)
Definition usable_unicast (a : ip_addr) : bool :=
  negb (is_unspecified a || is_multicast a || ((ip_version a =? 4) && (ip_int a =? 0xFFFFFFFF))).

(** [int(text, 10)] of a text of decimal digits; longer texts are refused. *)
Definition int_of_digits (text : string) : res Z :=
  if (4300 <? String.length text)%nat
  then Err (ValueError ("Exceeds the limit (4300 digits) for integer string conversion: value has "
                        +:+ str_of_Z (Z.of_nat (String.length text))
                        +:+ " digits; use sys.set_int_max_str_digits() to increase the limit"))
  else Ok (digits_val 10 0 text).

(** The address text, the port text and the version its syntax calls for. *)
Definition endpoint_parts (value : string) : option (string * string * Z) :=
  match value with
  | String c _ =>
      if is_char "[" c then
        closing ← str_find "]" value;
        match str_drop (S closing) value with
        | String c' port_text =>
            if is_char ":" c' then Some (str_take (closing - 1) (str_drop 1 value), port_text, 6) else None
        | EmptyString => None
        end
      else if (str_count ":" value =? 1)%nat then
        colon ← str_find ":" value;
        Some (str_take colon value, str_drop (S colon) value, 4)
      else None
  | EmptyString => None
  end.

(** [Endpoint.parse] *)
Definition endpoint_parse (value : pyval) (fld : string) : res Endpoint :=
  let syntax := ValueError (fld +:+ " must use IPv4:port or [IPv6]:port syntax") in
  let bad_port := ValueError (fld +:+ " port must be from 1 through 65535") in
  text ← match value with
         | VStr s => if str_mem nul s then Err syntax else Ok s
         | _ => Err syntax
         end;
  '(address_text, port_text, expected_version) ← res_of_option syntax (endpoint_parts text);
  a ← res_of_option (ValueError (fld +:+ " address must be a literal IP address")) (ip_address address_text);
  _ ← raise_if (negb (ip_version a =? expected_version))
        (ValueError (fld +:+ " has mismatched address syntax"));
  _ ← raise_if (negb (usable_unicast a))
        (ValueError (fld +:+ " address must be a usable unicast IP address"));
  _ ← raise_if (str_empty port_text || negb (str_forallb is_digit port_text)) bad_port;
  p ← int_of_digits port_text;
  _ ← raise_if (negb ((1 <=? p) && (p <=? 65535))) bad_port;
  Ok {| address := str_of_ip a; port := p |}.

(** [ipaddress.ip_address(text)] *)
Definition parse_ip (text : string) : res ip_addr :=
  res_of_option (ValueError (py_repr text +:+ " does not appear to be an IPv4 or IPv6 address")) (ip_address text).

(** [Endpoint.version], [Endpoint.ipv4_u32] and [Endpoint.__str__] *)
Definition endpoint_version (e : Endpoint) : res Z := a ← parse_ip (address e); Ok (ip_version a).
Definition ipv4_u32 (e : Endpoint) : res Z :=
  res_of_option (Sys (SException "AddressValueError" (address e))) (ipv4_address (address e)).
Definition endpoint_str (e : Endpoint) : res string :=
  v ← endpoint_version e;
  Ok (if v =? 6 then "[" +:+ address e +:+ "]:" +:+ str_of_Z (port e)
      else address e +:+ ":" +:+ str_of_Z (port e)).

(** [_endpoint_argument] and [_ip_argument]: what [argparse] calls. *)
Definition endpoint_argument (fld value : string) : res Endpoint :=
  match endpoint_parse (VStr value) fld with
  | Err e => if is_ValueError e then Err (ArgumentTypeError (exn_str e)) else Err e
  | ok => ok
  end.
Definition ip_argument (fld value : string) : res string :=
  a ← res_of_option (ArgumentTypeError (fld +:+ " must be a literal IP address")) (ip_address value);
  _ ← raise_if (negb (usable_unicast a)) (ArgumentTypeError (fld +:+ " must be usable unicast IP"));
  Ok (str_of_ip a).

(** ** The configuration *)

Record ServiceConfig := {
  listen : Endpoint;
  backend : Endpoint;
  cc : string;
  kernel : string;
  memory_mib : Z;
  firewall_backend : string;
  iptables_variant : string;
  tun_name : option string;
  tun_host_address : string;
  tun_guest_address : string;
  backlog : Z;
  max_connections : Z;
  shutdown_grace_period : pyval;
  poll_interval : pyval;
}.

(** The arguments of the constructor; an endpoint that is not an [Endpoint] is
    the other value. *)
Record ServiceArgs := {
  a_listen : Endpoint + pyval;
  a_backend : Endpoint + pyval;
  a_cc : pyval;
  a_kernel : string;
  a_memory_mib : pyval;
  a_firewall_backend : string;
  a_iptables_variant : string;
  a_tun_name : option string;
  a_tun_host_address : option string;
  a_tun_guest_address : option string;
  a_backlog : pyval;
  a_max_connections : pyval;
  a_shutdown_grace_period : pyval;
  a_poll_interval : pyval;
}.

(** [isinstance(v, (int, float))] and not [bool] *)
Definition as_number (v : pyval) : option Q :=
  match v with VInt z => Some (inject_Z z) | VFloat q => Some q | _ => None end.

(** An [int], not a [bool], in a range; [None] is no upper bound. *)
Definition int_between (v : pyval) (minimum : Z) (maximum : option Z) (e : exn) : res Z :=
  match v with
  | VInt z => if (minimum <=? z) && match maximum with Some m => z <=? m | None => true end
              then Ok z else Err e
  | _ => Err e
  end.

(** [text or other] *)
Definition text_or (text : option string) (other : string) : string :=
  match text with Some s => if str_empty s then other else s | None => other end.

Definition an_endpoint (v : Endpoint + pyval) (fld : string) : res Endpoint :=
  match v with inl e => Ok e | inr _ => Err (TypeError (fld +:+ " must be an Endpoint")) end.

(** The addresses of the point-to-point link, from the family of the listener. *)
Definition tun_addresses (version : Z) (host guest : option string) : res (ip_addr * ip_addr) :=
  let literal := ValueError "TUN addresses must be literal IP addresses" in
  let v4 := version =? 4 in
  h ← res_of_option literal
        (ip_address (text_or host (if v4 then DEFAULT_TUN_HOST_ADDRESS else DEFAULT_TUN_HOST_ADDRESS_IPV6)));
  g ← res_of_option literal
        (ip_address (text_or guest (if v4 then DEFAULT_TUN_GUEST_ADDRESS else DEFAULT_TUN_GUEST_ADDRESS_IPV6)));
  _ ← raise_if (negb (ip_version h =? version) || negb (ip_version g =? version))
        (ValueError "TUN and public-listener address families must match");
  _ ← raise_if (bool_decide (h = g) || is_unspecified h || is_unspecified g || (is_multicast h || is_multicast g))
        (ValueError "TUN addresses must be distinct usable unicast addresses");
  Ok (h, g).

(** [ServiceConfig.__post_init__] *)
Definition new_service_config (a : ServiceArgs) : res ServiceConfig :=
  l ← an_endpoint (a_listen a) "listen";
  b ← an_endpoint (a_backend a) "backend";
  bv ← endpoint_version b;
  _ ← raise_if (negb (bv =? 4) || negb (bool_decide (address b = "127.0.0.1")))
        (ValueError "backend must use 127.0.0.1; the current hosted bridge intentionally reaches only a local application");
  lv ← endpoint_version l;
  '(h, g) ← tun_addresses lv (a_tun_host_address a) (a_tun_guest_address a);
  mem ← int_between (a_memory_mib a) MINIMUM_MEMORY_MIB None
          (ValueError ("hosted memory must be at least " +:+ str_of_Z MINIMUM_MEMORY_MIB +:+ " MiB"));
  name ← match a_cc a with
         | VStr s => if cc_name_match s then Ok s else
             Err (ValueError "cc must contain 1-15 lowercase letters, digits, underscores, or hyphens")
         | _ => Err (ValueError "cc must contain 1-15 lowercase letters, digits, underscores, or hyphens")
         end;
  _ ← raise_if (negb (str_in (a_firewall_backend a) FIREWALL_BACKENDS)) (backend_choice_error "firewall backend");
  _ ← raise_if (negb (str_in (a_iptables_variant a) IPTABLES_VARIANTS))
        (ValueError ("iptables variant must be one of: " +:+ str_join ", " IPTABLES_VARIANTS));
  bl ← int_between (a_backlog a) 1 (Some 4096) (ValueError "backlog must be from 1 through 4096");
  mc ← int_between (a_max_connections a) 0 (Some BRIDGE_SESSION_LIMIT)
         (ValueError ("max connections must be 0 (unlimited) or from 1 through " +:+ str_of_Z BRIDGE_SESSION_LIMIT));
  _ ← raise_if (match as_number (a_shutdown_grace_period a) with
                | Some q => negb (Qle_bool 0 q && Qle_bool q MAX_SHUTDOWN_GRACE_PERIOD)
                | None => true
                end) (ValueError "shutdown grace period must be from 0 through 300 seconds");
  _ ← raise_if (match as_number (a_poll_interval a) with
                | Some q => negb (negb (Qle_bool q 0) && Qle_bool q 1)
                | None => true
                end) (ValueError "poll interval must be greater than 0 and at most 1 second");
  Ok {| listen := l; backend := b; cc := name; kernel := a_kernel a; memory_mib := mem;
        firewall_backend := a_firewall_backend a; iptables_variant := a_iptables_variant a;
        tun_name := a_tun_name a; tun_host_address := str_of_ip h; tun_guest_address := str_of_ip g;
        backlog := bl; max_connections := mc; shutdown_grace_period := a_shutdown_grace_period a;
        poll_interval := a_poll_interval a |}.

(** [host_network_config]; the MTU is the default of [TunConfig]. *)
Definition host_network_config (config : ServiceConfig) : res HostNetworkConfig :=
  tun ← new_tun_config (VStr (tun_host_address config)) (VStr (tun_guest_address config)) (VInt DEFAULT_TUN_MTU)
          (from_option VStr VNone (tun_name config));
  dnat ← new_nft_dnat_config (VStr (address (listen config))) (VInt (port (listen config)))
           (VStr (tun_guest_address config)) (VInt (port (listen config))) VNone;
  new_host_network_config (VStr (cc config)) tun dnat (firewall_backend config).

(** [iptables_paths]; each variant starts with the text that is replaced. *)
Definition iptables_paths (variant : string) (version : Z) : res (string * string * string) :=
  _ ← raise_if (negb (str_in variant IPTABLES_VARIANTS)) (ValueError "unsupported iptables variant");
  _ ← raise_if (negb ((version =? 4) || (version =? 6))) (ValueError "unsupported IP version");
  let command :=
    if version =? 4 then variant
    else match strip_prefix "iptables" variant with Some rest => "ip6tables" +:+ rest | None => variant end in
  Ok (command, command +:+ "-restore", command +:+ "-save").

(** ** The hosted kernel image *)

Definition ELF_HEADER : list field :=
  [FStr 16; FUint 2; FUint 2; FUint 4; FUint 8; FUint 8; FUint 8; FUint 4;
   FUint 2; FUint 2; FUint 2; FUint 2; FUint 2; FUint 2].
Definition ELF_PROGRAM_HEADER : list field :=
  [FUint 4; FUint 4; FUint 8; FUint 8; FUint 8; FUint 8; FUint 8; FUint 8].
Definition ELFCLASS64 : Z := 2.
Definition ELFDATA2LSB : Z := 1.
Definition ET_EXEC : Z := 2.
Definition EM_X86_64 : Z := 62.
Definition PT_INTERP : Z := 3.

(** [os.X_OK] and [stat.S_ISREG] *)
Definition X_OK : Z := 1.
Definition S_ISREG (mode : Z) : bool := Z.land mode 0xF000 =? 0x8000.

Record elf_header := {
  ident : bytes;
  image_type : Z;
  machine : Z;
  elf_version : Z;
  entry : Z;
  program_offset : Z;
  header_size : Z;
  program_size : Z;
  program_count : Z;
}.

(** [ELF_HEADER.unpack]; the section fields and the flags are unused. *)
Definition unpack_elf_header (raw : bytes) : elf_header :=
  let '(id, (ty, (mach, (ver, (ent, (phoff, (_, (_, (ehsize, (phsize, (phnum, _))))))))))) := unpack ELF_HEADER raw in
  {| ident := id; image_type := ty; machine := mach; elf_version := ver; entry := ent;
     program_offset := phoff; header_size := ehsize; program_size := phsize; program_count := phnum |}.

(** [ELF_PROGRAM_HEADER.unpack(raw)[0]] *)
Definition program_type (raw : bytes) : Z := fst (unpack ELF_PROGRAM_HEADER raw).

Definition elf_magic : bytes := [Byte.x7f; Byte.x45; Byte.x4c; Byte.x46].
Definition ident_byte (h : elf_header) (i : nat) : Z := from_option b2z 0 (ident h !! i).

(** The checks of the header, against the size of the file. *)
Definition check_elf_header (h : elf_header) (size : Z) : res unit :=
  _ ← raise_if (negb (bool_decide (take 4 (ident h) = elf_magic))) (ValueError "kernel image is not ELF");
  _ ← raise_if (negb (ident_byte h 4 =? ELFCLASS64) || negb (ident_byte h 5 =? ELFDATA2LSB))
        (ValueError "kernel image must be 64-bit little-endian ELF");
  _ ← raise_if (negb (image_type h =? ET_EXEC) || negb (machine h =? EM_X86_64) || negb (elf_version h =? 1))
        (ValueError "kernel image must be an x86-64 ET_EXEC ELF");
  _ ← raise_if (negb (header_size h =? Z.of_nat (calcsize ELF_HEADER)) || (entry h =? 0))
        (ValueError "kernel image has an invalid ELF entry header");
  raise_if ((program_count h =? 0) || (program_size h <? Z.of_nat (calcsize ELF_PROGRAM_HEADER))
            || (program_offset h <? Z.of_nat (calcsize ELF_HEADER))
            || (size <? program_offset h + program_size h * program_count h))
    (ValueError "kernel image has an invalid program-header table").

Section image.
Context `{E : Env} {S : Type}.

(** [try: m except OSError as error: raise ValueError(text(error))] *)
Definition wrap_OSError {A} (m : M S A) (text : string -> string) : M S A :=
  try_except m (fun e => if is_OSError e then raise (ValueError (text (exn_str e))) else raise e).

(** One turn of the loop over the program headers. *)
Definition check_program_header (resolved : string) (h : elf_header) (index : nat) : M S unit :=
  raw ← perform (CReadAt resolved (program_offset h + Z.of_nat index * program_size h)
                         (Z.of_nat (calcsize ELF_PROGRAM_HEADER)));
  if (length raw =? calcsize ELF_PROGRAM_HEADER)%nat then
    if program_type raw =? PT_INTERP
    then raise (ValueError "kernel image unexpectedly requires an ELF interpreter")
    else mret tt
  else raise (ValueError "kernel image has a truncated program header").

Definition read_image (resolved : string) (size : Z) : M S unit :=
  raw ← perform (CReadAt resolved 0 (Z.of_nat (calcsize ELF_HEADER)));
  if (length raw =? calcsize ELF_HEADER)%nat then
    let h := unpack_elf_header raw in
    _ ← of_res (check_elf_header h size);
    for_each (seq 0 (Z.to_nat (program_count h))) (check_program_header resolved h)
  else raise (ValueError "kernel image has a truncated ELF header").

(** [path.expanduser().resolve(strict=True)] and its [stat()] *)
Definition locate_image (path : string) : M S (string * stat_result) :=
  resolved ← perform (CResolve path);
  metadata ← perform (CStat resolved);
  mret ((resolved, metadata) : string * stat_result).

(** [validate_kernel_image]; a value that is not a [Path] is the other one. *)
Definition validate_kernel_image (path : string + pyval) : M S string :=
  match path with
  | inr _ => raise (TypeError "kernel path must be a pathlib.Path")
  | inl path =>
      '(resolved, metadata) ← wrap_OSError (locate_image path)
        (fun error => "kernel image is unavailable: " +:+ path +:+ ": " +:+ error);
      if negb (S_ISREG (st_mode metadata))
      then raise (ValueError ("kernel image is not a regular file: " +:+ resolved))
      else
        executable ← perform (CAccess resolved X_OK);
        if negb executable
        then raise (ValueError ("kernel image is not executable: " +:+ resolved))
        else
          _ ← wrap_OSError (read_image resolved (st_size metadata))
                (fun error => "kernel image cannot be read: " +:+ resolved +:+ ": " +:+ error);
          mret resolved
  end.

End image.

(** ** From the command line *)

(** The parsed arguments; a [float] that is not finite is not a number. *)
Record Namespace := {
  ns_listen : Endpoint;
  ns_backend : Endpoint;
  ns_cc : string;
  ns_kernel : string;
  ns_memory_mib : Z;
  ns_firewall_backend : string;
  ns_iptables_variant : string;
  ns_tun_name : option string;
  ns_tun_host_address : option string;
  ns_tun_guest_address : option string;
  ns_backlog : Z;
  ns_max_connections : Z;
  ns_shutdown_grace_period : pyval;
}.

Definition namespace_args (n : Namespace) (kernel : string) : ServiceArgs := {|
  a_listen := inl (ns_listen n); a_backend := inl (ns_backend n); a_cc := VStr (ns_cc n); a_kernel := kernel;
  a_memory_mib := VInt (ns_memory_mib n); a_firewall_backend := ns_firewall_backend n;
  a_iptables_variant := ns_iptables_variant n; a_tun_name := ns_tun_name n;
  a_tun_host_address := ns_tun_host_address n; a_tun_guest_address := ns_tun_guest_address n;
  a_backlog := VInt (ns_backlog n); a_max_connections := VInt (ns_max_connections n);
  a_shutdown_grace_period := ns_shutdown_grace_period n; a_poll_interval := VFloat DEFAULT_POLL_INTERVAL |}.

Definition config_from_namespace `{E : Env} {S} (n : Namespace) : M S ServiceConfig :=
  _ ← of_res (raise_if (negb (bool_decide (ns_firewall_backend n = "iptables"))
                        && negb (bool_decide (ns_iptables_variant n = "iptables")))
                (ValueError "--iptables-variant is valid only with --firewall-backend=iptables"));
  _ ← of_res (raise_if (match ns_tun_host_address n with
                        | Some h => bool_decide (Some h = ns_tun_guest_address n)
                        | None => false
                        end) (ValueError "TUN host and guest addresses must be different"));
  resolved ← validate_kernel_image (inl (ns_kernel n));
  of_res (new_service_config (namespace_args n resolved)).

(** ** Endpoints: lemmas *)

Lemma str_mem_take_drop c n s :
  str_mem c s = false -> str_mem c (str_take n s) = false /\ str_mem c (str_drop n s) = false.
Proof.
  rewrite <- (str_take_drop n s) at 1. rewrite str_mem_app. intros H. by bool_to_prop.
Qed.

Lemma str_find_take c s n : str_find c s = Some n -> str_mem c (str_take n s) = false.
Proof.
  unfold str_mem. revert n. induction s as [|d s IH]; intros n; cbn [str_find]; [done|].
  destruct (is_char c d) eqn:Hd; [by intros [= <-]|].
  destruct (str_find c s) as [m|]; [|done]. intros [= <-]. cbn. by rewrite Hd, IH.
Qed.

Lemma str_of_ip_not_mem s a c :
  ip_address s = Some a -> str_mem c s = false -> is_ip_char c = false -> c <> "%"%char ->
  str_mem c (str_of_ip a) = false.
Proof.
  intros Ha Hs Hc Hp. destruct (unscoped a) eqn:Hu.
  { eapply str_forallb_not_mem; [by apply str_of_ip_chars|done]. }
  unfold ip_address in Ha. destruct (ipv4_address s); [by simplify_eq|].
  unfold ipv6_address, split_scope_id in Ha. destruct (str_mem "/" s); [done|].
  destruct (str_find "%" s) as [i|] eqn:Hi.
  - destruct (_ || _) in Ha; [done|]. cbn [mbind option_bind] in Ha.
    destruct (ipv6_int_from_string _) as [v|]; [|done]. cbn [mbind option_bind] in Ha. injection Ha as <-. cbn [str_of_ip].
    unfold is_ip_char in Hc. bool_to_prop.
    rewrite !str_mem_app, ipv6_str_not_mem; [|done|by intros ->].
    pose proof (str_find_drop_sub "%" c s i Hi Hs) as Hd. cbn [str_drop] in Hd. rewrite Hd. unfold str_mem. cbn [str_existsb]. by rewrite is_char_ne.
  - cbn in Ha. destruct (ipv6_int_from_string _); [|done]. cbn in Ha. by simplify_eq.
Qed.

Lemma endpoint_parts_not_mem s addr p v c :
  endpoint_parts s = Some (addr, p, v) -> str_mem c s = false -> str_mem c addr = false.
Proof.
  unfold endpoint_parts. destruct s as [|d s]; [done|]. intros H Hc. destruct (is_char "[" d).
  - destruct (str_find "]" _); [|done]. cbn [mbind option_bind] in H.
    destruct (str_drop (S n) _) as [|c' ?]; [done|]. destruct (is_char ":" c'); [|done]. simplify_eq.
    by apply str_mem_take_drop, (str_mem_take_drop c 1).
  - destruct (_ =? 1)%nat; [|done]. destruct (str_find ":" _); [|done]. cbn [mbind option_bind] in H. simplify_eq.
    by apply str_mem_take_drop.
Qed.

Lemma endpoint_parts_closing s addr p : endpoint_parts s = Some (addr, p, 6) -> str_mem "]" addr = false.
Proof.
  unfold endpoint_parts. destruct s as [|d s]; [done|]. intros H. destruct (is_char "[" d) eqn:Hd.
  - apply is_char_true in Hd as <-. destruct (str_find "]" _) as [n|] eqn:Hn; [|done]. cbn [mbind option_bind] in H.
    destruct (str_drop (S n) _) as [|c' ?]; [done|]. destruct (is_char ":" c'); [|done]. simplify_eq.
    cbn in Hn. destruct (str_find "]" s) as [m|] eqn:Hm; [|done]. injection Hn as <-. cbn.
    rewrite Nat.sub_0_r. by apply str_find_take.
  - destruct (_ =? 1)%nat; [|done]. by destruct (str_find ":" _).
Qed.

Lemma str_drop_after c s t : str_drop (S (String.length s)) (s +:+ String c t) = t.
Proof. induction s as [|d s IH]; [done|]. rewrite str_app_cons. exact IH. Qed.

Lemma endpoint_parts_v6 addr p :
  str_mem "]" addr = false -> endpoint_parts ("[" +:+ addr +:+ "]:" +:+ p) = Some (addr, p, 6).
Proof.
  intros Ha. unfold endpoint_parts.
  change ("[" +:+ addr +:+ "]:" +:+ p) with (String "[" (addr +:+ String "]" (String ":" p))).
  cbv beta iota. rewrite is_char_refl.
  change (String "[" (addr +:+ String "]" (String ":" p))) with (String "[" addr +:+ String "]" (String ":" p)).
  rewrite (str_find_app "]" (String "[" addr)).
  - cbn [mbind option_bind]. rewrite str_drop_after, is_char_refl. rewrite str_app_cons. cbn [String.length str_drop Nat.sub].
    by rewrite Nat.sub_0_r, str_take_app.
  - unfold str_mem in *. cbn. exact Ha.
Qed.

Lemma str_count_not_mem c s : str_mem c s = false -> str_count c s = 0%nat.
Proof. unfold str_mem. induction s as [|d s IH]; cbn; [done|]. intros H. bool_to_prop. by rewrite H, IH. Qed.

Lemma str_count_app c s t : str_count c (s +:+ t) = (str_count c s + str_count c t)%nat.
Proof. induction s as [|d s IH]; [done|]. rewrite str_app_cons. cbn. destruct (is_char c d); by rewrite IH. Qed.

Lemma endpoint_parts_v4 c addr p :
  is_char "[" c = false -> str_mem ":" (String c addr) = false -> str_mem ":" p = false ->
  endpoint_parts (String c addr +:+ ":" +:+ p) = Some (String c addr, p, 4).
Proof.
  intros Hc Ha Hp. unfold endpoint_parts. rewrite str_app_cons, Hc.
  change (String c (addr +:+ ":" +:+ p)) with (String c addr +:+ String ":" p).
  rewrite str_count_app, str_count_not_mem by done.
  assert (str_count ":" (String ":" p) = 1%nat) as -> by (cbn; by rewrite str_count_not_mem).
  cbn [Nat.add Nat.eqb]. rewrite str_find_app by done. cbn [mbind option_bind].
  by rewrite str_take_app, str_drop_after.
Qed.

(** What [Endpoint.parse] accepts. *)
Definition good_endpoint (e : Endpoint) (a : ip_addr) : Prop :=
  ip_wf a = true /\ usable_unicast a = true /\ address e = str_of_ip a /\ 1 <= port e <= 65535 /\
  str_mem nul (str_of_ip a) = false /\ (ip_version a = 6 -> str_mem "]" (str_of_ip a) = false).

Lemma endpoint_parse_good v fld e : endpoint_parse v fld = Ok e -> exists a, good_endpoint e a.
Proof.
  unfold endpoint_parse. intros H. res_inv.
  destruct v as [| | | |t| |]; try done. destruct (str_mem nul t) eqn:Hnul; [done|]. simplify_eq.
  destruct (endpoint_parts _) as [[[addr p] ver]|] eqn:Hparts; [|done]. cbn in H1. simplify_eq. res_inv.
  destruct (ip_address addr) as [a'|] eqn:Ha; [|done]. cbn in *. simplify_eq.
  exists x0. bool_to_prop. unfold good_endpoint. cbn [address port].
  split_and!; try done; [by apply ip_address_wf in Ha|..].
  - eapply str_of_ip_not_mem; [done| |done|done]. by eapply endpoint_parts_not_mem.
  - intros H6. eapply str_of_ip_not_mem; [done| |done|done]. subst. rewrite H6 in *.
    by eapply endpoint_parts_closing.
Qed.

Lemma good_endpoint_str e a :
  good_endpoint e a ->
  endpoint_str e = Ok (if ip_version a =? 6 then "[" +:+ str_of_ip a +:+ "]:" +:+ str_of_Z (port e)
                       else str_of_ip a +:+ ":" +:+ str_of_Z (port e)).
Proof.
  intros (Hwf & _ & Haddr & _). unfold endpoint_str, endpoint_version, parse_ip. rewrite Haddr.
  by rewrite ip_address_str.
Qed.

Lemma endpoint_parts_str a p :
  0 <= p -> (ip_version a = 6 -> str_mem "]" (str_of_ip a) = false) ->
  endpoint_parts (if ip_version a =? 6 then "[" +:+ str_of_ip a +:+ "]:" +:+ str_of_Z p
                  else str_of_ip a +:+ ":" +:+ str_of_Z p) = Some (str_of_ip a, str_of_Z p, ip_version a).
Proof.
  intros Hp H6. destruct a as [v|v scope]; cbn [ip_version Z.eqb Pos.eqb] in *.
  - assert (str_mem ":" (str_of_ip (IPv4Address v)) = false) as Hcolon.
    { apply str_mem_join; [done|]. by apply octet_strs_not_mem. }
    pose proof (str_of_ip_chars (IPv4Address v) eq_refl) as Hchars.
    destruct (str_of_ip (IPv4Address v)) as [|c s] eqn:Hs.
    + exfalso. cbn [str_of_ip] in Hs. unfold ipv4_str in Hs. cbn in Hs.
      destruct (str_of_Z (v / 16777216 mod 256)); by autorewrite with str in Hs.
    + apply endpoint_parts_v4; [|done|by apply str_of_Z_not_mem].
      cbn in Hchars. bool_to_prop. apply is_char_ne. intros <-. done.
  - by apply endpoint_parts_v6, H6.
Qed.

Lemma port_text p :
  1 <= p <= 65535 ->
  str_empty (str_of_Z p) || negb (str_forallb is_digit (str_of_Z p)) = false /\ int_of_digits (str_of_Z p) = Ok p.
Proof.
  intros Hp. rewrite str_of_Z_digits by lia. unfold str_of_Z, int_of_digits.
  rewrite (proj2 (Z.ltb_ge p 0)) by lia. rewrite digits_nonempty by lia. split; [done|].
  pose proof (digits_length 10 p 5 ltac:(lia) ltac:(lia) ltac:(lia)) as Hl.
  assert ((4300 <? String.length (digits 10 p))%nat = false) as ->.
  { apply Nat.ltb_ge. etrans; [exact Hl|]. apply Nat.leb_le. reflexivity. }
  by rewrite digits_val_digits by lia.
Qed.

Lemma good_endpoint_parse e a fld t :
  good_endpoint e a -> endpoint_str e = Ok t -> endpoint_parse (VStr t) fld = Ok e.
Proof.
  intros Hgood Ht. rewrite (good_endpoint_str e a Hgood) in Ht. destruct Hgood as (Hwf & Hu & Haddr & Hp & Hnul & H6).
  destruct (port_text (port e) Hp) as [Hd Hi]. unfold endpoint_parse.
  assert (str_mem nul t = false) as ->.
  { assert (str_mem nul (str_of_Z (port e)) = false) by (apply str_of_Z_not_mem; [lia|done]).
    injection Ht as <-. destruct (_ =? 6); rewrite !str_mem_app, Hnul, H; done. }
  cbn [mbind res_bind]. injection Ht as <-. rewrite endpoint_parts_str by (done || lia). cbn [res_of_option mbind res_bind].
  rewrite ip_address_str by done. cbn [res_of_option mbind res_bind]. rewrite Z.eqb_refl, Hu.
  cbn [mbind res_bind negb raise_if].
  rewrite Hd, Hi. cbn [mbind res_bind raise_if].
  rewrite (proj2 (andb_true_iff (1 <=? port e) (port e <=? 65535))) by lia. cbn. rewrite <- Haddr. by destruct e.
Qed.

(** C32. Endpoints survive their text: whatever the command line gives, an
    accepted endpoint is a usable unicast address in canonical form with a TCP
    port, and printing it (brackets for IPv6) and parsing it again gives the
    same endpoint. *)
Theorem endpoint_roundtrip v fld e :
  endpoint_parse v fld = Ok e ->
  1 <= port e <= 65535 /\
  (exists a, ip_address (address e) = Some a /\ address e = str_of_ip a /\ usable_unicast a = true) /\
  exists t, endpoint_str e = Ok t /\ forall fld', endpoint_parse (VStr t) fld' = Ok e.
Proof.
  intros [a Hgood]%endpoint_parse_good. pose proof Hgood as (Hwf & Hu & Haddr & Hp & _).
  split_and!; [lia|lia|exists a; rewrite Haddr; by rewrite ip_address_str|].
  eexists. split; [by apply good_endpoint_str|]. intros fld'.
  apply (good_endpoint_parse e a); [done|by apply good_endpoint_str].
Qed.

Lemma endpoint_roundtrip_witness :
  endpoint_parse (VStr "[2001:DB8:0::1%eth0]:0443") "listen" = Ok {| address := "2001:db8::1%eth0"; port := 443 |} /\
  exists t, endpoint_str {| address := "2001:db8::1%eth0"; port := 443 |} = Ok t /\
    endpoint_parse (VStr t) "listen" = Ok {| address := "2001:db8::1%eth0"; port := 443 |}.
Proof.
  split; [vm_compute; reflexivity|].
  destruct (endpoint_roundtrip (VStr "[2001:DB8:0::1%eth0]:0443") "listen" {| address := "2001:db8::1%eth0"; port := 443 |}
    ltac:(vm_compute; reflexivity)) as (_ & _ & t & Ht & Hp).
  exists t. split; [exact Ht|apply Hp].
Defined.

(** ** The kernel image: lemmas *)

(** The calls that only read. *)
Definition reading (c : call) : Prop :=
  match c with CResolve _ | CRealpath _ | CStat _ | CAccess _ _ | CReadAt _ _ _ => True | _ => False end.

Lemma emits_validate_kernel_image `{E : Env} {S} path : emits reading (validate_kernel_image path : M S string).
Proof. unfold validate_kernel_image, wrap_OSError, locate_image, read_image, check_program_header. emits. Qed.

(** A file with a mode, whether it may be executed, and contents. *)
Class ImageFile (E : Env) (path resolved : string) (mode : Z) (executable : bool) (content : bytes) : Prop := {
  if_resolve tr : env_reply tr (CResolve path) = Answer resolved;
  if_stat tr : env_reply tr (CStat resolved) = Answer {| st_mode := mode; st_size := Z.of_nat (length content) |};
  if_access tr : env_reply tr (CAccess resolved X_OK) = Answer executable;
  if_read tr off len : 0 <= off -> 0 <= len ->
    env_reply tr (CReadAt resolved off len) = Answer (take (Z.to_nat len) (drop (Z.to_nat off) content));
}.

(** The little-endian integer of [n] bytes at an offset. *)
Definition uint_at (content : bytes) (off n : nat) : Z := le_val (take n (drop off content)).

(** A statically linked x86-64 executable whose program headers lie in the
    file: the format as its specification has it. *)
Definition good_header (content : bytes) : Prop :=
  take 4 content = elf_magic /\
  (uint_at content 4 1 = ELFCLASS64 /\ uint_at content 5 1 = ELFDATA2LSB) /\
  (uint_at content 16 2 = ET_EXEC /\ uint_at content 18 2 = EM_X86_64 /\ uint_at content 20 4 = 1) /\
  (uint_at content 52 2 = 64 /\ uint_at content 24 8 <> 0) /\
  let offset := uint_at content 32 8 in
  let size := uint_at content 54 2 in
  let count := uint_at content 56 2 in
  count <> 0 /\ 56 <= size /\ 64 <= offset /\ offset + size * count <= Z.of_nat (length content).
Definition header_type (content : bytes) (i : nat) : Z :=
  uint_at content (Z.to_nat (uint_at content 32 8 + Z.of_nat i * uint_at content 54 2)) 4.
Definition bootable (content : bytes) : Prop :=
  (64 <= length content)%nat /\ good_header content /\
  forall i, (i < Z.to_nat (uint_at content 56 2))%nat -> header_type content i <> PT_INTERP.

Lemma uint_at_take content off n k :
  (off + n <= k)%nat -> le_val (take n (drop off (take k content))) = uint_at content off n.
Proof. intros H. unfold uint_at. rewrite !take_drop_commute, take_take. by rewrite Nat.min_l by lia. Qed.

Lemma unpack_elf_header_at content :
  (64 <= length content)%nat ->
  unpack_elf_header (take 64 content) = {|
    ident := take 16 content; image_type := uint_at content 16 2; machine := uint_at content 18 2;
    elf_version := uint_at content 20 4; entry := uint_at content 24 8; program_offset := uint_at content 32 8;
    header_size := uint_at content 52 2; program_size := uint_at content 54 2; program_count := uint_at content 56 2 |}.
Proof.
  intros Hlen. unfold unpack_elf_header. cbn [unpack ELF_HEADER]. rewrite !drop_drop. cbn [Nat.add].
  by rewrite !uint_at_take, take_take by lia.
Qed.

Lemma ident_byte_at content i :
  (i < 16)%nat -> (64 <= length content)%nat -> from_option b2z 0 (take 16 content !! i) = uint_at content i 1.
Proof.
  intros Hi Hlen. rewrite lookup_take_lt by lia. unfold uint_at.
  destruct (content !! i) as [b|] eqn:Hb; [|apply lookup_ge_None in Hb; lia].
  rewrite (drop_S _ b) by done. cbn [from_option take le_val]. rewrite take_0. cbn [le_val]. lia.
Qed.

(** Each guard refuses exactly the headers it is meant to. *)
Lemma raise_if_cases (P R : Prop) b text (k : res unit) :
  (b = false <-> P) ->
  match k with Ok _ => R | Err e => is_ValueError e = true /\ ~ R end ->
  match (raise_if b (ValueError text) ≫= fun _ => k) with
  | Ok _ => P /\ R
  | Err e => is_ValueError e = true /\ ~ (P /\ R)
  end.
Proof. intros Hb Hk. destruct b; cbn; [naive_solver|]. destruct k; naive_solver. Qed.

Lemma check_elf_header_cases content :
  (64 <= length content)%nat ->
  match check_elf_header (unpack_elf_header (take 64 content)) (Z.of_nat (length content)) with
  | Ok _ => good_header content
  | Err e => is_ValueError e = true /\ ~ good_header content
  end.
Proof.
  intros Hlen. rewrite unpack_elf_header_at by done. unfold check_elf_header, ident_byte. cbn -[uint_at raise_if take].
  rewrite !ident_byte_at, take_take by lia. unfold good_header.
  apply raise_if_cases; [rewrite negb_false_iff; apply bool_decide_eq_true|].
  apply raise_if_cases; [rewrite !orb_false_iff, !negb_false_iff, !Z.eqb_eq; done|].
  apply raise_if_cases; [rewrite !orb_false_iff, !negb_false_iff, !Z.eqb_eq; tauto|].
  apply raise_if_cases; [rewrite !orb_false_iff, !negb_false_iff, Z.eqb_eq, Z.eqb_neq; done|].
  match goal with |- match raise_if ?b _ with _ => _ end => destruct b eqn:Hb; cbn [raise_if] end.
  - split; [done|]. rewrite !orb_true_iff, Z.eqb_eq, !Z.ltb_lt in Hb. lia.
  - rewrite !orb_false_iff, Z.eqb_neq, !Z.ltb_ge in Hb. lia.
Qed.

Section image_file.
Context `{E : Env} {S : Type} path resolved mode executable content
  {L : ImageFile E path resolved mode executable content}.

Lemma wp_read_at off len Q (s : S) tr :
  0 <= off -> 0 <= len ->
  (forall tr', Q (Ret (take (Z.to_nat len) (drop (Z.to_nat off) content))) s tr') ->
  wp (perform (CReadAt resolved off len)) Q s tr.
Proof. intros Ho Hl HQ. wp_call; intros a; rewrite if_read by done; [intros [= <-]; apply HQ|done]. Qed.

Lemma uint_at_nonneg off n : 0 <= uint_at content off n.
Proof. unfold uint_at. pose proof (le_val_range (take n (drop off content))). lia. Qed.

Lemma wp_program_headers k n (s : S) tr :
  good_header content -> (64 <= length content)%nat -> (k + n <= Z.to_nat (uint_at content 56 2))%nat ->
  wp (for_each (seq k n) (check_program_header resolved (unpack_elf_header (take 64 content))))
    (fun o s' _ => s' = s /\ match o with
      | Ret _ => forall i, (k <= i < k + n)%nat -> header_type content i <> PT_INTERP
      | Raise e => is_ValueError e = true /\ exists i, (i < Z.to_nat (uint_at content 56 2))%nat /\ header_type content i = PT_INTERP
      | OutOfFuel => False
      end) s tr.
Proof.
  intros (_ & _ & _ & _ & _ & Hsize & Hoff & Hend) Hlen. rewrite unpack_elf_header_at by done.
  pose proof (uint_at_nonneg 56 2) as Hc.
  revert k tr. induction n as [|n IH]; intros k tr Hk; cbn [seq for_each].
  { apply wp_ret. split; [done|lia]. }
  assert (uint_at content 32 8 + Z.of_nat k * uint_at content 54 2 + 56 <= Z.of_nat (length content)) as Hin by nia.
  apply wp_bind. unfold check_program_header at 1. cbn [program_offset program_size]. apply wp_bind.
  apply wp_read_at; [lia|lia|]. intros tr'.
  set (raw := take (Z.to_nat _) _).
  assert (length raw = 56%nat) as Hraw by (unfold raw; rewrite length_take, length_drop; cbn; lia).
  assert (program_type raw = header_type content k) as Htype.
  { unfold program_type, raw, header_type, uint_at. cbn [unpack ELF_PROGRAM_HEADER fst]. by rewrite take_take. }
  rewrite Hraw. cbn [Nat.eqb]. 
  replace (56 =? calcsize ELF_PROGRAM_HEADER)%nat with true by done. rewrite Htype.
  destruct (header_type content k =? PT_INTERP) eqn:Hp; bool_to_prop.
  - apply wp_raise. split_and!; [done|done|]. exists k. split; [lia|done].
  - apply wp_ret. eapply wp_mono; [|apply IH; lia].
    intros [[]|e|] s' tr'' [-> H]; split; try done. intros i Hi.
    destruct (decide (i = k)) as [->|]; [done|]. apply H. lia.
Qed.

End image_file.

Section image_claim.
Context `{E : Env} {S : Type}.

(** C31. The image check accepts exactly the kernels it can run: for a file
    with given mode, permission and contents, the path is returned if and only
    if the file is regular, executable, and a 64-bit little-endian x86-64
    [ET_EXEC] image whose program-header table lies inside the file and asks
    for no interpreter; otherwise [ValueError] is raised, and either way
    nothing but reads was done. *)
Theorem validate_kernel_image_iff path resolved mode executable content
    (L : ImageFile E path resolved mode executable content) (s : S) tr :
  let '(o, s', tr') := validate_kernel_image (inl path) s tr in
  let good := S_ISREG mode = true /\ executable = true /\ bootable content in
  s' = s /\ (exists suf, tr' = tr ++ suf /\ Forall (fun ev => reading (ev_call ev)) suf) /\
  match o with
  | Ret r => r = resolved /\ good
  | Raise e => is_ValueError e = true /\ ~ good
  | OutOfFuel => False
  end.
Proof.
  pose proof (emits_validate_kernel_image (S := S) (inl path) s tr) as Hem.
  enough (wp (validate_kernel_image (inl path)) (fun o s' tr' =>
    s' = s /\ match o with
      | Ret r => r = resolved /\ S_ISREG mode = true /\ executable = true /\ bootable content
      | Raise e => is_ValueError e = true /\ ~ (S_ISREG mode = true /\ executable = true /\ bootable content)
      | OutOfFuel => False end) s tr) as H.
  { unfold wp in *. destruct (validate_kernel_image _ _ _) as [[o s'] tr']. naive_solver. }
  clear Hem. unfold validate_kernel_image, wrap_OSError. apply wp_bind, wp_try. unfold locate_image. apply wp_bind.
  wp_call; intros r Hr; rewrite if_resolve in Hr; [injection Hr as <-|done]. apply wp_bind.
  wp_call; intros md Hmd; rewrite if_stat in Hmd; [injection Hmd as <-|done]. apply wp_ret. cbn [st_mode st_size].
  destruct (S_ISREG mode) eqn:Hreg; cbn [negb]; [|by apply wp_raise; naive_solver]. apply wp_bind.
  wp_call; intros x Hx; rewrite if_access in Hx; [injection Hx as <-|done].
  destruct executable; cbn [negb]; [|by apply wp_raise; naive_solver]. apply wp_bind, wp_try.
  unfold read_image. apply wp_bind.
  apply (wp_read_at path resolved mode true content); [done|lia|]. intros tr'. change (Z.to_nat (Z.of_nat (calcsize ELF_HEADER))) with 64%nat.
  rewrite drop_0. change (calcsize ELF_HEADER) with 64%nat. rewrite length_take.
  destruct (Nat.min 64 (length content) =? 64)%nat eqn:Hlen; bool_to_prop.
  - pose proof (check_elf_header_cases content ltac:(lia)) as Hcheck. apply wp_bind, wp_of_res.
    destruct (check_elf_header _ _) as [[]|e].
    + eapply wp_mono; [|apply (wp_program_headers path resolved mode true content 0); [done|lia|]].
      * intros [[]|e|] s' tr'' [-> H].
        -- apply wp_ret. split_and!; try done. unfold bootable. split_and!; [lia|done|]. intros i Hi. apply H.
           rewrite unpack_elf_header_at by lia. cbn [program_count]. lia.
        -- destruct H as [He (i & Hi & Hint)]. destruct (is_OSError e) eqn:Hos; [by destruct e as [[]| | | | | | | | | | | | | | |]|].
           apply wp_raise. split_and!; [done|done|]. intros (_ & _ & _ & _ & Hall). by apply (Hall i).
        -- done.
      * rewrite unpack_elf_header_at by lia. cbn [program_count]. lia.
    + destruct Hcheck as [He Hbad].
      destruct (is_OSError e) eqn:Hos; [by destruct e as [[]| | | | | | | | | | | | | | |]|].
      apply wp_raise. split_and!; [done|done|]. by intros (_ & _ & _ & ? & _).
  - apply wp_raise. cbn [is_OSError ValueError]. apply wp_raise. split_and!; [done|done|].
    intros (_ & _ & ? & _). lia.
Qed.

End image_claim.

(** A minimal image: one header and one loadable segment. *)
Definition sample_image : bytes :=
  elf_magic ++ [Byte.x02; Byte.x01] ++ replicate 10 Byte.x00 ++ le_bytes 2 2 ++ le_bytes 2 62 ++ le_bytes 4 1
  ++ le_bytes 8 0x400000 ++ le_bytes 8 64 ++ le_bytes 8 0 ++ le_bytes 4 0 ++ le_bytes 2 64 ++ le_bytes 2 56
  ++ le_bytes 2 1 ++ replicate 6 Byte.x00 ++ le_bytes 4 1 ++ replicate 52 Byte.x00.

Definition image_host : Env := fun _ c =>
  match c return reply (ret c) with
  | CResolve p => Answer p
  | CStat _ => Answer {| st_mode := 0x81ed; st_size := Z.of_nat (length sample_image) |}
  | CAccess _ _ => Answer true
  | CReadAt _ off len => Answer (take (Z.to_nat len) (drop (Z.to_nat off) sample_image))
  | _ => Fault (SRuntimeError "not available")
  end.

Lemma image_host_file : ImageFile image_host "vmlinux" "vmlinux" 0x81ed true sample_image.
Proof. done. Qed.

Lemma validate_kernel_image_iff_witness :
  (@validate_kernel_image image_host unit (inl "vmlinux") tt []).1.1 = Ret "vmlinux" /\ bootable sample_image.
Proof.
  pose proof (@validate_kernel_image_iff image_host unit _ _ _ _ _ image_host_file tt []) as H.
  assert ((@validate_kernel_image image_host unit (inl "vmlinux") tt []).1.1 = Ret "vmlinux") as Hrun
    by (vm_compute; reflexivity).
  destruct (validate_kernel_image _ _ _) as [[o s'] tr']. cbn in Hrun. subst. split; [done|apply H].
Defined.

(** ** From one configuration to the next *)

Lemma res_of_option_Ok {A} e (o : option A) a : res_of_option e o = Ok a -> o = Some a.
Proof. destruct o; [by intros [= ->]|done]. Qed.

Lemma endpoint_version_Ok e v :
  endpoint_version e = Ok v -> exists a, ip_address (address e) = Some a /\ v = ip_version a.
Proof. unfold endpoint_version. intros H. res_inv. apply res_of_option_Ok in H0. eauto. Qed.

Lemma int_between_Ok v lo hi e z :
  int_between v lo hi e = Ok z -> v = VInt z /\ lo <= z /\ match hi with Some m => z <= m | None => True end.
Proof.
  unfold int_between. destruct v; try done. destruct (_ && _) eqn:H; [|done]. intros [= ->]. bool_to_prop.
  destruct hi; [|done]. split_and!; [done|lia|by bool_to_prop].
Qed.

(** The link of a validated configuration. *)
Definition good_link (version : Z) (h g : ip_addr) : Prop :=
  ip_wf h = true /\ ip_wf g = true /\ ip_version h = version /\ ip_version g = version /\ h <> g /\
  is_unspecified h = false /\ is_unspecified g = false /\ is_multicast h = false /\ is_multicast g = false.

Lemma tun_addresses_Ok version host guest h g :
  tun_addresses version host guest = Ok (h, g) -> good_link version h g.
Proof.
  unfold tun_addresses. intros H. res_inv. apply res_of_option_Ok, ip_address_wf in H0. apply res_of_option_Ok, ip_address_wf in H1.
  bool_to_prop. by split_and!.
Qed.

(** A validated configuration, field by field. *)
Lemma new_service_config_Ok a c :
  new_service_config a = Ok c ->
  exists l h g, a_listen a = inl (listen c) /\ ip_address (address (listen c)) = Some l /\
    good_link (ip_version l) h g /\ tun_host_address c = str_of_ip h /\ tun_guest_address c = str_of_ip g /\
    cc_name_match (cc c) = true /\ firewall_backend c ∈ FIREWALL_BACKENDS /\ iptables_variant c ∈ IPTABLES_VARIANTS /\
    address (backend c) = "127.0.0.1" /\ 128 <= memory_mib c /\ 1 <= backlog c <= 4096 /\
    0 <= max_connections c <= BRIDGE_SESSION_LIMIT /\ tun_name c = a_tun_name a.
Proof.
  unfold new_service_config. intros H. res_inv.
  destruct (a_listen a) as [l|]; [|done]. destruct (a_backend a) as [b|]; [|done]. cbn [an_endpoint] in *. simplify_eq.
  match goal with x : ip_addr * ip_addr |- _ => destruct x as [h g] end. res_inv.
  repeat match goal with
  | H : int_between _ _ _ _ = Ok _ |- _ => apply int_between_Ok in H as (? & ? & ?)
  | H : tun_addresses _ _ _ = Ok _ |- _ => apply tun_addresses_Ok in H
  | H : endpoint_version _ = Ok _ |- _ => apply endpoint_version_Ok in H as (? & ? & ?)
  end. subst. unfold str_in in *. bool_to_prop. destruct (a_cc a) as [| | | |name| |]; try done.
  destruct (cc_name_match name) eqn:Hcc; [|done]. simplify_eq.
  do 3 eexists. cbn [listen tun_host_address tun_guest_address cc firewall_backend iptables_variant backend memory_mib backlog max_connections tun_name].
  split_and!; try done.
Qed.

Lemma new_tun_config_link version h g name :
  good_link version h g -> version = 4 \/ version = 6 ->
  (forall n, name = Some n -> validate_tun_name (VStr n) = Ok n) ->
  new_tun_config (VStr (str_of_ip h)) (VStr (str_of_ip g)) (VInt DEFAULT_TUN_MTU) (from_option VStr VNone name) =
  Ok {| host_address := str_of_ip h; guest_address := str_of_ip g; mtu := DEFAULT_TUN_MTU; tc_name := name |}.
Proof.
  intros (Hh & Hg & Hhv & Hgv & Hne & Hhu & Hgu & Hhm & Hgm) Hv Hname. unfold new_tun_config. cbn [mbind res_bind].
  rewrite !ip_address_str by done. cbn [res_of_option mbind res_bind].
  rewrite Hhv, Hgv, Z.eqb_refl, Hhu, Hgu, Hhm, Hgm. cbn [negb orb raise_if mbind res_bind].
  rewrite bool_decide_false by done. cbn [raise_if mbind res_bind].
  assert (((if version =? 4 then MIN_IPV4_MTU else MIN_IPV6_MTU) <=? DEFAULT_TUN_MTU) && (DEFAULT_TUN_MTU <=? MAX_IPV4_MTU) = true)
    as -> by (by destruct Hv as [->| ->]).
  cbn [mbind res_bind]. destruct name as [n|]; [|done]. cbn [from_option]. by rewrite (Hname n).
Qed.

Lemma new_nft_dnat_config_link e l g version :
  good_endpoint e l -> ip_version l = version -> ip_wf g = true -> ip_version g = version ->
  is_unspecified g = false -> is_multicast g = false -> address e <> str_of_ip g ->
  new_nft_dnat_config (VStr (address e)) (VInt (port e)) (VStr (str_of_ip g)) (VInt (port e)) VNone =
  Ok {| listen_address := address e; listen_port := port e; target_address := str_of_ip g; target_port := port e;
        dc_table_name := None |}.
Proof.
  intros (Hwf & Hu & Haddr & Hp & _) Hlv Hg Hgv Hgu Hgm Hne. unfold usable_unicast in Hu. bool_to_prop.
  unfold new_nft_dnat_config. rewrite Haddr in *. rewrite !validate_endpoint_address_str by done. cbn [mbind res_bind].
  unfold validate_port. rewrite (proj2 (andb_true_iff (1 <=? port e) (port e <=? 65535))) by lia. cbn [mbind res_bind].
  unfold address_version. rewrite !ip_address_str by done. cbn [res_of_option mbind res_bind].
  rewrite Hlv, Hgv, Z.eqb_refl. cbn [negb raise_if mbind res_bind]. by rewrite bool_decide_false.
Qed.

(** A validated service configuration is complete: with a parsed public
    endpoint, a valid (or generated) interface name and a guest address of its
    own, the host-network configuration and the firewall tool paths always
    exist; the redirection goes from exactly the public endpoint to the same
    port of the guest address of the interface, in the family of the listener,
    and the limits the runtime relies on hold. *)
Theorem service_config_complete a c v fld :
  new_service_config a = Ok c ->
  endpoint_parse v fld = Ok (listen c) ->
  (forall n, tun_name c = Some n -> validate_tun_name (VStr n) = Ok n) ->
  address (listen c) <> tun_guest_address c ->
  (exists n paths, host_network_config c = Ok n /\
     hc_tun n = {| host_address := tun_host_address c; guest_address := tun_guest_address c;
                   mtu := DEFAULT_TUN_MTU; tc_name := tun_name c |} /\
     hc_dnat n = {| listen_address := address (listen c); listen_port := port (listen c);
                    target_address := tun_guest_address c; target_port := port (listen c); dc_table_name := None |} /\
     hc_requested_cc n = cc c /\ hc_firewall_backend n = firewall_backend c /\
     endpoint_version (listen c) = Ok (dnat_ip_version (hc_dnat n)) /\
     iptables_paths (iptables_variant c) (dnat_ip_version (hc_dnat n)) = Ok paths) /\
  ipv4_u32 (backend c) = Ok 0x7F000001 /\ 0 <= max_connections c <= BRIDGE_SESSION_LIMIT /\ 1 <= backlog c <= 4096.
Proof.
  intros (l & h & g & _ & Hl & Hlink & Hh & Hg & Hcc & Hfw & Hipt & Hb & _ & Hbl & Hmc & _)%new_service_config_Ok
    [l' Hgood]%endpoint_parse_good Hname Hne.
  pose proof Hgood as (Hwf & _ & Haddr & _). rewrite Haddr, ip_address_str in Hl by done. simplify_eq.
  assert (ip_version l = 4 \/ ip_version l = 6) as Hv by (destruct l; auto).
  split_and!; try lia; [|unfold ipv4_u32; by rewrite Hb].
  assert (exists paths, iptables_paths (iptables_variant c) (ip_version l) = Ok paths) as [paths Hpaths].
  { unfold iptables_paths, str_in. rewrite bool_decide_true by done. cbn. by destruct Hv as [-> | ->]; eexists. }
  unfold host_network_config. rewrite Hh, Hg in *. rewrite (new_tun_config_link (ip_version l)) by done.
  destruct Hlink as (_ & Hgwf & _ & Hgv & _ & _ & Hgu & _ & Hgm). cbn [mbind res_bind].
  rewrite (new_nft_dnat_config_link (listen c) l g (ip_version l)) by done. cbn [mbind res_bind].
  unfold new_host_network_config, str_in. rewrite Hcc, bool_decide_true by done. cbn [target_address guest_address].
  rewrite bool_decide_true by done. eexists _, paths. split; [done|].
  unfold dnat_ip_version, endpoint_version, parse_ip. cbn [hc_dnat hc_tun hc_requested_cc hc_firewall_backend listen_address].
  rewrite Haddr, ip_address_str by done. by split_and!.
Qed.

Definition sample_args : ServiceArgs := {|
  a_listen := inl {| address := "192.0.2.10"; port := 443 |}; a_backend := inl {| address := "127.0.0.1"; port := 8080 |};
  a_cc := VStr "bbr"; a_kernel := "vmlinux"; a_memory_mib := VInt 256; a_firewall_backend := "iptables";
  a_iptables_variant := "iptables-nft"; a_tun_name := Some "tcpcc0"; a_tun_host_address := None; a_tun_guest_address := None;
  a_backlog := VInt 128; a_max_connections := VInt 0; a_shutdown_grace_period := VFloat 5; a_poll_interval := VFloat (1 # 100) |}.

Lemma service_config_complete_witness :
  exists c n, new_service_config sample_args = Ok c /\ host_network_config c = Ok n /\
    target_address (hc_dnat n) = "198.18.0.2".
Proof.
  destruct (new_service_config sample_args) as [c|e] eqn:Hc; [|vm_compute in Hc; discriminate Hc].
  assert (endpoint_parse (VStr "192.0.2.10:443") "listen" = Ok (listen c) /\ tun_name c = Some "tcpcc0" /\
    address (listen c) = "192.0.2.10" /\ tun_guest_address c = "198.18.0.2") as (H1 & H2 & H3 & H4)
    by (vm_compute in Hc; injection Hc as <-; by vm_compute).
  destruct (service_config_complete sample_args c _ _ Hc H1) as [(n & paths & Hn & _ & Hd & _) _].
  - intros n Hn. rewrite H2 in Hn. injection Hn as <-. vm_compute. reflexivity.
  - rewrite H3, H4. discriminate.
  - exists c, n. split; [done|]. split; [exact Hn|]. rewrite Hd. exact H4.
Defined.
