(* ===== verification/Arguments.v ===== *)
(** * The command line

    [build_parser] of [tools/tcpcc_cli.py] and what [argparse] makes of it.
    The options are a table, each with its conversion; [parse_args] follows
    CPython's [ArgumentParser] for a parser whose options take one argument
    each and that has no positional arguments: full names, unambiguous
    prefixes, [--option=value], [-h], [--].  It gives the namespace, or the exit
    status of the usage error or the help; the texts of those are not modelled.
    [float] is a parameter: which number a text stands for is the platform's. *)

From S2P Require Import Prelude PyStr Reports Py Effects Struct IpAddr Preflight Tun Nft HostNetwork Config.
Local Open Scope Z_scope.

(** [float(text)], or the [ValueError]. *)
Class FloatText := float_of : string -> option pyval.

(** ** Paths *)

(** [str(pathlib.Path(text))] *)
Definition path_root (s : string) : string :=
  if startswith "/" s then if startswith "//" s && negb (startswith "///" s) then "//" else "/" else EmptyString.
Definition path_parts (s : string) : list string :=
  filter (fun p => negb (str_empty p || bool_decide (p = "."))) (split_on "/" s).
Definition path_of (root : string) (parts : list string) : string :=
  let text := root +:+ str_join "/" parts in if str_empty text then "." else text.
Definition py_path (s : string) : string := path_of (path_root s) (path_parts s).

(** [path.parent] and [path / name] *)
Definition path_parent (s : string) : string := path_of (path_root s) (removelast (path_parts s)).
Definition path_join (s : string) (names : list string) : string := path_of (path_root s) (path_parts s ++ names).

(** ** The options *)

(** The [type] of an option, with its [choices]. *)
Inductive conversion :=
  | ToEndpoint (field : string)
  | ToText
  | ToChoice (choices : list string)
  | ToPath
  | ToInt
  | ToFloat
  | ToIp (field : string).

Inductive arg_value :=
  | AEndpoint (e : Endpoint)
  | AText (s : string)
  | AInt (z : Z)
  | ANumber (v : pyval)
  | ANone.

Record option_spec := { o_name : string; o_required : bool; o_type : conversion; o_default : arg_value }.

(** [build_parser], given the default of [--kernel]. *)
Definition options (default_kernel : string) : list option_spec := [
  {| o_name := "--listen"; o_required := true; o_type := ToEndpoint "listen"; o_default := ANone |};
  {| o_name := "--backend"; o_required := true; o_type := ToEndpoint "backend"; o_default := ANone |};
  {| o_name := "--cc"; o_required := true; o_type := ToText; o_default := ANone |};
  {| o_name := "--kernel"; o_required := false; o_type := ToPath; o_default := AText (py_path default_kernel) |};
  {| o_name := "--memory-mib"; o_required := false; o_type := ToInt; o_default := AInt DEFAULT_MEMORY_MIB |};
  {| o_name := "--firewall-backend"; o_required := false;
     o_type := ToChoice (sort_on (fun x => x) FIREWALL_BACKENDS); o_default := AText "nft-lib" |};
  {| o_name := "--iptables-variant"; o_required := false; o_type := ToChoice IPTABLES_VARIANTS; o_default := AText "iptables" |};
  {| o_name := "--tun-name"; o_required := false; o_type := ToText; o_default := ANone |};
  {| o_name := "--tun-host-address"; o_required := false; o_type := ToIp "tun host address"; o_default := ANone |};
  {| o_name := "--tun-guest-address"; o_required := false; o_type := ToIp "tun guest address"; o_default := ANone |};
  {| o_name := "--backlog"; o_required := false; o_type := ToInt; o_default := AInt DEFAULT_BACKLOG |};
  {| o_name := "--max-connections"; o_required := false; o_type := ToInt; o_default := AInt DEFAULT_MAX_CONNECTIONS |};
  {| o_name := "--shutdown-grace-period"; o_required := false; o_type := ToFloat;
     o_default := ANumber (VFloat DEFAULT_SHUTDOWN_GRACE_PERIOD) |} ].

(** ** Reading arguments *)

(** One argument, as [_parse_optional] sees it. *)
Inductive token :=
  | TOption (name : string) (explicit : option string)
  | TUnknown
  | TArgument (text : string)
  | TDashes.

Inductive parsed (A : Type) :=
  | Parsed (a : A)
  | Exit (status : Z)
  | Fails (e : exn).
Arguments Parsed {A} a.
Arguments Exit {A} status.
Arguments Fails {A} e.

(** [parser.error] *)
Definition usage {A} : parsed A := Exit 2.

(** [text.split("=", 1)], when there is one. *)
Definition split_equals (s : string) : option (string * string) :=
  n ← str_find "=" s; Some (str_take n s, str_drop (S n) s).

(** [_negative_number_matcher]: [^-\d+$|^-\d*\.\d+$] *)
Definition negative_number (s : string) : bool :=
  match s with
  | String "-" t =>
      match split_on "." t with
      | [ds] => negb (str_empty ds) && str_forallb is_digit ds
      | [ds; fs] => str_forallb is_digit ds && negb (str_empty fs) && str_forallb is_digit fs
      | _ => false
      end
  | _ => false
  end.

Section parser.
Context `{F : FloatText} (specs : list option_spec).

(** [_option_string_actions] *)
Definition names : list string := ["-h"; "--help"] ++ map o_name specs.

(** [_get_option_tuples]: the options the argument can be short for. *)
Definition option_tuples (arg : string) : list (string * option string) :=
  if startswith "--" arg then
    let '(prefix, explicit) := match split_equals arg with Some (p, v) => (p, Some v) | None => (arg, None) end in
    map (fun n => (n, explicit)) (filter (fun n => startswith prefix n) names)
  else
    omap (fun n => if bool_decide (n = str_take 2 arg) then Some (n, Some (str_drop 2 arg))
                   else if startswith arg n then Some (n, None) else None) names.

(** [_parse_optional]; [None] for an ambiguous prefix. *)
Definition parse_optional (arg : string) : option token :=
  if negb (startswith "-" arg) then Some (TArgument arg)
  else if str_in arg names then Some (TOption arg None)
  else if bool_decide (arg = "-") then Some (TArgument arg)
  else
    let short :=
      match option_tuples arg with
      | [(name, explicit)] => Some (TOption name explicit)
      | [] => Some (if negative_number arg || str_mem " " arg then TArgument arg else TUnknown)
      | _ => None
      end in
    match split_equals arg with
    | Some (name, value) => if str_in name names then Some (TOption name (Some value)) else short
    | None => short
    end.

(** All arguments; those after [--] are no options. *)
Fixpoint tokens (args : list string) : option (list token) :=
  match args with
  | [] => Some []
  | arg :: args =>
      if bool_decide (arg = "--") then Some (TDashes :: map TArgument args)
      else t ← parse_optional arg; ts ← tokens args; Some (t :: ts)
  end.

(** [_get_value] and [_check_value] *)
Definition convert (c : conversion) (text : string) : res arg_value :=
  match c with
  | ToEndpoint field => e ← endpoint_argument field text; Ok (AEndpoint e)
  | ToText => Ok (AText text)
  | ToChoice choices => if str_in text choices then Ok (AText text) else Err (ArgumentTypeError "invalid choice")
  | ToPath => Ok (AText (py_path text))
  | ToInt => res_of_option (ValueError "invalid literal for int()") (AInt <$> int_of text)
  | ToFloat => res_of_option (ValueError "could not convert string to float") (ANumber <$> float_of text)
  | ToIp field => a ← ip_argument field text; Ok (AText a)
  end.

(** [-h] and [--help]; [-hh] is [-h] twice. *)
Definition help_option (name : string) (explicit : option string) : bool :=
  match explicit with
  | None => true
  | Some text => bool_decide (name = "-h") && negb (str_empty text) && str_forallb (is_char "h") text
  end.

(** [required] actions that were not seen. *)
Definition missing (seen : gmap string arg_value) : bool :=
  existsb (fun o => o_required o && negb (bool_decide (is_Some (seen !! o_name o)))) specs.

(** The loop of [_parse_known_args] and [parse_args]: the values seen, and
    whether something was not recognized. *)
Fixpoint consume (ts : list token) (seen : gmap string arg_value) (extras : bool) : parsed (gmap string arg_value) :=
  match ts with
  | [] => if missing seen || extras then usage else Parsed seen
  | TOption name explicit :: ts =>
      match list_find (fun o => o_name o = name) specs with
      | None => if help_option name explicit then Exit 0 else usage
      | Some (_, o) =>
          let take text ts :=
            match convert (o_type o) text with
            | Ok v => consume ts (<[name := v]> seen) extras
            | Err (ArgumentTypeError _) => usage
            | Err (Sys (STypeError _)) => usage
            | Err e => if is_ValueError e then usage else Fails e
            end in
          match explicit, ts with
          | Some text, ts => take text ts
          | None, TArgument text :: ts => take text ts
          | None, _ => usage
          end
      end
  | _ :: ts => consume ts seen true
  end.

Definition parse_values (args : list string) : parsed (gmap string arg_value) :=
  match tokens args with Some ts => consume ts ∅ false | None => usage end.

(** The value of an option: the one seen last, or the default. *)
Definition value_of (seen : gmap string arg_value) (name : string) : arg_value :=
  match seen !! name with
  | Some v => v
  | None => from_option (fun x => o_default x.2) ANone (list_find (fun o => o_name o = name) specs)
  end.

End parser.

(** ** The namespace *)

Definition as_endpoint (v : arg_value) : option Endpoint := match v with AEndpoint e => Some e | _ => None end.
Definition as_text (v : arg_value) : option string := match v with AText s => Some s | _ => None end.
Definition as_int (v : arg_value) : option Z := match v with AInt z => Some z | _ => None end.
Definition as_pyval (v : arg_value) : option pyval := match v with ANumber n => Some n | _ => None end.

(** The attributes of the [argparse.Namespace]. *)
Definition to_namespace (value : string -> arg_value) : option Namespace :=
  listen ← as_endpoint (value "--listen");
  backend ← as_endpoint (value "--backend");
  cc ← as_text (value "--cc");
  kernel ← as_text (value "--kernel");
  memory_mib ← as_int (value "--memory-mib");
  firewall_backend ← as_text (value "--firewall-backend");
  iptables_variant ← as_text (value "--iptables-variant");
  backlog ← as_int (value "--backlog");
  max_connections ← as_int (value "--max-connections");
  grace ← as_pyval (value "--shutdown-grace-period");
  Some {| ns_listen := listen; ns_backend := backend; ns_cc := cc; ns_kernel := kernel; ns_memory_mib := memory_mib;
          ns_firewall_backend := firewall_backend; ns_iptables_variant := iptables_variant;
          ns_tun_name := as_text (value "--tun-name"); ns_tun_host_address := as_text (value "--tun-host-address");
          ns_tun_guest_address := as_text (value "--tun-guest-address"); ns_backlog := backlog;
          ns_max_connections := max_connections; ns_shutdown_grace_period := grace |}.

(** [build_parser(...).parse_args(argv)], given the default of [--kernel]. *)
Definition parse_args `{F : FloatText} (default_kernel : string) (argv : list string) : parsed Namespace :=
  let specs := options default_kernel in
  match parse_values specs argv with
  | Parsed seen => from_option Parsed usage (to_namespace (value_of specs seen))
  | Exit status => Exit status
  | Fails e => Fails e
  end.

(** The default of [--kernel]: the environment variable, the kernel of the
    repository when it has been built, or the installed one. *)
Section default_kernel.
Context `{E : Env} {S : Type}.

(** [path.exists()] *)
Definition ENOTDIR : Z := 20.
Definition ELOOP : Z := 40.
Definition path_exists (path : string) : M S bool :=
  try_except (_ ← perform (CStat path); mret true)
    (fun e => if is_OSError e && bool_decide (os_errno e ∈ Some <$> [ENOENT; ENOTDIR; EBADF; ELOOP]) || is_ValueError e
              then mret false else raise e).

(** [Path.parents[1]] *)
Definition parents_1 (path : string) : res string :=
  if (1 <? length (path_parts path))%nat then Ok (path_parent (path_parent path))
  else Err (Sys (SException "IndexError" "1")).

Definition kernel_default (this_file argv0 : string) (environ : gmap string string) : M S string :=
  file ← perform (CRealpath this_file);
  project_root ← of_res (parents_1 file);
  let repository_kernel := path_join project_root [".build"; "tcpcc-bootstrap-out"; "vmlinux"] in
  program ← perform (CRealpath argv0);
  let executable_prefix := path_parent (path_parent program) in
  let installed_kernel := path_join executable_prefix ["libexec"; "tcpcc"; "vmlinux"] in
  built ← path_exists repository_kernel;
  mret (default (if (built : bool) then repository_kernel else installed_kernel) (environ !! "TCPCC_KERNEL")).

End default_kernel.

(** ** Settings written out *)

(** One setting, as [--name=text] or as two arguments. *)
Record given := { g_name : string; g_text : string; g_joined : bool }.
Definition written (g : given) : list string :=
  if g_joined g then [g_name g +:+ "=" +:+ g_text g] else [g_name g; g_text g].
Definition g_tokens (g : given) : list token :=
  if g_joined g then [TOption (g_name g) (Some (g_text g))] else [TOption (g_name g) None; TArgument (g_text g)].

(** A text that starts with a dash must be joined to its option. *)
Definition writable (g : given) : Prop := g_joined g = true \/ startswith "-" (g_text g) = false.

(** Names of options: a dash first and no equals sign. *)
Definition plain_name (n : string) : bool :=
  startswith "-" n && negb (str_mem "=" n) && negb (bool_decide (n = "--")).

Lemma options_plain kernel n : n ∈ map o_name (options kernel) -> plain_name n = true.
Proof.
  intros H. assert (Forall (fun n => plain_name n = true) (map o_name (options kernel))) as Hall
    by (repeat constructor). by eapply Forall_forall in Hall.
Qed.

Lemma split_equals_app n t : str_mem "=" n = false -> split_equals (n +:+ "=" +:+ t) = Some (n, t).
Proof.
  intros Hn. unfold split_equals. change ("=" +:+ t) with (String "=" t). rewrite str_find_app by done. cbn [mbind option_bind].
  by rewrite str_take_app, str_drop_after.
Qed.

Section written_out.
Context `{F : FloatText} (specs : list option_spec).
Context (Hplain : forall n, n ∈ map o_name specs -> plain_name n = true).

Lemma startswith_dash_app n t : startswith "-" n = true -> startswith "-" (n +:+ t) = true.
Proof.
  destruct n as [|c n]; [done|]. rewrite str_app_cons. unfold startswith. cbn. by destruct (is_char _ _).
Qed.

Lemma name_in_names n : n ∈ map o_name specs -> str_in n (names specs) = true.
Proof. intros Hn. apply bool_decide_eq_true. unfold names. apply elem_of_app. by right. Qed.

Lemma joined_not_name n t : str_in (n +:+ "=" +:+ t) (names specs) = false.
Proof.
  apply bool_decide_eq_false. intros H.
  assert (str_mem "=" (n +:+ "=" +:+ t) = false) as Hm.
  { unfold names in H. apply elem_of_app in H as [H|H].
    - set_unfold in H. by destruct H as [->|[->|[]]].
    - apply Hplain in H. unfold plain_name in H. bool_to_prop. done. }
  rewrite str_mem_app in Hm. apply orb_false_iff in Hm as [_ Hm]. done.
Qed.

Lemma parse_optional_name n : n ∈ map o_name specs -> parse_optional specs n = Some (TOption n None).
Proof.
  intros Hn. pose proof (Hplain n Hn) as Hp. unfold plain_name in Hp. bool_to_prop. unfold parse_optional.
  by rewrite name_in_names, H.
Qed.

Lemma parse_optional_joined n t :
  n ∈ map o_name specs -> parse_optional specs (n +:+ "=" +:+ t) = Some (TOption n (Some t)).
Proof.
  intros Hn. pose proof (Hplain n Hn) as Hp. unfold plain_name in Hp. bool_to_prop. unfold parse_optional.
  rewrite startswith_dash_app, joined_not_name, split_equals_app, name_in_names by done. cbn [negb].
  destruct (bool_decide _) eqn:Hd; [|done]. bool_to_prop. exfalso.
  assert (str_mem "=" (n +:+ "=" +:+ t) = true) as Hm by (rewrite str_mem_app; apply orb_true_iff; by right).
  by rewrite Hd in Hm.
Qed.

Lemma tokens_written g args :
  g_name g ∈ map o_name specs -> writable g ->
  tokens specs (written g ++ args) = ts ← tokens specs args; Some (g_tokens g ++ ts).
Proof.
  intros Hn Hw. pose proof (Hplain _ Hn) as Hp. unfold plain_name in Hp. bool_to_prop.
  unfold written, g_tokens, writable in *. destruct (g_joined g); cbn [app tokens].
  - rewrite bool_decide_eq_false_2, parse_optional_joined; [done|done|].
    intros Hd. assert (str_mem "=" (g_name g +:+ "=" +:+ g_text g) = true) as Hm
      by (rewrite str_mem_app; apply orb_true_iff; by right). by rewrite Hd in Hm.
  - destruct Hw as [?|Hw]; [done|]. rewrite (bool_decide_eq_false_2 (g_name g = _)) by done.
    rewrite (parse_optional_name (g_name g)) by done. cbn.
    rewrite bool_decide_eq_false_2 by (intros Ht; by rewrite Ht in Hw).
    unfold parse_optional. rewrite Hw. cbn. by destruct (tokens specs args).
Qed.

Lemma tokens_all_written gs :
  Forall (fun g => g_name g ∈ map o_name specs /\ writable g) gs ->
  tokens specs (concat (map written gs)) = Some (concat (map g_tokens gs)).
Proof.
  induction 1 as [|g gs [Hn Hw] _ IH]; [done|]. cbn [map concat]. by rewrite tokens_written, IH.
Qed.

(** The text of the setting stands for the value. *)
Definition stands_for (g : given) (nv : string * arg_value) : Prop :=
  nv.1 = g_name g /\ exists i o, list_find (fun o => o_name o = g_name g) specs = Some (i, o) /\
  convert (o_type o) (g_text g) = Ok nv.2.

Lemma consume_written gs nvs seen :
  Forall2 stands_for gs nvs ->
  consume specs (concat (map g_tokens gs)) seen false =
  consume specs [] (foldl (fun m nv => <[nv.1 := nv.2]> m) seen nvs) false.
Proof.
  intros H. revert seen. induction H as [|g [n v] gs nvs (Hn & i & o & Ho & Hv) _ IH]; intros seen; [done|].
  cbn in Hn, Hv. subst n. cbn [map concat foldl fst snd]. unfold g_tokens at 1.
  destruct (g_joined g); cbn [app consume]; rewrite Ho, Hv; apply IH.
Qed.

Lemma foldl_inserts (nvs : list (string * arg_value)) (seen : gmap string arg_value) :
  foldl (fun m nv => <[nv.1 := nv.2]> m) seen nvs = list_to_map (reverse nvs) ∪ seen.
Proof.
  revert seen. induction nvs as [|[n v] nvs IH]; intros seen; cbn [foldl fst snd]; [by rewrite reverse_nil, list_to_map_nil, (left_id_L ∅ (∪))|].
  rewrite IH, reverse_cons, list_to_map_app. cbn. rewrite <- (assoc_L (∪)). f_equal.
  by rewrite insert_empty, insert_union_singleton_l.
Qed.

Lemma named_settings gs nvs :
  Forall2 stands_for gs nvs -> Forall writable gs -> Forall (fun g => g_name g ∈ map o_name specs /\ writable g) gs.
Proof.
  induction 1 as [|g nv gs nvs (_ & i & o & Ho & _) _ IH]; [constructor|]. intros [Hw Hws]%Forall_cons.
  constructor; [|by apply IH]. split; [|done]. apply list_find_Some in Ho as (Ho & <- & _).
  apply list_elem_of_fmap_2. by eapply list_elem_of_lookup_2.
Qed.

(** The order of the settings and the way they are written do not matter. *)
Lemma parse_values_written gs nvs nvs' :
  Forall writable gs -> Forall2 stands_for gs nvs -> nvs ≡ₚ nvs' -> NoDup nvs'.*1 ->
  missing specs (list_to_map nvs') = false ->
  parse_values specs (concat (map written gs)) = Parsed (list_to_map nvs').
Proof.
  intros Hw H Hperm Hnd Hm. unfold parse_values. rewrite tokens_all_written, (consume_written _ nvs) by eauto using named_settings.
  rewrite foldl_inserts, (right_id_L ∅ (∪)).
  assert (list_to_map (M := gmap string arg_value) (reverse nvs) = list_to_map nvs') as ->.
  { apply list_to_map_proper; [|by rewrite reverse_Permutation].
    by rewrite reverse_Permutation, Hperm. }
  cbn [consume]. by rewrite Hm.
Qed.
End written_out.

(** ** A namespace, written out *)

Definition setting {A B} (name : string) (f : A -> B) (o : option A) : list (string * B) :=
  match o with Some a => [(name, f a)] | None => [] end.

(** The texts that set the attributes of a namespace, given those of its
    endpoints and of its grace period. *)
Definition setting_texts (n : Namespace) (listen backend grace : string) : list (string * string) :=
  [("--listen", listen); ("--backend", backend); ("--cc", ns_cc n); ("--kernel", ns_kernel n);
   ("--memory-mib", str_of_Z (ns_memory_mib n)); ("--firewall-backend", ns_firewall_backend n);
   ("--iptables-variant", ns_iptables_variant n); ("--backlog", str_of_Z (ns_backlog n));
   ("--max-connections", str_of_Z (ns_max_connections n)); ("--shutdown-grace-period", grace)]
  ++ setting "--tun-name" id (ns_tun_name n) ++ setting "--tun-host-address" id (ns_tun_host_address n)
  ++ setting "--tun-guest-address" id (ns_tun_guest_address n).

Definition setting_values (n : Namespace) : list (string * arg_value) :=
  [("--listen", AEndpoint (ns_listen n)); ("--backend", AEndpoint (ns_backend n)); ("--cc", AText (ns_cc n));
   ("--kernel", AText (ns_kernel n)); ("--memory-mib", AInt (ns_memory_mib n));
   ("--firewall-backend", AText (ns_firewall_backend n)); ("--iptables-variant", AText (ns_iptables_variant n));
   ("--backlog", AInt (ns_backlog n)); ("--max-connections", AInt (ns_max_connections n));
   ("--shutdown-grace-period", ANumber (ns_shutdown_grace_period n))]
  ++ setting "--tun-name" AText (ns_tun_name n) ++ setting "--tun-host-address" AText (ns_tun_host_address n)
  ++ setting "--tun-guest-address" AText (ns_tun_guest_address n).

Lemma setting_values_keys n : NoDup (setting_values n).*1.
Proof. unfold setting_values. destruct n as [??????? [] [] []]; (refine (bool_decide_unpack _ _); vm_compute; exact I). Qed.

Lemma setting_values_complete kernel n : missing (options kernel) (list_to_map (setting_values n)) = false.
Proof. unfold setting_values. destruct n as [??????? [] [] []]; vm_compute; reflexivity. Qed.

Lemma setting_values_namespace kernel n :
  to_namespace (value_of (options kernel) (list_to_map (setting_values n))) = Some n.
Proof. unfold setting_values. destruct n as [??????? [] [] []]; vm_compute; reflexivity. Qed.

(** The namespaces that can be written out. *)
Definition usable_text (t : string) : Prop := exists a, t = str_of_ip a /\ ip_wf a = true /\ usable_unicast a = true.

Record settable `{F : FloatText} (n : Namespace) (listen backend grace : string) : Prop := {
  st_listen : (exists a, good_endpoint (ns_listen n) a) /\ endpoint_str (ns_listen n) = Ok listen;
  st_backend : (exists a, good_endpoint (ns_backend n) a) /\ endpoint_str (ns_backend n) = Ok backend;
  st_kernel : py_path (ns_kernel n) = ns_kernel n;
  st_memory : writable_int (ns_memory_mib n);
  st_firewall : ns_firewall_backend n ∈ FIREWALL_BACKENDS;
  st_variant : ns_iptables_variant n ∈ IPTABLES_VARIANTS;
  st_host : forall t, ns_tun_host_address n = Some t -> usable_text t;
  st_guest : forall t, ns_tun_guest_address n = Some t -> usable_text t;
  st_backlog : writable_int (ns_backlog n);
  st_max : writable_int (ns_max_connections n);
  st_grace : float_of grace = Some (ns_shutdown_grace_period n);
}.

Section settings.
Context `{F : FloatText} (kernel : string).

Definition text_for (nt : string * string) (nv : string * arg_value) : Prop :=
  stands_for (options kernel) {| g_name := nt.1; g_text := nt.2; g_joined := true |} nv.

Lemma endpoint_argument_str e fld t :
  (exists a, good_endpoint e a) /\ endpoint_str e = Ok t -> endpoint_argument fld t = Ok e.
Proof. intros [[a Ha] Ht]. unfold endpoint_argument. by rewrite (good_endpoint_parse e a fld t). Qed.

Lemma ip_argument_str fld t : usable_text t -> ip_argument fld t = Ok t.
Proof. intros (a & -> & Hwf & Hu). unfold ip_argument. rewrite ip_address_str by done. cbn. by rewrite Hu. Qed.

Lemma text_for_option c name text v :
  (fun x => o_type x.2) <$> list_find (fun o => o_name o = name) (options kernel) = Some c ->
  convert c text = Ok v -> text_for (name, text) (name, v).
Proof.
  intros Hc Hv. destruct (list_find _ _) as [[i o]|] eqn:Ho in Hc; [|done]. cbn in Hc. simplify_eq.
  split; [done|]. by exists i, o.
Qed.

Lemma settings_stand_setting {A} name c (f : A -> string) (g : A -> arg_value) o :
  (fun x => o_type x.2) <$> list_find (fun o => o_name o = name) (options kernel) = Some c ->
  (forall a, o = Some a -> convert c (f a) = Ok (g a)) -> Forall2 text_for (setting name f o) (setting name g o).
Proof. intros Hc Hv. destruct o as [a|]; constructor; [|constructor]. by apply (text_for_option c); [|apply Hv]. Qed.

Lemma sorted_backends t : t ∈ sort_on (fun x => x) FIREWALL_BACKENDS <-> t ∈ FIREWALL_BACKENDS.
Proof. vm_compute sort_on. set_solver. Qed.

Lemma settings_stand n listen backend grace :
  settable n listen backend grace -> Forall2 text_for (setting_texts n listen backend grace) (setting_values n).
Proof.
  intros H. destruct H. unfold setting_texts, setting_values.
  repeat apply Forall2_app; [|eapply settings_stand_setting; [reflexivity|]..]; [|done|..].
  - repeat (apply Forall2_cons; split); [..|constructor]; (eapply text_for_option; [reflexivity|]); cbn [convert o_type snd prod_map id].
    + by rewrite (endpoint_argument_str (ns_listen n)).
    + by rewrite (endpoint_argument_str (ns_backend n)).
    + done.
    + by rewrite st_kernel0.
    + by rewrite int_of_str.
    + unfold str_in. by rewrite bool_decide_eq_true_2 by by apply sorted_backends.
    + unfold str_in. by rewrite bool_decide_eq_true_2.
    + by rewrite int_of_str.
    + by rewrite int_of_str.
    + by rewrite st_grace0.
  - intros t Ht. cbn [convert o_type snd prod_map id]. by rewrite ip_argument_str by auto.
  - intros t Ht. cbn [convert o_type snd prod_map id]. by rewrite ip_argument_str by auto.
Qed.
End settings.

(** C33. What is written on the command line is what the service gets.  A
    namespace can be set by giving each of its attributes once, in any order,
    each as [--option=text] or, where the text does not start with a dash, as
    two arguments: the endpoints, numbers and addresses as [str] writes them.
    The parser then returns that namespace. *)
Theorem parse_args_roundtrip `{F : FloatText} kernel n listen backend grace gs :
  settable n listen backend grace -> Forall writable gs ->
  map (fun g => (g_name g, g_text g)) gs ≡ₚ setting_texts n listen backend grace ->
  parse_args kernel (concat (map written gs)) = Parsed n.
Proof.
  intros Hn Hw Hperm. destruct (Permutation_Forall2 (symmetry Hperm) (settings_stand kernel _ _ _ _ Hn)) as (nvs & Hnvs & Hfor).
  apply (Forall2_fmap_l (fun g => (g_name g, g_text g))) in Hfor. unfold parse_args.
  rewrite (parse_values_written _ (options_plain kernel) gs nvs (setting_values n)); try done.
  - by rewrite setting_values_namespace.
  - apply setting_values_keys.
  - apply setting_values_complete.
Qed.

#[local] Instance sample_floats : FloatText := fun t => if bool_decide (t = "2.5") then Some (VFloat (5 # 2)) else None.
Definition sample_namespace : Namespace := {|
  ns_listen := {| address := "2001:db8::1"; port := 443 |}; ns_backend := {| address := "127.0.0.1"; port := 8080 |};
  ns_cc := "bbr"; ns_kernel := "/opt/tcpcc/vmlinux"; ns_memory_mib := 256; ns_firewall_backend := "iptables";
  ns_iptables_variant := "iptables-nft"; ns_tun_name := Some "-tun"; ns_tun_host_address := None;
  ns_tun_guest_address := Some "fd00::2"; ns_backlog := 64; ns_max_connections := 0;
  ns_shutdown_grace_period := VFloat (5 # 2) |}.
Definition sample_settings : list given :=
  let joined n t := {| g_name := n; g_text := t; g_joined := true |} in
  let apart n t := {| g_name := n; g_text := t; g_joined := false |} in
  [apart "--cc" "bbr"; joined "--tun-name" "-tun"; apart "--listen" "[2001:db8::1]:443"; apart "--backlog" "64";
   joined "--backend" "127.0.0.1:8080"; apart "--shutdown-grace-period" "2.5"; joined "--firewall-backend" "iptables";
   apart "--iptables-variant" "iptables-nft"; apart "--memory-mib" "256"; joined "--max-connections" "0";
   apart "--tun-guest-address" "fd00::2"; joined "--kernel" "/opt/tcpcc/vmlinux"].

Lemma parse_args_roundtrip_witness :
  concat (map written sample_settings) =
    ["--cc"; "bbr"; "--tun-name=-tun"; "--listen"; "[2001:db8::1]:443"; "--backlog"; "64"; "--backend=127.0.0.1:8080";
     "--shutdown-grace-period"; "2.5"; "--firewall-backend=iptables"; "--iptables-variant"; "iptables-nft"; "--memory-mib"; "256";
     "--max-connections=0"; "--tun-guest-address"; "fd00::2"; "--kernel=/opt/tcpcc/vmlinux"] /\
  parse_args "/usr/vmlinux" (concat (map written sample_settings)) = Parsed sample_namespace.
Proof.
  split; [vm_compute; reflexivity|].
  apply (parse_args_roundtrip "/usr/vmlinux" sample_namespace "[2001:db8::1]:443" "127.0.0.1:8080" "2.5").
  - split; [..|vm_compute; reflexivity].
    + split; [|vm_compute; reflexivity]. eapply (endpoint_parse_good (VStr "[2001:db8::1]:443") "listen"). vm_compute. reflexivity.
    + split; [|vm_compute; reflexivity]. eapply (endpoint_parse_good (VStr "127.0.0.1:8080") "backend"). vm_compute. reflexivity.
    + vm_compute. reflexivity.
    + split; [done|]. apply Nat.leb_le. vm_compute. reflexivity.
    + set_solver.
    + set_solver.
    + done.
    + intros t [= <-]. exists (default (IPv4Address 0) (ip_address "fd00::2")). split_and!; vm_compute; reflexivity.
    + split; [done|]. apply Nat.leb_le. vm_compute. reflexivity.
    + split; [done|]. apply Nat.leb_le. vm_compute. reflexivity.
  - repeat (constructor; [first [by left | by right]|]). constructor.
  - refine (bool_decide_unpack _ _). vm_compute. exact I.
Defined.

(** ** Every command line is refused or gives legal values *)

(** The exceptions of a conversion that [argparse] makes a usage error. *)
Definition refusal (e : exn) : Prop := is_ValueError e = true \/ exists text, e = ArgumentTypeError text.

Ltac raises :=
  repeat match goal with
  | |- rthrows _ (_ ≫= _) => apply rthrows_bind; [|intros ?]
  | |- rthrows _ (res_of_option _ _) => apply rthrows_of_option; auto
  | |- rthrows _ (raise_if _ _) => apply rthrows_raise_if; auto
  | |- rthrows _ (Err _) => apply rthrows_Err; auto
  | |- rthrows _ (Ok _) => apply rthrows_Ok
  | |- rthrows _ _ => case_match
  end.

Lemma endpoint_parse_refuses v fld : rthrows (fun e => is_ValueError e = true) (endpoint_parse v fld).
Proof.
  unfold endpoint_parse, int_of_digits. raises.
Qed.

Lemma convert_refuses `{F : FloatText} c text : rthrows refusal (convert c text).
Proof.
  assert (forall t, refusal (ArgumentTypeError t)) as Ha by (right; eauto).
  assert (forall t, refusal (ValueError t)) as Hv by by left.
  destruct c; cbn [convert]; unfold ip_argument; raises.
  unfold endpoint_argument. intros e.
  pose proof (endpoint_parse_refuses (VStr text) field) as Hr. destruct (endpoint_parse _ _) as [|e']; [done|].
  rewrite (Hr e') by done. by intros [= <-].
Qed.

Section accepted.
Context `{F : FloatText} (specs : list option_spec).

(** Each value seen comes from its option's conversion. *)
Definition converted (seen : gmap string arg_value) : Prop :=
  forall i o v, list_find (fun p => o_name p = o_name o) specs = Some (i, o) -> seen !! o_name o = Some v ->
  exists text, convert (o_type o) text = Ok v.

Lemma converted_insert name i o text v seen :
  list_find (fun o => o_name o = name) specs = Some (i, o) -> convert (o_type o) text = Ok v ->
  converted seen -> converted (<[name := v]> seen).
Proof.
  intros Ho Hv Hm i' o' v' Ho' Hv'. apply lookup_insert_Some in Hv' as [[-> ->]|[_ Hv']]; [|by eapply Hm].
  rewrite Ho' in Ho. simplify_eq. eauto.
Qed.

Definition outcome_of (p : parsed (gmap string arg_value)) : Prop :=
  match p with
  | Parsed seen => converted seen /\ missing specs seen = false
  | Exit status => status = 0 \/ status = 2
  | Fails _ => False
  end.

Lemma consume_outcome ts seen extras : converted seen -> outcome_of (consume specs ts seen extras).
Proof.
  revert seen extras. induction ts as [ts IH] using (well_founded_induction (well_founded_ltof _ length)). intros seen extras Hs.
  unfold ltof in IH. destruct ts as [|[name explicit| | |] ts]; cbn [consume]; try (apply IH; [cbn; lia|done]).
  - destruct (missing specs seen) eqn:Hm; cbn [orb]; [by right|]. destruct extras; [by right|done].
  - destruct (list_find _ _) as [[i o]|] eqn:Ho; [|destruct (help_option _ _); [by left|by right]].
    destruct explicit as [text|]; [|destruct ts as [|[| |text|] ts]; try by right].
    all: pose proof (convert_refuses (o_type o) text) as Hr.
    all: destruct (convert _ text) as [v|e] eqn:Hv; [apply IH; [cbn; lia|by eapply converted_insert]|].
    all: destruct (Hr e eq_refl) as [He|[t ->]]; [|by right]; rewrite He; repeat case_match; by right.
Qed.

Lemma parse_values_outcome args : outcome_of (parse_values specs args).
Proof. unfold parse_values. destruct (tokens _ _); [|by right]. apply consume_outcome. by intros ?. Qed.
End accepted.

(** What a conversion promises of its values. *)
Definition legal_value (c : conversion) (v : arg_value) : Prop :=
  match c, v with
  | ToEndpoint _, AEndpoint e => exists a, good_endpoint e a
  | ToChoice choices, AText t => t ∈ choices
  | ToPath, AText t => exists text, t = py_path text
  | ToIp _, AText t => usable_text t
  | ToText, AText _ | ToInt, AInt _ | ToFloat, ANumber _ => True
  | _, _ => False
  end.

Lemma convert_legal `{F : FloatText} c text v : convert c text = Ok v -> legal_value c v.
Proof.
  destruct c; cbn [convert]; intros H; res_inv; cbn [legal_value]; eauto.
  - unfold endpoint_argument in *. destruct (endpoint_parse _ _) eqn:He; [|by case_match]. simplify_eq.
    by eapply endpoint_parse_good.
  - destruct (str_in _ _) eqn:Hin; [|done]. simplify_eq. by apply bool_decide_eq_true in Hin.
  - destruct (int_of text); cbn in H; by simplify_eq.
  - destruct (float_of text); cbn in H; by simplify_eq.
  - unfold ip_argument in *. res_inv. destruct (ip_address text) as [a|] eqn:Ha; [|done]. cbn in *. simplify_eq.
    bool_to_prop. exists x0. split_and!; [done|by eapply ip_address_wf|done].
Qed.

(** A namespace the parser can give. *)
Record legal (n : Namespace) : Prop := {
  lg_listen : exists a, good_endpoint (ns_listen n) a;
  lg_backend : exists a, good_endpoint (ns_backend n) a;
  lg_kernel : exists text, ns_kernel n = py_path text;
  lg_firewall : ns_firewall_backend n ∈ FIREWALL_BACKENDS;
  lg_variant : ns_iptables_variant n ∈ IPTABLES_VARIANTS;
  lg_host : forall t, ns_tun_host_address n = Some t -> usable_text t;
  lg_guest : forall t, ns_tun_guest_address n = Some t -> usable_text t;
}.

Lemma value_of_legal `{F : FloatText} specs seen i o :
  converted specs seen -> missing specs seen = false ->
  list_find (fun p => o_name p = o_name o) specs = Some (i, o) ->
  legal_value (o_type o) (value_of specs seen (o_name o)) \/
  o_required o = false /\ value_of specs seen (o_name o) = o_default o.
Proof.
  intros Hc Hm Ho. unfold value_of. destruct (seen !! o_name o) as [v|] eqn:Hv.
  - left. destruct (Hc i o v Ho Hv) as [text Ht]. by eapply convert_legal.
  - right. rewrite Ho. split; [|done]. apply list_find_Some in Ho as (Ho & _). apply list_elem_of_lookup_2 in Ho.
    unfold missing in Hm. destruct (o_required o) eqn:Hr; [|done]. exfalso.
    enough (existsb (fun o => o_required o && negb (bool_decide (is_Some (seen !! o_name o)))) specs = true) by congruence.
    apply existsb_exists. exists o. split; [by apply list_elem_of_In|].
    rewrite Hr, Hv. by rewrite bool_decide_eq_false_2 by (by intros []).
Qed.

Section legal_namespace.
Context `{F : FloatText} (kernel : string) (seen : gmap string arg_value).
Context (Hc : converted (options kernel) seen) (Hm : missing (options kernel) seen = false).

(** A required option, one with a default, and one that may be absent. *)
Lemma value_cases name i o :
  list_find (fun p => o_name p = name) (options kernel) = Some (i, o) ->
  legal_value (o_type o) (value_of (options kernel) seen name) \/
  o_required o = false /\ value_of (options kernel) seen name = o_default o.
Proof.
  intros Ho. pose proof Ho as (_ & <- & _)%list_find_Some. by eapply value_of_legal.
Qed.
Lemma value_required name i o :
  list_find (fun p => o_name p = name) (options kernel) = Some (i, o) ->
  o_required o = true \/ legal_value (o_type o) (o_default o) ->
  legal_value (o_type o) (value_of (options kernel) seen name).
Proof. intros Ho Hr. destruct (value_cases _ _ _ Ho) as [?|[Hf ->]]; [done|]. destruct Hr; [congruence|done]. Qed.
Lemma value_optional name i o :
  list_find (fun p => o_name p = name) (options kernel) = Some (i, o) -> o_default o = ANone ->
  legal_value (o_type o) (value_of (options kernel) seen name) \/ value_of (options kernel) seen name = ANone.
Proof. intros Ho Hd. destruct (value_cases _ _ _ Ho) as [?|[_ ->]]; auto. Qed.

Ltac value name H :=
  first [ pose proof (value_required name _ _ eq_refl (or_introl eq_refl)) as H
        | pose proof (value_optional name _ _ eq_refl eq_refl) as H
        | pose proof (value_required name _ _ eq_refl) as H; lapply H; [clear H; intros H|right; cbn; eauto; set_solver] ];
  cbn [o_type snd prod_map id] in H; destruct (value_of (options kernel) seen name);
  try (by destruct H); cbn [legal_value] in H.

Lemma to_namespace_legal : exists n, to_namespace (value_of (options kernel) seen) = Some n /\ legal n.
Proof.
  unfold to_namespace.
  value "--listen" Hlisten.
  value "--backend" Hbackend.
  value "--cc" Hcc.
  value "--kernel" Hkernel.
  value "--memory-mib" Hmemory.
  value "--firewall-backend" Hfirewall.
  value "--iptables-variant" Hvariant.
  value "--backlog" Hbacklog.
  value "--max-connections" Hmax.
  value "--shutdown-grace-period" Hgrace.
  eexists. split; [reflexivity|]. split; cbn; try done.
  - by apply sorted_backends.
  - intros t. value "--tun-host-address" Hhost; cbn; intros [= <-]. by destruct Hhost.
  - intros t. value "--tun-guest-address" Hguest; cbn; intros [= <-]. by destruct Hguest.
Qed.
End legal_namespace.

Lemma parse_args_outcome `{F : FloatText} kernel argv :
  match parse_args kernel argv with
  | Parsed n => legal n
  | Exit status => status = 0 \/ status = 2
  | Fails _ => False
  end.
Proof.
  unfold parse_args. pose proof (parse_values_outcome (options kernel) argv) as H.
  destruct (parse_values _ _) as [seen| |]; try done. destruct H as [Hc Hm].
  by destruct (to_namespace_legal kernel seen Hc Hm) as (n & -> & Hn).
Qed.
