(* ===== verification/Runtime.v ===== *)
(** * The hosted kernel runtime

    [HostedKernelRuntime] of [tools/tcpcc_cli.py]: the child process, its
    listener and the bridges of accepted connections, driven over the control
    channel of [Control].  A method is a computation on the state [Runtime];
    [self.config] is a parameter of all of them.  The loops whose end the
    hosted kernel or the clock decides take a number of turns. *)

From Stdlib Require Import QArith.Qround.
From S2P Require Import Prelude PyStr Reports Py Effects Json Struct IpAddr Control Signals Config.
Local Open Scope Z_scope.

Definition EVENT_SCHEMA : string := "tcpcc.runtime.v1".
Definition BRIDGE_BUFFER_LIMIT : Z := 16 * 1024.
Definition BRIDGE_TOTAL_BUFFER_LIMIT : Z := 256 * 1024.
Definition BRIDGE_JOIN_POLL_MS : Z := 1.
Definition BRIDGE_DRAIN_JOIN_SLICE_MS : Z := 50.
Definition BRIDGE_SHUTDOWN_JOIN_MS : Z := 5000.
Definition HOST_EVENT_ERROR : Z := 8.

(** ** State *)

Record Runtime := {
  rt_process : option popen;
  rt_control : bool;
  rt_ifindex : option Z;
  rt_listener : option Z;
  rt_active : gset Z;
  rt_l3_attached : bool;
  rt_closed : bool;
}.

(** [HostedKernelRuntime.__init__] *)
Definition new_runtime : Runtime := {|
  rt_process := None; rt_control := false; rt_ifindex := None; rt_listener := None; rt_active := ∅;
  rt_l3_attached := false; rt_closed := false |}.

Definition set_process (p : popen) (r : Runtime) : Runtime := {|
  rt_process := Some p; rt_control := rt_control r; rt_ifindex := rt_ifindex r; rt_listener := rt_listener r;
  rt_active := rt_active r; rt_l3_attached := rt_l3_attached r; rt_closed := rt_closed r |}.
Definition set_control (r : Runtime) : Runtime := {|
  rt_process := rt_process r; rt_control := true; rt_ifindex := rt_ifindex r; rt_listener := rt_listener r;
  rt_active := rt_active r; rt_l3_attached := rt_l3_attached r; rt_closed := rt_closed r |}.
Definition set_attached (index : Z) (r : Runtime) : Runtime := {|
  rt_process := rt_process r; rt_control := rt_control r; rt_ifindex := Some index; rt_listener := rt_listener r;
  rt_active := rt_active r; rt_l3_attached := true; rt_closed := rt_closed r |}.
Definition set_listener (l : option Z) (r : Runtime) : Runtime := {|
  rt_process := rt_process r; rt_control := rt_control r; rt_ifindex := rt_ifindex r; rt_listener := l;
  rt_active := rt_active r; rt_l3_attached := rt_l3_attached r; rt_closed := rt_closed r |}.
Definition set_active (f : gset Z -> gset Z) (r : Runtime) : Runtime := {|
  rt_process := rt_process r; rt_control := rt_control r; rt_ifindex := rt_ifindex r; rt_listener := rt_listener r;
  rt_active := f (rt_active r); rt_l3_attached := rt_l3_attached r; rt_closed := rt_closed r |}.
Definition set_closed (r : Runtime) : Runtime := {|
  rt_process := rt_process r; rt_control := rt_control r; rt_ifindex := rt_ifindex r; rt_listener := rt_listener r;
  rt_active := rt_active r; rt_l3_attached := rt_l3_attached r; rt_closed := true |}.

(** The order in which Python gives the elements of a set depends on its
    history. *)
Class SetOrder := {
  set_order : trace -> gset Z -> list Z;
  set_order_perm tr s : set_order tr s ≡ₚ elements s;
}.

(** ** Output *)

(** [EventEmitter.event] and [EventEmitter.diagnostic] *)
Definition event `{E : Env} {S} (name : string) (fields : list (string * json)) : M S unit :=
  perform (CEmit (JObj (("schema", JStr EVENT_SCHEMA) :: ("event", JStr name) :: fields))).
Definition diagnostic `{E : Env} {S} (message : string) : M S unit :=
  perform (CDiagnostic ("tcpcc: " +:+ message)).

Definition encode_ascii (s : string) : res bytes :=
  if str_forallb is_ascii s then Ok (String.list_byte_of_string s)
  else Err (Sys (SUnicodeError "ordinal not in range(128)")).
Definition decode_ascii (b : bytes) : option string :=
  let s := String.string_of_list_byte b in if str_forallb is_ascii s then Some s else None.

(** [_validate_bridge_contract] *)
Definition validate_bridge_contract (r : BridgeResult) : res unit :=
  _ ← raise_if (negb (session_limit r =? BRIDGE_SESSION_LIMIT))
        (ControlProtocolError ("hosted bridge session limit is " +:+ str_of_Z (session_limit r)
                               +:+ ", expected " +:+ str_of_Z BRIDGE_SESSION_LIMIT));
  _ ← raise_if (negb (buffer_limit r =? BRIDGE_BUFFER_LIMIT) || negb (total_buffer_limit r =? BRIDGE_TOTAL_BUFFER_LIMIT))
        (ControlProtocolError "hosted bridge buffer contract changed");
  raise_if ((br_status r =? 0) && negb (Z.land (terminal_events r) HOST_EVENT_ERROR =? 0))
    (ControlProtocolError "successful hosted bridge result contains a host error event").

Section runtime.
Context `{E : Env} `{T : Strerror} `{SO : SetOrder} (config : ServiceConfig).

(** [self._channel().transact(...)] *)
Definition transact_with (op h arg0 arg1 : Z) (payload : bytes) (allowed : list Z) : M Runtime ControlResponse :=
  r ← get_state;
  if rt_control r
  then channel_transact {| rq_operation := op; rq_handle := h; rq_arg0 := arg0; rq_arg1 := arg1; rq_data := payload |} allowed
  else raise (RuntimeError "hosted control channel has not started").

(** [tuple(self.active_bridges)] *)
Definition active_handles : M Runtime (list Z) := fun r tr => (Ret (set_order tr (rt_active r)), r, tr).
Definition active_count : M Runtime Z := r ← get_state; mret (Z.of_nat (size (rt_active r))).

(** [_verify_cc] *)
Definition verify_cc (h : Z) (label : string) : M Runtime unit :=
  response ← transact_with OP_GET_CC h 0 0 [] [0];
  match decode_ascii (data response) with
  | None => raise (ControlProtocolError ("hosted " +:+ label +:+ " returned a non-ASCII congestion-control name"))
  | Some seen =>
      if bool_decide (seen = cc config) then mret tt
      else raise (ControlProtocolError ("hosted " +:+ label +:+ " congestion control is " +:+ py_repr seen
                                        +:+ ", expected " +:+ py_repr (cc config)))
  end.

Definition positive_handle (h : Z) (what : string) : M Runtime unit :=
  of_res (raise_if (h <=? 0) (ControlProtocolError (what +:+ " " +:+ str_of_Z h))).

(** [start], in its two halves: the child with its pipes, and the listener. *)
Definition start_process (tun_fd : pyval) : M Runtime Z :=
  r ← get_state;
  match rt_process r with
  | Some _ => raise (RuntimeError "hosted runtime is already started")
  | None =>
      let bad_fd := ValueError "TUN fd must be an inherited descriptor of at least 3" in
      fd ← of_res (match tun_fd with VInt fd => if fd <? 3 then Err bad_fd else Ok fd | _ => Err bad_fd end);
      p ← perform (CPopen [kernel config; "--memory-mib=" +:+ str_of_Z (memory_mib config)] [fd]);
      _ ← modify (set_process p);
      if negb (po_stdin p) || negb (po_stdout p)
      then raise (RuntimeError "hosted process did not expose control pipes")
      else _ ← modify set_control; mret fd
  end.

Definition start_listener (fd : Z) : M Runtime unit :=
  guest_ip ← of_res (parse_ip (tun_guest_address config));
  l3 ← of_res (encode_l3_config (VStr (tun_guest_address config)) (VInt (max_prefixlen guest_ip)));
  response ← transact_with OP_L3_ATTACH_IP fd 0 0 l3 [0];
  _ ← positive_handle (handle response) "hosted L3 attach returned invalid ifindex";
  _ ← modify (set_attached (handle response));
  version ← of_res (endpoint_version (listen config));
  response ← transact_with OP_SOCKET_IP 0 version 0 [] [0];
  _ ← positive_handle (handle response) "hosted socket returned invalid handle";
  let listener := handle response in
  _ ← modify (set_listener (Some listener));
  name ← of_res (encode_ascii (cc config));
  _ ← transact_with OP_SET_CC listener 0 0 name [0];
  _ ← verify_cc listener "listener";
  endpoint ← of_res (encode_ip_endpoint (VStr (tun_guest_address config)) (VInt (port (listen config))));
  _ ← transact_with OP_BIND_IP listener 0 0 endpoint [0];
  _ ← transact_with OP_LISTEN listener (backlog config) 0 [] [0];
  mret tt.

Definition start (tun_fd : pyval) : M Runtime unit :=
  fd ← start_process tun_fd; start_listener fd.

(** [_ensure_running] *)
Definition ensure_running : M Runtime unit :=
  r ← get_state;
  match rt_process r with
  | None => raise (RuntimeError "hosted process has not started")
  | Some _ =>
      status ← perform CPoll;
      match status with
      | Some st => raise (RuntimeExitedError ("hosted kernel exited unexpectedly with status " +:+ str_of_Z st))
      | None => mret tt
      end
  end.

(** [try: m except ControlOperationError as error]: the status of the error. *)
Definition operation_status {A} (m : M Runtime A) : M Runtime (A + Z) :=
  try_except (a ← m; mret (inl a))
    (fun e => match e with ControlOperationError _ st _ => mret (inr st) | _ => raise e end).

Definition discard (h : Z) : M Runtime unit := modify (set_active (fun s => s ∖ {[h]})).

(** [_join_bridge_result] *)
Definition join_bridge_result (h timeout_ms : Z) : M Runtime bool :=
  r ← operation_status (transact_with OP_BRIDGE_JOIN_RESULT h timeout_ms 0 [] [0]);
  match r with
  | inr st =>
      if st =? - ETIMEDOUT then mret false
      else
        _ ← discard h;
        n ← active_count;
        _ ← event "connection-closed"
              [("bridge_handle", JInt h); ("status", JInt st); ("active_connections", JInt n);
               ("max_connections", JInt (max_connections config))];
        _ ← diagnostic ("bridge " +:+ str_of_Z h +:+ " could not return its terminal result: hosted status "
                        +:+ str_of_Z st);
        mret true
  | inl response =>
      result ← of_res (decode_bridge_result (VBytes (data response)) true);
      _ ← of_res (validate_bridge_contract result);
      _ ← discard h;
      n ← active_count;
      _ ← event "connection-closed"
            [("bridge_handle", JInt h); ("status", JInt (br_status result)); ("active_connections", JInt n);
             ("max_connections", JInt (max_connections config));
             ("public_to_backend_bytes", JInt (public_to_backend_bytes result));
             ("backend_to_public_bytes", JInt (backend_to_public_bytes result));
             ("terminal_events", JInt (terminal_events result));
             ("host_send_eagain", JInt (host_send_eagain result));
             ("host_partial_writes", JInt (host_partial_writes result));
             ("host_recv_eagain", JInt (host_recv_eagain result))];
      _ ← (if br_status result =? 0 then mret tt
           else diagnostic ("bridge " +:+ str_of_Z h +:+ " closed with hosted status " +:+ str_of_Z (br_status result)));
      mret true
  end.

(** [_reap_bridges] *)
Definition reap_bridges : M Runtime unit :=
  handles ← active_handles;
  for_each handles (fun h => _ ← join_bridge_result h BRIDGE_JOIN_POLL_MS; mret tt).

(** The event of a backend that could not be reached. *)
Definition reject_connection (st : Z) : M Runtime unit :=
  backend ← of_res (endpoint_str (backend config));
  _ ← event "connection-rejected" [("status", JInt st); ("backend", JStr backend)];
  diagnostic ("could not connect an accepted flow to backend " +:+ backend +:+ ": hosted status " +:+ str_of_Z st).

(** One accepted socket until it is handed to a bridge: the bridge, or [None]
    when the backend could not be reached. *)
Definition open_bridge (accepted : Z) : M Runtime (option Z) :=
  _ ← verify_cc accepted "accepted socket";
  address ← of_res (ipv4_u32 (backend config));
  r ← operation_status (transact_with OP_BRIDGE_START accepted address (port (backend config)) [] [0]);
  match r with
  | inr st => _ ← reject_connection st; mret None
  | inl response =>
      _ ← positive_handle (handle response) "bridge start returned invalid handle";
      mret (Some (handle response))
  end.

(** The [finally] of [_accept_available] for a socket that was not handed over. *)
Definition close_accepted (accepted : Z) : M Runtime unit :=
  try_except (_ ← transact_with OP_CLOSE accepted 0 0 [] [0; - EBADF]; mret tt)
    (fun e => diagnostic ("accepted socket " +:+ str_of_Z accepted +:+ " cleanup failed: " +:+ exn_str e)).

(** What follows a successful accept: [transferred] is whether [open_bridge]
    gave a bridge. *)
Definition handle_accepted (accepted : Z) : M Runtime unit :=
  r ← try_except (b ← open_bridge accepted; mret (inl b)) (fun e => mret (inr e));
  match r with
  | inl (Some h) =>
      _ ← modify (set_active (fun s => s ∪ {[h]}));
      backend ← of_res (endpoint_str (backend config));
      n ← active_count;
      event "connection-opened"
        [("bridge_handle", JInt h); ("accepted_cc", JStr (cc config)); ("backend", JStr backend);
         ("active_connections", JInt n); ("max_connections", JInt (max_connections config))]
  | inl None => close_accepted accepted
  | inr e => _ ← close_accepted accepted; raise e
  end.

(** [_accept_available], at most [fuel] turns of its loop. *)
Fixpoint accept_loop (fuel : nat) (listener : Z) : M Runtime unit :=
  n ← active_count;
  if (max_connections config =? 0) || (n <? max_connections config) then
    match fuel with
    | O => out_of_fuel
    | S fuel =>
        r ← operation_status (transact_with OP_ACCEPT_NONBLOCK listener 0 0 [] [0]);
        match r with
        | inr st =>
            if (st =? - EAGAIN) || (st =? - EWOULDBLOCK) then mret tt
            else raise (control_operation_error OP_ACCEPT_NONBLOCK st)
        | inl response =>
            let accepted := handle response in
            _ ← positive_handle accepted "hosted accept returned invalid handle";
            _ ← handle_accepted accepted;
            accept_loop fuel listener
        end
    end
  else mret tt.

Definition accept_available (fuel : nat) : M Runtime unit :=
  r ← get_state;
  match rt_listener r with
  | None => raise (RuntimeError "hosted listener is unavailable")
  | Some listener => accept_loop fuel listener
  end.

(** [poll_once] *)
Definition poll_once (fuel : nat) : M Runtime unit :=
  _ ← ensure_running;
  _ ← reap_bridges;
  accept_available fuel.

(** [serve], at most [turns] polls. *)
Definition on_runtime {A} (m : M Runtime A) : M (Runtime * ShutdownSignals) A := zoom fst (fun r s => (r, s.2)) m.
Definition on_signals {A} (m : M ShutdownSignals A) : M (Runtime * ShutdownSignals) A := zoom snd (fun g s => (s.1, g)) m.

Fixpoint serve (turns fuel : nat) : M (Runtime * ShutdownSignals) unit :=
  stop ← on_signals requested;
  if (stop : bool) then mret tt
  else
    match turns with
    | O => out_of_fuel
    | S turns =>
        _ ← on_runtime (poll_once fuel);
        _ ← on_signals (wait (default 0%Q (as_number (poll_interval config))));
        serve turns fuel
    end.

(** [_force_stop] *)
Definition force_stop : M Runtime unit :=
  r ← get_state;
  match rt_process r with
  | None => mret tt
  | Some _ =>
      status ← perform CPoll;
      match status with
      | Some _ => mret tt
      | None =>
          _ ← perform CTerminate;
          try_except (_ ← perform (CWait 2); mret tt)
            (fun e => match e with
                      | Sys (STimeoutExpired _) => _ ← perform CKill; _ ← perform (CWait 2); mret tt
                      | _ => raise e
                      end)
      end
  end.

(** One pass of the drain loop over the bridges, until the deadline. *)
Fixpoint drain_pass (deadline : Q) (handles : list Z) : M Runtime unit :=
  match handles with
  | [] => mret tt
  | h :: handles =>
      now ← perform CClock;
      let remaining := (deadline - now)%Q in
      if Qle_bool remaining 0 then mret tt
      else
        let timeout_ms := Z.max 1 (Z.min BRIDGE_DRAIN_JOIN_SLICE_MS (Qfloor (remaining * 1000))) in
        _ ← join_bridge_result h timeout_ms;
        drain_pass deadline handles
  end.

(** The drain loop, at most [fuel] passes. *)
Fixpoint drain_loop (fuel : nat) (deadline : Q) : M Runtime unit :=
  r ← get_state;
  if bool_decide (rt_active r = ∅) then mret tt
  else
    match fuel with
    | O => out_of_fuel
    | S fuel =>
        handles ← active_handles;
        _ ← drain_pass deadline handles;
        now ← perform CClock;
        if Qle_bool deadline now then mret tt else drain_loop fuel deadline
    end.

(** [_drain_bridges] *)
Definition drain_bridges (fuel : nat) : M Runtime unit :=
  r ← get_state;
  if bool_decide (rt_active r = ∅) then mret tt
  else
    let grace_period := default 0%Q (as_number (shutdown_grace_period config)) in
    n ← active_count;
    _ ← event "draining" [("active_connections", JInt n); ("grace_period", JReal grace_period)];
    if Qle_bool grace_period 0 then mret tt
    else
      now ← perform CClock;
      _ ← drain_loop fuel (now + grace_period)%Q;
      r ← get_state;
      if bool_decide (rt_active r = ∅) then mret tt
      else
        n ← active_count;
        _ ← event "drain-timeout" [("remaining_connections", JInt n); ("grace_period", JReal grace_period)];
        diagnostic ("shutdown grace period expired with " +:+ str_of_Z n +:+ " active connection(s)").

(** [try: m except BaseException as error: failures.append(error)] *)
Definition failures_of (m : M Runtime unit) : M Runtime (list exn) :=
  e ← attempt m; mret (from_option (fun e => [e]) [] e).

(** The join of one bridge at shutdown: what it adds to the failures. *)
Definition final_join (h : Z) : M Runtime (option exn) :=
  r ← try_except (done ← join_bridge_result h BRIDGE_SHUTDOWN_JOIN_MS;
                  mret (if (done : bool) then None
                        else Some (TimeoutError ("bridge " +:+ str_of_Z h +:+ " did not stop within "
                                                 +:+ str_of_Z BRIDGE_SHUTDOWN_JOIN_MS +:+ " ms"))))
         (fun e => mret (Some e));
  _ ← discard h;
  mret r.

(** The orderly stop of an attached kernel, in its two halves: new connections
    refused and the active ones drained, then those left cancelled and the
    kernel told to stop.  Each gives the failures on its way. *)
Definition stop_accepting (fuel : nat) : M Runtime (list exn) :=
  r ← get_state;
  f1 ← match rt_listener r with
       | None => mret []
       | Some listener =>
           _ ← modify (set_listener None);
           failures_of (_ ← transact_with OP_CLOSE listener 0 0 [] [0; - EBADF]; mret tt)
       end;
  f2 ← failures_of (drain_bridges fuel);
  mret (f1 ++ f2).

Definition stop_kernel (shutdown_timeout : Q) : M Runtime (list exn) :=
  try_except
    (_ ← transact_with OP_SHUTDOWN 0 0 0 [] [0];
     status ← perform (CWait shutdown_timeout);
     mret (if (status : Z) =? 0 then []
           else [RuntimeExitedError ("hosted kernel shutdown returned status " +:+ str_of_Z status)]))
    (fun e => mret [e]).

Definition stop_bridges : M Runtime (list exn) :=
  handles ← active_handles;
  f3 ← collect handles (fun h => attempt (_ ← transact_with OP_BRIDGE_CANCEL h 0 0 [] [0; - ENOENT]; mret tt));
  handles ← active_handles;
  f4 ← collect handles final_join;
  mret (f3 ++ f4).

Definition orderly_stop (fuel : nat) (shutdown_timeout : Q) : M Runtime (list exn) :=
  f12 ← stop_accepting fuel;
  f34 ← stop_bridges;
  f5 ← stop_kernel shutdown_timeout;
  mret (f12 ++ f34 ++ f5).

(** The body of the [try] of [shutdown]. *)
Definition shutdown_body (fuel : nat) (shutdown_timeout : Q) (running : bool) : M Runtime (list exn) :=
  r ← get_state;
  if running && rt_control r && rt_l3_attached r then orderly_stop fuel shutdown_timeout
  else if running then _ ← force_stop; mret []
  else
    status ← perform CPoll;
    match status with
    | Some st =>
        if st =? 0 then mret []
        else
          again ← perform CPoll;
          mret [RuntimeExitedError ("hosted kernel was already dead during shutdown with status "
                                    +:+ from_option str_of_Z "None" (again : option Z))]
    | None => mret []
    end.

(** Its [finally]: the child is stopped and both pipes are closed. *)
Definition shutdown_finally (p : popen) : M Runtime (list exn) :=
  status ← perform CPoll;
  f1 ← match status with None => failures_of force_stop | Some _ => mret [] end;
  f2 ← (if po_stdin p then failures_of (perform (CClosePipe true)) else mret []);
  f3 ← (if po_stdout p then failures_of (perform (CClosePipe false)) else mret []);
  mret (f1 ++ f2 ++ f3).

(** [shutdown] *)
Definition shutdown (fuel : nat) (shutdown_timeout : Q) : M Runtime unit :=
  r ← get_state;
  if rt_closed r then mret tt
  else
    _ ← modify set_closed;
    match rt_process r with
    | None => mret tt
    | Some p =>
        status ← perform CPoll;
        let running := bool_decide (status = None) in
        body ← try_except (f ← shutdown_body fuel shutdown_timeout running; mret (inl f)) (fun e => mret (inr e));
        last ← shutdown_finally p;
        match body with
        | inr e => raise e
        | inl failures =>
            if bool_decide (failures ++ last = []) then mret tt
            else raise (RuntimeCleanupError (failures ++ last))
        end
    end.

End runtime.
