(* ===== verification/Connections.v ===== *)
(** * Connections of a running service

    What [HostedKernelRuntime] does while it serves, against the trace of the
    control channel: the bridges it believes active are those the hosted kernel
    started and has not ended, every accepted socket is handed to a bridge or
    closed, and the admission limit holds; and its accept loop ends. *)

From Stdlib Require Import QArith.Qround.
From S2P Require Import Prelude PyStr Reports Py Effects Json Struct IpAddr Control Signals Config Runtime.
Local Open Scope Z_scope.

(** ** What the trace says *)

(** The reply to a request over the channel, in an event. *)
Definition exchange (ev : Effects.event) : option (control_request * option control_reply) :=
  match ev with
  | Ev c r =>
      match c return reply (ret c) -> option (control_request * option control_reply) with
      | CTransact rq => fun r => Some (rq, match r with Answer a => Some a | Fault _ => None end)
      | _ => fun _ => None
      end r
  end.

(** The bridges running: those started and not yet joined to their end. *)
Definition live_step (s : gset Z) (ev : Effects.event) : gset Z :=
  match exchange ev with
  | Some (rq, Some (CtlReply st h d)) =>
      if rq_operation rq =? OP_BRIDGE_START then (if (st =? 0) && (0 <? h) then s ∪ {[h]} else s)
      else if rq_operation rq =? OP_BRIDGE_JOIN_RESULT then
        if st =? 0
        then if is_ok (decode_bridge_result (VBytes d) true ≫= validate_bridge_contract) then s ∖ {[rq_handle rq]} else s
        else if st =? - ETIMEDOUT then s else s ∖ {[rq_handle rq]}
      else s
  | _ => s
  end.
Definition live (tr : trace) (s : gset Z) : gset Z := fold_left live_step tr s.

(** The accepted sockets the runtime owns: neither given to a bridge nor asked
    to be closed. *)
Definition held_step (s : gset Z) (ev : Effects.event) : gset Z :=
  match exchange ev with
  | Some (rq, r) =>
      if rq_operation rq =? OP_CLOSE then s ∖ {[rq_handle rq]}
      else
        match r with
        | Some (CtlReply st h d) =>
            if (st =? 0) && (0 <? h) then
              if rq_operation rq =? OP_ACCEPT_NONBLOCK then s ∪ {[h]}
              else if rq_operation rq =? OP_BRIDGE_START then s ∖ {[rq_handle rq]} else s
            else s
        | _ => s
        end
  | None => s
  end.
Definition held (tr : trace) (s : gset Z) : gset Z := fold_left held_step tr s.

Lemma live_app t u s : live (t ++ u) s = live u (live t s).
Proof. apply fold_left_app. Qed.
Lemma held_app t u s : held (t ++ u) s = held u (held t s).
Proof. apply fold_left_app. Qed.

(** Handles are 32-bit on the wire. *)
Definition wire (ev : Effects.event) : Prop :=
  match exchange ev with Some (_, Some (CtlReply _ h _)) => - 2 ^ 31 <= h < 2 ^ 31 | _ => True end.

(** Calls that neither start nor end anything. *)
Definition neutral (c : call) : Prop :=
  match c with
  | CTransact rq => rq_operation rq ∉ [OP_BRIDGE_START; OP_BRIDGE_JOIN_RESULT; OP_ACCEPT_NONBLOCK; OP_CLOSE]
  | _ => True
  end.

Lemma neutral_step s ev : neutral (ev_call ev) -> live_step s ev = s /\ held_step s ev = s.
Proof.
  destruct ev as [c r]. destruct c; try done. unfold live_step, held_step. cbn [ev_call neutral exchange]. intros Hop.
  assert (rq_operation rq =? OP_BRIDGE_START = false /\ rq_operation rq =? OP_BRIDGE_JOIN_RESULT = false /\
    rq_operation rq =? OP_ACCEPT_NONBLOCK = false /\ rq_operation rq =? OP_CLOSE = false) as (-> & -> & -> & ->).
  { rewrite !Z.eqb_neq. set_solver. }
  by destruct r as [[st h d|t|t]|e]; cbn; [destruct (_ && _)| | |].
Qed.

Lemma neutral_trace tr s : Forall (fun ev => neutral (ev_call ev)) tr -> live tr s = s /\ held tr s = s.
Proof.
  unfold live, held. induction 1 as [|ev tr Hev _ IH]; [done|]. cbn. by destruct (neutral_step s ev Hev) as [-> ->].
Qed.

(** ** Accounting *)

(** What every method of a running service keeps: the set of active bridges is
    the one the trace tells, no accepted socket is left behind, the admission
    limit holds, and nothing else of the runtime changes. *)
Record kept (config : ServiceConfig) (s : Runtime) (suf : trace) (s' : Runtime) : Prop := {
  kept_rest : s' = set_active (fun _ => rt_active s') s;
  kept_live : rt_active s' = live suf (rt_active s);
  kept_held p : Forall wire suf -> held suf p ⊆ p;
  kept_limit : 0 < max_connections config -> Z.of_nat (size (rt_active s)) <= max_connections config ->
               Z.of_nat (size (rt_active s')) <= max_connections config;
}.

#[export] Instance kept_rel config : TraceRel (kept config).
Proof.
  split.
  - intros s. by split; try destruct s.
  - intros s t s' t' s'' [Hr Hl Hh Hm] [Hr' Hl' Hh' Hm']. split.
    + rewrite Hr', Hr. by destruct s, s', s''.
    + rewrite Hl', Hl. by rewrite live_app.
    + intros p [Hw Hw']%Forall_app. rewrite held_app. etrans; [by apply Hh'|by apply Hh].
    + auto.
Qed.

(** Nothing started or ended, and the state as before. *)
Definition idle (s : Runtime) (suf : trace) (s' : Runtime) : Prop :=
  s' = s /\ Forall (fun ev => neutral (ev_call ev)) suf.

#[export] Instance idle_rel : TraceRel idle.
Proof. split; [by split|]. intros s t s' t' s'' [-> Ht] [-> Ht']. split; [done|by apply Forall_app]. Qed.

Section accounting.
Context `{E : Env} `{T : Strerror} `{SO : SetOrder} (config : ServiceConfig).
Implicit Types s : Runtime.

Lemma kept_neutral s suf : Forall (fun ev => neutral (ev_call ev)) suf -> kept config s suf s.
Proof.
  intros Hsuf. split; [by destruct s|by rewrite (proj1 (neutral_trace suf (rt_active s) Hsuf))| |done].
  intros p _. by rewrite (proj2 (neutral_trace suf p Hsuf)).
Qed.

Lemma steps_idle_kept {A} (m : M Runtime A) : steps idle m -> steps (kept config) m.
Proof. apply steps_mono. intros s t s' [-> Ht]. by apply kept_neutral. Qed.

Lemma steps_neutral c : neutral c -> steps idle (perform c).
Proof. intros Hc. apply steps_perform. intros s r. split; [done|by apply Forall_singleton]. Qed.

(** A request that is refused raises an exception of the validators. *)
Definition is_sys (e : exn) : Prop := exists x, e = Sys x.
#[local] Instance is_sys_catch_all : CatchAll is_sys.
Proof. intros e. by exists e. Qed.

Lemma rthrows_pack_sys fs v : rthrows is_sys (pack fs v).
Proof. induction fs as [|[]]; cbn [pack]; throws. Qed.
#[local] Hint Resolve rthrows_pack_sys : throws.

Lemma channel_check_sys rq allowed : rthrows is_sys (channel_check rq allowed).
Proof. unfold channel_check, encode_request, bounded_integer. throws. Qed.

(** One request: refused before it is sent, or sent and answered. *)
Lemma acts_transact op h a0 a1 d allowed s (Q : outcome ControlResponse -> Runtime -> trace -> Prop) :
  let rq := {| rq_operation := op; rq_handle := h; rq_arg0 := a0; rq_arg1 := a1; rq_data := d |} in
  (forall x, rt_control s = false \/ is_ok (channel_check rq allowed) = false -> Q (Raise (Sys x)) s []) ->
  (rt_control s = true -> is_ok (channel_check rq allowed) = true ->
   (forall r, Q (match transact_reply op allowed r with Ok v => Ret v | Err e => Raise e end) s
                [Ev (CTransact rq) (Answer r)]) /\
   (forall e, Q (Raise (Sys e)) s [Ev (CTransact rq) (Fault e)])) ->
  acts (transact_with op h a0 a1 d allowed) s Q.
Proof.
  intros rq Hno Hyes. unfold transact_with. apply acts_bind, acts_get. destruct (rt_control s).
  - unfold channel_transact. apply acts_bind, acts_of_res. fold rq. destruct (channel_check rq allowed) as [[]|e] eqn:Hc.
    + destruct (Hyes eq_refl eq_refl) as [Ha Hf]. apply acts_bind. acts_call; [intros r|intros e; apply Hf].
      apply acts_of_res. rewrite app_nil_r. apply Ha.
    + destruct (channel_check_sys _ _ e Hc) as [x ->]. apply Hno. by right.
  - apply acts_raise. apply Hno. by left.
Qed.

Lemma steps_transact op h a0 a1 d allowed :
  op ∉ [OP_BRIDGE_START; OP_BRIDGE_JOIN_RESULT; OP_ACCEPT_NONBLOCK; OP_CLOSE] ->
  steps idle (transact_with op h a0 a1 d allowed).
Proof.
  intros Hop s. apply acts_transact; [intros; apply rel_refl|]. intros _ _.
  by split; intros; (split; [done|]); apply Forall_singleton.
Qed.

Lemma steps_event name fields : steps idle (event name fields).
Proof. by apply (steps_neutral (CEmit _)). Qed.
Lemma steps_diagnostic text : steps idle (diagnostic text).
Proof. by apply (steps_neutral (CDiagnostic _)). Qed.
Lemma steps_active_count : steps idle active_count.
Proof. unfold active_count. steps. Qed.
Lemma steps_active_handles : steps idle active_handles.
Proof. apply steps_nil; [apply _|]. by eexists. Qed.
Lemma steps_positive h what : steps idle (positive_handle h what).
Proof. unfold positive_handle. steps. Qed.
#[local] Hint Resolve steps_idle_kept steps_event steps_diagnostic steps_active_count steps_active_handles steps_positive : steps.

Lemma steps_verify_cc h label : steps idle (verify_cc config h label).
Proof. unfold verify_cc. apply steps_bind; [apply _|apply steps_transact; set_solver|]. intros r. steps. Qed.
#[local] Hint Resolve steps_verify_cc : steps.

Definition join_request (h timeout_ms : Z) : control_request :=
  {| rq_operation := OP_BRIDGE_JOIN_RESULT; rq_handle := h; rq_arg0 := timeout_ms; rq_arg1 := 0; rq_data := [] |}.

(** A join that did not end the bridge, and one that did. *)
Lemma kept_join_open s h t r :
  live_step (rt_active s) (Ev (CTransact (join_request h t)) r) = rt_active s ->
  kept config s [Ev (CTransact (join_request h t)) r] s.
Proof.
  intros Hl. split; [by destruct s|by cbn|intros p _|done]. cbn. unfold held_step. cbn.
  destruct r as [[st h' d|?|?]|?]; try done. by destruct (_ && _).
Qed.

Lemma kept_join_ended s h t r :
  live_step (rt_active s) (Ev (CTransact (join_request h t)) r) = rt_active s ∖ {[h]} ->
  kept config s [Ev (CTransact (join_request h t)) r] (set_active (fun a => a ∖ {[h]}) s).
Proof.
  intros Hl. split; [by destruct s|by cbn|intros p _|].
  - cbn. unfold held_step. cbn. destruct r as [[st h' d|?|?]|?]; try done. by destruct (_ && _).
  - intros _ Hsize. cbn. etrans; [|exact Hsize]. apply inj_le, subseteq_size. set_solver.
Qed.

(** A join that says the bridge ended takes it out; nothing else is touched. *)
Definition join_post (h : Z) (s : Runtime) (o : outcome bool) (s' : Runtime) (t : trace) : Prop :=
  kept config s t s' /\ (s' = s \/ s' = set_active (fun a => a ∖ {[h]}) s) /\
  (o = Ret true -> s' = set_active (fun a => a ∖ {[h]}) s).

Lemma acts_after_join {A} (m : M Runtime A) (f : outcome A -> outcome bool) h s t s1 :
  join_post h s (Ret true) s1 t -> steps idle m -> acts m s1 (fun o s' t' => join_post h s (f o) s' (t ++ t')).
Proof.
  intros (Hk & Hs & Ht) Hm. eapply acts_mono; [|apply Hm]. intros o s' t' [-> Hn]. split_and!; [|done|auto].
  eapply rel_trans; [done|]. by apply kept_neutral.
Qed.

Lemma acts_join h t s : acts (join_bridge_result config h t) s (join_post h s).
Proof.
  assert (forall r o, live_step (rt_active s) (Ev (CTransact (join_request h t)) r) = rt_active s -> o <> Ret true ->
    join_post h s o s [Ev (CTransact (join_request h t)) r]) as Hopen.
  { intros r o Hr Ho. split_and!; [by apply kept_join_open|by left|done]. }
  assert (forall r o, live_step (rt_active s) (Ev (CTransact (join_request h t)) r) = rt_active s ∖ {[h]} ->
    join_post h s o (set_active (fun a => a ∖ {[h]}) s) [Ev (CTransact (join_request h t)) r]) as Hended.
  { intros r o Hr. split_and!; [by apply kept_join_ended|by right|done]. }
  unfold join_bridge_result, operation_status. apply acts_bind, acts_try, acts_bind, acts_transact.
  { intros x _. apply acts_raise. split_and!; [apply rel_refl|by left|done]. }
  intros _ _. fold (join_request h t). split; [intros r|intros e; apply acts_raise; by apply Hopen].
  destruct r as [st h' d|text|text]; cbn [transact_reply]; [|by apply acts_raise, Hopen..].
  destruct (bool_decide (st ∈ [0])) eqn:Hst; bool_to_prop.
  - apply list_elem_of_singleton in Hst as ->. apply acts_ret. apply acts_bind, acts_of_res. cbn [data].
    rewrite !app_nil_r. destruct (decode_bridge_result _ _) as [result|e] eqn:Hd.
    2: { apply Hopen; [|done]. unfold live_step. cbn -[decode_bridge_result]. by rewrite Hd. }
    apply acts_bind, acts_of_res. rewrite app_nil_r. destruct (validate_bridge_contract result) as [[]|e] eqn:Hv.
    2: { apply Hopen; [|done]. unfold live_step. cbn -[decode_bridge_result]. rewrite Hd. cbn. by rewrite Hv. }
    apply acts_bind, acts_modify.
    eapply (acts_after_join _ (fun o => o)); [|steps]. apply Hended.
    unfold live_step. cbn -[decode_bridge_result]. rewrite Hd. cbn. by rewrite Hv.
  - assert (st <> 0) as Hst0 by (intros ->; set_solver).
    unfold control_operation_error. apply acts_ret. rewrite app_nil_r.
    destruct (st =? - ETIMEDOUT) eqn:Ht; bool_to_prop.
    + apply acts_ret. rewrite app_nil_r. apply Hopen; [|done]. unfold live_step. cbn.
      rewrite (proj2 (Z.eqb_neq st 0)) by done. by rewrite Ht.
    + apply acts_bind, acts_modify. eapply (acts_after_join _ (fun o => o)); [|steps]. apply Hended.
      unfold live_step. cbn. rewrite (proj2 (Z.eqb_neq st 0)), (proj2 (Z.eqb_neq st (- ETIMEDOUT))) by done. done.
Qed.

Lemma steps_join h t : steps (kept config) (join_bridge_result config h t).
Proof. intros s. eapply acts_mono; [|apply acts_join]. by intros o s' t' []. Qed.
#[local] Hint Resolve steps_join : steps.

Lemma steps_reap : steps (kept config) (reap_bridges config).
Proof. unfold reap_bridges. steps. Qed.

Lemma steps_ensure_running : steps idle ensure_running.
Proof. unfold ensure_running. apply steps_bind; [apply _|steps|]. intros r. destruct (rt_process r); [|steps].
  apply steps_bind; [apply _|by apply (steps_neutral CPoll)|]. intros st. steps. Qed.
#[local] Hint Resolve steps_reap steps_ensure_running : steps.

(** Code without loops ends. *)
Lemma ends_transact op h a0 a1 d allowed : ends (transact_with op h a0 a1 d allowed).
Proof. unfold transact_with, channel_transact. ends. Qed.
#[local] Hint Resolve ends_transact : ends.
Lemma ends_event name fields : ends (event name fields : M Runtime unit).
Proof. apply (ends_perform (CEmit _)). Qed.
Lemma ends_diagnostic text : ends (diagnostic text : M Runtime unit).
Proof. apply (ends_perform (CDiagnostic _)). Qed.
Lemma ends_active_count : ends active_count.
Proof. unfold active_count. ends. Qed.
Lemma ends_active_handles : ends active_handles.
Proof. done. Qed.
#[local] Hint Resolve ends_event ends_diagnostic ends_active_count ends_active_handles : ends.
Lemma ends_join h t : ends (join_bridge_result config h t).
Proof. unfold join_bridge_result, operation_status, discard. ends. Qed.
Lemma ends_open_bridge accepted : ends (open_bridge config accepted).
Proof. unfold open_bridge, verify_cc, reject_connection, operation_status, positive_handle. ends. Qed.
#[local] Hint Resolve ends_join ends_open_bridge : ends.
Lemma ends_handle_accepted accepted : ends (handle_accepted config accepted).
Proof. unfold handle_accepted, close_accepted. ends. Qed.
Lemma ends_reap : ends (reap_bridges config).
Proof. unfold reap_bridges. ends. Qed.
Lemma ends_ensure_running : ends ensure_running.
Proof. unfold ensure_running. ends. Qed.

Lemma steps_reject st : steps idle (reject_connection config st).
Proof. unfold reject_connection. steps. Qed.

(** Opening a bridge for an accepted socket. *)
Definition unmoved (t : trace) : Prop := forall a, live t a = a /\ held t a = a.

Lemma unmoved_neutral t : Forall (fun ev => neutral (ev_call ev)) t -> unmoved t.
Proof. intros Ht a. by apply neutral_trace. Qed.
Lemma unmoved_app t u : unmoved t -> unmoved u -> unmoved (t ++ u).
Proof. intros Ht Hu a. rewrite live_app, held_app. destruct (Ht a) as [-> ->]. apply Hu. Qed.

Definition opened_post (accepted : Z) (s : Runtime) (o : outcome (option Z)) (s' : Runtime) (t : trace) : Prop :=
  s' = s /\ match o with
            | Ret (Some h) => 0 < h /\ (forall a, live t a = a ∪ {[h]}) /\ (forall p, held t p ⊆ p ∖ {[accepted]})
            | _ => unmoved t
            end.

Definition started (r : reply control_reply) : option Z :=
  match r with Answer (CtlReply st h _) => if (st =? 0) && (0 <? h) then Some h else None | _ => None end.

Lemma start_event rq r :
  rq_operation rq = OP_BRIDGE_START ->
  match started r with
  | Some h => 0 < h /\ (forall a, live [Ev (CTransact rq) r] a = a ∪ {[h]}) /\
              (forall p, held [Ev (CTransact rq) r] p ⊆ p ∖ {[rq_handle rq]})
  | None => unmoved [Ev (CTransact rq) r]
  end.
Proof.
  intros Hop. unfold started, unmoved, live, held. cbn [fold_left]. unfold live_step, held_step. cbn [exchange]. rewrite Hop.
  destruct r as [[st h d|text|text]|e]; try done. cbn. destruct ((st =? 0) && (0 <? h)) eqn:Hst; [|done].
  bool_to_prop. done.
Qed.

Lemma acts_open_bridge accepted s : acts (open_bridge config accepted) s (opened_post accepted s).
Proof.
  unfold open_bridge. apply acts_bind. eapply acts_mono; [|apply steps_verify_cc].
  intros o s' t [-> Ht]. apply unmoved_neutral in Ht.
  destruct o as [[]|e|]; [|by split..]. apply acts_bind, acts_of_res.
  destruct (ipv4_u32 _) as [addr|e]; [|split; [done|]; by rewrite app_nil_r].
  unfold operation_status. apply acts_bind, acts_try, acts_bind, acts_transact.
  { intros x _. apply acts_raise. split; [done|]. by rewrite !app_nil_r. }
  intros _ _. match goal with |- context [CTransact ?rq] => set (rq0 := rq) end.
  split; [intros r|intros e; apply acts_raise; split; [done|]; rewrite !app_nil_r;
    apply unmoved_app; [done|apply (start_event rq0 (Fault e) eq_refl)]].
  pose proof (start_event rq0 (Answer r) eq_refl) as Hev.
  destruct r as [st h d|text|text]; cbn [transact_reply started] in *;
    [|by apply acts_raise; split; [done|]; rewrite !app_nil_r; apply unmoved_app..].
  destruct (bool_decide (st ∈ [0])) eqn:Hst; bool_to_prop.
  - apply list_elem_of_singleton in Hst as ->. apply acts_ret. cbn [handle]. rewrite !app_nil_r.
    apply acts_bind. unfold positive_handle. apply acts_of_res. unfold raise_if.
    destruct (h <=? 0) eqn:Hh; bool_to_prop.
    + assert ((0 =? 0) && (0 <? h) = false) as Hn by (rewrite andb_false_iff, Z.ltb_ge; lia).
      rewrite Hn in Hev. split; [done|]. rewrite app_nil_r. by repeat apply unmoved_app.
    + assert ((0 =? 0) && (0 <? h) = true) as Hy by (rewrite andb_true_iff, Z.ltb_lt; lia).
      rewrite Hy in Hev. apply acts_ret. split; [done|]. destruct Hev as (H0 & Hl & Hp).
      split; [done|]. rewrite !app_nil_r. split; [intros a|intros p].
      * rewrite live_app. destruct (Ht a) as [-> _]. apply Hl.
      * rewrite held_app. destruct (Ht p) as [_ ->]. apply Hp.
  - assert ((st =? 0) && (0 <? h) = false) as Hn.
    { rewrite andb_false_iff, Z.eqb_neq. left. intros ->. set_solver. }
    rewrite Hn in Hev. unfold control_operation_error. apply acts_ret. rewrite !app_nil_r.
    apply acts_bind. eapply acts_mono; [|apply (steps_reject st)]. intros o s' t' [-> Ht'%unmoved_neutral].
    destruct o as [[]|e|]; [apply acts_ret|..]; (split; [done|]); rewrite ?app_nil_r; by repeat apply unmoved_app.
Qed.


(** Closing an accepted socket that was not handed over. *)
Lemma acts_close_accepted accepted s :
  rt_control s = true -> 0 < accepted ->
  acts (close_accepted accepted) s (fun _ s' t => s' = s /\ (forall a, live t a = a) /\
    (accepted < 2 ^ 31 -> forall p, held t p ⊆ p ∖ {[accepted]})).
Proof.
  intros Hc Ha. unfold close_accepted. apply acts_try, acts_bind, acts_transact.
  - intros x Hno. eapply acts_mono; [|apply steps_diagnostic]. intros o s' t [-> Ht]. split; [done|].
    split; [intros a; by apply (unmoved_neutral t Ht)|]. intros Hr. exfalso.
    rewrite channel_check_ok in Hno; try done; cbn; try lia. by destruct Hno as [Hno|Hno]; [congruence|].
  - intros _ _. match goal with |- context [CTransact ?rq] => set (rq0 := rq) end.
    assert (forall r a, live [Ev (CTransact rq0) r] a = a /\ held [Ev (CTransact rq0) r] a = a ∖ {[accepted]}) as Hev
      by (by intros [[]|]).
    assert (forall r t, Forall (fun ev => neutral (ev_call ev)) t ->
      (forall a, live ([Ev (CTransact rq0) r] ++ t) a = a) /\
      (accepted < 2 ^ 31 -> forall p, held ([Ev (CTransact rq0) r] ++ t) p ⊆ p ∖ {[accepted]})) as Hall.
    { intros r t Ht. split; [intros a|intros _ p]; rewrite ?live_app, ?held_app.
      - destruct (Hev r a) as [-> _]. by apply unmoved_neutral.
      - destruct (Hev r p) as [_ ->]. by rewrite (proj2 (unmoved_neutral t Ht _)). }
    split; [intros r|intros e].
    + destruct (transact_reply _ _ _) as [v|e]; [apply acts_ret; split; [done|by apply (Hall (Answer r) [])]|].
      eapply acts_mono; [|apply steps_diagnostic]. intros o s' t [-> Ht]. split; [done|]. by apply Hall.
    + eapply acts_mono; [|apply steps_diagnostic]. intros o s' t [-> Ht]. split; [done|]. by apply Hall.
Qed.

(** An accepted socket ends up with a bridge or closed. *)
Definition accepted_post (accepted : Z) (s : Runtime) (s' : Runtime) (t : trace) : Prop :=
  s' = set_active (fun _ => rt_active s') s /\ rt_active s' = live t (rt_active s) /\
  (accepted < 2 ^ 31 -> forall p, held t p ⊆ p ∖ {[accepted]}) /\
  (size (rt_active s') <= S (size (rt_active s)))%nat.

Lemma acts_handle_accepted accepted s :
  rt_control s = true -> 0 < accepted ->
  acts (handle_accepted config accepted) s (fun _ s' t => accepted_post accepted s s' t).
Proof.
  intros Hc Ha. unfold handle_accepted. apply acts_bind, acts_try, acts_bind.
  eapply acts_mono; [|apply acts_ends; [apply acts_open_bridge|apply ends_open_bridge]].
  assert (forall t0, unmoved t0 -> acts (close_accepted accepted) s (fun _ s' t => accepted_post accepted s s' (t0 ++ t))) as Hclose.
  { intros t0 Ht0. eapply acts_mono; [|by apply acts_close_accepted]. intros o s' t (-> & Hl & Hh). split_and!.
    - by destruct s.
    - rewrite live_app. by rewrite (proj1 (Ht0 _)), Hl.
    - intros Hr p. rewrite held_app, (proj2 (Ht0 p)). by apply Hh.
    - lia. }
  intros o s' t [[-> Ho] Hend]. destruct o as [[h|]|e|]; [| | |done].
  - destruct Ho as (Hh & Hl & Hp). apply acts_ret. apply acts_bind, acts_modify.
    match goal with |- acts ?m _ _ => assert (steps idle m) as Hrest by steps end.
    eapply acts_mono; [|apply Hrest]. intros o s' t' [-> Ht'%unmoved_neutral]. rewrite !app_nil_l, app_nil_r. split_and!.
    + by destruct s.
    + cbn. rewrite live_app, Hl. by rewrite (proj1 (Ht' _)).
    + intros _ p. rewrite held_app, (proj2 (Ht' _)). apply Hp.
    + cbn. rewrite size_union_alt, size_difference_alt. 
      pose proof (size_singleton (C := gset Z) h). lia.
  - apply acts_ret. rewrite app_nil_r. by apply Hclose.
  - apply acts_ret. rewrite app_nil_r. apply acts_bind. eapply acts_mono; [|by apply Hclose].
    intros [[]|e'|] s' t' H; [|done|done]. apply acts_raise. by rewrite app_nil_r.
Qed.

Lemma kept_accept_none s rq r :
  rq_operation rq = OP_ACCEPT_NONBLOCK -> started r = None -> kept config s [Ev (CTransact rq) r] s.
Proof.
  intros Hop Hr. split; [by destruct s| |intros p _|done]; cbn; unfold live_step, held_step; cbn [exchange]; rewrite Hop;
    destruct r as [[st h d|?|?]|?]; try done. cbn in Hr |- *. by destruct (_ && _).
Qed.

Lemma kept_accept_some s rq r h s' t :
  rq_operation rq = OP_ACCEPT_NONBLOCK -> started r = Some h -> accepted_post h s s' t ->
  max_connections config = 0 \/ Z.of_nat (size (rt_active s)) < max_connections config ->
  kept config s ([Ev (CTransact rq) r] ++ t) s'.
Proof.
  intros Hop Hr (Hrest & Hl & Hh & Hsize) Hmax.
  destruct r as [[st h' d|?|?]|?]; try done. cbn in Hr. destruct (_ && _) eqn:Hst; [|done]. injection Hr as ->.
  split; [done| | |lia].
  - rewrite live_app. rewrite Hl. cbn. unfold live_step. cbn [exchange]. by rewrite Hop.
  - intros p [Hw _]%Forall_app. rewrite Forall_singleton in Hw. unfold wire in Hw. cbn [exchange] in Hw. rewrite held_app.
    assert (held [Ev (CTransact rq) (Answer (CtlReply st h d))] p = p ∪ {[h]}) as ->.
    { cbn. unfold held_step. cbn [exchange]. by rewrite Hop, Hst. }
    etrans; [apply Hh; lia|set_solver].
Qed.

Lemma steps_accept_loop fuel listener : steps (kept config) (accept_loop config fuel listener).
Proof.
  induction fuel as [|fuel IH]; intros s; cbn [accept_loop]; apply acts_bind; unfold active_count at 1;
    apply acts_bind, acts_get, acts_ret; (destruct (_ || _) eqn:Hmax; [|apply acts_ret, rel_refl]).
  { by apply acts_nil with (o := OutOfFuel) (s' := s); [|apply rel_refl]. }
  assert (max_connections config = 0 \/ Z.of_nat (size (rt_active s)) < max_connections config) as Hlim.
  { apply orb_true_iff in Hmax as [Hm|Hm]; bool_to_prop; lia. }
  unfold operation_status. apply acts_bind, acts_try, acts_bind, acts_transact.
  { intros x _. apply acts_raise, rel_refl. }
  intros Hc _. match goal with |- context [CTransact ?rq] => set (rq0 := rq) end.
  split; [intros r|intros e; by apply acts_raise, kept_accept_none].
  destruct r as [st h d|text|text]; cbn [transact_reply]; [|by apply acts_raise, kept_accept_none..].
  destruct (bool_decide (st ∈ [0])) eqn:Hst; bool_to_prop.
  - apply list_elem_of_singleton in Hst as ->. apply acts_ret. cbn [handle]. rewrite !app_nil_l, app_nil_r.
    apply acts_bind. unfold positive_handle. apply acts_of_res. unfold raise_if.
    destruct (h <=? 0) eqn:Hh; bool_to_prop.
    { apply kept_accept_none; [done|]. cbn. rewrite (proj2 (Z.ltb_ge 0 h)) by lia. done. }
    apply acts_bind. eapply acts_mono; [|by apply acts_handle_accepted].
    intros o s' t Hpost. rewrite app_nil_l.
    assert (kept config s ([Ev (CTransact rq0) (Answer (CtlReply 0 h d))] ++ t) s') as Hkept.
    { eapply (kept_accept_some s rq0 _ h); try done. cbn. by rewrite (proj2 (Z.ltb_lt 0 h)) by lia. }
    destruct o as [[]|e|]; [|done|done].
    eapply acts_mono; [|apply IH]. intros o s'' t' Hk. pose proof (rel_trans _ _ _ _ _ Hkept Hk) as Hall. by rewrite <- app_assoc in Hall.
  - assert (started (Answer (CtlReply st h d)) = None) as Hn.
    { cbn. destruct (st =? 0) eqn:H0; [|done]. bool_to_prop. subst. set_solver. }
    unfold control_operation_error. apply acts_ret. rewrite !app_nil_l, app_nil_r.
    destruct ((st =? - EAGAIN) || (st =? - EWOULDBLOCK)); [apply acts_ret|apply acts_raise]; rewrite app_nil_r; by apply kept_accept_none.
Qed.

Lemma steps_poll_once fuel : steps (kept config) (poll_once config fuel).
Proof.
  unfold poll_once, accept_available. apply steps_bind; [apply _|apply steps_idle_kept, steps_ensure_running|]. intros _.
  apply steps_bind; [apply _|apply steps_reap|]. intros _. apply steps_bind; [apply _|steps|]. intros r.
  destruct (rt_listener r); [apply steps_accept_loop|steps].
Qed.

(** The same of the whole service loop. *)
Definition kept_fst (s : Runtime * ShutdownSignals) (t : trace) (s' : Runtime * ShutdownSignals) : Prop :=
  kept config s.1 t s'.1.

#[local] Instance kept_fst_rel : TraceRel kept_fst.
Proof.
  split; [intros s; apply (rel_refl (R := kept config))|]. intros s t s' t' s''. apply (rel_trans (R := kept config)).
Qed.

Lemma steps_on_runtime {A} (m : M Runtime A) : steps (kept config) m -> steps kept_fst (on_runtime m).
Proof. intros Hm s. apply acts_zoom. eapply acts_mono; [|apply Hm]. done. Qed.

Lemma steps_on_signals {A} (m : M ShutdownSignals A) : emits neutral m -> steps kept_fst (on_signals m).
Proof.
  intros Hm s. apply acts_zoom. eapply acts_mono; [|by apply acts_of_emits]. intros o g t Ht. by apply kept_neutral.
Qed.

Lemma steps_serve turns fuel : steps kept_fst (serve config turns fuel).
Proof.
  assert (emits neutral requested /\ forall q, emits neutral (wait q)) as [Hr Hw].
  { unfold requested, wait, deliver. split; [|intros q]; emits. }
  induction turns as [|turns IH]; cbn [serve]; (apply steps_bind; [apply _|by apply steps_on_signals|]); intros stop;
    destruct stop; [steps..|].
  apply steps_bind; [apply _|apply steps_on_runtime, steps_poll_once|]. intros _.
  apply steps_bind; [apply _|apply steps_on_signals, Hw|]. done.
Qed.

(** C7. No connection is lost or invented while serving: however many polls
    run and however they end, the bridges the runtime calls active are exactly
    those the hosted kernel started and has not been seen to end, and every
    socket it accepted was handed to a bridge or asked to be closed. *)
Theorem serve_accounts turns fuel (s : Runtime * ShutdownSignals) tr :
  let '(_, s', tr') := serve config turns fuel s tr in
  exists suf, tr' = tr ++ suf /\ rt_active s'.1 = live suf (rt_active s.1) /\
    (Forall wire suf -> held suf ∅ = ∅) /\ s'.1 = set_active (fun _ => rt_active s'.1) s.1.
Proof.
  pose proof (steps_serve turns fuel s tr) as H. unfold wp in H. destruct (serve _ _ _ _ _) as [[o s'] tr'].
  destruct H as (suf & -> & [Hr Hl Hh _]). exists suf. split_and!; try done. intros Hw. specialize (Hh ∅ Hw). set_solver.
Qed.

(** Within the limit, if there is one. *)
Definition admitted (r : Runtime) : Prop :=
  max_connections config <> 0 -> Z.of_nat (size (rt_active r)) <= max_connections config.

(** C8. The admission limit holds: a service that starts within the limit on
    connections is within it after any number of polls, also after one that
    failed or was cut short. *)
Theorem serve_admission turns fuel (s : Runtime * ShutdownSignals) tr :
  0 <= max_connections config -> admitted s.1 ->
  let '(_, s', _) := serve config turns fuel s tr in admitted s'.1.
Proof.
  intros Hm Hs. pose proof (steps_serve turns fuel s tr) as H. unfold wp in H.
  destruct (serve _ _ _ _ _) as [[o s'] tr']. destruct H as (suf & -> & [_ _ _ Hl]). intros H0.
  apply Hl; [lia|by apply Hs].
Qed.

(** ** The accept loop ends *)

(** The connections accepted so far. *)
Definition is_accept (ev : Effects.event) : bool :=
  match exchange ev with
  | Some (rq, Some (CtlReply st _ _)) => (rq_operation rq =? OP_ACCEPT_NONBLOCK) && (st =? 0)
  | _ => false
  end.
Definition accepts (tr : trace) : nat := length (filter (fun ev => is_accept ev = true) tr).

Lemma accepts_app t u : accepts (t ++ u) = (accepts t + accepts u)%nat.
Proof. unfold accepts. by rewrite filter_app, length_app. Qed.

(** At most [n] connections ever arrive. *)
Definition arrivals_bounded (n : nat) : Prop := forall tr rq h d,
  rq_operation rq = OP_ACCEPT_NONBLOCK -> env_reply tr (CTransact rq) = Answer (CtlReply 0 h d) -> (accepts tr < n)%nat.

Lemma wp_transact op h a0 a1 d allowed s tr (Q : outcome ControlResponse -> Runtime -> trace -> Prop) :
  let rq := {| rq_operation := op; rq_handle := h; rq_arg0 := a0; rq_arg1 := a1; rq_data := d |} in
  (forall e, Q (Raise e) s tr) ->
  (forall e, Q (Raise (Sys e)) s (tr ++ [Ev (CTransact rq) (Fault e)])) ->
  (forall r, env_reply tr (CTransact rq) = Answer r ->
     Q (match transact_reply op allowed r with Ok v => Ret v | Err e => Raise e end) s (tr ++ [Ev (CTransact rq) (Answer r)])) ->
  wp (transact_with op h a0 a1 d allowed) Q s tr.
Proof.
  intros rq Hno Hf Ha. unfold transact_with. apply wp_bind, wp_get. destruct (rt_control s); [|by apply wp_raise].
  unfold channel_transact. apply wp_bind, wp_of_res. fold rq. destruct (channel_check rq allowed) as [[]|e]; [|done].
  apply wp_bind. wp_call; [intros r Hr|intros e _; apply Hf]. apply wp_of_res. by apply Ha.
Qed.

Definition any_call (_ : call) : Prop := True.

Lemma emits_handle_accepted accepted : emits any_call (handle_accepted config accepted).
Proof.
  unfold handle_accepted, open_bridge, close_accepted, reject_connection, verify_cc, operation_status, positive_handle,
    transact_with, channel_transact, event, diagnostic, active_count. emits.
Qed.

Lemma emits_before_accept : emits any_call ensure_running /\ emits any_call (reap_bridges config).
Proof.
  split; [unfold ensure_running; emits|]. unfold reap_bridges. apply emits_bind; [by apply emits_nil|]. intros hs.
  unfold join_bridge_result, operation_status, discard, transact_with, channel_transact, event, diagnostic, active_count. emits.
Qed.

(** A run that ends and only adds to the trace. *)
Lemma wp_ends_extends {A} (m : M Runtime A) s tr (Q : outcome A -> Runtime -> trace -> Prop) :
  emits any_call m -> ends m -> (forall o s' suf, o <> OutOfFuel -> Q o s' (tr ++ suf)) -> wp m Q s tr.
Proof.
  intros Hem Hend HQ. specialize (Hem s tr). specialize (Hend s tr). unfold wp in *.
  destruct (m s tr) as [[o s'] tr']. destruct Hem as (suf & -> & _). by apply HQ.
Qed.

Lemma wp_accept_loop n listener fuel s tr :
  arrivals_bounded n -> (n - accepts tr < fuel)%nat ->
  wp (accept_loop config fuel listener) (fun o _ _ => o <> OutOfFuel) s tr.
Proof.
  intros Hn. revert s tr. induction fuel as [|fuel IH]; intros s tr Hfuel; [lia|]. cbn [accept_loop].
  apply wp_bind. unfold active_count. apply wp_bind, wp_get, wp_ret. destruct (_ || _); [|done].
  unfold operation_status. apply wp_bind, wp_try, wp_bind, wp_transact;
    [intros []; try done; apply wp_ret; by destruct (_ || _)|done|].
  intros r Hr. destruct r as [st h d|text|text]; [|done|done]. cbn [transact_reply].
  destruct (bool_decide (st ∈ [0])) eqn:Hst; bool_to_prop.
  - apply list_elem_of_singleton in Hst as ->. apply Hn in Hr; [|done]. apply wp_ret. apply wp_bind.
    unfold positive_handle, raise_if. apply wp_of_res. destruct (_ <=? 0); [done|]. apply wp_bind.
    apply wp_ends_extends; [apply emits_handle_accepted|apply ends_handle_accepted|].
    intros [[]|e|] s' suf Ho; [|done|done]. apply IH. rewrite !accepts_app.
    replace (accepts [_]) with 1%nat by done. lia.
  - unfold control_operation_error. apply wp_ret. by destruct (_ || _).
Qed.

Lemma wp_poll_once n fuel s tr :
  arrivals_bounded n -> (n - accepts tr < fuel)%nat -> wp (poll_once config fuel) (fun o _ _ => o <> OutOfFuel) s tr.
Proof.
  intros Hn Hfuel. destruct emits_before_accept as [He Hr].
  unfold poll_once. apply wp_bind, wp_ends_extends; [done|apply ends_ensure_running|].
  intros [[]|e|] s1 t1 H1; [|done|done]. apply wp_bind, wp_ends_extends; [done|apply ends_reap|].
  intros [[]|e|] s2 t2 H2; [|done|done]. unfold accept_available. apply wp_bind, wp_get.
  destruct (rt_listener s2); [|done]. apply (wp_accept_loop n); [done|]. rewrite !accepts_app. lia.
Qed.

(** The accept loop ends: when at most [n] connections arrive in all, a
    poll with more turns than connections still to come always returns or
    raises, whatever else the hosted kernel answers. *)
Theorem poll_once_ends n fuel s tr :
  arrivals_bounded n -> (n - accepts tr < fuel)%nat ->
  let '(o, _, _) := poll_once config fuel s tr in o <> OutOfFuel.
Proof.
  intros Hn Hfuel. pose proof (wp_poll_once n fuel s tr Hn Hfuel) as H. unfold wp in H.
  by destruct (poll_once config fuel s tr) as [[]].
Qed.

End accounting.

#[export] Hint Resolve steps_idle_kept steps_event steps_diagnostic steps_active_count steps_active_handles
  steps_positive steps_verify_cc steps_join : steps.
#[export] Hint Resolve ends_transact ends_event ends_diagnostic ends_active_count ends_active_handles ends_join : ends.

(** ** Examples *)

(** A hosted kernel to which two clients connect. *)
Definition small_kernel : Env := fun tr c =>
  match c return reply (ret c) with
  | CTransact rq => Answer
      (if rq_operation rq =? OP_ACCEPT_NONBLOCK then
         (if (accepts tr <? 2)%nat then CtlReply 0 (10 + Z.of_nat (accepts tr)) [] else CtlReply (- EAGAIN) 0 [])
       else if rq_operation rq =? OP_GET_CC then CtlReply 0 0 (String.list_byte_of_string "bbr")
       else if rq_operation rq =? OP_BRIDGE_START then CtlReply 0 (100 + rq_handle rq) []
       else if rq_operation rq =? OP_BRIDGE_JOIN_RESULT then CtlReply (- ETIMEDOUT) 0 []
       else CtlReply 0 0 [])
  | CPoll => Answer None
  | CWait _ => Answer 0
  | CClock => Answer (inject_Z (Z.of_nat (length tr)))
  | CPendingSignals | CStopWait _ => Answer []
  | CEmit _ | CDiagnostic _ | CTerminate | CKill | CClosePipe _ => Answer tt
  | _ => Fault (SRuntimeError "not available")
  end.
Definition no_strerror : Strerror := fun _ => None.
Definition sorted_order : SetOrder := {| set_order := fun _ s => elements s; set_order_perm := fun _ _ => Permutation_refl _ |}.

Definition sample_service (limit : Z) : ServiceConfig := {|
  listen := {| address := "192.0.2.10"; port := 443 |}; backend := {| address := "127.0.0.1"; port := 8080 |};
  cc := "bbr"; kernel := "vmlinux"; memory_mib := 128; firewall_backend := "nft-lib"; iptables_variant := "iptables";
  tun_name := None; tun_host_address := "198.18.0.1"; tun_guest_address := "198.18.0.2"; backlog := 128;
  max_connections := limit; shutdown_grace_period := VFloat 5; poll_interval := VFloat (1 # 100) |}.
Definition listening : Runtime := {|
  rt_process := Some {| po_pid := 7; po_stdin := true; po_stdout := true |}; rt_control := true; rt_ifindex := Some 2;
  rt_listener := Some 3; rt_active := ∅; rt_l3_attached := true; rt_closed := false |}.
Definition quiet_signals : ShutdownSignals := {|
  handled := [SIGINT; SIGTERM]; event_set := false; requested_signal := None; previous := ∅; installed := true |}.

(** With a limit of one, the second client waits. *)
Lemma serve_admission_witness :
  let '(_, s', _) := @serve small_kernel no_strerror sorted_order (sample_service 1) 2 5 (listening, quiet_signals) [] in
  admitted (sample_service 1) s'.1 /\ rt_active s'.1 = {[110]}.
Proof.
  pose proof (@serve_admission small_kernel no_strerror sorted_order (sample_service 1) 2 5 (listening, quiet_signals) []
    ltac:(done) ltac:(vm_compute; discriminate)) as H.
  destruct (serve _ _ _ _ _) as [[o s'] tr'] eqn:Hrun. split; [exact H|].
  vm_compute in Hrun. injection Hrun as <- <- <-. reflexivity.
Defined.

(** Without one, both are bridged and the poll ends. *)
Lemma poll_once_ends_witness :
  let '(o, s', _) := @poll_once small_kernel no_strerror sorted_order (sample_service 0) 3 listening [] in
  o <> OutOfFuel /\ rt_active s' = {[110; 111]}.
Proof.
  assert (@arrivals_bounded small_kernel 2) as Hn.
  { intros tr rq h d Hop Hr. cbn in Hr. rewrite Hop in Hr. cbn in Hr.
    destruct (accepts tr <=? 1)%nat eqn:Ha; [apply Nat.leb_le in Ha; lia|].
    injection Hr as Hst _ _. discriminate Hst. }
  pose proof (@poll_once_ends small_kernel no_strerror sorted_order (sample_service 0) 2 3 listening [] Hn ltac:(cbn; lia)) as H.
  destruct (poll_once _ _ _ _) as [[o s'] tr'] eqn:Hrun. split; [exact H|].
  vm_compute in Hrun. injection Hrun as <- <- <-. apply (bool_decide_unpack _). vm_compute. exact I.
Defined.
