(* ===== verification/Lifecycle.v ===== *)
(** * Starting and stopping the hosted kernel

    The life of one [HostedKernelRuntime]: what [start] has done when it returns
    or fails, and what [shutdown] guarantees from any state the runtime can be
    in: every bridge ended, the child gone, both pipes closed, in finite time. *)

From Stdlib Require Import QArith.Qround QArith.Qreduction Lqa.
From S2P Require Import Prelude PyStr Reports Py Effects Json Struct IpAddr Control Signals Config Runtime Connections.
Local Open Scope Z_scope.

(** ** Starting *)

(** The requests sent, as operation and handle. *)
Definition ev_request (ev : Effects.event) : option (Z * Z) :=
  (fun x => (rq_operation x.1, rq_handle x.1)) <$> exchange ev.
Definition requests (tr : trace) : list (Z * Z) := omap ev_request tr.

Lemma requests_app t u : requests (t ++ u) = requests t ++ requests u.
Proof. apply omap_app. Qed.

(** The child processes started, with the descriptors they inherit. *)
Definition ev_child (ev : Effects.event) : option (list string * list Z) :=
  match ev_call ev with CPopen argv fds => Some (argv, fds) | _ => None end.
Definition children (tr : trace) : list (list string * list Z) := omap ev_child tr.

Lemma children_app t u : children (t ++ u) = children t ++ children u.
Proof. apply omap_app. Qed.

(** The order in which the parts of a runtime come to be. *)
Record wf_runtime (s : Runtime) : Prop := {
  wf_control : rt_control s = true -> exists p, rt_process s = Some p /\ po_stdin p = true /\ po_stdout p = true;
  wf_attached : rt_l3_attached s = true -> rt_control s = true;
  wf_listener : is_Some (rt_listener s) -> rt_l3_attached s = true;
  wf_active : rt_active s <> ∅ -> rt_l3_attached s = true;
}.

(** A runtime that failed to start is still one [shutdown] can take apart. *)
Definition start_failed (s : Runtime) : Prop := wf_runtime s /\ rt_active s = ∅ /\ rt_closed s = false.

Lemma start_failed_intro s :
  (rt_control s = true -> exists p, rt_process s = Some p /\ po_stdin p = true /\ po_stdout p = true) ->
  (rt_l3_attached s = true -> rt_control s = true) -> (is_Some (rt_listener s) -> rt_l3_attached s = true) ->
  rt_active s = ∅ -> rt_closed s = false -> start_failed s.
Proof. intros. split_and!; [split|..]; try done. Qed.

Ltac start_failed := apply start_failed_intro; cbn; try done; eauto; try by intros [].

Section lifecycle.
Context `{E : Env} `{T : Strerror} `{SO : SetOrder} (config : ServiceConfig).
Implicit Types s : Runtime.

(** One request of [start], in a state that is kept when it fails. *)
Lemma acts_start_step {A} op h a0 a1 d (k : ControlResponse -> M Runtime A) s (Q : outcome A -> Runtime -> trace -> Prop) :
  (forall e t, Q (Raise e) s t) ->
  (forall r t, requests t = [(op, h)] -> children t = [] ->
     (exists rq h', rq_operation rq = op /\ rq_handle rq = h /\ t = [Ev (CTransact rq) (Answer (CtlReply 0 h' (data r)))]) ->
     acts (k r) s (fun o s' t' => Q o s' (t ++ t'))) ->
  acts (transact_with op h a0 a1 d [0] ≫= k) s Q.
Proof.
  intros Hf Hk. apply acts_bind, acts_transact; [intros; apply Hf|]. intros _ _. split; [intros r|intros e; apply Hf].
  destruct r as [st h' d'|text|text]; cbn [transact_reply]; [|apply Hf..].
  destruct (bool_decide (st ∈ [0])) eqn:Hst; bool_to_prop; [|apply Hf].
  apply list_elem_of_singleton in Hst as ->. apply Hk; try done.
  by exists {| rq_operation := op; rq_handle := h; rq_arg0 := a0; rq_arg1 := a1; rq_data := d |}, h'.
Qed.

Definition start_post (tun_fd : pyval) (o : outcome unit) (s : Runtime) (t : trace) : Prop :=
  match o with
  | Ret _ => exists fd p i l, tun_fd = VInt fd /\ 3 <= fd /\ 0 < i /\ 0 < l /\ po_stdin p = true /\ po_stdout p = true /\
      s = {| rt_process := Some p; rt_control := true; rt_ifindex := Some i; rt_listener := Some l; rt_active := ∅;
             rt_l3_attached := true; rt_closed := false |} /\
      children t = [([kernel config; "--memory-mib=" +:+ str_of_Z (memory_mib config)], [fd])] /\
      requests t = [(OP_L3_ATTACH_IP, fd); (OP_SOCKET_IP, 0); (OP_SET_CC, l); (OP_GET_CC, l); (OP_BIND_IP, l); (OP_LISTEN, l)] /\
      exists rq h d, Ev (CTransact rq) (Answer (CtlReply 0 h d)) ∈ t /\ rq_operation rq = OP_GET_CC /\ rq_handle rq = l /\
        decode_ascii d = Some (cc config)
  | Raise _ => start_failed s
  | OutOfFuel => False
  end.

Lemma acts_start tun_fd : acts (start config tun_fd) new_runtime (start_post tun_fd).
Proof.
  assert (start_failed new_runtime) as Hf0 by start_failed.
  unfold start, start_process. apply acts_bind, acts_bind, acts_get. cbn [rt_process new_runtime].
  apply acts_bind, acts_of_res. destruct tun_fd as [| |fd| | | |]; try done. destruct (fd <? 3) eqn:Hfd; [done|]. bool_to_prop.
  apply acts_bind. acts_call; [intros p|done]. apply acts_bind, acts_modify.
  assert (start_failed (set_process p new_runtime)) as Hf1 by start_failed.
  destruct (negb (po_stdin p) || negb (po_stdout p)) eqn:Hp; [by apply acts_raise|]. bool_to_prop.
  apply acts_bind, acts_modify, acts_ret. rewrite !app_nil_l, !app_nil_r.
  set (s1 := set_control (set_process p new_runtime)).
  assert (start_failed s1) as Hf2 by start_failed.
  unfold start_listener. apply acts_bind, acts_of_res. destruct (parse_ip _) as [guest|e]; [|done].
  apply acts_bind, acts_of_res. destruct (encode_l3_config _ _) as [l3|e]; [|done].
  apply acts_start_step; [done|].
  intros r1 t1 Hr1 Hc1 _. apply acts_bind. unfold positive_handle at 1. apply acts_of_res. unfold raise_if.
  destruct (handle r1 <=? 0) eqn:Hh1; [done|]. bool_to_prop. apply acts_bind, acts_modify.
  set (s2 := set_attached (handle r1) s1).
  assert (start_failed s2) as Hf3 by start_failed.
  apply acts_bind, acts_of_res. destruct (endpoint_version _) as [version|e]; [|done].
  apply acts_start_step; [done|].
  intros r2 t2 Hr2 Hc2 _. apply acts_bind. unfold positive_handle. apply acts_of_res. unfold raise_if.
  destruct (handle r2 <=? 0) eqn:Hh2; [done|]. bool_to_prop. apply acts_bind, acts_modify.
  set (s3 := set_listener (Some (handle r2)) s2).
  assert (start_failed s3) as Hf4 by start_failed.
  apply acts_bind, acts_of_res. destruct (encode_ascii _) as [name|e]; [|done].
  apply acts_start_step; [done|]. intros r3 t3 Hr3 Hc3 _.
  apply acts_bind. unfold verify_cc. apply acts_start_step; [done|]. intros r4 t4 Hr4 Hc4 (rq & h' & Hop & Hrh & Ht4).
  destruct (decode_ascii (data r4)) as [seen|] eqn:Hseen; [|by apply acts_raise].
  destruct (bool_decide (seen = cc config)) eqn:Hcc; [|by apply acts_raise]. bool_to_prop. subst seen.
  apply acts_ret. apply acts_bind, acts_of_res. destruct (encode_ip_endpoint _ _) as [endpoint|e]; [|done].
  apply acts_start_step; [done|]. intros r5 t5 Hr5 Hc5 _.
  apply acts_start_step; [done|]. intros r6 t6 Hr6 Hc6 _. apply acts_ret.
  exists fd, p, (handle r1), (handle r2). split_and!; try done.
  - rewrite !children_app, Hc1, Hc2, Hc3, Hc4, Hc5, Hc6. done.
  - rewrite !requests_app, Hr1, Hr2, Hr3, Hr4, Hr5, Hr6. done.
  - exists rq, h', (data r4). split_and!; try done. rewrite Ht4. rewrite !elem_of_app. set_solver.
Qed.

(** C20. A runtime that starts is listening on what was asked: one child was
    started with the TUN descriptor and the memory size, the interface was
    attached, and one socket was created, given the congestion control (and
    read back as having it), bound and put to listen, in this order.  When
    starting fails the runtime is in a state shutdown can take apart, with no
    bridge. *)
Theorem start_listens tun_fd tr :
  let '(o, s, tr') := start config tun_fd new_runtime tr in exists suf, tr' = tr ++ suf /\ start_post tun_fd o s suf.
Proof.
  pose proof (acts_start tun_fd tr) as H. unfold wp in H. by destruct (start config tun_fd new_runtime tr) as [[o s] tr'].
Qed.

(** ** Stopping *)

(** The child was seen to be gone. *)
Definition is_exit (ev : Effects.event) : bool :=
  match ev with
  | Ev c r =>
      match c return reply (ret c) -> bool with
      | CPoll => fun r => match r with Answer (Some _) => true | _ => false end
      | CWait _ => fun r => match r with Answer _ => true | _ => false end
      | _ => fun _ => false
      end r
  end.
Definition exit_seen (t : trace) : Prop := Exists (fun ev => is_exit ev = true) t.

(** Active bridges as the trace tells, and nothing changed but those and the
    listener. *)
Definition follows (s : Runtime) (t : trace) (s' : Runtime) : Prop :=
  rt_active s' = live t (rt_active s) /\ rt_process s' = rt_process s /\ rt_control s' = rt_control s /\
  rt_l3_attached s' = rt_l3_attached s /\ rt_closed s' = rt_closed s.

#[local] Instance follows_rel : TraceRel follows.
Proof.
  split; [done|]. intros s t s' t' s'' (H1 & H2 & H3 & H4 & H5) (G1 & G2 & G3 & G4 & G5).
  split_and!; [|congruence..]. by rewrite live_app, <- H1.
Qed.

Lemma follows_kept s t s' : kept config s t s' -> follows s t s'.
Proof. intros [Hr Hl _ _]. split; [done|]. rewrite Hr. by destruct s. Qed.
Lemma follows_idle s t s' : idle s t s' -> follows s t s'.
Proof. intros [-> Ht]. by apply follows_kept, kept_neutral. Qed.

(** The attempts of a shutdown never raise; [failures_of] gives what failed. *)
Lemma acts_failures_of (m : M Runtime unit) s (P : outcome (list exn) -> Runtime -> trace -> Prop) :
  acts m s (fun o s' t => match o with
    | Ret _ => P (Ret []) s' t | Raise e => P (Ret [e]) s' t | OutOfFuel => P OutOfFuel s' t end) ->
  acts (failures_of m) s P.
Proof.
  intros Hm. unfold failures_of. apply acts_bind, acts_attempt. eapply acts_mono; [|apply Hm].
  intros [[]|e|] s' t H; [apply acts_ret; by rewrite app_nil_r|apply acts_ret; by rewrite app_nil_r|done].
Qed.

Lemma acts_active_handles s :
  acts active_handles s (fun o s' t => s' = s /\ t = [] /\ exists l, o = Ret l /\ l ≡ₚ elements (rt_active s)).
Proof.
  intros tr. unfold active_handles, wp. exists []. rewrite app_nil_r. split_and!; try done.
  eexists. split; [done|]. apply set_order_perm.
Qed.

(** The last join of a bridge takes it out of the set; without a failure the
    hosted kernel had said it ended. *)
Lemma acts_final_join h s :
  acts (final_join config h) s (fun o s' t => exists r, o = Ret r /\ s' = set_active (fun a => a ∖ {[h]}) s /\
    (r = None -> follows s t s')).
Proof.
  unfold final_join. apply acts_bind, acts_try, acts_bind.
  eapply acts_mono; [|apply acts_ends; [apply acts_join|apply ends_join]].
  assert (forall s', s' = s \/ s' = set_active (fun a => a ∖ {[h]}) s ->
    set_active (fun a => a ∖ {[h]}) s' = set_active (fun a => a ∖ {[h]}) s) as Hd.
  { intros s' [-> | ->]; [done|]. unfold set_active. cbn. f_equal. set_solver. }
  intros o s' t [(Hk & Hs & Ht) Hend]. destruct o as [b|e|]; [| |done].
  - apply acts_ret. apply acts_bind. unfold discard. apply acts_modify, acts_ret. rewrite !app_nil_r.
    eexists. split_and!; [done|by apply Hd|]. destruct b; [intros _|done].
    specialize (Ht eq_refl). rewrite (Hd s' Hs). subst s'. by apply follows_kept.
  - apply acts_ret. apply acts_bind. unfold discard. apply acts_modify, acts_ret. rewrite !app_nil_r.
    eexists. split_and!; [done|by apply Hd|done].
Qed.

Lemma acts_final_joins hs s :
  acts (collect hs (final_join config)) s (fun o s' t => exists fs, o = Ret fs /\
    s' = set_active (fun a => a ∖ list_to_set hs) s /\ (fs = [] -> follows s t s')).
Proof.
  revert s. induction hs as [|h hs IH]; intros s; cbn [collect].
  - apply acts_ret. exists []. split_and!; [done| |done]. unfold set_active. destruct s. cbn. f_equal. set_solver.
  - apply acts_bind. eapply acts_mono; [|apply acts_final_join]. intros o s1 t1 (r & -> & -> & Hr).
    apply acts_bind. eapply acts_mono; [|apply IH]. intros o s2 t2 (fs & -> & -> & Hfs). apply acts_ret.
    rewrite app_nil_r. eexists. split_and!; [done| |].
    + unfold set_active. cbn. f_equal. set_solver.
    + destruct r; [done|]. cbn. intros ->. eapply rel_trans; [by apply Hr|by apply Hfs].
Qed.

Lemma steps_clock : steps idle (perform CClock).
Proof. by apply steps_neutral. Qed.
#[local] Hint Resolve steps_clock : steps.

Lemma steps_drain_pass deadline hs : steps (kept config) (drain_pass config deadline hs).
Proof. induction hs as [|h hs IH]; cbn [drain_pass]; steps. Qed.
#[local] Hint Resolve steps_drain_pass : steps.

Lemma steps_drain fuel : steps (kept config) (drain_bridges config fuel).
Proof.
  assert (forall deadline, steps (kept config) (drain_loop config fuel deadline)) as Hloop.
  { intros deadline. induction fuel as [|fuel IH]; cbn [drain_loop]; steps. }
  unfold drain_bridges. steps.
Qed.

(** The first and the last part of the orderly stop. *)
Lemma acts_close_listener s :
  acts (match rt_listener s with
        | None => mret []
        | Some listener =>
            _ ← modify (set_listener None);
            failures_of (_ ← transact_with OP_CLOSE listener 0 0 [] [0; - EBADF]; mret tt)
        end) s (fun o s' t => (exists f, o = Ret f) /\ s' = set_listener None s /\ forall a, live t a = a).
Proof.
  destruct (rt_listener s) as [l|] eqn:Hl.
  2: { apply acts_ret. split_and!; [by eexists| |done]. destruct s. cbn in *. by subst. }
  apply acts_bind, acts_modify, acts_failures_of, acts_bind, acts_transact.
  - intros x _. split_and!; try done. by eexists.
  - intros _ _. split; [intros r|intros e; split_and!; try done; by eexists].
    destruct (transact_reply _ _ r) as [v|e]; [apply acts_ret|]; (split_and!; [by eexists|done|]); by destruct r.
Qed.

Lemma acts_stop_kernel timeout s :
  acts (stop_kernel timeout) s
    (fun o s' t => idle s t s' /\ exists f, o = Ret f /\ (f = [] -> exit_seen t /\ (OP_SHUTDOWN, 0) ∈ requests t)).
Proof.
  assert (forall rq r, rq_operation rq = OP_SHUTDOWN -> neutral (ev_call (Ev (CTransact rq) r))) as Hn.
  { intros rq r Hop. cbn. rewrite Hop. set_solver. }
  apply acts_try, acts_bind, acts_transact.
  - intros x _. apply acts_ret. split; [apply rel_refl|by eexists].
  - intros _ _. split.
    2: { intros e. apply acts_ret. rewrite app_nil_r. split; [split; [done|apply Forall_singleton; by apply Hn]|by eexists]. }
    intros r. destruct (transact_reply _ _ r) as [v|e].
    2: { apply acts_ret. rewrite app_nil_r. split; [split; [done|apply Forall_singleton; by apply Hn]|by eexists]. }
    apply acts_bind. acts_call; [intros status|intros e]; apply acts_ret; rewrite !app_nil_r;
      (split; [split; [done|]; rewrite Forall_app, !Forall_singleton; by split; [apply Hn|]|]).
    + eexists. split; [done|]. intros _. split; [apply Exists_app; right; by constructor|].
      rewrite requests_app. set_solver.
    + by eexists.
Qed.

Definition orderly_post (s : Runtime) (o : outcome (list exn)) (s' : Runtime) (t : trace) : Prop :=
  rt_process s' = rt_process s /\ rt_closed s' = rt_closed s /\
  (o = OutOfFuel \/ exists fs, o = Ret fs /\ rt_active s' = ∅ /\ rt_listener s' = None /\
    (fs = [] -> live t (rt_active s) = ∅ /\ exit_seen t /\ (OP_SHUTDOWN, 0) ∈ requests t)).

Lemma acts_stop_accepting fuel s :
  acts (stop_accepting config fuel) s (fun o s' t => follows s t s' /\
    (o = OutOfFuel \/ (exists f, o = Ret f) /\ rt_listener s' = None)).
Proof.
  unfold stop_accepting. apply acts_bind, acts_get, acts_bind.
  eapply acts_mono; [|apply acts_close_listener]. intros o s1 t1 ([f1 ->] & -> & Hl1).
  assert (follows s t1 (set_listener None s)) as Hf1 by (split; [by rewrite Hl1|done]).
  apply acts_bind, acts_failures_of. eapply acts_mono; [|apply (steps_drain fuel)].
  intros o s2 t2 Hk2. assert (rt_listener s2 = None) as Hlis by (rewrite (kept_rest _ _ _ _ Hk2); done).
  pose proof (rel_trans _ _ _ _ _ Hf1 (follows_kept _ _ _ Hk2)) as Hf.
  destruct o as [[]|e|]; [apply acts_ret|apply acts_ret|by eauto]; rewrite !app_nil_r; eauto.
Qed.

(** Attempts in a row: what they have in common, and no exception. *)
Lemma acts_attempts (f : Z -> M Runtime unit) hs s :
  (forall h, steps idle (f h)) -> (forall h, ends (f h)) ->
  acts (collect hs (fun h => attempt (f h))) s (fun o s' t => (exists fs, o = Ret fs) /\ idle s t s').
Proof.
  intros Hst Hen. revert s. induction hs as [|h hs IH]; intros s; cbn [collect].
  - apply acts_ret. split; [by eexists|apply rel_refl].
  - apply acts_bind, acts_attempt. eapply acts_mono; [|apply acts_ends; [apply Hst|apply Hen]].
    intros o s1 t1 [H1 He].
    assert (forall r, acts (rest ← collect hs (fun h => attempt (f h)); mret (from_option (fun b => [b]) [] r ++ rest)) s1
      (fun o s' t => (exists fs, o = Ret fs) /\ idle s (t1 ++ t) s')) as Hrest.
    { intros r. apply acts_bind. eapply acts_mono; [|apply IH]. intros o2 s2 t2 [[fs ->] H2]. apply acts_ret.
      rewrite app_nil_r. split; [by eexists|by eapply rel_trans]. }
    destruct o as [[]|e|]; [apply Hrest|apply Hrest|done].
Qed.

Lemma acts_stop_bridges s :
  acts (stop_bridges config) s (fun o s' t => exists f, o = Ret f /\ s' = set_active (fun _ => ∅) s /\
    (f = [] -> live t (rt_active s) = ∅)).
Proof.
  unfold stop_bridges. apply acts_bind. eapply acts_mono; [|apply acts_active_handles].
  intros o s0 t0 (-> & -> & hs & -> & _). apply acts_bind.
  eapply acts_mono; [|apply acts_attempts].
  2: { intros h. apply steps_bind; [apply _|apply steps_transact; set_solver|]. intros r. steps. }
  2: { intros h. ends. }
  intros o s1 t1 [[f3 ->] [-> Hn]]. apply acts_bind. eapply acts_mono; [|apply acts_active_handles].
  intros o s0 t0 (-> & -> & hs' & -> & Hperm). apply acts_bind. eapply acts_mono; [|apply acts_final_joins].
  intros o s2 t2 (f4 & -> & -> & Hf). apply acts_ret. rewrite app_nil_r.
  assert (rt_active s ∖ list_to_set hs' = ∅) as Hempty.
  { rewrite Hperm. apply set_eq. intros x. rewrite elem_of_difference, elem_of_list_to_set, elem_of_elements. set_solver. }
  eexists. split_and!; [done|by unfold set_active; rewrite Hempty|].
  intros [_ ->]%app_nil. destruct (Hf eq_refl) as [Hl _]. cbn in Hl. rewrite !app_nil_l, live_app.
  rewrite (proj1 (neutral_trace t1 _ Hn)). by rewrite <- Hl.
Qed.

Lemma acts_orderly_stop fuel timeout s : acts (orderly_stop config fuel timeout) s (orderly_post s).
Proof.
  unfold orderly_stop. apply acts_bind. eapply acts_mono; [|apply acts_stop_accepting].
  intros o s1 t1 [(Ha & Hp & Hc & H3 & Hcl) [->|[[f ->] Hlis]]]; [by split_and!; [..|left]|].
  apply acts_bind. eapply acts_mono; [|apply acts_stop_bridges].
  intros o s2 t2 (f34 & -> & -> & Hl). apply acts_bind. eapply acts_mono; [|apply acts_stop_kernel].
  intros o s3 t3 [[-> Hn] (f5 & -> & H5)]. apply acts_ret. rewrite app_nil_r. split_and!; [done|done|]. right. eexists. split_and!; try done.
  intros [_ [-> ->]%app_nil]%app_nil. destruct (H5 eq_refl) as [Hexit Hreq]. split_and!.
  - rewrite !live_app, <- Ha, Hl by done. by rewrite (proj1 (neutral_trace t3 _ Hn)).
  - by apply Exists_app; right; apply Exists_app; right.
  - rewrite !requests_app. set_solver.
Qed.

(** [Popen.poll] answers: it is not interrupted. *)
Definition poll_answered (ev : Effects.event) : bool :=
  match ev with
  | Ev c r =>
      match c return reply (ret c) -> bool with
      | CPoll => fun r => match r with Fault _ => false | Answer _ => true end
      | _ => fun _ => true
      end r
  end.
Definition polls_answered (t : trace) : Prop := Forall (fun ev => poll_answered ev = true) t.
Definition pipes_closed (p : popen) (t : trace) : Prop :=
  (po_stdin p = true -> CClosePipe true ∈ ev_call <$> t) /\ (po_stdout p = true -> CClosePipe false ∈ ev_call <$> t).

Lemma pipes_closed_app p t u : pipes_closed p u -> pipes_closed p (t ++ u).
Proof. intros [H1 H2]. split; intros H; rewrite fmap_app, elem_of_app; auto. Qed.

(** Finds the exit in a trace that is spelled out. *)
Ltac exit_seen := unfold exit_seen; cbn; repeat first [by apply Exists_cons_hd | apply Exists_cons_tl].

(** The child has exited, or has been told to. *)
Definition put_down (t : trace) : Prop := exit_seen t \/ CTerminate ∈ ev_call <$> t.

Lemma put_down_app t u : put_down u -> put_down (t ++ u).
Proof. intros [H|H]; [left; by apply Exists_app; right|right; rewrite fmap_app, elem_of_app; auto]. Qed.

Lemma acts_force_stop s :
  acts force_stop s (fun o s' t => s' = s /\ o <> OutOfFuel /\ (is_Some (rt_process s) -> o = Ret tt -> exit_seen t) /\
    (is_Some (rt_process s) -> polls_answered t -> put_down t)).
Proof.
  unfold force_stop. apply acts_bind, acts_get. destruct (rt_process s) as [p|].
  2: { apply acts_ret. split_and!; try done; by intros []. }
  apply acts_bind. acts_call; [intros [st|]|].
  { apply acts_ret. split_and!; try done; intros _ _; [exit_seen|left; exit_seen]. }
  2: { intros e. split_and!; try done. intros _ Ha. by inversion Ha. }
  apply acts_bind. acts_call; [intros []|intros e; split_and!; try done; intros _ _; right; set_solver].
  apply acts_try, acts_bind. acts_call; [intros st|intros e].
  { apply acts_ret. split_and!; try done; intros _ _; [exit_seen|right; set_solver]. }
  destruct e; try (apply acts_raise; split_and!; try done; intros _ _; right; set_solver).
  apply acts_bind. acts_call; [intros []|intros e; split_and!; try done; intros _ _; right; set_solver].
  apply acts_bind. acts_call; [intros st|intros e; split_and!; try done; intros _ _; right; set_solver].
  apply acts_ret. split_and!; try done; intros _ _; [exit_seen|right; set_solver].
Qed.

Lemma acts_shutdown_finally pr s :
  is_Some (rt_process s) ->
  acts (shutdown_finally pr) s (fun o s' t => s' = s /\ match o with
    | Ret _ => pipes_closed pr t /\ (polls_answered t -> put_down t) | Raise _ => ~ polls_answered t | OutOfFuel => False end).
Proof.
  intros Hpr. unfold shutdown_finally. apply acts_bind. acts_call; [intros status|intros e; split; [done|]; by inversion 1].
  apply acts_bind.
  assert (acts (match status with None => failures_of force_stop | Some _ => mret [] end) s
    (fun o s' t => s' = s /\ (exists f, o = Ret f) /\ (status = None -> polls_answered t -> put_down t))) as Hstop.
  { destruct status; [apply acts_ret; split_and!; eauto; done|]. apply acts_failures_of. eapply acts_mono; [|apply acts_force_stop].
    intros [[]|e|] s' t (-> & Ho & _ & Hd); [..|done]; split_and!; eauto. }
  eapply acts_mono; [|exact Hstop]. intros o s' t (-> & [f1 ->] & Hdown).
  assert (polls_answered ([Ev CPoll (Answer status)] ++ t) -> put_down ([Ev CPoll (Answer status)] ++ t)) as Hput.
  { intros [_ Ha]%Forall_app. destruct status as [st|]; [left; exit_seen|]. by apply put_down_app, Hdown. }
  assert (forall b c, acts (if (b : bool) then failures_of (perform (CClosePipe c)) else mret []) s
    (fun o s' t => s' = s /\ (exists f, o = Ret f) /\ (b = true -> CClosePipe c ∈ ev_call <$> t))) as Hpipe.
  { intros [] c; [|apply acts_ret; split_and!; [done|by eexists|done]]. apply acts_failures_of.
    acts_call; [intros []|intros e]; (split_and!; [done|by eexists|]); set_solver. }
  apply acts_bind. eapply acts_mono; [|apply Hpipe]. intros o s' t1 (-> & [f2 ->] & H1).
  apply acts_bind. eapply acts_mono; [|apply Hpipe]. intros o s' t2 (-> & [f3 ->] & H2).
  apply acts_ret. split; [done|]. rewrite !app_nil_r. split.
  - do 2 apply pipes_closed_app. split; intros H; rewrite fmap_app, elem_of_app; auto.
  - rewrite app_assoc. intros [Ha _]%Forall_app. destruct (Hput Ha) as [H|H]; [left; by apply Exists_app; left|right].
    rewrite fmap_app, elem_of_app. auto.
Qed.

(** What a stop from a state with a child guarantees. *)
Definition shutdown_post (pr : popen) (s : Runtime) (o : outcome unit) (s' : Runtime) (t : trace) : Prop :=
  rt_closed s' = true /\ rt_process s' = Some pr /\
  (o <> OutOfFuel -> polls_answered t -> pipes_closed pr t /\ put_down t) /\
  (o = Ret tt -> exit_seen t) /\
  (o <> OutOfFuel -> rt_control s = true -> rt_l3_attached s = true -> head t = Some (Ev CPoll (Answer None)) ->
     rt_active s' = ∅ /\ rt_listener s' = None /\
     (o = Ret tt -> live t (rt_active s) = ∅ /\ (OP_SHUTDOWN, 0) ∈ requests t)).

(** The body of the guarded block, by how the child is found. *)
Definition body_post (pr : popen) (running : bool) (s : Runtime) (o : outcome (list exn)) (s' : Runtime) (t : trace) : Prop :=
  rt_closed s' = true /\ rt_process s' = Some pr /\
  (o = Ret [] -> running = true -> exit_seen t) /\
  (o <> OutOfFuel -> rt_control s = true -> rt_l3_attached s = true -> running = true ->
     rt_active s' = ∅ /\ rt_listener s' = None /\ (o = Ret [] -> live t (rt_active s) = ∅ /\ (OP_SHUTDOWN, 0) ∈ requests t)).

Lemma acts_shutdown_body fuel timeout running pr s :
  rt_closed s = true -> rt_process s = Some pr ->
  acts (shutdown_body config fuel timeout running) s (body_post pr running s).
Proof.
  intros Hcl Hp. unfold shutdown_body. apply acts_bind, acts_get.
  destruct (running && rt_control s && rt_l3_attached s) eqn:Hrun.
  - eapply acts_mono; [|apply acts_orderly_stop]. intros o s' t (Hp' & Hc & Ho). rewrite Hcl in Hc. rewrite Hp in Hp'.
    destruct Ho as [->|(fs & -> & Ha & Hl & Hfs)]; split_and!; try done.
    + intros [= ->] _. by apply Hfs.
    + intros _ _ _ _. split_and!; try done. intros [= ->]. split; by apply Hfs.
  - assert (forall o s' t, rt_closed s' = true -> rt_process s' = Some pr -> (o = Ret [] -> running = true -> exit_seen t) ->
      body_post pr running s o s' t) as Hother.
    { intros o s' t Hc' Hp' He. split_and!; try done. intros _ Hcon Hatt ->. by rewrite Hcon, Hatt in Hrun. }
    destruct running.
    + apply acts_bind. eapply acts_mono; [|apply acts_force_stop]. intros o s' t (-> & Hf & He & _).
      destruct o as [[]|e|]; [|by apply Hother|done]. apply acts_ret. rewrite !app_nil_r. apply Hother; try done.
      intros _ _. apply He; [by eexists|done].
    + assert (acts (status ← perform CPoll; match status with
        | Some st => if st =? 0 then mret [] else again ← perform CPoll;
            mret [RuntimeExitedError ("hosted kernel was already dead during shutdown with status "
                                    +:+ from_option str_of_Z "None" (again : option Z))]
        | None => mret [] end) s (fun _ s' _ => s' = s)) as Hdead.
      { apply acts_bind. acts_call; [intros [st|]|done]; [|by apply acts_ret]. destruct (st =? 0); [by apply acts_ret|].
        apply acts_bind. acts_call; [intros again; by apply acts_ret|done]. }
      eapply acts_mono; [|exact Hdead]. intros o s' t ->. by apply Hother.
Qed.

Lemma steps_shutdown_finally pr : steps idle (shutdown_finally pr).
Proof.
  assert (forall m : M Runtime unit, steps idle m -> steps idle (failures_of m)) as Hf.
  { intros m Hm. unfold failures_of. steps. }
  assert (steps idle force_stop) as Hs.
  { unfold force_stop. steps; match goal with |- steps _ (perform ?c) => by apply (steps_neutral c) end. }
  unfold shutdown_finally. steps; try apply Hf; try match goal with |- steps _ (perform ?c) => by apply (steps_neutral c) end.
Qed.

(** The end of [shutdown]: what the guarded block gave, then its [finally]. *)
Lemma acts_shutdown_end pr s (body : list exn + exn) :
  is_Some (rt_process s) ->
  acts (last ← shutdown_finally pr; match body with
     | inr e => raise e
     | inl failures => if bool_decide (failures ++ last = []) then mret tt else raise (RuntimeCleanupError (failures ++ last))
     end) s (fun o s' t => idle s t s' /\ o <> OutOfFuel /\ (polls_answered t -> pipes_closed pr t /\ put_down t) /\
       (o = Ret tt -> body = inl [])).
Proof.
  intros Hpr. apply acts_bind. eapply acts_mono; [|apply acts_and; [by apply acts_shutdown_finally|apply steps_shutdown_finally]].
  intros [last|e|] s' t [[-> H] Hi]; [|by split_and!|done].
  destruct body as [failures|e]; [destruct (bool_decide (failures ++ last = [])) eqn:Hb|];
    [apply acts_ret|apply acts_raise..]; rewrite app_nil_r; split_and!; try done; try (by intros Ha; destruct H; auto).
  intros _. bool_to_prop. by apply app_nil in Hb as [-> _].
Qed.

Lemma acts_shutdown fuel timeout pr s :
  rt_closed s = false -> rt_process s = Some pr ->
  acts (shutdown config fuel timeout) s (shutdown_post pr s).
Proof.
  intros Hcl Hp. unfold shutdown. apply acts_bind, acts_get. rewrite Hcl. apply acts_bind, acts_modify. rewrite Hp.
  apply acts_bind. acts_call.
  2: { intros e. split_and!; try done. intros _ Ha. by inversion Ha. }
  intros status. apply acts_bind, acts_try, acts_bind. set (running := bool_decide (status = None)).
  eapply acts_mono; [|apply (acts_shutdown_body fuel timeout running pr (set_closed s)); done].
  intros o s1 t1 (Hc1 & Hp1 & He1 & Ho1).
  assert (forall body, o <> OutOfFuel -> (body = inl [] -> o = Ret []) ->
    acts (last ← shutdown_finally pr; match body with
     | inr e => raise e
     | inl failures => if bool_decide (failures ++ last = []) then mret tt else raise (RuntimeCleanupError (failures ++ last))
     end) s1 (fun o s' t => shutdown_post pr s o s' ([Ev CPoll (Answer status)] ++ t1 ++ t))) as Hfin.
  { intros body Ho Hb. eapply acts_mono; [|apply acts_shutdown_end; rewrite Hp1; by eexists]. intros o' s' t ([-> Hn] & Hend & Hpipe & Hret).
    split_and!; [done|done| | |].
    - intros _ Ha. destruct Hpipe as [Hpc Hpd]; [by repeat apply Forall_app in Ha as [_ Ha]|].
      split; [by do 2 apply pipes_closed_app|by do 2 apply put_down_app].
    - intros Hr. destruct status as [st|]; [exit_seen|]. apply Exists_app; right. apply Exists_app; left. by apply He1; [apply Hb, Hret|].
    - intros _ Hcon Hatt Hst. assert (status = None) as ->.
      { apply (f_equal (fmap is_exit)) in Hst. by destruct status. }
      destruct (Ho1 Ho Hcon Hatt eq_refl) as (Ha & Hl & Hr). split_and!; [done|done|].
      intros Hres. destruct (Hr (Hb (Hret Hres))) as [Hlive Hreq]. rewrite !requests_app, !live_app.
      cbn in Hlive |- *. rewrite Hlive, (proj1 (neutral_trace t _ Hn)). set_solver. }
  destruct o as [fs|e|].
  - apply acts_ret. rewrite app_nil_r. apply (Hfin (inl fs)); [done|]. by intros [= ->].
  - apply acts_ret. rewrite app_nil_r. by apply (Hfin (inr e)).
  - by split_and!.
Qed.

(** C5. Stopping is complete and happens once.  A runtime that is closed already
    does nothing, one that has no child only becomes closed.  From any other
    state the runtime ends up closed; as long as polling the child is not
    interrupted, both its pipes are closed and it has exited or was told to,
    whatever else failed; and a stop that reports no failure has seen it exit.
    When an attached kernel was still running, no bridge and no listener is left,
    and a stop without failures has heard the end of every bridge and has asked
    the kernel to shut down. *)
Theorem shutdown_complete fuel timeout s tr :
  let '(o, s', tr') := shutdown config fuel timeout s tr in exists suf, tr' = tr ++ suf /\
    if rt_closed s then o = Ret tt /\ s' = s /\ suf = []
    else match rt_process s with
         | None => o = Ret tt /\ s' = set_closed s /\ suf = []
         | Some pr => shutdown_post pr s o s' suf
         end.
Proof.
  enough (acts (shutdown config fuel timeout) s (fun o s' suf =>
    if rt_closed s then o = Ret tt /\ s' = s /\ suf = []
    else match rt_process s with None => o = Ret tt /\ s' = set_closed s /\ suf = [] | Some pr => shutdown_post pr s o s' suf end))
    as H.
  { specialize (H tr). unfold wp in H. by destruct (shutdown config fuel timeout s tr) as [[o s'] tr']. }
  destruct (rt_closed s) eqn:Hcl; [|destruct (rt_process s) as [pr|] eqn:Hp; [by apply acts_shutdown|]];
    unfold shutdown; apply acts_bind, acts_get; rewrite Hcl; [by apply acts_ret|].
  apply acts_bind, acts_modify. rewrite Hp. by apply acts_ret.
Qed.

(** ** Time *)

(** The time known to have passed: the last reading of the clock, and what the
    joins that timed out since have waited. *)
Definition clock_step (e : option Q) (ev : Effects.event) : option Q :=
  match ev with
  | Ev c r =>
      match c return reply (ret c) -> option Q with
      | CClock => fun r => match r with Answer q => Some q | Fault _ => e end
      | CTransact rq => fun r => match r with
          | Answer (CtlReply st _ _) =>
              if (rq_operation rq =? OP_BRIDGE_JOIN_RESULT) && (st =? - ETIMEDOUT)
              then (fun q => (rq_arg0 rq # 1000) + q)%Q <$> e else e
          | _ => e
          end
      | _ => fun _ => e
      end r
  end.
Definition clock_from (tr : trace) (e : option Q) : option Q := fold_left clock_step tr e.
Definition elapsed (tr : trace) : option Q := clock_from tr None.

Lemma clock_from_app t u e : clock_from (t ++ u) e = clock_from u (clock_from t e).
Proof. apply fold_left_app. Qed.

(** The clock is monotonic, and a join that times out has waited its timeout: no
    reading is before the time known to have passed. *)
Definition time_passes : Prop := forall tr e q, elapsed tr = Some e -> env_reply tr CClock = Answer q -> (e <= q)%Q.

Definition timeless (s : Runtime) (t : trace) (s' : Runtime) : Prop := forall e, clock_from t e = e.
#[local] Instance timeless_rel : TraceRel timeless.
Proof. split; [done|]. intros s t s' t' s'' H H' e. by rewrite clock_from_app, H, H'. Qed.

Lemma steps_timeless_event name fields : steps timeless (event name fields).
Proof. by apply (steps_perform _ (CEmit _)). Qed.
Lemma steps_timeless_diagnostic text : steps timeless (diagnostic text).
Proof. by apply (steps_perform _ (CDiagnostic _)). Qed.
Lemma steps_timeless_count : steps timeless active_count.
Proof. unfold active_count. steps. Qed.
#[local] Hint Resolve steps_timeless_event steps_timeless_diagnostic steps_timeless_count : steps.

(** A join either ends the bridge or takes its timeout. *)
Definition join_clock (t : Z) (o : outcome bool) (suf : trace) : Prop :=
  match o with
  | Ret true => forall e, clock_from suf e = e
  | Ret false => forall e, clock_from suf (Some e) = Some ((t # 1000) + e)%Q
  | _ => True
  end.

(** The rest of a join that is answered: no time that counts, and the bridge has
    ended. *)
Definition ending (m : M Runtime bool) : Prop := steps timeless m /\ forall s, acts m s (fun o _ _ => o <> Ret false).

Lemma ending_bind {A} (m : M Runtime A) f : steps timeless m -> (forall a, ending (f a)) -> ending (m ≫= f).
Proof.
  intros Hm Hf. split; [apply steps_bind; [apply _|done|]; intros a; apply Hf|].
  intros s. apply acts_bind. eapply acts_mono; [|apply Hm]. intros [a|e|] s' t _; [apply Hf|done|done].
Qed.
Lemma ending_true : ending (mret true).
Proof. split; [steps|]. intros s. by apply acts_ret. Qed.

Lemma acts_ending (m : M Runtime bool) t rq st h d s : st <> - ETIMEDOUT -> ending m ->
  acts m s (fun o _ suf => join_clock t o ([Ev (CTransact rq) (Answer (CtlReply st h d))] ++ suf)).
Proof.
  intros Hst [Hm Hg]. eapply acts_mono; [|apply acts_and; [apply Hm|apply Hg]].
  intros [[]|e|] s2 suf [Hl Hb]; try done. intros e. rewrite clock_from_app. cbn.
  by rewrite (proj2 (Z.eqb_neq st _) Hst), andb_false_r, Hl.
Qed.

Lemma acts_join_clock h t s : acts (join_bridge_result config h t) s (fun o _ suf => join_clock t o suf).
Proof.
  unfold join_bridge_result, operation_status. apply acts_bind, acts_try, acts_bind, acts_transact.
  { intros x _. by apply acts_raise. }
  intros _ _. fold (join_request h t). split; [intros r|intros e; by apply acts_raise].
  destruct r as [st h' d|text|text]; cbn [transact_reply]; [|by apply acts_raise..].
  destruct (bool_decide (st ∈ [0])) eqn:Hst; bool_to_prop.
  - apply list_elem_of_singleton in Hst as ->. apply acts_ret. rewrite app_nil_r. apply acts_ending; [done|].
    repeat (apply ending_bind; [steps; by apply steps_modify|intros ?]). apply ending_true.
  - unfold control_operation_error. apply acts_ret. rewrite app_nil_r. destruct (st =? - ETIMEDOUT) eqn:Ht.
    + apply acts_ret. intros e. cbn. by rewrite Ht.
    + bool_to_prop. apply acts_ending; [done|].
      repeat (apply ending_bind; [steps; by apply steps_modify|intros ?]). apply ending_true.
Qed.

(** A pass over the bridges is over when the time is, or has taken a
    millisecond, or has seen them all end. *)
Definition pass_post (deadline e0 : Q) (hs : list Z) (s : Runtime) (o : outcome unit) (s' : Runtime) (tr' : trace) : Prop :=
  match o with
  | Ret _ => exists e1, elapsed tr' = Some e1 /\ (e0 <= e1)%Q /\
      (deadline <= e1 \/ e0 + (1 # 1000) <= e1 \/ rt_active s' = rt_active s ∖ list_to_set hs)%Q
  | Raise _ => True
  | OutOfFuel => False
  end.

Lemma wp_drain_pass deadline hs s tr e0 : time_passes -> elapsed tr = Some e0 ->
  wp (drain_pass config deadline hs) (pass_post deadline e0 hs s) s tr.
Proof.
  intros Htime. revert s tr e0. induction hs as [|h hs IH]; intros s tr e0 He; cbn [drain_pass].
  { apply wp_ret. exists e0. split_and!; [done|lra|]. right; right. cbn. set_solver. }
  apply wp_bind. wp_call; [intros now Hnow|done]. specialize (Htime _ _ _ He Hnow).
  assert (elapsed (tr ++ [Ev CClock (Answer now)]) = Some now) as Hel by (unfold elapsed; by rewrite clock_from_app).
  destruct (Qle_bool (deadline - now) 0) eqn:Hr.
  { apply wp_ret. apply Qle_bool_iff in Hr. exists now. split_and!; [done|done|]. left. lra. }
  apply wp_bind. set (t := Z.max 1 _). eapply wp_of_acts.
  { apply acts_and; [apply acts_join_clock|apply acts_ends; [apply acts_join|apply ends_join]]. }
  intros o s1 suf (Hc & (_ & _ & Hs) & Ho). destruct o as [b|e|]; [|done|done].
  assert (exists e1, elapsed ((tr ++ [Ev CClock (Answer now)]) ++ suf) = Some e1 /\
    (if b then e1 == now else now + (1 # 1000) <= e1)%Q) as (e1 & He1 & Hb).
  { unfold elapsed in *. rewrite clock_from_app, Hel. destruct b; [by exists now; rewrite Hc|]. eexists; split; [apply Hc|].
    assert ((1 # 1000) <= (t # 1000))%Q by (unfold Qle; cbn; lia). lra. }
  eapply wp_mono; [|apply (IH _ _ e1 He1)]. intros [[]|e|] s2 tr2; [|done|done]. intros (e2 & He2 & Hle & Hor).
  exists e2. split; [done|]. destruct b; (split; [lra|]).
  - destruct Hor as [H|[H|H]]; [by left|right; left; lra|right; right]. rewrite H, Hs by done. cbn. set_solver.
  - destruct Hor as [H|H]; [by left|right; left; lra].
Qed.

Lemma wp_drain_loop fuel deadline s tr e0 : time_passes -> elapsed tr = Some e0 ->
  rt_active s = ∅ \/ (e0 < deadline /\ deadline <= e0 + (Z.of_nat fuel # 1000))%Q ->
  wp (drain_loop config fuel deadline) (fun o _ _ => o <> OutOfFuel) s tr.
Proof.
  intros Htime. revert s tr e0. induction fuel as [|fuel IH]; intros s tr e0 He Hinv; cbn [drain_loop];
    apply wp_bind, wp_get; (destruct (bool_decide (rt_active s = ∅)) eqn:Hempty; [done|]); bool_to_prop;
    (destruct Hinv as [?|[H1 H2]]; [done|]).
  { assert ((Z.of_nat 0 # 1000) == 0)%Q by done. lra. }
  apply wp_bind. eapply wp_of_acts; [apply acts_active_handles|]. intros o s' t (-> & -> & hs & -> & Hhs).
  rewrite app_nil_r. apply wp_bind. eapply wp_mono; [|by apply wp_drain_pass].
  intros [[]|e|] s1 tr1; [|done|done]. intros (e1 & He1 & Hle & Hor). apply wp_bind. wp_call; [intros now Hnow|done].
  specialize (Htime _ _ _ He1 Hnow). destruct (Qle_bool deadline now) eqn:Hd; [done|].
  assert (now < deadline)%Q as Hlt.
  { apply Qnot_le_lt. intros Hd'. by rewrite (proj2 (Qle_bool_iff _ _) Hd') in Hd. }
  apply (IH _ _ now); [unfold elapsed; by rewrite clock_from_app|]. destruct Hor as [H|[H|H]]; [lra| |left].
  - right. split; [done|]. assert ((Z.of_nat (S fuel) # 1000) == (1 # 1000) + (Z.of_nat fuel # 1000))%Q as Hf.
    { unfold Qeq. cbn -[Z.of_nat]. lia. }
    lra.
  - rewrite H. apply set_eq. intros x. rewrite elem_of_difference, elem_of_list_to_set, Hhs, elem_of_elements. set_solver.
Qed.

Definition grace : Q := default 0%Q (as_number (shutdown_grace_period config)).

Lemma ends_drain fuel : time_passes -> (grace <= Z.of_nat fuel # 1000)%Q -> ends (drain_bridges config fuel).
Proof.
  intros Htime Hfuel. unfold drain_bridges. fold grace. apply ends_bind; [ends|]. intros r. destruct (bool_decide _); [ends|].
  do 2 (apply ends_bind; [ends|]; intros ?). destruct (Qle_bool grace 0) eqn:Hg; [ends|].
  intros s tr. apply wp_bind. wp_call; [intros now Hnow|done]. apply wp_bind.
  assert (0 < grace)%Q. { apply Qnot_le_lt. intros H. by rewrite (proj2 (Qle_bool_iff _ _) H) in Hg. }
  eapply wp_mono; [|apply (wp_drain_loop fuel _ _ _ now); [done|unfold elapsed; by rewrite clock_from_app|right; lra]].
  intros [[]|e|] s' tr' Ho; [|done|done].
  assert (ends (r ← get_state; if bool_decide (rt_active r = ∅) then mret tt else n ← active_count;
    _ ← event "drain-timeout" [("remaining_connections", JInt n); ("grace_period", JReal grace)];
    diagnostic ("shutdown grace period expired with " +:+ str_of_Z n +:+ " active connection(s)") : M Runtime unit)) as Hrest by ends.
  apply Hrest.
Qed.

Lemma ends_shutdown fuel timeout :
  time_passes -> (grace <= Z.of_nat fuel # 1000)%Q -> ends (shutdown config fuel timeout).
Proof.
  intros Htime Hfuel. pose proof (ends_drain fuel Htime Hfuel) as Hdrain.
  unfold shutdown, shutdown_body, shutdown_finally, orderly_stop, stop_accepting, stop_bridges, stop_kernel, failures_of,
    force_stop, final_join, discard. ends.
Qed.

(** C6. Stopping ends, on a monotonic clock that shows that a join which timed out
    has taken its timeout: as many turns of the drain loop as the grace period
    has milliseconds are enough, from every state and whatever else the hosted
    kernel answers. *)
Theorem shutdown_ends fuel timeout s tr :
  time_passes -> (grace <= Z.of_nat fuel # 1000)%Q ->
  let '(o, _, _) := shutdown config fuel timeout s tr in o <> OutOfFuel.
Proof.
  intros Htime Hfuel. pose proof (ends_shutdown fuel timeout Htime Hfuel s tr) as H. unfold wp in H.
  by destruct (shutdown config fuel timeout s tr) as [[]].
Qed.

End lifecycle.

(** ** Examples *)

(** A hosted kernel whose bridges never end, on a clock that shows what is known
    to have passed. *)
Definition stuck_kernel : Env := fun tr c =>
  match c return reply (ret c) with
  | CClock => Answer (default 0%Q (elapsed tr))
  | CTransact rq => Answer (if rq_operation rq =? OP_BRIDGE_JOIN_RESULT then CtlReply (- ETIMEDOUT) 0 [] else CtlReply 0 0 [])
  | CPoll => Answer None
  | CWait _ => Answer 0
  | CEmit _ | CDiagnostic _ | CTerminate | CKill | CClosePipe _ => Answer tt
  | _ => Fault (SRuntimeError "not available")
  end.

(** The stop gives up on the bridge after the grace period and the last join, of
    five seconds each, and says so. *)
Lemma shutdown_ends_witness :
  let '(o, s', tr') := @shutdown stuck_kernel no_strerror sorted_order (sample_service 0) 5000 10
                         (set_active (fun _ => {[110]}) listening) [] in
  o <> OutOfFuel /\ o <> Ret tt /\ rt_active s' = ∅ /\ Qred <$> elapsed tr' = Some 10%Q.
Proof.
  assert (@time_passes stuck_kernel) as Htime.
  { intros tr e q He Hq. cbn in Hq. rewrite He in Hq. injection Hq as <-. apply Qle_refl. }
  pose proof (@shutdown_ends stuck_kernel no_strerror sorted_order (sample_service 0) 5000 10
    (set_active (fun _ => {[110]}) listening) [] Htime ltac:(apply Qle_bool_iff; vm_compute; reflexivity)) as H.
  destruct (shutdown _ _ _ _ _) as [[o s'] tr'] eqn:Hrun. split; [exact H|].
  vm_compute in Hrun. injection Hrun as <- <- <-.
  split; [discriminate|]. split; [reflexivity|]. vm_compute. reflexivity.
Defined.
