(* ===== verification/Service.v ===== *)
(** * The service

    [run_service] and [main] of [tools/tcpcc_cli.py]: the components put
    together.  The host network is acquired, the hosted kernel started on its
    TUN queue, connections served until a signal asks to stop, and everything
    unwound in reverse; [main] reads the command line and turns the outcome into
    an exit status. *)

From S2P Require Import Prelude PyStr Reports Py Effects Json Documents Struct IpAddr Control Journal Signals Preflight.
From S2P Require Import Tun Nft Iptables HostNetwork Config Arguments Runtime Connections Lifecycle.
Local Open Scope Z_scope.

(** ** State *)

(** The objects and the local variables of one call of [run_service]. *)
Record Service := {
  sv_host : HostState;
  sv_stop : ShutdownSignals;
  sv_lease : option HostNetworkLease;
  sv_runtime : option Runtime;
  sv_primary : option exn;
  sv_failures : list exn;
  sv_ready : bool;
  sv_signal : option Z;
}.

Definition set_host (h : HostState) (s : Service) : Service := {|
  sv_host := h; sv_stop := sv_stop s; sv_lease := sv_lease s; sv_runtime := sv_runtime s; sv_primary := sv_primary s;
  sv_failures := sv_failures s; sv_ready := sv_ready s; sv_signal := sv_signal s |}.
Definition set_stop (g : ShutdownSignals) (s : Service) : Service := {|
  sv_host := sv_host s; sv_stop := g; sv_lease := sv_lease s; sv_runtime := sv_runtime s; sv_primary := sv_primary s;
  sv_failures := sv_failures s; sv_ready := sv_ready s; sv_signal := sv_signal s |}.
Definition set_lease (l : HostNetworkLease) (s : Service) : Service := {|
  sv_host := sv_host s; sv_stop := sv_stop s; sv_lease := Some l; sv_runtime := sv_runtime s; sv_primary := sv_primary s;
  sv_failures := sv_failures s; sv_ready := sv_ready s; sv_signal := sv_signal s |}.
Definition set_runtime (r : Runtime) (s : Service) : Service := {|
  sv_host := sv_host s; sv_stop := sv_stop s; sv_lease := sv_lease s; sv_runtime := Some r; sv_primary := sv_primary s;
  sv_failures := sv_failures s; sv_ready := sv_ready s; sv_signal := sv_signal s |}.
Definition set_primary (e : exn) (s : Service) : Service := {|
  sv_host := sv_host s; sv_stop := sv_stop s; sv_lease := sv_lease s; sv_runtime := sv_runtime s; sv_primary := Some e;
  sv_failures := sv_failures s; sv_ready := sv_ready s; sv_signal := sv_signal s |}.
Definition add_failures (es : list exn) (s : Service) : Service := {|
  sv_host := sv_host s; sv_stop := sv_stop s; sv_lease := sv_lease s; sv_runtime := sv_runtime s; sv_primary := sv_primary s;
  sv_failures := sv_failures s ++ es; sv_ready := sv_ready s; sv_signal := sv_signal s |}.
Definition set_ready (s : Service) : Service := {|
  sv_host := sv_host s; sv_stop := sv_stop s; sv_lease := sv_lease s; sv_runtime := sv_runtime s; sv_primary := sv_primary s;
  sv_failures := sv_failures s; sv_ready := true; sv_signal := sv_signal s |}.
Definition set_signal (n : option Z) (s : Service) : Service := {|
  sv_host := sv_host s; sv_stop := sv_stop s; sv_lease := sv_lease s; sv_runtime := sv_runtime s; sv_primary := sv_primary s;
  sv_failures := sv_failures s; sv_ready := sv_ready s; sv_signal := n |}.

(** Before [run_service]: a process that owns nothing. *)
Definition no_signals : ShutdownSignals := {|
  handled := [SIGINT; SIGTERM]; event_set := false; requested_signal := None; previous := ∅; installed := false |}.
Definition new_service (lib : LibState) : Service := {|
  sv_host := (new_journal, fresh_world lib); sv_stop := no_signals; sv_lease := None; sv_runtime := None; sv_primary := None;
  sv_failures := []; sv_ready := false; sv_signal := None |}.

(** The value [event] writes for a validated number. *)
Definition json_number (v : pyval) : json :=
  match v with VInt z => JInt z | VFloat q => JReal q | _ => JNull end.

Section service.
Context `{E : Env} `{T : Strerror} `{SO : SetOrder} (config : ServiceConfig).

Definition on_host {A} (m : M HostState A) : M Service A := zoom sv_host set_host m.
Definition on_stop {A} (m : M ShutdownSignals A) : M Service A := zoom sv_stop set_stop m.
Definition on_kernel {A} (m : M Runtime A) : M Service A :=
  zoom (fun s => default new_runtime (sv_runtime s)) set_runtime m.
Definition on_serving {A} (m : M (Runtime * ShutdownSignals) A) : M Service A :=
  zoom (fun s => (default new_runtime (sv_runtime s), sv_stop s)) (fun rs s => set_stop rs.2 (set_runtime rs.1 s)) m.

(** [ShutdownSignals.requested_signal], after the handlers that have run. *)
Definition first_signal : M ShutdownSignals (option Z) :=
  arrived ← perform CPendingSignals;
  _ ← deliver arrived;
  s ← get_state;
  mret (requested_signal s).

(** [HostNetworkLease.tun], [tun_name], [tun_fd] and [dnat]. *)
Definition lease_tun : M Service TunQueue :=
  s ← get_state;
  of_res (res_of_option (RuntimeError "no TUN queue") (w_tun (sv_host s).2)).
Definition lease_dnat : M Service FirewallDnatLease :=
  s ← get_state;
  of_res (res_of_option (RuntimeError "no firewall lease") (w_dnat (sv_host s).2)).

(** [HostedKernelRuntime.pid] *)
Definition kernel_pid : M Runtime Z :=
  r ← get_state;
  match rt_process r with
  | None => raise (RuntimeError "hosted process has not started")
  | Some p => mret (po_pid p)
  end.
Definition kernel_ifindex : M Runtime (option Z) := r ← get_state; mret (rt_ifindex r).

(** The report that the service is up. *)
Definition report_ready : M Service unit :=
  listen_text ← of_res (endpoint_str (listen config));
  backend_text ← of_res (endpoint_str (backend config));
  dnat ← lease_dnat;
  tun ← lease_tun;
  ifindex ← on_kernel kernel_ifindex;
  pid ← on_kernel kernel_pid;
  _ ← event "ready"
        [("listen", JStr listen_text); ("backend", JStr backend_text); ("cc", JStr (cc config));
         ("firewall_backend", JStr (lease_backend_id dnat)); ("firewall_resource", JStr (resource_name dnat));
         ("tun", JStr (tq_name tun)); ("hosted_address", JStr (tun_guest_address config));
         ("hosted_ifindex", from_option JInt JNull ifindex); ("hosted_pid", JInt pid);
         ("hosted_memory_mib", JInt (memory_mib config)); ("max_connections", JInt (max_connections config));
         ("shutdown_grace_period", json_number (shutdown_grace_period config))];
  diagnostic ("ready on " +:+ listen_text +:+ " with " +:+ cc config +:+ "; bridging to " +:+ backend_text
              +:+ " via " +:+ tq_name tun).

(** The block that runs the service. *)
Definition run_kernel (turns fuel : nat) : M Service unit :=
  _ ← modify (set_runtime new_runtime);
  tun ← lease_tun;
  fd ← of_res (tun_queue_fd tun);
  _ ← on_kernel (start config (VInt fd));
  stop ← on_stop requested;
  if (stop : bool) then mret tt
  else
    _ ← report_ready;
    _ ← modify set_ready;
    on_serving (serve config turns fuel).

Definition run_block (turns fuel : nat) (network : HostNetworkConfig) (paths : tool_paths) : M Service unit :=
  lease ← on_host (acquire_host_network network paths);
  _ ← modify (set_lease lease);
  stop ← on_stop requested;
  _ ← (if (stop : bool) then mret tt else run_kernel turns fuel);
  n ← on_stop first_signal;
  modify (set_signal n).

(** Its [except]: the failure is kept for after the clean-up. *)
Definition run_failed (error : exn) : M Service unit :=
  _ ← modify (set_primary error);
  n ← on_stop first_signal;
  modify (set_signal n).

(** Its [finally]: the hosted kernel first, then the host network. *)
Definition stop_one (m : M Service unit) : M Service unit :=
  e ← attempt m;
  modify (add_failures (from_option (fun e => [e]) [] e)).
Definition unwind (fuel : nat) : M Service unit :=
  s ← get_state;
  _ ← match sv_runtime s with
      | None => mret tt
      | Some _ => stop_one (on_kernel (shutdown config fuel DEFAULT_KERNEL_SHUTDOWN_TIMEOUT))
      end;
  s ← get_state;
  match sv_lease s with
  | None => mret tt
  | Some _ => stop_one (on_host host_lease_close)
  end.

(** What is left to report. *)
Definition conclude : M Service Z :=
  s ← get_state;
  if bool_decide (sv_failures s <> []) then raise (ServiceCleanupError (sv_primary s) (sv_failures s))
  else
    match sv_primary s with
    | Some e => raise e
    | None =>
        _ ← (if sv_ready s then
               _ ← event "stopped" [("signal", from_option JInt JNull (sv_signal s)); ("clean", JBool true)];
               diagnostic "stopped cleanly"
             else mret tt);
        mret 0
    end.

(** [run_service], with at most [turns] polls, and [fuel] turns of its loops. *)
Definition run_service (turns fuel : nat) : M Service Z :=
  network ← of_res (host_network_config config);
  version ← of_res (endpoint_version (listen config));
  '(iptables, restore_path, save_path) ← of_res (iptables_paths (iptables_variant config) version);
  let paths := {| tp_nft := "nft"; tp_iptables := iptables; tp_restore := restore_path; tp_save := save_path |} in
  stop ← of_res (new_shutdown_signals [SIGINT; SIGTERM]);
  _ ← modify (set_stop stop);
  _ ← on_stop enter;
  _ ← try_finally
        (try_finally (try_except (run_block turns fuel network paths) run_failed) (unwind fuel))
        (on_stop restore);
  conclude.

End service.

(** [main]: the run with the arguments [argparse] has read, and the parser
    before it, which exits by an exception of its own. *)
Definition report_error `{E : Env} (error : exn) : M Service Z :=
  _ ← (match error with
       | HostPreflightError report => perform (CDiagnostic (preflight_to_json report))
       | StaleOwnershipError report => perform (CDiagnostic (ownership_to_json report))
       | _ => mret tt
       end);
  _ ← perform (CDiagnostic ("tcpcc: error: " +:+ exn_str error));
  mret 1.

Definition run_namespace `{E : Env} `{T : Strerror} `{SO : SetOrder} (turns fuel : nat) (namespace : Namespace) : M Service Z :=
  try_except
    (config ← config_from_namespace namespace;
     run_service config turns fuel)
    (fun error => if is_Exception error then report_error error else raise error).

Definition SystemExit (status : Z) : exn := Sys (SBaseException "SystemExit" (str_of_Z status)).

Definition main `{E : Env} `{T : Strerror} `{SO : SetOrder} `{F : FloatText} (turns fuel : nat) (this_file argv0 : string)
    (environ : gmap string string) (argv : list string) : M Service Z :=
  default_kernel ← kernel_default this_file argv0 environ;
  match parse_args default_kernel argv with
  | Parsed namespace => run_namespace turns fuel namespace
  | Exit status => raise (SystemExit status)
  | Fails error => raise error
  end.

(** ** The calls of the hosted kernel's runtime *)

(** Those of a runtime at work, which neither start nor stop the child nor look
    for a signal; those of the serving loop, which looks; with the start of the
    child; and all those of a runtime. *)
Definition working_call (c : call) : Prop :=
  match c with
  | CTransact rq => rq_operation rq <> OP_SHUTDOWN
  | CPoll | CClock | CEmit _ | CDiagnostic _ => True
  | _ => False
  end.
Definition look_call (c : call) : Prop := match c with CPendingSignals | CStopWait _ => True | _ => False end.
Definition polling_call (c : call) : Prop := working_call c \/ look_call c.
Definition serving_call (c : call) : Prop := match c with CPopen _ _ => True | _ => polling_call c end.
Definition runtime_call (c : call) : Prop :=
  match c with
  | CTransact _ | CPopen _ _ | CPoll | CWait _ | CTerminate | CKill | CClosePipe _ | CClock | CEmit _ | CDiagnostic _ => True
  | _ => False
  end.

Lemma working_runtime c : working_call c -> runtime_call c.
Proof. by destruct c. Qed.
Lemma polling_serving c : polling_call c -> serving_call c.
Proof. by destruct c. Qed.
Lemma serving_fd_free c : serving_call c -> fd_free c.
Proof. by destruct c; cbn; try by intros [|]. Qed.

Section calls.
Context `{E : Env} `{T : Strerror} `{SO : SetOrder} (config : ServiceConfig).

Lemma emits_working_transact op h a0 a1 d allowed :
  op <> OP_SHUTDOWN -> emits working_call (transact_with op h a0 a1 d allowed).
Proof. intros Hop. unfold transact_with, channel_transact. emits. Qed.
Lemma emits_working_event name fields : emits working_call (event name fields : M Runtime unit).
Proof. unfold event. emits. Qed.
Lemma emits_working_diagnostic text : emits working_call (diagnostic text : M Runtime unit).
Proof. unfold diagnostic. emits. Qed.
Lemma emits_active_handles P : emits P active_handles.
Proof. by apply emits_nil. Qed.
#[local] Hint Resolve emits_working_transact emits_working_event emits_working_diagnostic emits_active_handles : emits.
#[local] Hint Extern 0 (_ <> OP_SHUTDOWN) => discriminate : emits.

Lemma emits_working_join h t : emits working_call (join_bridge_result config h t).
Proof. unfold join_bridge_result, operation_status, discard, active_count. emits. Qed.
#[local] Hint Resolve emits_working_join : emits.

Lemma emits_start tun_fd : emits serving_call (start config tun_fd).
Proof.
  assert (forall op h a0 a1 d allowed, op <> OP_SHUTDOWN -> emits serving_call (transact_with op h a0 a1 d allowed)) as Ht.
  { intros. eapply emits_mono; [|by apply emits_working_transact]. intros c Hc. apply polling_serving. by left. }
  unfold start, start_process, start_listener, verify_cc, positive_handle. emits.
Qed.

Lemma emits_accept_loop fuel listener : emits working_call (accept_loop config fuel listener).
Proof.
  induction fuel as [|fuel IH]; cbn [accept_loop];
    unfold operation_status, handle_accepted, open_bridge, close_accepted, reject_connection, verify_cc, operation_status,
      positive_handle, active_count; emits.
Qed.
#[local] Hint Resolve emits_accept_loop : emits.

Lemma emits_poll fuel : emits working_call (poll_once config fuel).
Proof. unfold poll_once, ensure_running, reap_bridges, accept_available. emits. Qed.

Lemma emits_looks : emits look_call requested /\ (forall t, emits look_call (wait t)) /\ emits look_call first_signal.
Proof. unfold requested, wait, first_signal, deliver. split_and!; [|intros t|]; emits. Qed.

Lemma emits_serve turns fuel : emits polling_call (serve config turns fuel).
Proof.
  assert (emits polling_call (poll_once config fuel)) as Hpoll by (eapply emits_mono; [|apply emits_poll]; by left).
  destruct emits_looks as (Hreq & Hwait & _).
  assert (emits polling_call requested) as Hreq' by (eapply emits_mono; [|exact Hreq]; by right).
  assert (forall t, emits polling_call (wait t)) as Hwait' by (intros t; eapply emits_mono; [|apply Hwait]; by right).
  induction turns as [|turns IH]; cbn [serve]; unfold on_runtime, on_signals; emits.
Qed.

(** The rest of a runtime's calls. *)
Lemma emits_transact op h a0 a1 d allowed : emits runtime_call (transact_with op h a0 a1 d allowed).
Proof. unfold transact_with, channel_transact. emits. Qed.
Lemma emits_event name fields : emits runtime_call (event name fields : M Runtime unit).
Proof. unfold event. emits. Qed.
Lemma emits_diagnostic text : emits runtime_call (diagnostic text : M Runtime unit).
Proof. unfold diagnostic. emits. Qed.
Lemma emits_join h t : emits runtime_call (join_bridge_result config h t).
Proof. eapply emits_mono; [apply working_runtime|apply emits_working_join]. Qed.
#[local] Hint Resolve emits_transact emits_event emits_diagnostic emits_join : emits.

Lemma emits_drain fuel : emits runtime_call (drain_bridges config fuel).
Proof.
  assert (forall deadline hs, emits runtime_call (drain_pass config deadline hs)) as Hpass.
  { intros deadline hs. induction hs as [|h hs IH]; cbn [drain_pass]; emits. }
  assert (forall deadline, emits runtime_call (drain_loop config fuel deadline)) as Hloop.
  { intros deadline. induction fuel as [|fuel IH]; cbn [drain_loop]; emits. }
  unfold drain_bridges, active_count. emits.
Qed.
#[local] Hint Resolve emits_drain : emits.

Lemma emits_shutdown fuel timeout : emits runtime_call (shutdown config fuel timeout).
Proof.
  unfold shutdown, shutdown_body, shutdown_finally, orderly_stop, stop_accepting, stop_bridges, stop_kernel, final_join,
    failures_of, force_stop, discard. emits.
Qed.

End calls.

(** ** The child processes of a run *)

Definition ev_born (ev : Effects.event) : option popen :=
  match ev with
  | Ev c r =>
      match c return reply (ret c) -> option popen with
      | CPopen _ _ => fun r => match r with Answer p => Some p | Fault _ => None end
      | _ => fun _ => None
      end r
  end.
Definition born (t : trace) : list popen := omap ev_born t.

Lemma born_app t u : born (t ++ u) = born t ++ born u.
Proof. apply omap_app. Qed.

(** A runtime at work: its child is the one that was started, and it is closed
    by [shutdown] alone. *)
Definition upkeep (r : Runtime) (t : trace) (r' : Runtime) : Prop :=
  rt_closed r' = rt_closed r /\ option_list (rt_process r') = option_list (rt_process r) ++ born t.
#[export] Instance upkeep_rel : TraceRel upkeep.
Proof.
  split; [intros r; by split; [|rewrite app_nil_r]|]. intros r t r' t' r'' [H1 H2] [H3 H4].
  split; [congruence|]. by rewrite born_app, H4, H2, app_assoc.
Qed.

Section upkeep.
Context `{E : Env} `{T : Strerror} `{SO : SetOrder} (config : ServiceConfig).

Lemma upkeep_quiet r t r' : rt_closed r' = rt_closed r -> rt_process r' = rt_process r -> born t = [] -> upkeep r t r'.
Proof. intros H1 H2 H3. split; [done|]. by rewrite H2, H3, app_nil_r. Qed.

Lemma steps_start tun_fd : steps upkeep (start config tun_fd).
Proof.
  assert (forall rq, steps upkeep (perform (CTransact rq))) as Hp by (intros rq; apply steps_perform; intros r a; by apply upkeep_quiet).
  assert (forall op h a0 a1 d allowed, steps upkeep (transact_with op h a0 a1 d allowed)) as Ht.
  { intros. unfold transact_with, channel_transact. steps. }
  assert (steps upkeep (start_process config tun_fd)) as Hproc.
  { intros r. unfold start_process. apply acts_bind, acts_get. destruct (rt_process r) as [p|] eqn:Hpr; [by apply acts_raise, upkeep_quiet|].
    apply acts_bind, acts_of_res. destruct (match tun_fd with VInt _ => _ | _ => _ end) as [fd|e]; [|by apply upkeep_quiet].
    apply acts_bind. acts_call; [intros p|intros e; by apply upkeep_quiet]. apply acts_bind, acts_modify.
    assert (forall r', rt_closed r' = rt_closed r -> rt_process r' = Some p -> upkeep r [Ev (CPopen [kernel config;
      "--memory-mib=" +:+ str_of_Z (memory_mib config)] [fd]) (Answer p)] r') as Hup.
    { intros r' Hc Hp'. split; [done|]. by rewrite Hp', Hpr. }
    destruct (negb _ || negb _); [by apply acts_raise, Hup|]. apply acts_bind, acts_modify, acts_ret. by apply Hup. }
  unfold start, start_listener, verify_cc, positive_handle. steps; by apply steps_modify; intros r; apply upkeep_quiet.
Qed.

Lemma born_polling t : Forall (fun ev => polling_call (ev_call ev)) t -> born t = [].
Proof.
  induction 1 as [|[c r] t Hc _ IH]; [done|]. unfold born in *. cbn in *. rewrite IH.
  destruct c; try done. by destruct Hc as [[]|[]].
Qed.

Lemma acts_serve_upkeep turns fuel rg :
  acts (serve config turns fuel) rg (fun _ rg' t => upkeep rg.1 t rg'.1 /\ Forall (fun ev => polling_call (ev_call ev)) t).
Proof.
  eapply acts_mono; [|apply acts_emits; [apply steps_serve|apply (emits_serve config)]].
  intros o [r g] t [[Hk _ _ _] Ht]. cbn in Hk |- *. split; [|done].
  apply upkeep_quiet; [by rewrite Hk|by rewrite Hk|by apply born_polling].
Qed.

End upkeep.

(** ** Unwinding *)

(** Only signal handlers were set; the last words. *)
Definition handler_call (c : call) : Prop := match c with CSignal _ _ => True | _ => False end.
Definition ending_call (c : call) : Prop := match c with CSignal _ _ | CEmit _ | CDiagnostic _ => True | _ => False end.
Abbreviation only P := (Forall (fun ev => P (ev_call ev))) (only parsing).

Lemma only_mono (P Q : call -> Prop) t : (forall c, P c -> Q c) -> only P t -> only Q t.
Proof. intros H Ht. eapply Forall_impl; [exact Ht|]. intros ev. apply H. Qed.

Lemma handler_fd_free c : handler_call c -> fd_free c.
Proof. by destruct c. Qed.
Lemma ending_fd_free c : ending_call c -> fd_free c.
Proof. by destruct c. Qed.
Lemma runtime_fd_free c : runtime_call c -> fd_free c.
Proof. by destruct c. Qed.

Definition failed (o : outcome unit) : list exn := option_list (exc_of o).

Section released.
Context `{E : Env} `{T : Strerror} `{SO : SetOrder} (config : ServiceConfig) (fuel : nat) (lib : LibState).

(** The host network the service asks for. *)
Definition service_network (network : HostNetworkConfig) (paths : tool_paths) : Prop :=
  host_network_config config = Ok network /\
  exists version iptables restore_path save_path, endpoint_version (listen config) = Ok version /\
    iptables_paths (iptables_variant config) version = Ok (iptables, restore_path, save_path) /\
    paths = {| tp_nft := "nft"; tp_iptables := iptables; tp_restore := restore_path; tp_save := save_path |}.

(** The trace of the one acquisition of the run. *)
Definition acquired (o : outcome HostNetworkLease) (js : HostState) (t : trace) : Prop :=
  exists network paths, service_network network paths /\
    ran (acquire_host_network network paths) (new_journal, fresh_world lib) o js t.

(** The hosted kernel, after a trace [tb] of service: the trace [tk] is that of
    one call of [shutdown], on the runtime whose child was started in [tb]. *)
Definition kernel_released (s : Service) (tb tk : trace) (o : outcome unit) : Prop :=
  match sv_runtime s with
  | None => born tb = [] /\ tk = [] /\ o = Ret tt
  | Some r => exists r0, born tb = option_list (rt_process r0) /\ rt_closed r0 = false /\
      ran (shutdown config fuel DEFAULT_KERNEL_SHUTDOWN_TIMEOUT) r0 o r tk /\
      rt_closed r = true /\ rt_process r = rt_process r0 /\
      forall p, rt_process r0 = Some p -> shutdown_post p r0 o r tk
  end.

(** The host network, after the trace [ta] of its acquisition: if it was acquired
    the trace [th] withdraws the steering and closes the TUN descriptor. *)
Definition host_released (s : Service) (ta th : trace) (o : outcome unit) : Prop :=
  match sv_lease s with
  | None => th = [] /\ o = Ret tt /\ (ta = [] \/ exists e, acquired (Raise e) (sv_host s) ta) /\
      opened ta = closed ta /\ tun_shut (sv_host s).2 /\ w_dnat (sv_host s).2 = None
  | Some lease => exists js fd d label1 label2 t1 o1 r,
      acquired (Ret lease) js ta /\ opened ta = closed ta ++ [fd] /\ tun_open js.2 fd /\
      w_dnat js.2 = Some d /\ dnat_closed d = false /\
      th = t1 ++ [Ev (CClose fd) r] /\ opened t1 = [] /\ closed t1 = [] /\ withdrawn d o1 t1 /\
      o = cleanup_outcome (failure_of label2 o1 ++ failure_of label1 (unit_outcome r)) /\
      tun_shut (sv_host s).2 /\ w_dnat (sv_host s).2 = Some (dnat_shut d)
  end.

(** What the service owned has been given back, once each and in order: the
    hosted kernel first, the steering next, the TUN descriptor last; and what
    failed of it is remembered. *)
Definition released (s : Service) (suf : trace) : Prop :=
  exists te ta tb tk th tl o1 o2, suf = te ++ ta ++ tb ++ tk ++ th ++ tl /\
    only handler_call te /\ only serving_call tb /\ only runtime_call tk /\ only ending_call tl /\
    kernel_released s tb tk o1 /\ host_released s ta th o2 /\ sv_failures s = failed o1 ++ failed o2 /\
    opened suf = closed suf.

Context (network : HostNetworkConfig) (paths : tool_paths) (Hnetwork : service_network network paths).
Implicit Types s : Service.

(** While the service runs. *)
Definition host_held (s : Service) (ta : trace) : Prop :=
  match sv_lease s with
  | None => (ta = [] \/ exists e, acquired (Raise e) (sv_host s) ta) /\ opened ta = closed ta /\ tun_shut (sv_host s).2 /\
      w_dnat (sv_host s).2 = None
  | Some lease => acquired (Ret lease) (sv_host s) ta /\ resources_post network (Ret tt) (sv_host s) ta
  end.
Definition in_block (s : Service) (t : trace) : Prop :=
  sv_failures s = [] /\ (forall r, sv_runtime s = Some r -> rt_closed r = false) /\
  exists te ta tb, t = te ++ ta ++ tb /\ only handler_call te /\ only serving_call tb /\
    born tb = option_list (sv_runtime s ≫= rt_process) /\ host_held s ta.

(** A part of the run that leaves what is owned alone. *)
Definition carries (s : Service) (t : trace) (s' : Service) : Prop := forall t0, in_block s t0 -> in_block s' (t0 ++ t).
#[local] Instance carries_rel : TraceRel carries.
Proof.
  split; [intros s t0; by rewrite app_nil_r|]. intros s t s' t' s'' H H' t0 Ht0. rewrite app_assoc. by apply H', H.
Qed.

Lemma carries_intro s t s' :
  only serving_call t -> sv_host s' = sv_host s -> sv_lease s' = sv_lease s -> sv_failures s' = sv_failures s ->
  ((forall r, sv_runtime s = Some r -> rt_closed r = false) -> forall r, sv_runtime s' = Some r -> rt_closed r = false) ->
  option_list (sv_runtime s' ≫= rt_process) = option_list (sv_runtime s ≫= rt_process) ++ born t -> carries s t s'.
Proof.
  intros Ht Hh Hl Hf Hr Hp t0 (H1 & H2 & te & ta & tb & -> & Hte & Htb & Hb & Hheld). split_and!; [congruence|auto|].
  exists te, ta, (tb ++ t). rewrite <- !app_assoc. split_and!; try done; [by apply Forall_app|by rewrite born_app, Hb|].
  unfold host_held. by rewrite Hl, Hh.
Qed.

Lemma carries_looks s t s' :
  only look_call t -> sv_host s' = sv_host s -> sv_lease s' = sv_lease s -> sv_failures s' = sv_failures s ->
  sv_runtime s' = sv_runtime s -> carries s t s'.
Proof.
  intros Ht Hh Hl Hf Hr. assert (only polling_call t) as Hp by (eapply only_mono; [|exact Ht]; by right).
  apply carries_intro; try done.
  - eapply only_mono; [apply polling_serving|done].
  - by rewrite Hr.
  - by rewrite Hr, born_polling, app_nil_r.
Qed.

Lemma steps_on_stop {A} (m : M ShutdownSignals A) : emits look_call m -> steps carries (on_stop m).
Proof.
  intros Hm s. apply acts_zoom. eapply acts_mono; [|apply (acts_of_emits look_call m (sv_stop s)), Hm].
  intros o g t Ht. by apply carries_looks.
Qed.

Lemma carries_kernel s t r' :
  upkeep (default new_runtime (sv_runtime s)) t r' -> only serving_call t -> carries s t (set_runtime r' s).
Proof.
  intros [Hc Hp] Ht. apply carries_intro; try done; cbn.
  - intros Hs r [= <-]. rewrite Hc. destruct (sv_runtime s) as [r0|]; [by apply Hs|done].
  - rewrite Hp. by destruct (sv_runtime s).
Qed.

Lemma steps_on_kernel {A} (m : M Runtime A) :
  emits serving_call m -> steps upkeep m -> steps carries (on_kernel m).
Proof.
  intros Hem Hst s. apply acts_zoom. eapply acts_mono; [|apply acts_emits; [apply Hst|exact Hem]].
  intros o r t [Hr Ht]. by apply carries_kernel.
Qed.

Lemma steps_on_serving turns : steps carries (on_serving (serve config turns fuel)).
Proof.
  intros s. apply acts_zoom. eapply acts_mono; [|apply acts_serve_upkeep].
  intros o [r g] t [Hr Ht]. assert (only serving_call t) as Ht' by (eapply only_mono; [apply polling_serving|done]).
  pose proof (carries_kernel s t r Hr Ht') as Hc. intros t0 Hb. exact (Hc t0 Hb).
Qed.

Lemma steps_carries_modify f :
  (forall s, sv_host (f s) = sv_host s /\ sv_lease (f s) = sv_lease s /\ sv_failures (f s) = sv_failures s /\
     sv_runtime (f s) = sv_runtime s) -> steps carries (modify f).
Proof. intros Hf. apply steps_modify. intros s. destruct (Hf s) as (? & ? & ? & ?). by apply carries_looks. Qed.

Lemma steps_ready : steps carries (report_ready config).
Proof.
  assert (forall c, working_call c -> steps carries (perform c)) as Hp.
  { intros c Hc. apply steps_perform. intros s r. assert (only polling_call [Ev c r]) as Hpo by (constructor; [by left|done]).
    apply carries_intro; try done; [eapply only_mono; [apply polling_serving|done]|by rewrite born_polling, app_nil_r]. }
  unfold report_ready, lease_dnat, lease_tun. steps.
  - apply steps_on_kernel; [unfold kernel_ifindex; emits|]. intros r. apply acts_bind, acts_get. apply acts_ret. by apply upkeep_quiet.
  - apply steps_on_kernel; [unfold kernel_pid; emits|]. intros r. apply acts_bind, acts_get.
    destruct (rt_process r); [apply acts_ret|apply acts_raise]; by apply upkeep_quiet.
  - by apply (Hp (CEmit _)).
  - by apply (Hp (CDiagnostic _)).
Qed.

Lemma acts_run_kernel turns s t0 :
  in_block s t0 -> sv_runtime s = None -> acts (run_kernel config turns fuel) s (fun _ s' t => in_block s' (t0 ++ t)).
Proof.
  intros Hb Hr. unfold run_kernel. apply acts_bind, acts_modify.
  assert (in_block (set_runtime new_runtime s) t0) as Hb1.
  { destruct Hb as (H1 & _ & te & ta & tb & Ht & H2 & H3 & H4 & H5). split_and!; [done|by intros r [= <-]|].
    exists te, ta, tb. rewrite Hr in H4. by split_and!. }
  match goal with |- acts ?m _ _ => assert (steps carries m) as Hm end.
  { unfold lease_tun. destruct emits_looks as (Hreq & _ & _). steps.
    - apply steps_on_kernel; [apply emits_start|apply steps_start].
    - by apply steps_on_stop.
    - apply steps_ready.
    - by apply steps_carries_modify.
    - apply steps_on_serving. }
  eapply acts_mono; [|apply Hm]. intros o s' t Hc. by apply Hc.
Qed.

Lemma steps_signal : steps carries (n ← on_stop first_signal; modify (set_signal n)).
Proof. destruct emits_looks as (_ & _ & Hf). steps; [by apply steps_on_stop|]. by apply steps_carries_modify. Qed.

Lemma steps_run_failed e : steps carries (run_failed e).
Proof. unfold run_failed. apply steps_bind; [apply _|by apply steps_carries_modify|intros []; apply steps_signal]. Qed.

(** A service that owns nothing yet. *)
Definition owns_nothing (s : Service) : Prop :=
  sv_host s = (new_journal, fresh_world lib) /\ sv_lease s = None /\ sv_runtime s = None /\ sv_failures s = [].

Lemma in_block_start s te : owns_nothing s -> only handler_call te -> in_block s te.
Proof.
  intros (Hh & Hl & Hr & Hf) Hte. split_and!; [done|by rewrite Hr|]. exists te, [], []. rewrite !app_nil_r. split_and!; try done.
  - by rewrite Hr.
  - unfold host_held. rewrite Hl, Hh. split_and!; try done. by left.
Qed.

Lemma acts_run_block turns s te :
  owns_nothing s -> only handler_call te ->
  acts (run_block config turns fuel network paths) s (fun _ s' t => in_block s' (te ++ t)).
Proof.
  intros (Hh & Hl & Hr & Hf) Hte. unfold run_block. apply acts_bind, acts_zoom. rewrite Hh.
  eapply acts_mono; [|apply acts_ran, acts_acquire]. intros o js ta [Ho Hran].
  assert (acquired o js ta) as Hacq by by exists network, paths.
  destruct o as [lease|e|]; [| |done].
  - apply acts_bind, acts_modify.
    assert (in_block (set_lease lease (set_host js s)) (te ++ ta)) as Hin.
    { split_and!; [done|by cbn; rewrite Hr|]. exists te, ta, []. rewrite app_nil_r. split_and!; try done; [by cbn; rewrite Hr|].
      split; [done|]. by destruct Ho as (_ & _ & Ho). }
    apply acts_bind, acts_zoom. eapply acts_mono; [|apply (acts_of_emits look_call), emits_looks].
    intros o g t1 Ht1.
    assert (in_block (set_stop g (set_lease lease (set_host js s))) ((te ++ ta) ++ t1)) as Hin1 by (by eapply carries_looks; [..|exact Hin]).
    destruct o as [stop|e|]; [|by cbn [app]; rewrite !app_assoc..]. apply acts_bind.
    assert (acts (if (stop : bool) then mret tt else run_kernel config turns fuel) (set_stop g (set_lease lease (set_host js s)))
      (fun _ s' t => in_block s' (((te ++ ta) ++ t1) ++ t))) as Hk.
    { destruct stop; [apply acts_ret; by rewrite app_nil_r|]. by apply acts_run_kernel. }
    eapply acts_mono; [|exact Hk]. intros o s2 t2 Hin2. destruct o as [[]|e|]; [|by cbn [app]; rewrite !app_assoc..].
    eapply acts_mono; [|apply steps_signal]. intros o s3 t3 Hc. cbn [app]. rewrite !app_assoc. by apply Hc.
  - destruct Ho as (_ & Hs & Hd & Hoc & _). split_and!; [done|by cbn; rewrite Hr|]. exists te, ta, []. rewrite app_nil_r.
    split_and!; try done; [by cbn; rewrite Hr|]. unfold host_held. cbn. rewrite Hl. split_and!; try done. right. by exists e.
Qed.

(** After the first half of the clean-up. *)
Definition half_released (s : Service) (t : trace) : Prop :=
  exists te ta tb tk o1, t = te ++ ta ++ tb ++ tk /\ only handler_call te /\ only serving_call tb /\ only runtime_call tk /\
    kernel_released s tb tk o1 /\ host_held s ta /\ sv_failures s = failed o1.

Lemma acts_shutdown_open timeout r :
  rt_closed r = false ->
  acts (shutdown config fuel timeout) r (fun o r' t => rt_closed r' = true /\ rt_process r' = rt_process r /\
    forall p, rt_process r = Some p -> shutdown_post p r o r' t).
Proof.
  intros Hcl. destruct (rt_process r) as [p|] eqn:Hp.
  - eapply acts_mono; [|by apply acts_shutdown]. intros o r' t Hpost. pose proof Hpost as (H1 & H2 & _).
    split_and!; [done|done|]. by intros ? [= <-].
  - unfold shutdown. apply acts_bind, acts_get. rewrite Hcl. apply acts_bind, acts_modify. rewrite Hp. by apply acts_ret.
Qed.

Lemma acts_unwind_kernel s t0 :
  in_block s t0 ->
  acts (match sv_runtime s with
        | None => mret tt
        | Some _ => stop_one (on_kernel (shutdown config fuel DEFAULT_KERNEL_SHUTDOWN_TIMEOUT))
        end) s (fun o s' t => o = OutOfFuel \/ o = Ret tt /\ half_released s' (t0 ++ t)).
Proof.
  intros (Hf & Hr & te & ta & tb & -> & Hte & Htb & Hb & Hheld). destruct (sv_runtime s) as [r|] eqn:Hrt.
  2: { apply acts_ret. right. split; [done|]. exists te, ta, tb, [], (Ret tt). rewrite !app_nil_r. split_and!; try done.
       unfold kernel_released. by rewrite Hrt. }
  specialize (Hr r eq_refl). unfold stop_one. apply acts_bind, acts_attempt, acts_zoom. rewrite Hrt. cbn [default].
  eapply acts_mono; [|apply acts_emits; [by apply acts_ran, acts_shutdown_open|apply emits_shutdown]].
  intros o r' tk [[(Hc & Hp & Hpost) Hran] Htk].
  assert (forall es, es = failed o ->
    half_released (add_failures es (set_runtime r' s)) ((te ++ ta ++ tb) ++ tk)) as Hok.
  { intros es ->. exists te, ta, tb, tk, o. rewrite <- !app_assoc. split_and!; try done; [|by cbn; rewrite Hf].
    exists r. by split_and!. }
  destruct o as [[]|e|]; [apply acts_modify|apply acts_modify|by left]; rewrite app_nil_r; right; (split; [done|]); by apply Hok.
Qed.

Lemma only_fd_free P t : (forall c, P c -> fd_free c) -> only P t -> opened t = [] /\ closed t = [].
Proof. intros H Ht. apply fd_free_trace. by eapply only_mono. Qed.

Lemma acts_unwind_host s t0 :
  half_released s t0 ->
  acts (match sv_lease s with None => mret tt | Some _ => stop_one (on_host host_lease_close) end) s
    (fun o s' t => o = Ret tt /\ released s' (t0 ++ t)).
Proof.
  intros (te & ta & tb & tk & o1 & -> & Hte & Htb & Htk & Hk & Hheld & Hf).
  destruct (only_fd_free _ te handler_fd_free Hte) as [Ho1 Hc1], (only_fd_free _ tb serving_fd_free Htb) as [Ho2 Hc2],
    (only_fd_free _ tk runtime_fd_free Htk) as [Ho3 Hc3].
  assert (forall s' th o2, host_released s' ta th o2 -> kernel_released s' tb tk o1 -> sv_failures s' = failed o1 ++ failed o2 ->
    opened (ta ++ th) = closed (ta ++ th) -> released s' ((te ++ ta ++ tb ++ tk) ++ th)) as Hrel.
  { intros s' th o2 H1 H2 H3 H4. exists te, ta, tb, tk, th, [], o1, o2. rewrite app_nil_r, <- !app_assoc. split_and!; try done.
    autorewrite with trace in *. rewrite Ho1, Hc1, Ho2, Hc2, Ho3, Hc3. exact H4. }
  unfold host_held in Hheld. destruct (sv_lease s) as [lease|] eqn:Hlease.
  2: { apply acts_ret. split; [done|]. destruct Hheld as (H1 & H2 & H3 & H4). apply (Hrel s [] (Ret tt)); [|done|by rewrite app_nil_r|by rewrite app_nil_r].
       unfold host_released. rewrite Hlease. by split_and!. }
  destruct Hheld as (Hacq & l1 & l2 & fd & d & Hj & Htun & Hd & Hgood & Hfds). destruct (sv_host s) as [j w] eqn:Hh. cbn in Hj. subst j.
  unfold stop_one, host_lease_close. apply acts_bind, acts_attempt, acts_zoom. rewrite Hh.
  eapply acts_mono; [|by eapply acts_close_both].
  intros o js t (_ & Hshut & Hd' & t1 & o2 & r & -> & Hop & Hcl & Hw & Hof & Ho).
  assert (forall es, es = failed o -> released (add_failures es (set_host js s))
    ((te ++ ta ++ tb ++ tk) ++ t1 ++ [Ev (CClose fd) r])) as Hok.
  { intros es ->. apply (Hrel _ _ o).
    - unfold host_released. cbn. rewrite Hlease. pose proof Hgood as [Hopen _]. exists (Journal [(l1, CloseTun); (l2, CloseDnat)] false, w), fd, d, l1, l2, t1, o2, r.
      by split_and!.
    - exact Hk.
    - cbn. by rewrite Hf.
    - autorewrite with trace in *. rewrite Hfds, Hop, Hcl. cbn. by rewrite app_nil_r. }
  destruct o as [[]|e|]; [apply acts_modify|apply acts_modify|by unfold cleanup_outcome in Ho; destruct (bool_decide _)];
    rewrite app_nil_r; (split; [done|by apply Hok]).
Qed.

Lemma acts_unwind s t0 :
  in_block s t0 -> acts (unwind config fuel) s (fun o s' t => o = OutOfFuel \/ o = Ret tt /\ released s' (t0 ++ t)).
Proof.
  intros Hb. unfold unwind. apply acts_bind, acts_get, acts_bind. eapply acts_mono; [|by apply acts_unwind_kernel].
  intros o s1 t [->|(-> & Hh)]; [by left|]. apply acts_bind, acts_get. eapply acts_mono; [|by apply acts_unwind_host].
  intros o s2 t2 [-> H]. right. by rewrite <- app_assoc in H.
Qed.

(** The run inside the signal handlers: whatever happens, everything is given
    back. *)
Lemma acts_run_unwound turns s te :
  owns_nothing s -> only handler_call te ->
  acts (try_finally (try_except (run_block config turns fuel network paths) run_failed) (unwind config fuel)) s
    (fun o s' t => o = OutOfFuel \/ released s' (te ++ t)).
Proof.
  intros Hs Hte. apply acts_finally, acts_try. eapply acts_mono; [|by apply acts_run_block].
  assert (forall s1 t1, in_block s1 (te ++ t1) -> acts (unwind config fuel) s1 (fun o s2 t2 =>
    (o = Ret tt /\ released s2 (te ++ t1 ++ t2)) \/ o = OutOfFuel)) as Hunwind.
  { intros s1 t1 Hb1. eapply acts_mono; [|by apply acts_unwind].
    intros o s2 t2 [->|[-> H]]; [by right|left]. by rewrite <- app_assoc in H. }
  intros [[]|e|] s1 t1 Hb1; [| |by left].
  - eapply acts_mono; [|by apply Hunwind]. intros o s2 t2 [[-> H]| ->]; [by right|by left].
  - eapply acts_mono; [|apply steps_run_failed]. intros o s2 t2 Hb2. specialize (Hb2 _ Hb1). rewrite <- app_assoc in Hb2.
    destruct o as [[]|e'|]; [| |by left]; (eapply acts_mono; [|by apply Hunwind]); intros o s3 t3 [[-> H]| ->]; auto.
Qed.

End released.

(** The rest changes nothing of it. *)
Lemma released_quiet `{E : Env} `{T : Strerror} `{SO : SetOrder} config fuel lib s g t u :
  only ending_call u -> released config fuel lib s t -> released config fuel lib (set_stop g s) (t ++ u).
Proof.
  intros Hu (te & ta & tb & tk & th & tl & o1 & o2 & -> & H1 & H2 & H3 & H4 & H5 & H6 & H7 & H8).
  exists te, ta, tb, tk, th, (tl ++ u), o1, o2. split; [by rewrite <- !app_assoc|]. split_and!; try done; [by apply Forall_app|].
  destruct (only_fd_free _ u ending_fd_free Hu) as [Ho Hc]. rewrite opened_app, closed_app, Ho, Hc, !app_nil_r. exact H8.
Qed.

Lemma released_nothing `{E : Env} `{T : Strerror} `{SO : SetOrder} config fuel lib s t :
  owns_nothing lib s -> only handler_call t -> released config fuel lib s t.
Proof.
  intros (Hh & Hl & Hr & Hf) Ht. exists t, [], [], [], [], [], (Ret tt), (Ret tt). rewrite !app_nil_r.
  split_and!; try done.
  - unfold kernel_released. by rewrite Hr.
  - unfold host_released. rewrite Hl, Hh. split_and!; try done. by left.
  - by destruct (only_fd_free _ t handler_fd_free Ht) as [-> ->].
Qed.

Section service_runs.
Context `{E : Env} `{T : Strerror} `{SO : SetOrder} (config : ServiceConfig).

Lemma emits_restore_one n : emits handler_call (restore_one n).
Proof. unfold restore_one. emits. Qed.
Lemma emits_enter : emits handler_call enter.
Proof.
  assert (forall signums done, emits handler_call (install_all signums done)) as Hall.
  { intros signums. induction signums as [|n signums IH]; intros done; cbn [install_all]; emits. }
  unfold enter. emits; apply emits_restore_one.
Qed.
Lemma emits_restore : emits handler_call restore.
Proof. unfold restore. emits. apply emits_restore_one. Qed.

(** The last words of a service that was up. *)
Definition farewell (n : option Z) : trace :=
  [Ev (CEmit (JObj [("schema", JStr EVENT_SCHEMA); ("event", JStr "stopped"); ("signal", from_option JInt JNull n);
                    ("clean", JBool true)])) (Answer tt);
   Ev (CDiagnostic "tcpcc: stopped cleanly") (Answer tt)].

Context (fuel : nat) (lib : LibState).
Abbreviation released' := (released config fuel lib).

(** How a run can end. *)
Definition service_post (o : outcome Z) (s : Service) (suf : trace) : Prop :=
  match o with
  | Ret n => released' s suf /\ n = 0 /\ sv_primary s = None /\ sv_failures s = [] /\
      (sv_ready s = true -> exists t, suf = t ++ farewell (sv_signal s) /\ released' s t)
  | Raise _ => released' s suf
  | OutOfFuel => True
  end.

Lemma released_app s t u : only ending_call u -> released' s t -> released' s (t ++ u).
Proof. intros Hu Hr. pose proof (released_quiet config fuel lib s (sv_stop s) t u Hu Hr) as H. by destruct s. Qed.

Lemma acts_conclude s t0 : released' s t0 -> acts conclude s (fun o s' t => service_post o s' (t0 ++ t)).
Proof.
  intros Hr. unfold conclude. apply acts_bind, acts_get.
  destruct (bool_decide (sv_failures s <> [])) eqn:Hf; [by apply acts_raise, released_app|]. bool_to_prop.
  assert (sv_failures s = []) as Hnil by by destruct (sv_failures s); [|destruct Hf].
  destruct (sv_primary s) as [e|] eqn:Hp; [by apply acts_raise, released_app|].
  apply acts_bind. destruct (sv_ready s) eqn:Hready.
  - unfold event, diagnostic. apply acts_bind. acts_call; [intros []|intros e; apply released_app; [by repeat constructor|done]].
    acts_call; [intros []|intros e; apply released_app; [by repeat constructor|done]]. apply acts_ret.
    split_and!; try done; [apply released_app; [by repeat constructor|done]|]. intros _. exists t0. split; [|done].
    by rewrite !app_nil_r.
  - apply acts_ret, acts_ret. rewrite !app_nil_r. split_and!; try done. by rewrite Hready.
Qed.

Lemma acts_restore s t : released' s t -> acts (on_stop restore) s (fun _ s' t' => released' s' (t ++ t')).
Proof.
  intros Hr. apply acts_zoom. eapply acts_mono; [|apply (acts_of_emits handler_call), emits_restore].
  intros o g u Hu. apply released_quiet; [|done]. eapply only_mono; [|exact Hu]. by intros [].
Qed.

Lemma acts_run_service turns : acts (run_service config turns fuel) (new_service lib) service_post.
Proof.
  assert (forall e, service_post (Raise e) (new_service lib) []) as Hnothing by (intros e; by apply released_nothing).
  unfold run_service. apply acts_bind, acts_of_res. destruct (host_network_config config) as [network|e] eqn:Hnet; [|done].
  apply acts_bind, acts_of_res. destruct (endpoint_version _) as [version|e] eqn:Hver; [|done].
  apply acts_bind, acts_of_res. destruct (iptables_paths _ _) as [[[ip re] sa]|e] eqn:Hip; [|done].
  set (paths := {| tp_nft := "nft"; tp_iptables := ip; tp_restore := re; tp_save := sa |}).
  assert (service_network config network paths) as Hn by (split; [done|by exists version, ip, re, sa]).
  apply acts_bind, acts_of_res. destruct (new_shutdown_signals _) as [stop|e]; [|done].
  apply acts_bind, acts_modify, acts_bind, acts_zoom. cbn [app].
  eapply acts_mono; [|apply (acts_of_emits handler_call), emits_enter]. intros o g t Ht.
  set (s1 := set_stop g (set_stop stop (new_service lib))).
  assert (owns_nothing lib s1) as Hs1 by done.
  assert (released' s1 t) as Hr1 by by apply released_nothing.
  destruct o as [[]|e|]; [|done|done].
  apply acts_bind, acts_finally. eapply acts_mono; [|by apply (acts_run_unwound config fuel lib network paths Hn turns s1 t)].
  intros o s2 t2 [->|Hr2]; [done|]. destruct o as [[]|e|]; [| |done]; (eapply acts_mono; [|by apply (acts_restore _ (t ++ t2))]);
    intros o s3 t3 Hr3; cbn beta in Hr3; rewrite <- app_assoc in Hr3; destruct o as [[]|e'|]; try done.
  eapply acts_mono; [|apply (acts_conclude _ _ Hr3)]. intros o s4 t4. by rewrite <- !app_assoc.
Qed.

(** C1. The service always gives back what it took, once each and in order.
    Whenever a run ends, normally, by a signal or by an error at any point of
    start-up or service, its trace falls into the handlers' installation, the
    one acquisition of the host network, the service, and the clean-up.  The
    clean-up stops the hosted kernel by one call of [shutdown], on the runtime
    whose child the service started, whatever happened before; then, when the
    host network was acquired, it withdraws the steering of that lease, once,
    whatever the kernel's stop gave, and last closes its TUN descriptor, once,
    whatever the withdrawal gave.  No other part of the run stops the kernel or
    touches the firewall or a descriptor, every descriptor opened has been
    closed, and the failures of the clean-up are exactly those remembered.  A
    run that returns has status 0, no failure to report, and if it ever was
    ready ends by saying that it stopped cleanly, when all this is done. *)
Theorem run_service_unwinds turns tr :
  let '(o, s, tr') := run_service config turns fuel (new_service lib) tr in
  exists suf, tr' = tr ++ suf /\ service_post o s suf.
Proof.
  pose proof (acts_run_service turns tr) as H. unfold wp in H.
  by destruct (run_service config turns fuel (new_service lib) tr) as [[o s] tr'].
Qed.

End service_runs.

(** ** The exit status *)

(** What [main] prints of an error, and the trace of printing it. *)
Definition error_text (e : exn) : string := "tcpcc: error: " +:+ exn_str e.
Definition error_report (e : exn) : option string :=
  match e with
  | HostPreflightError report => Some (preflight_to_json report)
  | StaleOwnershipError report => Some (ownership_to_json report)
  | _ => None
  end.
Definition messages (e : exn) : list string := option_list (error_report e) ++ [error_text e].
Definition said (texts : list string) : trace := (fun text => Ev (CDiagnostic text) (Answer tt)) <$> texts.

(** What [main] does with an exception: an [Exception] is printed, and the status
    is 1, unless printing it fails; anything else is raised again. *)
Definition handled_post (e : exn) (o : outcome Z) (t : trace) : Prop :=
  if is_Exception e then
    (o = Ret 1 /\ t = said (messages e)) \/
    exists printed text rest x, messages e = printed ++ text :: rest /\
      t = said printed ++ [Ev (CDiagnostic text) (Fault x)] /\ o = Raise (Sys x)
  else o = Raise e /\ t = [].

Section exit_status.
Context `{E : Env} `{T : Strerror} `{SO : SetOrder}.

Definition only_reads (s : Service) (t : trace) (s' : Service) : Prop := s' = s /\ Forall (fun ev => reading (ev_call ev)) t.
#[local] Instance only_reads_rel : TraceRel only_reads.
Proof. split; [by split|]. intros s t s' t' s'' [-> H] [-> H']. split; [done|by apply Forall_app]. Qed.

Lemma acts_config namespace s :
  acts (config_from_namespace namespace) s (fun o s' t => only_reads s t s' /\ o <> OutOfFuel).
Proof.
  apply acts_ends; [|unfold config_from_namespace, validate_kernel_image, wrap_OSError, locate_image, read_image,
    check_program_header; ends].
  assert (forall c, reading c -> steps only_reads (perform c)) as Hc.
  { intros c Hc. apply steps_perform. intros s' r. split; [done|by constructor]. }
  revert s. change (steps only_reads (config_from_namespace namespace)).
  unfold config_from_namespace, validate_kernel_image, wrap_OSError, locate_image, read_image, check_program_header.
  steps; match goal with |- steps _ (perform ?c) => by apply (Hc c) end.
Qed.

Lemma acts_handler e s :
  acts (if is_Exception e then report_error e else raise e) s (fun o s' t => s' = s /\ handled_post e o t).
Proof.
  unfold handled_post. destruct (is_Exception e); [|by apply acts_raise]. unfold report_error, messages.
  assert (forall text, acts (perform (CDiagnostic text)) s (fun o s' t => s' = s /\
    ((o = Ret tt /\ t = said [text]) \/ exists x, o = Raise (Sys x) /\ t = [Ev (CDiagnostic text) (Fault x)]))) as Hsay.
  { intros text. acts_call; [intros []|intros x]; (split; [done|]); [by left|right; by exists x]. }
  assert (acts (match e with
       | HostPreflightError report => perform (CDiagnostic (preflight_to_json report))
       | StaleOwnershipError report => perform (CDiagnostic (ownership_to_json report))
       | _ => mret tt end) s (fun o s' t => s' = s /\ ((o = Ret tt /\ t = said (option_list (error_report e))) \/
         exists text x, error_report e = Some text /\ o = Raise (Sys x) /\ t = [Ev (CDiagnostic text) (Fault x)]))) as Hreport.
  { destruct e; try (apply acts_ret; split; [done|]; by left); (eapply acts_mono; [|apply Hsay]);
      intros o s' t [-> [H|[x H]]]; (split; [done|]); [by left|right; by eexists _, x|by left|right; by eexists _, x]. }
  apply acts_bind. eapply acts_mono; [|exact Hreport]. intros o s' t [-> [[-> ->]|(text & x & Hr & -> & ->)]].
  2: { split; [done|]. right. exists [], text, [error_text e], x. by rewrite Hr. }
  apply acts_bind. eapply acts_mono; [|apply Hsay]. intros o s' t [-> [[-> ->]|(x & -> & ->)]].
  - apply acts_ret. split; [done|]. left. split; [done|]. unfold said. by rewrite app_nil_r, fmap_app.
  - split; [done|]. right. by exists (option_list (error_report e)), (error_text e), [], x.
Qed.

(** How the run with a namespace ends, in terms of its configuration and its
    service. *)
Definition namespace_post (turns fuel : nat) (namespace : Namespace) (lib : LibState) (tr : trace)
    (o : outcome Z) (s : Service) (t : trace) : Prop :=
  let '(oc, _, trc) := config_from_namespace namespace (new_service lib) tr in
  exists t1, trc = tr ++ t1 /\ only reading t1 /\
    match oc with
    | Ret config =>
        let '(o1, s1, tr1) := run_service config turns fuel (new_service lib) trc in
        exists t2, tr1 = trc ++ t2 /\ s = s1 /\ service_post config fuel lib o1 s1 t2 /\
          match o1 with
          | Ret n => n = 0 /\ o = Ret 0 /\ t = t1 ++ t2
          | Raise e => exists t3, t = t1 ++ t2 ++ t3 /\ handled_post e o t3
          | OutOfFuel => o = OutOfFuel
          end
    | Raise e => s = new_service lib /\ exists t3, t = t1 ++ t3 /\ handled_post e o t3
    | OutOfFuel => False
    end.

Lemma wp_run_namespace turns fuel namespace lib tr :
  wp (run_namespace turns fuel namespace)
    (fun o s tr' => exists t, tr' = tr ++ t /\ namespace_post turns fuel namespace lib tr o s t) (new_service lib) tr.
Proof.
  unfold namespace_post. pose proof (acts_config namespace (new_service lib) tr) as Hc. unfold wp in Hc.
  destruct (config_from_namespace namespace (new_service lib) tr) as [[oc sc] trc] eqn:Hcfg.
  destruct Hc as (t1 & -> & [-> Ht1] & Hoc).
  unfold run_namespace. apply wp_try, wp_bind, (wp_run _ _ _ _ _ _ _ Hcfg). destruct oc as [config|e|]; [| |done].
  - pose proof (acts_run_service config fuel lib turns (tr ++ t1)) as Hr. unfold wp in Hr.
    destruct (run_service config turns fuel (new_service lib) (tr ++ t1)) as [[o1 s1] tr1] eqn:Hrun.
    destruct Hr as (t2 & -> & Hpost). apply (wp_run _ _ _ _ _ _ _ Hrun). destruct o1 as [n|e|].
    + pose proof Hpost as (_ & -> & _). exists (t1 ++ t2). rewrite app_assoc. split; [done|]. exists t1. split_and!; try done.
      exists t2. by split_and!.
    + eapply wp_of_acts; [apply acts_handler|]. intros o s t3 [-> Ht3].
      exists (t1 ++ t2 ++ t3). rewrite !app_assoc. split; [done|]. exists t1. split_and!; try done. exists t2. split_and!; try done.
      exists t3. by rewrite app_assoc.
    + exists (t1 ++ t2). rewrite app_assoc. split; [done|]. exists t1. split_and!; try done. by exists t2.
  - eapply wp_of_acts; [apply acts_handler|]. intros o s t3 [-> Ht3].
    exists (t1 ++ t3). rewrite app_assoc. split; [done|]. exists t1. split_and!; try done. by exists t3.
Qed.

Lemma acts_kernel_default this_file argv0 environ s :
  acts (kernel_default this_file argv0 environ) s (fun o s' t => only_reads s t s' /\ o <> OutOfFuel).
Proof.
  apply acts_ends; [|unfold kernel_default, path_exists; ends].
  assert (forall c, reading c -> steps only_reads (perform c)) as Hc.
  { intros c Hc. apply steps_perform. intros s' r. split; [done|by constructor]. }
  revert s. change (steps only_reads (kernel_default this_file argv0 environ)). unfold kernel_default, path_exists.
  steps; match goal with |- steps _ (perform ?c) => by apply (Hc c) end.
Qed.

(** C9. The exit status tells how the run ended.  Until the configuration is
    accepted nothing is done but looking for the kernel image and reading it.
    The parser exits with 0 for the help and 2 for a usage error, nothing having
    been touched, and no other exception comes out of it.  After that the run is
    the one of the service: the status is 0 exactly when it returned, with
    everything given back.  An error of the configuration or of the service that
    is an [Exception] gives status 1 once its messages are printed, the report of
    a refused host first and the error itself as the last thing of the run; only
    a failure to print them is raised instead.  Any other exception is raised
    again, with no message. *)
Theorem main_exit_status `{F : FloatText} turns fuel this_file argv0 environ argv lib tr :
  let '(ok, _, trk) := kernel_default this_file argv0 environ (new_service lib) tr in
  let '(o, s, tr') := main turns fuel this_file argv0 environ argv (new_service lib) tr in
  exists t1 t2, trk = tr ++ t1 /\ tr' = trk ++ t2 /\ Forall (fun ev => reading (ev_call ev)) t1 /\
    match ok with
    | Ret kernel =>
        match parse_args kernel argv with
        | Parsed namespace => legal namespace /\ namespace_post turns fuel namespace lib trk o s t2
        | Exit status => o = Raise (SystemExit status) /\ (status = 0 \/ status = 2) /\ s = new_service lib /\ t2 = []
        | Fails _ => False
        end
    | Raise e => o = Raise e /\ s = new_service lib /\ t2 = []
    | OutOfFuel => False
    end.
Proof.
  pose proof (acts_kernel_default this_file argv0 environ (new_service lib) tr) as Hk. unfold wp in Hk.
  unfold main, mbind, M_bind.
  destruct (kernel_default this_file argv0 environ (new_service lib) tr) as [[ok sk] trk].
  destruct Hk as (t1 & -> & [-> Ht1] & Hok). destruct ok as [kernel|e|]; [|exists t1, []; by rewrite app_nil_r|done].
  pose proof (parse_args_outcome kernel argv) as Hp. destruct (parse_args kernel argv) as [n|status|e]; [| |done].
  - pose proof (wp_run_namespace turns fuel n lib (tr ++ t1)) as Hr. unfold wp in Hr.
    destruct (run_namespace _ _ _ _ _) as [[o s] tr']. destruct Hr as (t2 & -> & Hr). by exists t1, t2.
  - exists t1, []. by rewrite app_nil_r.
Qed.

End exit_status.
