(* ===== verification/Handlers.v ===== *)
(** * Signal handlers over a whole run

    [run_service] installs its signal handlers around everything else it does;
    this file shows that nothing in between touches them, and so that every
    signal has its former handler again when the run is over. *)

From S2P Require Import Prelude PyStr Reports Py Effects Json Documents Struct IpAddr Control Journal Signals Preflight.
From S2P Require Import Tun Nft Iptables HostNetwork Config Runtime Connections Lifecycle Service.
Local Open Scope Z_scope.

Definition no_handler (c : call) : Prop := match c with CSignal _ _ => False | _ => True end.
Abbreviation unhandled := (Forall (fun ev => no_handler (ev_call ev))).

(** Neither handlers nor looks for a signal. *)
Definition calm (c : call) : Prop := match c with CSignal _ _ | CPendingSignals | CStopWait _ => False | _ => True end.
Abbreviation calm_trace := (Forall (fun ev => calm (ev_call ev))).

Lemma calm_no_handler c : calm c -> no_handler c.
Proof. by destruct c. Qed.

Lemma passive_calm c : passive c -> calm c.
Proof. by destruct c. Qed.
Lemma runtime_calm c : runtime_call c -> calm c.
Proof. by destruct c. Qed.

Section handlers.
Context `{E : Env}.

(** ** The host network *)

(** The transport of an installed lease leaves signals alone. *)
Definition lease_quiet (w : world) : Prop :=
  forall l, w_dnat w = Some (NftLease l) -> forall argv input, emits passive (nl_runner l argv input).
Definition host_quiet (js : HostState) : Prop := lease_quiet js.2.

Lemma keeps_on_world {A} (m : M world A) : keeps lease_quiet calm m -> keeps host_quiet calm (on_world m).
Proof. intros Hm [j w] Hw. apply acts_on_world. eapply acts_mono; [|by apply Hm]. by intros o w' t. Qed.

Lemma keeps_on_lib {A} (m : M LibState A) : emits passive m -> keeps host_quiet calm (on_lib m).
Proof.
  intros Hm. apply keeps_on_world. apply (keeps_zoom _ _ _ _ (fun _ => True)); try done.
  apply keeps_emits; [|done]. eapply emits_mono; [apply passive_calm|done].
Qed.

Lemma keeps_run_callback c : keeps lease_quiet calm (run_callback c).
Proof.
  intros w Hw. unfold run_callback. apply acts_bind, acts_get. destruct c.
  - destruct (w_tun w) as [q|]; [|by apply acts_ret]. apply acts_bind, acts_with_state.
    eapply acts_mono; [|apply (acts_of_emits calm); unfold tun_queue_close; emits].
    intros o q' t Ht. apply acts_bind, acts_modify, acts_of_outcome. by rewrite app_nil_r.
  - destruct (w_dnat w) as [[l|l]|] eqn:Hd; [| |by apply acts_ret]; apply acts_bind, acts_with_state.
    + unfold nft_lease_close. specialize (Hw l Hd).
      assert (acts (S := NftDnatLease * LibState) ('(l, _) ← get_state; if nl_closed l then mret tt else
        _ ← modify (fun st => (set_nl_closed st.1, st.2)); zoom snd (fun lib st => (st.1, lib))
          (nl_runner l [nl_nft_path l; "delete"; "table"; nl_table_family l; nl_table_name l] None)) (l, w_lib w)
        (fun _ st t => nl_runner st.1 = nl_runner l /\ calm_trace t)) as Hclose.
      { apply acts_bind, acts_get. destruct (nl_closed l); [by apply acts_ret|]. apply acts_bind, acts_modify, acts_zoom.
        eapply acts_mono; [|apply (acts_of_emits passive), Hw]. intros o lib t Ht. split; [done|].
        eapply Forall_impl; [exact Ht|]. intros ev. apply passive_calm. }
      eapply acts_mono; [|exact Hclose]. intros o [l' lib'] t [Hl Ht]. apply acts_bind, acts_modify, acts_of_outcome.
      rewrite app_nil_r. split; [|done]. intros l2 [= <-] argv input. cbn in Hl. rewrite Hl. apply Hw.
    + eapply acts_mono; [|apply (acts_of_emits calm); unfold iptables_lease_close; emits].
      intros o l' t Ht. apply acts_bind, acts_modify, acts_of_outcome. rewrite app_nil_r. by split.
Qed.

Lemma keeps_journal_close : keeps host_quiet calm journal_close.
Proof.
  intros [j w] Hw. unfold journal_close, close. apply acts_bind, acts_get. destruct (j_closed j); [by apply acts_ret|].
  apply acts_bind, acts_put.
  assert (keeps host_quiet calm (failures ← collect (reverse (j_entries j)) (fun e =>
      r ← attempt (on_owner (run_callback e.2)); mret (pair e.1 <$> r));
    if bool_decide (failures = []) then mret tt else raise (CleanupError failures))) as Hc.
  { keeps. apply keeps_on_world, keeps_run_callback. }
  by apply Hc.
Qed.

Lemma keeps_register label c : keeps host_quiet calm (register_resource label c).
Proof.
  unfold register_resource. apply keeps_try; [|intros e; unfold rollback_unregistered_resource; keeps].
  - intros [j w] Hw. unfold defer. apply acts_bind, acts_get. destruct (j_closed j); [by apply acts_raise|].
    destruct (str_empty label); [by apply acts_raise|]. by apply acts_put.
  - apply keeps_on_world, keeps_run_callback.
  - apply keeps_journal_close.
Qed.

Lemma emits_create_tun_queue {S} config path ip attempts :
  emits calm (create_tun_queue config path ip attempts : M S TunQueue).
Proof.
  assert (forall ip path generated n total, emits calm (tun_attempts config ip path generated n total : M S TunQueue)) as Hn.
  { intros ip' path' generated n total. induction n as [|n IH]; cbn [tun_attempts];
      unfold new_tun_name, tun_setup, close_after_setup_error, run_command; emits. }
  unfold create_tun_queue. emits.
Qed.

Lemma keeps_install {A} f config own (k : FirewallDnatLease -> M HostState A) :
  firewall_good f -> (forall d, keeps host_quiet calm (k d)) ->
  keeps host_quiet calm (dnat ← on_lib (install f config own); _ ← on_world (modify (set_dnat dnat)); k dnat).
Proof.
  intros Hf Hk [j w] Hw. apply acts_bind, acts_on_world, acts_zoom.
  eapply acts_mono; [|apply acts_emits; [by apply acts_install|by apply emits_install]].
  intros o lib t [(_ & _ & _ & Hd) Ht]. assert (calm_trace t) as Hun.
  { eapply Forall_impl; [exact Ht|]. intros ev. apply passive_calm. }
  destruct o as [d|e|]; [|by split|by split]. apply acts_bind, acts_on_world, acts_modify.
  eapply acts_mono; [|apply Hk]; [|intros l [= ->]].
  - intros o js t' [? ?]. split; [done|by apply Forall_app].
  - destruct (Hd _ eq_refl) as (_ & _ & b & _ & [Hrun _] & Hl). destruct Hl as (_ & _ & Hr & _). intros argv input. by rewrite Hr.
Qed.

Lemma keeps_acquire_resources config f : firewall_good f -> keeps host_quiet calm (acquire_resources config f).
Proof.
  intros Hf. unfold acquire_resources. apply keeps_bind; [|intros tun].
  { apply keeps_on_world. eapply keeps_does; [apply create_tun_queue_post|apply emits_create_tun_queue]. }
  apply keeps_bind; [by apply keeps_on_world, keeps_modify|intros _]. apply keeps_bind; [apply keeps_register|intros _].
  apply keeps_bind; [|intros owner; apply keeps_install; [done|]; intros d; keeps; apply keeps_register].
  intros js Hjs. eapply acts_mono; [|apply acts_emits; [apply acts_current_ownership|apply emits_current_nft_ownership]].
  intros o js' t [[_ ->] Ht]. split; [done|]. eapply Forall_impl; [exact Ht|]. intros ev. apply passive_calm.
Qed.

Lemma keeps_acquire config paths : keeps host_quiet calm (acquire_host_network config paths).
Proof.
  intros js Hjs. unfold acquire_host_network. apply acts_bind, acts_of_res.
  destruct (create_firewall_backend _ _ _) as [f|e] eqn:Hf; [|by split]. apply create_firewall_backend_good in Hf.
  match goal with |- acts ?m _ _ => assert (keeps host_quiet calm m) as Hm; [|by apply Hm] end.
  apply keeps_bind; [keeps|]. intros _. apply keeps_bind.
  { eapply keeps_does; [apply does_collect_preflight|]. eapply emits_mono; [|apply emits_preflight]. apply passive_calm. }
  intros preflight. keeps.
  - apply keeps_on_lib. by apply emits_inspect_ownership.
  - apply keeps_on_lib. by apply emits_check_compatibility.
  - by apply keeps_modify.
  - by apply keeps_acquire_resources.
  - unfold acquire_rollback. keeps; apply keeps_journal_close.
Qed.

End handlers.

(** ** The service *)

Section service_handlers.
Context `{E : Env} `{T : Strerror} `{SO : SetOrder} (config : ServiceConfig).

(** What the signal manager remembers, and the host network. *)
Definition same_handlers (g0 g : ShutdownSignals) : Prop :=
  handled g = handled g0 /\ previous g = previous g0 /\ installed g = installed g0.
Definition undisturbed (g0 : ShutdownSignals) (s : Service) : Prop := host_quiet (sv_host s) /\ same_handlers g0 (sv_stop s).

Lemma same_handlers_deliver g0 g l : same_handlers g0 g -> same_handlers g0 (fold_left (fun s n => request n s) l g).
Proof. destruct (requests_keep l g) as (H1 & H2 & H3). unfold same_handlers. by rewrite H1, H2, H3. Qed.

Lemma keeps_looks g0 :
  keeps (same_handlers g0) no_handler requested /\ keeps (same_handlers g0) no_handler first_signal /\
  forall timeout, keeps (same_handlers g0) no_handler (wait timeout).
Proof.
  assert (forall l, keeps (same_handlers g0) no_handler (deliver l)) as Hd.
  { intros l. apply keeps_modify. intros g. apply same_handlers_deliver. }
  unfold requested, first_signal, wait. split_and!; [| |intros timeout]; keeps; apply Hd.
Qed.

Lemma keeps_on_stop {A} g0 (m : M ShutdownSignals A) :
  keeps (same_handlers g0) no_handler m -> keeps (undisturbed g0) no_handler (on_stop m).
Proof. intros Hm. eapply keeps_zoom; [exact Hm|by intros s []|by intros s g []]. Qed.
Lemma keeps_on_host {A} g0 (m : M HostState A) :
  keeps host_quiet calm m -> keeps (undisturbed g0) no_handler (on_host m).
Proof.
  intros Hm. eapply (keeps_zoom _ _ _ _ host_quiet); [|by intros s []|by intros s js []].
  intros js Hjs. eapply acts_mono; [|by apply Hm]. intros o js' t [? Ht]. split; [done|].
  eapply Forall_impl; [exact Ht|]. intros ev. apply calm_no_handler.
Qed.
Lemma keeps_on_kernel {A} g0 (m : M Runtime A) :
  emits runtime_call m -> keeps (undisturbed g0) no_handler (on_kernel m).
Proof.
  intros Hm. eapply (keeps_zoom _ _ _ _ (fun _ => True)); try done. apply keeps_emits; [|done].
  eapply emits_mono; [intros c Hc; by apply calm_no_handler, runtime_calm|done].
Qed.

Lemma keeps_on_serving g0 turns fuel : keeps (undisturbed g0) no_handler (on_serving (serve config turns fuel)).
Proof.
  destruct (keeps_looks g0) as (Hreq & _ & Hwait). set (I := fun rg : Runtime * ShutdownSignals => same_handlers g0 rg.2).
  assert (forall (m : M ShutdownSignals bool), keeps (same_handlers g0) no_handler m -> keeps I no_handler (on_signals m)) as Hsig.
  { intros m Hm. by eapply keeps_zoom; [exact Hm|..]. }
  assert (keeps I no_handler (on_runtime (poll_once config fuel))) as Hpoll.
  { eapply (keeps_zoom _ _ _ _ (fun _ => True)); try done. apply keeps_emits; [|done].
    eapply emits_mono; [intros c Hc; by apply calm_no_handler, runtime_calm, working_runtime|apply emits_poll]. }
  assert (keeps I no_handler (serve config turns fuel)) as Hs.
  { induction turns as [|turns IH]; cbn [serve]; (apply keeps_bind; [by apply Hsig|]); intros []; [by apply keeps_ret| |by apply keeps_ret|].
    - apply keeps_nil. by eexists.
    - apply keeps_bind; [done|intros _]. apply keeps_bind; [by apply Hsig|done]. }
  eapply keeps_zoom; [exact Hs|by intros s []|by intros s [r g] []].
Qed.

Lemma keeps_set g0 f :
  (forall s, sv_host (f s) = sv_host s) -> (forall s, sv_stop (f s) = sv_stop s) -> keeps (undisturbed g0) no_handler (modify f).
Proof. intros Hh Hg. apply keeps_modify. intros s [H1 H2]. split; [by rewrite Hh|by rewrite Hg]. Qed.

Lemma keeps_emit g0 c : runtime_call c -> keeps (undisturbed g0) no_handler (perform c : M Service (ret c)).
Proof. intros Hc. apply keeps_perform, calm_no_handler, runtime_calm, Hc. Qed.

Lemma keeps_run_kernel g0 turns fuel : keeps (undisturbed g0) no_handler (run_kernel config turns fuel).
Proof.
  destruct (keeps_looks g0) as (Hreq & _ & _). unfold run_kernel, report_ready, lease_tun, lease_dnat, event, diagnostic. keeps.
  - by apply keeps_set.
  - eapply (keeps_zoom _ _ _ _ (fun _ => True)); try done. apply keeps_emits; [|done].
    eapply emits_mono; [|apply emits_start]. intros c. destruct c; try done. by intros [[]|[]].
  - by apply keeps_on_stop.
  - apply keeps_on_kernel. unfold kernel_ifindex. emits.
  - apply keeps_on_kernel. unfold kernel_pid. emits.
  - by apply keeps_set.
  - apply keeps_on_serving.
Qed.

Lemma keeps_run g0 turns fuel network paths :
  keeps (undisturbed g0) no_handler
    (try_finally (try_except (run_block config turns fuel network paths) run_failed) (unwind config fuel)).
Proof.
  destruct (keeps_looks g0) as (Hreq & Hsig & _). unfold run_block, run_failed, unwind, stop_one. keeps.
  all: try (by apply keeps_set); try (by apply keeps_on_stop).
  - apply keeps_on_host, keeps_acquire.
  - apply keeps_run_kernel.
  - apply keeps_on_kernel, emits_shutdown.
  - apply keeps_on_host, keeps_journal_close.
Qed.

Context (d0 : Z -> sig_handler) {L : SignalLaw E d0}.

(** How the handlers are found when a run is over: all as before, or the run
    ended in the failure of a call that was to put one back. *)
Definition handlers_post (tr : trace) (o : outcome Z) (s : Service) (tr' : trace) : Prop :=
  o = OutOfFuel \/
  (forall n, disposition d0 tr' n = disposition d0 tr n) /\
    (forall n, o = Ret n -> installed (sv_stop s) = false /\ previous (sv_stop s) = ∅) \/
  exists e, o = Raise e /\ not_put_back d0 tr e tr'.

Lemma wp_conclude tr0 s tr :
  installed (sv_stop s) = false -> previous (sv_stop s) = ∅ -> (forall n, disposition d0 tr n = disposition d0 tr0 n) ->
  wp conclude (handlers_post tr0) s tr.
Proof.
  intros Hi Hp Hd. eapply (wp_of_acts _ _ _ (fun _ s' t => s' = s /\ unhandled t)).
  - assert (keeps (fun s' => s' = s) no_handler conclude) as Hc by (unfold conclude, event, diagnostic; keeps). by apply Hc.
  - intros o s' t [-> Ht]. right; left. split; [intros n|done]. rewrite <- Hd. by rewrite disposition_quiet.
Qed.

(** C10. The signal handlers are those from before when a run is over, whatever
    the run did and however it ended: every signal has its former handler, or
    the run ended in the error of the very call of [signal.signal] that was to
    give a signal its former handler back. *)
Theorem run_service_restores_handlers turns fuel lib tr :
  let '(o, s, tr') := run_service config turns fuel (new_service lib) tr in handlers_post tr o s tr'.
Proof.
  enough (wp (run_service config turns fuel) (handlers_post tr) (new_service lib) tr) as H.
  { unfold wp in H. by destruct (run_service config turns fuel (new_service lib) tr) as [[o s] tr']. }
  assert (forall e, handlers_post tr (Raise e) (new_service lib) tr) as Hnothing by (intros e; right; left; by split).
  unfold run_service. apply wp_bind, wp_of_res. destruct (host_network_config config) as [network|e]; [|done].
  apply wp_bind, wp_of_res. destruct (endpoint_version _) as [version|e]; [|done].
  apply wp_bind, wp_of_res. destruct (iptables_paths _ _) as [[[ip re] sa]|e]; [|done].
  assert (new_shutdown_signals [SIGINT; SIGTERM] = Ok no_signals) as -> by done.
  apply wp_bind, wp_of_res, wp_bind, wp_modify, wp_bind, wp_zoom. cbn [sv_stop set_stop].
  eapply wp_mono; [|apply (wp_enter d0); [|done|done]].
  2: { apply (bool_decide_unpack _). by vm_compute. }
  intros [[]|e|] g tr1 Hent; [| |done].
  2: { destruct Hent as (_ & _ & [Hback|Hnot]); right; [by left|right; by exists e]. }
  destruct Hent as [_ Hent]. apply wp_bind, wp_finally. eapply wp_of_acts; [apply (keeps_run g)|].
  { split; [by intros l|by split_and!]. }
  intros o s2 t2 [[_ (H1 & H2 & H3)] Ht2].
  pose proof (wp_restore d0 tr _ _ (entered_quiet d0 tr g (sv_stop s2) tr1 t2 Hent H1 H2 H3 Ht2)) as Hr.
  assert (wp (on_stop restore) (fun o3 s3 tr3 => o3 <> OutOfFuel /\
    (installed (sv_stop s3) = false -> previous (sv_stop s3) = ∅ /\ forall n, disposition d0 tr3 n = disposition d0 tr n) /\
    match o3 with
    | Ret _ => installed (sv_stop s3) = false
    | Raise e => not_put_back d0 tr e tr3
    | OutOfFuel => False
    end) s2 (tr1 ++ t2)) as Hrestore by (apply wp_zoom; exact Hr).
  destruct o as [[]|e|]; [| |by left]; (eapply wp_mono; [|exact Hrestore]);
    intros [[]|e3|] s3 tr3 (Hf & Hback & Hok); try done; try (right; right; by exists e3).
  - destruct (Hback Hok) as [Hp Hd]. by apply wp_conclude.
  - destruct (Hback Hok) as [Hp Hd]. right; left. by split.
Qed.

End service_handlers.

(** ** Example *)

(** On a host where nothing but signals works the run fails in preflight, and
    its handlers are gone again. *)
Lemma run_service_restores_handlers_witness :
  let '(o, s, tr') := @run_service signal_host no_strerror sorted_order (sample_service 0) 1 1 (new_service None) [] in
  (exists e, o = Raise e) /\ CSignal SIGTERM OwnHandler ∈ ev_call <$> tr' /\
  disposition default_handlers tr' SIGTERM = default_handlers SIGTERM.
Proof.
  pose proof (@run_service_restores_handlers signal_host no_strerror sorted_order (sample_service 0) default_handlers
    signal_host_law 1 1 None []) as H.
  destruct (run_service _ _ _ _ _) as [[o s] tr'] eqn:Hrun. vm_compute in Hrun. injection Hrun as <- <- <-.
  split; [by eexists|]. split; [set_solver|]. destruct H as [H|[[H _]|(e & _ & t & n & x & Heq & _)]]; [discriminate H|exact (H SIGTERM)|].
  apply (f_equal last) in Heq. rewrite last_snoc in Heq. discriminate Heq.
Defined.
