(* ===== verification/Progress.v ===== *)
(** * A run ends

    The service runs until it is told to stop.  Once a stop is requested, and
    the host and the hosted kernel behave as a clock and a finite number of
    clients do, [run_service] comes to an end, whatever else fails. *)

From Stdlib Require Import QArith.QArith_base.
From S2P Require Import Prelude PyStr Reports Py Effects Json Documents Struct IpAddr Control Journal Signals Preflight.
From S2P Require Import Tun Nft Iptables HostNetwork Config Runtime Connections Lifecycle Service Handlers.
Local Open Scope Z_scope.

(** How often the program has looked for a request to stop, and the signals that
    were reported to it. *)
Definition is_look (ev : Effects.event) : bool :=
  match ev_call ev with CPendingSignals | CStopWait _ => true | _ => false end.
Definition looks (tr : trace) : nat := length (filter (fun ev => is_look ev = true) tr).

Definition ev_signals (ev : Effects.event) : list Z :=
  match ev with
  | Ev c r =>
      match c return reply (ret c) -> list Z with
      | CPendingSignals | CStopWait _ => fun r => match r with Answer l => l | Fault _ => [] end
      | _ => fun _ => []
      end r
  end.
Definition signals_seen (tr : trace) : list Z := concat (ev_signals <$> tr).

Lemma looks_app t u : looks (t ++ u) = (looks t + looks u)%nat.
Proof. unfold looks. by rewrite filter_app, length_app. Qed.
Lemma signals_seen_app t u : signals_seen (t ++ u) = signals_seen t ++ signals_seen u.
Proof. unfold signals_seen. by rewrite fmap_app, concat_app. Qed.
Lemma calm_looks t : calm_trace t -> looks t = 0%nat /\ signals_seen t = [].
Proof.
  induction 1 as [|[c r] t Hc _ [IH1 IH2]]; [done|]. change (Ev c r :: t) with ([Ev c r] ++ t).
  rewrite looks_app, signals_seen_app, IH1, IH2. by destruct c.
Qed.

Section progress.
Context `{E : Env} `{T : Strerror} `{SO : SetOrder} (config : ServiceConfig) (tr0 : trace).

(** A signal arrives by the time the program has looked [k] times since [tr0]:
    from then on it is pending until some look reports it, once. *)
Definition signal_pending (k : nat) : Prop := forall suf signums,
  (k <= looks suf)%nat -> signals_seen suf = [] -> env_reply (tr0 ++ suf) CPendingSignals = Answer signums -> signums <> [].

(** What was reported has been heard: the request is remembered. *)
Definition heard (g : ShutdownSignals) (suf : trace) : Prop := signals_seen suf = [] \/ event_set g = true.

Lemma heard_calm g t u : heard g t -> calm_trace u -> heard g (t ++ u).
Proof. intros [H|H] Hu; [left|by right]. destruct (calm_looks u Hu) as [_ H2]. by rewrite signals_seen_app, H, H2. Qed.

Lemma heard_deliver g t l c r :
  heard g t -> ev_signals (Ev c r) = l -> heard (fold_left (fun s n => request n s) l g) (t ++ [Ev c r]).
Proof.
  intros Hg <-. destruct (request_first (ev_signals (Ev c r)) g) as (_ & Hset & _). unfold heard. rewrite Hset, signals_seen_app.
  destruct Hg as [->| ->]; [|by right]. unfold signals_seen. cbn [fmap list_fmap concat]. rewrite app_nil_r.
  destruct (ev_signals (Ev c r)); [by left|right]. by rewrite orb_true_r.
Qed.

Lemma wp_requested k g suf (Q : outcome bool -> ShutdownSignals -> trace -> Prop) :
  signal_pending k -> heard g suf ->
  (forall o g' u, looks u = 1%nat -> heard g' (suf ++ u) -> o <> OutOfFuel -> (o = Ret false -> (looks suf < k)%nat) ->
     Q o g' (tr0 ++ suf ++ u)) ->
  wp requested Q g (tr0 ++ suf).
Proof.
  intros Hk Hg HQ. unfold requested. apply wp_bind. wp_call; [intros l Hl|intros e _]; rewrite <- app_assoc.
  2: { apply HQ; try done. destruct Hg as [Hg|Hg]; [left; by rewrite signals_seen_app, Hg|by right]. }
  apply wp_bind, wp_modify, wp_bind, wp_get, wp_ret. apply HQ; [done|by apply heard_deliver|done|]. intros [= Hset].
  destruct (decide (looks suf < k)%nat) as [?|Hge]; [done|]. exfalso. destruct (request_first l g) as (_ & Hs & _).
  rewrite Hs in Hset. apply orb_false_iff in Hset as [Hset Hl']. bool_to_prop. destruct Hg as [Hg|Hg]; [|congruence].
  by apply (Hk suf l); [lia|done|done|].
Qed.

Lemma wp_wait g suf timeout (Q : outcome bool -> ShutdownSignals -> trace -> Prop) :
  heard g suf ->
  (forall o g' u, looks u = 1%nat -> heard g' (suf ++ u) -> o <> OutOfFuel -> Q o g' (tr0 ++ suf ++ u)) ->
  wp (wait timeout) Q g (tr0 ++ suf).
Proof.
  intros Hg HQ. unfold wait. apply wp_bind. wp_call; [intros l Hl|intros e _]; rewrite <- app_assoc.
  - apply wp_bind, wp_modify, wp_bind, wp_get, wp_ret. apply HQ; [done|by apply heard_deliver|done].
  - apply HQ; try done. destruct Hg as [Hg|Hg]; [left; by rewrite signals_seen_app, Hg|by right].
Qed.

(** A fact about how a run ends, and the calls it adds to the trace. *)
Lemma wp_extends {S A} (C : call -> Prop) (m : M S A) s tr (P Q : outcome A -> S -> trace -> Prop) :
  wp m P s tr -> emits C m ->
  (forall o s' suf, P o s' (tr ++ suf) -> Forall (fun ev => C (ev_call ev)) suf -> Q o s' (tr ++ suf)) -> wp m Q s tr.
Proof.
  intros Hm He HQ. specialize (He s tr). unfold wp in *. destruct (m s tr) as [[o s'] tr'].
  destruct He as (suf & -> & Hsuf). by apply HQ.
Qed.

Lemma wp_serve n k turns fuel r g suf :
  arrivals_bounded n -> signal_pending k -> (n < fuel)%nat -> (k - looks suf < S turns)%nat -> heard g suf ->
  wp (serve config turns fuel) (fun o _ _ => o <> OutOfFuel) (r, g) (tr0 ++ suf).
Proof.
  intros Hn Hk Hfuel. revert r g suf. induction turns as [|turns IH]; intros r g suf Hturns Hg; cbn [serve];
    apply wp_bind; apply wp_zoom; apply (wp_requested k); try done; intros o g1 u Hu Hg1 Ho Hlt;
    (destruct o as [[]|e|]; [done| |done|done]); specialize (Hlt eq_refl); [lia|].
  apply wp_bind, wp_zoom. eapply wp_extends; [apply (wp_poll_once config n); [done|lia]|apply emits_poll|].
  intros o r2 u2 Ho2 Hu2. assert (calm_trace u2) as Hcalm.
  { eapply Forall_impl; [exact Hu2|]. intros ev Hev. by apply runtime_calm, working_runtime. }
  destruct (calm_looks u2 Hcalm) as [Hl2 _]. destruct o as [[]|e|]; [|done|done]. apply wp_bind, wp_zoom. rewrite <- !app_assoc.
  apply wp_wait; [rewrite app_assoc; by apply heard_calm|]. intros o g3 u3 Hu3 Hg3 Ho3. destruct o as [b|e|]; [|done|done].
  apply IH; [|done]. rewrite !looks_app. lia.
Qed.

(** ** The whole run *)

Lemma ends_restore_one m : ends (restore_one m).
Proof. unfold restore_one. ends. Qed.
Lemma ends_install_all signums done : ends (install_all signums done).
Proof. revert done. induction signums as [|m signums IH]; intros done; cbn [install_all]; ends. Qed.

Context (n k turns fuel : nat).
Context (Hn : arrivals_bounded n) (Hk : signal_pending k) (Htime : time_passes).
Context (Hfuel : (n < fuel)%nat) (Hturns : (k <= turns)%nat) (Hgrace : (grace config <= Z.of_nat fuel # 1000)%Q).

Lemma ends_first_signal : ends first_signal.
Proof. unfold first_signal, deliver. ends. Qed.

Lemma ends_start v : ends (start config v).
Proof. unfold start, start_process, start_listener, verify_cc, positive_handle. ends. Qed.
Lemma calm_start v : emits calm (start config v).
Proof. unfold start, start_process, start_listener, verify_cc, positive_handle, transact_with, channel_transact. emits. Qed.

Lemma ends_ready : ends (report_ready config).
Proof. unfold report_ready, lease_tun, lease_dnat, kernel_ifindex, kernel_pid, event, diagnostic, on_kernel. ends. Qed.
Lemma keeps_ready g : keeps (fun s => sv_stop s = g) calm (report_ready config).
Proof.
  assert (forall A (m : M Runtime A), emits calm m -> keeps (fun s => sv_stop s = g) calm (on_kernel m)) as Hkernel.
  { intros A m Hm. eapply (keeps_zoom _ _ _ _ (fun _ => True)); try done. by apply keeps_emits. }
  unfold report_ready, lease_tun, lease_dnat, event, diagnostic.
  keeps; apply Hkernel; unfold kernel_ifindex, kernel_pid; emits.
Qed.

Lemma wp_run_kernel s suf :
  heard (sv_stop s) suf -> wp (run_kernel config turns fuel) (fun o _ _ => o <> OutOfFuel) s (tr0 ++ suf).
Proof.
  intros Hg. unfold run_kernel, lease_tun. apply wp_bind, wp_modify, wp_bind, wp_bind, wp_get, wp_of_res.
  destruct (res_of_option _ _) as [tun|e]; [|done]. apply wp_bind, wp_of_res. destruct (tun_queue_fd tun) as [fd|e]; [|done].
  apply wp_bind, wp_zoom. eapply wp_extends; [apply ends_start|apply calm_start|]. intros o r u Ho Hu.
  destruct o as [[]|e|]; [|done|done]. apply wp_bind, wp_zoom. rewrite <- app_assoc. apply (wp_requested k); [done|by apply heard_calm|].
  intros o g u2 Hu2 Hg2 Ho2 Hlt. destruct o as [[]|e|]; [done| |done|done]. apply wp_bind.
  eapply (wp_extends (fun _ => True) _ _ _ (fun o s' tr' => o <> OutOfFuel /\ sv_stop s' = g /\ exists t,
    tr' = (tr0 ++ (suf ++ u) ++ u2) ++ t /\ calm_trace t)).
  { pose proof (ends_ready (set_stop g (set_runtime r (set_runtime new_runtime s))) (tr0 ++ (suf ++ u) ++ u2)) as He.
    pose proof (keeps_ready g (set_stop g (set_runtime r (set_runtime new_runtime s))) eq_refl (tr0 ++ (suf ++ u) ++ u2)) as Hkeep.
    unfold wp in *. destruct (report_ready config _ _) as [[o s'] tr']. destruct Hkeep as (t & -> & Hs & Ht).
    split_and!; try done. by exists t. }
  { unfold report_ready, lease_tun, lease_dnat, on_kernel, kernel_ifindex, kernel_pid, event, diagnostic. emits. }
  intros o s3 u3 (Ho3 & Hs3 & t & Ht & Hcalm) _. apply app_inv_head in Ht as ->. destruct o as [[]|e|]; [|done|done].
  apply wp_bind, wp_modify, wp_zoom. rewrite <- app_assoc. apply (wp_serve n k); try done; [lia|].
  cbn [sv_stop set_ready]. rewrite Hs3. by apply heard_calm.
Qed.

Lemma wp_run_block network paths j lib s suf :
  sv_host s = (j, fresh_world lib) -> heard (sv_stop s) suf ->
  wp (run_block config turns fuel network paths) (fun o _ _ => o <> OutOfFuel) s (tr0 ++ suf).
Proof.
  intros Hh Hg. unfold run_block. apply wp_bind, wp_zoom. rewrite Hh.
  eapply wp_of_acts; [apply acts_and; [apply acts_acquire|apply keeps_acquire; by intros l]|].
  intros o js u [Ho [_ Hu]]. destruct o as [lease|e|]; [|done|done]. clear Ho. apply wp_bind, wp_modify, wp_bind, wp_zoom.
  rewrite <- app_assoc. apply (wp_requested k); [done|by apply heard_calm|]. intros o g u2 Hu2 Hg2 Ho2 Hlt.
  destruct o as [stop|e|]; [|done|done]. apply wp_bind.
  assert (ends (n ← on_stop first_signal; modify (set_signal n))) as Hend by (pose proof ends_first_signal; unfold on_stop; ends).
  destruct stop; [apply wp_ret, Hend|]. eapply wp_mono; [|by apply wp_run_kernel].
  intros [[]|e|] s' tr' Ho; [apply Hend|done|done].
Qed.

(** Two judgements of one run. *)
Lemma wp_acts {S A} (m : M S A) s tr P Q (R : outcome A -> S -> trace -> Prop) :
  wp m P s tr -> acts m s Q -> (forall o s' suf, P o s' (tr ++ suf) -> Q o s' suf -> R o s' (tr ++ suf)) -> wp m R s tr.
Proof.
  intros Hm Ha HR. specialize (Ha tr). unfold wp in *. destruct (m s tr) as [[o s'] tr'].
  destruct Ha as (suf & -> & HQ). by apply HR.
Qed.

Context (lib : LibState) (network : HostNetworkConfig) (paths : tool_paths) (Hnet : service_network config network paths).

Lemma wp_unwind s t0 tr : in_block config lib network s t0 -> wp (unwind config fuel) (fun o _ _ => o <> OutOfFuel) s tr.
Proof.
  intros Hb. pose proof (ends_shutdown config fuel DEFAULT_KERNEL_SHUTDOWN_TIMEOUT Htime Hgrace) as Hsd.
  unfold unwind. apply wp_bind, wp_get, wp_bind. eapply wp_acts; [|apply (acts_unwind_kernel config fuel lib network s t0 Hb)|].
  { assert (ends (match sv_runtime s with
      | None => mret tt
      | Some _ => stop_one (on_kernel (shutdown config fuel DEFAULT_KERNEL_SHUTDOWN_TIMEOUT)) end)) as Hk1.
    { unfold stop_one, on_kernel. ends. }
    apply Hk1. }
  intros o s1 t Ho [->|[-> Hhalf]]; [done|]. apply wp_bind, wp_get.
  eapply wp_of_acts; [by apply (acts_unwind_host config fuel lib network s1 (t0 ++ t))|by intros o s2 t2 [-> _]].
Qed.

Lemma wp_run_unwound s te :
  owns_nothing lib s -> only handler_call te -> heard (sv_stop s) te ->
  wp (try_finally (try_except (run_block config turns fuel network paths) run_failed) (unwind config fuel))
    (fun o _ _ => o <> OutOfFuel) s (tr0 ++ te).
Proof.
  intros Hs Hte Hg. apply wp_finally, wp_try. pose proof Hs as [Hh _].
  eapply wp_acts; [by eapply wp_run_block|by apply (acts_run_block config fuel lib network paths Hnet turns s te)|].
  intros o s1 t1 Ho Hb1.
  destruct o as [[]|e|]; [| |done].
  - eapply wp_mono; [|by eapply wp_unwind]. by intros [] s2 tr2.
  - assert (ends (run_failed e)) as Hend by (pose proof ends_first_signal; unfold run_failed, on_stop; ends).
    eapply wp_acts; [apply Hend|apply (steps_run_failed config lib network)|]. intros o s2 t2 Ho2 Hb2. specialize (Hb2 _ Hb1).
    destruct o as [[]|e'|]; [| |done]; (eapply wp_mono; [|by eapply wp_unwind]); by intros [] s3 tr3.
Qed.

End progress.

Section ending.
Context `{E : Env} `{T : Strerror} `{SO : SetOrder} (config : ServiceConfig) (n k turns fuel : nat).

(** C2. A run ends once it is asked to.  When a signal is pending by the time
    the service has looked for one [k] times, until it is reported to it, even
    if never again; at most [n] connections arrive; and the clock is monotonic
    and shows that a join which timed out has taken its timeout: then [k] polls,
    more turns than connections and than the grace period has milliseconds are
    enough, and [run_service] returns or raises, whatever else the host and the
    hosted kernel do. *)
Theorem run_service_ends lib tr :
  arrivals_bounded n -> signal_pending tr k -> time_passes ->
  (n < fuel)%nat -> (k <= turns)%nat -> (grace config <= Z.of_nat fuel # 1000)%Q ->
  let '(o, _, _) := run_service config turns fuel (new_service lib) tr in o <> OutOfFuel.
Proof.
  intros Hn Hk Htime Hfuel Hturns Hgrace.
  enough (wp (run_service config turns fuel) (fun o _ _ => o <> OutOfFuel) (new_service lib) tr) as H.
  { unfold wp in H. by destruct (run_service config turns fuel (new_service lib) tr) as [[o s] tr']. }
  unfold run_service. apply wp_bind, wp_of_res. destruct (host_network_config config) as [network|e] eqn:Hnet; [|done].
  apply wp_bind, wp_of_res. destruct (endpoint_version _) as [version|e] eqn:Hver; [|done].
  apply wp_bind, wp_of_res. destruct (iptables_paths _ _) as [[[ip re] sa]|e] eqn:Hip; [|done].
  apply wp_bind, wp_of_res. destruct (new_shutdown_signals _) as [stop|e]; [|done].
  assert (ends enter) as Henter by (pose proof ends_restore_one; pose proof ends_install_all; unfold enter; ends).
  assert (ends conclude) as Hconc by (unfold conclude, event, diagnostic; ends).
  apply wp_bind, wp_modify, wp_bind, wp_zoom. eapply wp_extends; [apply Henter|apply emits_enter|].
  intros [[]|e|] g te Ho Hte; [|done|done]. apply wp_bind, wp_finally.
  assert (signals_seen te = []) as Hseen.
  { clear -Hte. induction Hte as [|[c r] te Hc _ IH]; [done|]. unfold signals_seen in *. cbn. rewrite IH. by destruct c. }
  eapply wp_mono; [|apply (wp_run_unwound config tr n k turns fuel Hn Hk Htime Hfuel Hturns Hgrace lib network _); [|done|done|by left]].
  2: { split; [done|]. by exists version, ip, re, sa. }
  assert (ends (on_stop restore)) as Hrest by (pose proof ends_restore_one; unfold on_stop, restore; ends).
  intros [[]|e|] s2 tr2 Ho2; [| |done]; (eapply wp_mono; [|apply Hrest]); intros [[]|e'|] s3 tr3 Ho3; try done.
Qed.

End ending.

(** ** A whole run *)

(** A host on which everything works, a hosted kernel to which one client
    connects, and a SIGTERM. *)
Definition sample_text (path : string) : string :=
  if bool_decide (path = "/proc/self/status") then "CapEff: 3fffffffff"
  else if bool_decide (path = "/proc/sys/net/ipv4/ip_forward") then "1"
  else if bool_decide (path = "/proc/42/stat") then "42 (tcpcc) S 1 1 1 0 -1 4 0 0 0 0 0 0 0 0 20 0 1 0 777 0"
  else "0".

Definition sample_kernel (tr : trace) (rq : control_request) : control_reply :=
  let op := rq_operation rq in
  if op =? OP_L3_ATTACH_IP then CtlReply 0 2 []
  else if op =? OP_SOCKET_IP then CtlReply 0 3 []
  else if op =? OP_GET_CC then CtlReply 0 0 (String.list_byte_of_string "bbr")
  else if op =? OP_ACCEPT_NONBLOCK then if (accepts tr <? 1)%nat then CtlReply 0 10 [] else CtlReply (- EAGAIN) 0 []
  else if op =? OP_BRIDGE_START then CtlReply 0 110 []
  else if op =? OP_BRIDGE_JOIN_RESULT then if (looks tr <? 4)%nat then CtlReply (- ETIMEDOUT) 0 [] else CtlReply (- ENOENT) 0 []
  else CtlReply 0 0 [].

Definition kernel_exit (tr : trace) : option Z :=
  if bool_decide ((OP_SHUTDOWN, 0) ∈ requests tr) then Some 0 else None.

Definition sample_host : Env := fun tr c =>
  match c return reply (ret c) with
  | CReadText path => Answer (sample_text path)
  | CStat _ => Answer {| st_mode := 0x2000; st_size := 0 |}
  | CAccess _ _ => Answer true
  | CWhich name => Answer (Some ("/usr/sbin/" +:+ name))
  | CRun _ _ => Answer (dumps (JObj [("nftables", JArr [])]))
  | CTokenHex n => Answer (if n =? 5 then "0123456789" else "0123456789ab")
  | COpen _ _ => Answer 5
  | CIoctl _ _ request => Answer request
  | CGetPid => Answer 42
  | CPopen _ _ => Answer {| po_pid := 77; po_stdin := true; po_stdout := true |}
  | CTransact rq => Answer (sample_kernel tr rq)
  | CPoll => Answer (kernel_exit tr)
  | CWait _ => Answer 0
  | CClock => Answer (default 0%Q (elapsed tr))
  | CSignal signum _ => Answer (disposition default_handlers tr signum)
  | CPendingSignals => Answer (if (looks tr <? 4)%nat || negb (bool_decide (signals_seen tr = [])) then [] else [SIGTERM])
  | CStopWait _ => Answer []
  | CClose _ | CTerminate | CKill | CClosePipe _ | CEmit _ | CDiagnostic _ => Answer tt
  | _ => Fault (SRuntimeError "not available")
  end.

Definition exec_service : ServiceConfig := {|
  listen := {| address := "192.0.2.10"; port := 443 |}; backend := {| address := "127.0.0.1"; port := 8080 |};
  cc := "bbr"; kernel := "vmlinux"; memory_mib := 128; firewall_backend := "nft-exec"; iptables_variant := "iptables";
  tun_name := None; tun_host_address := "198.18.0.1"; tun_guest_address := "198.18.0.2"; backlog := 128;
  max_connections := 0; shutdown_grace_period := VFloat 5; poll_interval := VFloat (1 # 100) |}.

(** The names of the events written to standard output. *)
Definition emitted (tr : trace) : list string :=
  omap (fun ev => match ev_call ev with
                  | CEmit (JObj fields) => match dict_get "event" fields with Some (JStr name) => Some name | _ => None end
                  | _ => None
                  end) tr.

(** The one signal is reported once: the run comes up, bridges the client, drains
    it and stops. *)
Lemma run_service_ends_witness :
  let '(o, _, tr') := @run_service sample_host no_strerror sorted_order exec_service 4 5000 (new_service None) [] in
  o <> OutOfFuel /\ o = Ret 0 /\
  emitted tr' = ["ready"; "connection-opened"; "draining"; "connection-closed"; "stopped"] /\
  opened tr' = [5] /\ closed tr' = [5] /\ signals_seen tr' = [SIGTERM].
Proof.
  assert (@arrivals_bounded sample_host 1) as Hn.
  { intros tr rq h d Hop Hr. cbn in Hr. unfold sample_kernel in Hr. rewrite Hop in Hr. cbn in Hr.
    destruct (accepts tr) eqn:Ha; [lia|]. cbn in Hr. injection Hr as Hst _ _. discriminate Hst. }
  assert (@signal_pending sample_host [] 4) as Hk.
  { intros tr l Hle Hs Hr. change (Answer (if (looks tr <? 4)%nat || negb (bool_decide (signals_seen tr = [])) then [] else [SIGTERM])
      = Answer l) in Hr. injection Hr as <-. rewrite Hs. rewrite (proj2 (Nat.ltb_ge _ _) Hle). intros Hx; discriminate Hx. }
  assert (@time_passes sample_host) as Htime.
  { intros tr e q He Hq. cbn in Hq. rewrite He in Hq. injection Hq as <-. apply Qle_refl. }
  pose proof (@run_service_ends sample_host no_strerror sorted_order exec_service 1 4 4 5000 None [] Hn Hk Htime
    ltac:(lia) ltac:(lia) ltac:(apply Qle_bool_iff; vm_compute; reflexivity)) as H.
  destruct (run_service _ _ _ _ _) as [[o s'] tr'] eqn:Hrun. split; [exact H|].
  vm_compute in Hrun. injection Hrun as <- _ <-. vm_compute. repeat split.
Defined.
