(* ===== verification/Packets.v ===== *)
(** * Echo packets

    The IPv4 and ICMP packets of [scripts/run-tcpcc-control-test.py], which
    pings the hosted stack through its L3 device: the Internet checksum,
    building echo requests, recognising and validating replies, and the loop
    that waits for the replies of a burst.  What the device delivers before the
    deadline is a list of packets. *)

From S2P Require Import Prelude PyStr Reports Py Struct.
Local Open Scope Z_scope.

(** ** Packing in network order *)

(** [struct.pack("!...", ...)]: sizes with values. *)
Fixpoint pack_net (fs : list (nat * Z)) : res bytes :=
  match fs with
  | [] => Ok []
  | (n, z) :: fs => rest ← pack_net fs; if uint_fits n z then Ok (be_bytes n z ++ rest) else Err struct_error
  end.

(** One field of [struct.unpack_from("!...", packet)]. *)
Definition net_at (off n : nat) (packet : bytes) : Z := be_val (take n (drop off packet)).

(** ** Constants *)

Definition HOST_IPV4 : Z := 0x0A000001.
Definition GUEST_IPV4 : Z := 0x0A000002.
Definition BURST_PACKETS : Z := 32.
Definition SMALL_PACKET_SIZE : Z := 96.
Definition MTU_PACKET_SIZE : Z := 1500.
Definition MAX_IGNORED_L3_PACKETS : Z := 128.
Definition ICMP_IDENT : Z := 0x4D51.
Definition IPPROTO_ICMP : Z := 1.

(** ** The checksum *)

(** [struct.unpack(f"!{len(data) // 2}H", data)] *)
Fixpoint words (data : bytes) : list Z :=
  match data with
  | a :: b :: data => (256 * b2z a + b2z b) :: words data
  | _ => []
  end.
Fixpoint word_sum (ws : list Z) : Z := match ws with [] => 0 | w :: ws => w + word_sum ws end.
Definition even_data (data : bytes) : bytes := if Nat.odd (length data) then data ++ [Byte.x00] else data.
Definition fold_carry (total : Z) : Z := Z.land total 0xFFFF + Z.shiftr total 16.

Definition checksum (data : bytes) : Z :=
  let total := word_sum (words (even_data data)) in
  let total := fold_carry total in
  let total := fold_carry total in
  Z.land (Z.lnot total) 0xFFFF.

(** ** Requests *)

Definition echo_payload (sequence : Z) (payload_len : nat) : bytes :=
  map (fun index => z2b (Z.land (sequence * 29 + Z.of_nat index * 17 + 7) 0xFF)) (seq 0 payload_len).
Definition icmp_request (sum sequence : Z) (payload : bytes) : res bytes :=
  header ← pack_net [(1%nat, 8); (1%nat, 0); (2%nat, sum); (2%nat, ICMP_IDENT); (2%nat, sequence)];
  Ok (header ++ payload).
Definition ip_request (total_size sequence sum : Z) : res bytes :=
  pack_net [(1%nat, 0x45); (1%nat, 0); (2%nat, total_size); (2%nat, Z.land sequence 0xFFFF); (2%nat, 0x4000);
            (1%nat, 64); (1%nat, IPPROTO_ICMP); (2%nat, sum); (4%nat, HOST_IPV4); (4%nat, GUEST_IPV4)].

Definition build_echo_request (total_size sequence : Z) : res (bytes * bytes) :=
  _ ← raise_if (total_size <? 28) (ValueError "IPv4 ICMP packet is too small");
  let payload_len := Z.to_nat (total_size - 20 - 8) in
  let payload := echo_payload sequence payload_len in
  icmp ← icmp_request 0 sequence payload;
  let icmp_sum := checksum icmp in
  icmp ← icmp_request icmp_sum sequence payload;
  ip_header ← ip_request total_size sequence 0;
  let ip_sum := checksum ip_header in
  ip_header ← ip_request total_size sequence ip_sum;
  Ok (ip_header ++ icmp, payload).

(** ** Replies *)

(** [f"{value:02x}"] *)
Definition hex2 (z : Z) : string := let h := hex_of_Z z in if (String.length h <? 2)%nat then "0" +:+ h else h.
Definition byte_at (i : nat) (packet : bytes) : Z := from_option b2z 0 (packet !! i).
Definition ihl_of (packet : bytes) : nat := Z.to_nat (Z.land (byte_at 0 packet) 0x0F * 4).

Definition echo_reply_sequence (packet : bytes) : res (option Z) :=
  let len := length packet in
  _ ← raise_if (len <? 20)%nat (RuntimeError "received truncated L3 packet from tcpcc0");
  let version_ihl := byte_at 0 packet in
  let version := Z.shiftr version_ihl 4 in
  if version =? 6 then Ok None else
  _ ← raise_if (negb (version =? 4))
        (RuntimeError ("received invalid L3 packet from tcpcc0: first byte 0x" +:+ hex2 version_ihl));
  let ihl := ihl_of packet in
  _ ← raise_if ((ihl <? 20)%nat || (len <? ihl)%nat) (RuntimeError "received L3 packet with invalid IPv4 IHL");
  let total_len := net_at 2 2 packet in
  _ ← raise_if (negb (total_len =? Z.of_nat len))
        (RuntimeError ("received L3 packet with IPv4 length mismatch: " +:+ str_of_Z total_len +:+ " != "
                       +:+ str_of_Z (Z.of_nat len)));
  _ ← raise_if (negb (checksum (take ihl packet) =? 0)) (RuntimeError "received L3 packet with bad IPv4 checksum");
  if negb (byte_at 9 packet =? IPPROTO_ICMP) then Ok None else
  let icmp := drop ihl packet in
  _ ← raise_if (length icmp <? 8)%nat (RuntimeError "received truncated ICMP packet from tcpcc0");
  _ ← raise_if (negb (checksum icmp =? 0)) (RuntimeError "received ICMP packet with bad checksum");
  if negb ((net_at 0 1 icmp =? 0) && (net_at 1 1 icmp =? 0) && (net_at 4 2 icmp =? ICMP_IDENT)) then Ok None
  else Ok (Some (net_at 6 2 icmp)).

Definition validate_echo_reply (packet : bytes) (sequence : Z) (payload : bytes) : res unit :=
  let len := length packet in
  let reply what := RuntimeError ("ICMP reply " +:+ str_of_Z sequence +:+ what) in
  _ ← raise_if (len <? 28)%nat (reply " is truncated");
  let version_ihl := byte_at 0 packet in
  _ ← raise_if (negb (Z.shiftr version_ihl 4 =? 4)) (reply " is not IPv4");
  let ihl := ihl_of packet in
  _ ← raise_if ((ihl <? 20)%nat || (len <? ihl + 8)%nat) (reply " has invalid IHL");
  let total_len := net_at 2 2 packet in
  _ ← raise_if (negb (total_len =? Z.of_nat len))
        (reply (" length mismatch: " +:+ str_of_Z total_len +:+ " != " +:+ str_of_Z (Z.of_nat len)));
  _ ← raise_if (negb (checksum (take ihl packet) =? 0)) (reply " has bad IPv4 checksum");
  let protocol := byte_at 9 packet in
  let src := net_at 12 4 packet in
  let dst := net_at 16 4 packet in
  _ ← raise_if (negb (protocol =? IPPROTO_ICMP) || negb (src =? GUEST_IPV4) || negb (dst =? HOST_IPV4))
        (reply " has wrong L3 endpoints");
  let icmp := drop ihl packet in
  _ ← raise_if (negb (checksum icmp =? 0)) (reply " has bad ICMP checksum");
  _ ← raise_if (negb ((net_at 0 1 icmp =? 0) && (net_at 1 1 icmp =? 0) && (net_at 4 2 icmp =? ICMP_IDENT)
                      && (net_at 6 2 icmp =? sequence))) (reply " header mismatch");
  raise_if (negb (bool_decide (drop 8 icmp = payload))) (reply " payload mismatch").

(** ** The burst of [exercise_l3] *)

(** The requests: those of the burst, and one of the size of the MTU. *)
Definition burst_sizes : list (Z * Z) :=
  map (fun i => (Z.of_nat i, SMALL_PACKET_SIZE)) (seq 1 (Z.to_nat BURST_PACKETS)) ++ [(BURST_PACKETS + 1, MTU_PACKET_SIZE)].
Fixpoint build_burst (sizes : list (Z * Z)) (expected : gmap Z bytes) : res (list bytes * gmap Z bytes) :=
  match sizes with
  | [] => Ok ([], expected)
  | (sequence, size) :: sizes =>
      '(packet, payload) ← build_echo_request size sequence;
      '(packets, expected) ← build_burst sizes (<[sequence := payload]> expected);
      Ok (packet :: packets, expected)
  end.

(** The loop over the packets received before the deadline; [timeout] is the
    exception after them, of the loop or of [recv]. *)
Fixpoint await_replies (timeout : exn) (expected : gmap Z bytes) (received : list bytes) (seen : gset Z) (ignored : Z) : res (gset Z) :=
  if (size expected <=? size seen)%nat then Ok seen
  else
    match received with
    | [] => Err timeout
    | reply :: received =>
        o ← echo_reply_sequence reply;
        match o with
        | None =>
            let ignored := ignored + 1 in
            _ ← raise_if (MAX_IGNORED_L3_PACKETS <? ignored)
                  (RuntimeError ("too many unrelated L3 packets from tcpcc0 (" +:+ str_of_Z ignored +:+ ")"));
            await_replies timeout expected received seen ignored
        | Some sequence =>
            match expected !! sequence with
            | None => Err (RuntimeError ("unexpected ICMP echo-reply sequence " +:+ str_of_Z sequence))
            | Some payload =>
                _ ← raise_if (bool_decide (sequence ∈ seen))
                      (RuntimeError ("duplicate ICMP sequence " +:+ str_of_Z sequence));
                _ ← validate_echo_reply reply sequence payload;
                await_replies timeout expected received ({[sequence]} ∪ seen) ignored
            end
        end
    end.

(** ** The Internet checksum *)

Lemma fold_carry_spec t : fold_carry t = t mod 65536 + t / 65536.
Proof.
  unfold fold_carry. change 0xFFFF with (Z.ones 16). by rewrite Z.land_ones, Z.shiftr_div_pow2 by lia.
Qed.

Lemma fold_carry_mod t : fold_carry t mod 65535 = t mod 65535.
Proof.
  rewrite fold_carry_spec. rewrite (Z.div_mod t 65536) at 3 by lia.
  replace (65536 * (t / 65536) + t mod 65536) with (t mod 65536 + t / 65536 + (t / 65536) * 65535) by lia.
  by rewrite Z.mod_add.
Qed.

(** Two carries are enough for a sum of 32 bits. *)
Lemma fold_twice t :
  0 <= t < 2 ^ 32 -> let f := fold_carry (fold_carry t) in
  0 <= f <= 65535 /\ f mod 65535 = t mod 65535 /\ (f = 0 <-> t = 0).
Proof.
  intros Ht. cbn zeta. split_and!; [| |by rewrite !fold_carry_mod|].
  all: rewrite !fold_carry_spec; Z.to_euclidean_division_equations; nia.
Qed.

Lemma word_sum_range ws : Forall (fun w => 0 <= w <= 65535) ws -> 0 <= word_sum ws <= 65535 * Z.of_nat (length ws).
Proof. induction 1; cbn [word_sum length]; lia. Qed.

(** The sum of the words, byte by byte: bytes at even places count 256 times. *)
Fixpoint byte_sum (high : bool) (data : bytes) : Z :=
  match data with
  | [] => 0
  | b :: data => (if high then 256 else 1) * b2z b + byte_sum (negb high) data
  end.

Lemma data_sum data : word_sum (words (even_data data)) = byte_sum true data.
Proof.
  assert (forall n data, (length data <= n)%nat -> Nat.odd (length data) = false -> word_sum (words data) = byte_sum true data) as H.
  { induction n as [|n IH]; intros [|a [|b l]]; cbn [length]; try done; [lia|]. intros Hl Ho.
    cbn [words word_sum byte_sum negb]. rewrite IH; [lia|lia|done]. }
  assert (forall high l, byte_sum high (l ++ [Byte.x00]) = byte_sum high l) as H0.
  { intros high l. revert high. induction l as [|b l IH]; intros high; cbn; [by destruct high|by rewrite IH]. }
  unfold even_data. destruct (Nat.odd (length data)) eqn:Ho; [|by eapply H].
  rewrite (H (S (length data))), H0; rewrite ?length_app; cbn; try done; [lia|].
  rewrite Nat.add_1_r, Nat.odd_succ, <- Nat.negb_odd, Ho. done.
Qed.

Lemma byte_sum_app high a b :
  byte_sum high (a ++ b) = byte_sum high a + byte_sum (if Nat.odd (length a) then negb high else high) b.
Proof.
  revert high. induction a as [|x a IH]; intros high; cbn [app length byte_sum]; [done|].
  rewrite IH, Nat.odd_succ, <- Nat.negb_odd. destruct (Nat.odd (length a)), high; cbn [negb]; lia.
Qed.

Lemma byte_sum_range high data : 0 <= byte_sum high data <= 255 * 256 * Z.of_nat (length data).
Proof.
  revert high. induction data as [|b data IH]; intros high; cbn [byte_sum length]; [lia|].
  pose proof (b2z_range b). specialize (IH (negb high)). destruct high; lia.
Qed.

Lemma byte_sum_insert high i data x y :
  data !! i = Some x ->
  byte_sum high (<[i := y]> data) = byte_sum high data + (if xorb high (Nat.odd i) then 256 else 1) * (b2z y - b2z x).
Proof.
  revert high i. induction data as [|b data IH]; intros high [|i] Hx; cbn in Hx; try done.
  - simplify_eq. destruct high; cbn [insert list_insert byte_sum negb xorb Nat.odd Nat.even]; lia.
  - cbn [insert list_insert byte_sum]. change (list_insert i y data) with (<[i := y]> data). rewrite (IH _ i) by done.
    rewrite Nat.odd_succ, <- Nat.negb_odd. destruct high, (Nat.odd i); cbn [negb xorb]; lia.
Qed.

Lemma lnot16 f : 0 <= f <= 65535 -> Z.land (Z.lnot f) 0xFFFF = 65535 - f.
Proof.
  intros Hf. transitivity (Z.lnot f mod 2 ^ 16); [by apply (Z.land_ones _ 16)|]. unfold Z.lnot.
  symmetry. apply (Z.mod_unique_pos _ _ (-1)); change (2 ^ 16) with 65536; lia.
Qed.

(** What the checksum is, for anything that fits in a packet. *)
Lemma checksum_zero data :
  Z.of_nat (length data) <= 65535 -> checksum data = 0 <-> byte_sum true data mod 65535 = 0 /\ byte_sum true data <> 0.
Proof.
  intros Hl. unfold checksum. rewrite data_sum. pose proof (byte_sum_range true data).
  destruct (fold_twice (byte_sum true data)) as (Hr & Hm & H0); [lia|]. set (f := fold_carry _) in *.
  rewrite lnot16, <- Hm by done.
  Z.to_euclidean_division_equations; nia.
Qed.

Lemma checksum_range data : Z.of_nat (length data) <= 65535 ->
  0 <= checksum data <= 65535 /\ (checksum data + byte_sum true data) mod 65535 = 0 /\
  (byte_sum true data = 0 -> checksum data <> 0).
Proof.
  intros Hl. unfold checksum. rewrite data_sum. pose proof (byte_sum_range true data).
  destruct (fold_twice (byte_sum true data)) as (Hr & Hm & H0); [lia|]. set (f := fold_carry _) in *.
  rewrite lnot16 by done.
  split_and!; [lia|lia| |lia].
  rewrite <- Zplus_mod_idemp_r, <- Hm, Zplus_mod_idemp_r. by replace (65535 - f + f) with (1 * 65535) by lia.
Qed.

(** Putting the checksum where zeros were makes the data verify. *)
Lemma checksum_seals a b :
  Nat.odd (length a) = false -> Z.of_nat (length a + 2 + length b) <= 65535 ->
  checksum (a ++ be_bytes 2 (checksum (a ++ be_bytes 2 0 ++ b)) ++ b) = 0.
Proof.
  intros Ha Hl. set (c := checksum (a ++ be_bytes 2 0 ++ b)).
  destruct (checksum_range (a ++ be_bytes 2 0 ++ b)) as (Hc & Hm & H0); [rewrite !length_app, length_be_bytes; lia|].
  fold c in Hc, Hm, H0.
  assert (forall z, 0 <= z <= 65535 -> byte_sum true (a ++ be_bytes 2 z ++ b) = byte_sum true a + z + byte_sum true b) as Hs.
  { intros z Hz. rewrite !byte_sum_app, length_be_bytes, Ha. cbn [Nat.odd Nat.even negb].
    enough (byte_sum true (be_bytes 2 z) = z) by lia. unfold be_bytes. cbn. rewrite !b2z_z2b.
    Z.to_euclidean_division_equations; lia. }
  rewrite Hs in Hm, H0 by lia. apply checksum_zero; [rewrite !length_app, length_be_bytes; lia|].
  rewrite Hs by lia. pose proof (byte_sum_range true a). pose proof (byte_sum_range true b). split; [|lia].
  rewrite <- Hm. f_equal. lia.
Qed.

(** The checksum finds every damaged bit: when a packet verifies, flipping any
    one of its bits makes it fail. *)
Theorem checksum_detects data i b k :
  Z.of_nat (length data) <= 65535 -> checksum data = 0 -> data !! i = Some b -> 0 <= k < 8 ->
  checksum (<[i := z2b (Z.lxor (b2z b) (2 ^ k))]> data) <> 0.
Proof.
  intros Hl Hc Hi Hk Hc'. apply checksum_zero in Hc as [Hm _]; [|done].
  apply checksum_zero in Hc' as [Hm' _]; [|by rewrite length_insert]. rewrite (byte_sum_insert _ _ _ b) in Hm' by done.
  assert (b2z (z2b (Z.lxor (b2z b) (2 ^ k))) - b2z b = 2 ^ k \/ b2z (z2b (Z.lxor (b2z b) (2 ^ k))) - b2z b = - 2 ^ k) as Hd.
  { rewrite b2z_z2b. assert (k = 0 \/ k = 1 \/ k = 2 \/ k = 3 \/ k = 4 \/ k = 5 \/ k = 6 \/ k = 7) as Hks by lia.
    clear -Hks. unfold b2z. destruct Hks as [->|[->|[->|[->|[->|[->|[->| ->]]]]]]]; destruct b; vm_compute; auto. }
  assert (1 <= 2 ^ k <= 128) as Hp.
  { split; [apply (Z.pow_le_mono_r 2 0 k); lia|apply (Z.pow_le_mono_r 2 k 7); lia]. }
  destruct Hd as [Hd|Hd]; rewrite Hd in Hm'; clear Hd; destruct (xorb true (Nat.odd i)); Z.to_euclidean_division_equations; nia.
Qed.

(** ** What a packet is *)

(** An IPv4 packet between two hosts: the fields of its header, with options
    in words of four bytes, a checksum that verifies, and the ICMP message. *)
Definition ipv4_header (tos ident frag ttl sum options : bytes) (total src dst : Z) : bytes :=
  be_bytes 1 (0x45 + Z.of_nat (length options / 4)) ++ tos ++ be_bytes 2 total ++ ident ++ frag ++ ttl
  ++ be_bytes 1 IPPROTO_ICMP ++ sum ++ be_bytes 4 src ++ be_bytes 4 dst ++ options.
Definition icmp_datagram (src dst : Z) (icmp packet : bytes) : Prop :=
  exists tos ident frag ttl sum options,
    length tos = 1%nat /\ length ident = 2%nat /\ length frag = 2%nat /\ length ttl = 1%nat /\ length sum = 2%nat /\
    (length options <= 40)%nat /\ (length options mod 4 = 0)%nat /\
    let header := ipv4_header tos ident frag ttl sum options (Z.of_nat (length packet)) src dst in
    packet = header ++ icmp /\ Z.of_nat (length packet) <= 65535 /\ checksum header = 0.

(** An echo message of this program: 8 asks and 0 answers. *)
Definition echo_message (kind sequence : Z) (payload icmp : bytes) : Prop :=
  0 <= sequence <= 65535 /\ exists sum, length sum = 2%nat /\
    icmp = be_bytes 1 kind ++ be_bytes 1 0 ++ sum ++ be_bytes 2 ICMP_IDENT ++ be_bytes 2 sequence ++ payload /\
    checksum icmp = 0.

Lemma be_bytes_val l : be_bytes (length l) (be_val l) = l.
Proof. unfold be_bytes, be_val. by rewrite <- length_reverse, le_bytes_val, reverse_involutive. Qed.

Lemma be_val_range l : 0 <= be_val l < 2 ^ (8 * Z.of_nat (length l)).
Proof. unfold be_val. rewrite <- length_reverse. apply le_val_range. Qed.

Lemma slice_app {A} off n k (l : list A) : k = (off + n)%nat -> take n (drop off l) ++ drop k l = drop off l.
Proof. intros ->. rewrite <- drop_drop. by rewrite take_drop. Qed.

Lemma net_at_slice off n packet v :
  (off + n <= length packet)%nat -> net_at off n packet = v -> take n (drop off packet) = be_bytes n v.
Proof.
  intros Hl <-. unfold net_at. rewrite <- (be_bytes_val (take n (drop off packet))) at 1.
  by rewrite length_take, length_drop, Nat.min_l by lia.
Qed.

Lemma byte_at_net i packet : (i < length packet)%nat -> byte_at i packet = net_at i 1 packet.
Proof.
  intros Hi. unfold byte_at, net_at. destruct (lookup_lt_is_Some_2 packet i Hi) as [b Hb]. rewrite Hb.
  rewrite (drop_S packet b i Hb). cbn [take]. rewrite firstn_O. unfold be_val, reverse. cbn. lia.
Qed.

Lemma version_ihl b : 0 <= b < 256 -> Z.shiftr b 4 = 4 -> b = 0x40 + Z.land b 0x0F /\ 0 <= Z.land b 0x0F <= 15.
Proof.
  intros Hb Hv. assert (Z.land b 0x0F = b mod 16) as -> by by apply (Z.land_ones _ 4).
  rewrite Z.shiftr_div_pow2 in Hv by lia. change (2 ^ 4) with 16 in Hv. Z.to_euclidean_division_equations; lia.
Qed.

Lemma echo_message_parts kind sequence payload icmp :
  0 <= kind < 256 ->
  echo_message kind sequence payload icmp <->
  (8 <= length icmp)%nat /\ checksum icmp = 0 /\ net_at 0 1 icmp = kind /\ net_at 1 1 icmp = 0 /\
  net_at 4 2 icmp = ICMP_IDENT /\ net_at 6 2 icmp = sequence /\ drop 8 icmp = payload.
Proof.
  intros Hk. split.
  - intros (Hs & sum & Hl & -> & Hc). destruct sum as [|s1 [|s2 [|]]]; try done.
    split_and!; try done; [cbn; lia|..].
    + transitivity (kind mod 256); [apply (be_val_bytes 1)|by apply Z.mod_small].
    + transitivity (sequence mod 65536); [apply (be_val_bytes 2)|apply Z.mod_small; lia].
  - intros (Hl & Hc & H0 & H1 & H4 & H6 & <-). split.
    { rewrite <- H6. unfold net_at. pose proof (be_val_range (take 2 (drop 6 icmp))) as Hr.
      rewrite length_take, length_drop, Nat.min_l in Hr by lia. change (2 ^ (8 * Z.of_nat 2)) with 65536 in Hr. lia. }
    exists (take 2 (drop 2 icmp)). split_and!; [rewrite length_take, length_drop; lia| |done].
    rewrite <- (net_at_slice 0 1 icmp kind), <- (net_at_slice 1 1 icmp 0), <- (net_at_slice 4 2 icmp ICMP_IDENT),
      <- (net_at_slice 6 2 icmp sequence) by (done || lia).
    by rewrite (slice_app 6 2 8), (slice_app 4 2 6), (slice_app 2 2 4), (slice_app 1 1 2), (slice_app 0 1 1).
Qed.

Lemma ihl_of_header tos ident frag ttl sum options total src dst icmp :
  (length options <= 40)%nat -> (length options mod 4 = 0)%nat ->
  let packet := ipv4_header tos ident frag ttl sum options total src dst ++ icmp in
  Z.shiftr (byte_at 0 packet) 4 = 4 /\ ihl_of packet = (20 + length options)%nat.
Proof.
  intros H40 H4. cbn zeta. set (n := Z.of_nat (length options / 4)).
  pose proof (Nat.div_mod_eq (length options) 4) as Hd.
  assert (0 <= n <= 10) as Hn by lia.
  assert (byte_at 0 (ipv4_header tos ident frag ttl sum options total src dst ++ icmp) = 0x45 + n) as Hb.
  { transitivity ((0x45 + n) mod 256); [apply (b2z_z2b (0x45 + n))|apply Z.mod_small; lia]. }
  unfold ihl_of. rewrite Hb. assert (Z.land (0x45 + n) 0x0F = (0x45 + n) mod 16) as -> by by apply (Z.land_ones _ 4).
  rewrite Z.shiftr_div_pow2 by lia. change (2 ^ 4) with 16. subst n. split; Z.to_euclidean_division_equations; lia.
Qed.

Lemma length_1 {A} (l : list A) : length l = 1%nat -> exists a, l = [a].
Proof. destruct l as [|a []]; try done. eauto. Qed.
Lemma length_2 {A} (l : list A) : length l = 2%nat -> exists a b, l = [a; b].
Proof. destruct l as [|a [|b []]]; try done. eauto. Qed.

Lemma length_ipv4_header tos ident frag ttl sum options total src dst :
  length tos = 1%nat -> length ident = 2%nat -> length frag = 2%nat -> length ttl = 1%nat -> length sum = 2%nat ->
  length (ipv4_header tos ident frag ttl sum options total src dst) = (20 + length options)%nat.
Proof. intros. unfold ipv4_header. rewrite !length_app, !length_be_bytes. lia. Qed.

Lemma icmp_datagram_parts src dst icmp packet :
  0 <= src < 2 ^ 32 -> 0 <= dst < 2 ^ 32 -> (8 <= length icmp)%nat ->
  icmp_datagram src dst icmp packet ->
  let ihl := ihl_of packet in
  (28 <= length packet)%nat /\ Z.shiftr (byte_at 0 packet) 4 = 4 /\ (20 <= ihl)%nat /\ (ihl + 8 <= length packet)%nat /\
  net_at 2 2 packet = Z.of_nat (length packet) /\ checksum (take ihl packet) = 0 /\ byte_at 9 packet = IPPROTO_ICMP /\
  net_at 12 4 packet = src /\ net_at 16 4 packet = dst /\ drop ihl packet = icmp.
Proof.
  intros Hsrc Hdst Hi (tos & ident & frag & ttl & sum & options & Htos & Hident & Hfrag & Httl & Hsum & H40 & H4 & Hp & Hlen & Hc).
  cbn zeta. remember (Z.of_nat (length packet)) as total eqn:Htotal.
  destruct (ihl_of_header tos ident frag ttl sum options total src dst icmp H40 H4) as [Hv Hihl].
  pose proof (length_ipv4_header tos ident frag ttl sum options total src dst Htos Hident Hfrag Httl Hsum) as Hh.
  rewrite <- Hp in Hv, Hihl. assert (length packet = 20 + length options + length icmp)%nat as Hl
    by (rewrite Hp, length_app, Hh; lia).
  rewrite Hihl, Hv, <- Hh. split_and!; [lia|done|lia|lia| |..].
  2: { rewrite Hp, take_app_length. done. }
  5: { rewrite Hp, drop_app_length. done. }
  all: rewrite Hp; apply length_1 in Htos as [? ->], Httl as [? ->]; apply length_2 in Hident as (? & ? & ->),
    Hfrag as (? & ? & ->), Hsum as (? & ? & ->).
  - transitivity (total mod 65536); [apply (be_val_bytes 2)|apply Z.mod_small; lia].
  - done.
  - transitivity (src mod 2 ^ 32); [apply (be_val_bytes 4)|by apply Z.mod_small].
  - transitivity (dst mod 2 ^ 32); [apply (be_val_bytes 4)|by apply Z.mod_small].
Qed.

Lemma icmp_datagram_of_parts src dst packet :
  let ihl := ihl_of packet in
  (28 <= length packet)%nat -> Z.shiftr (byte_at 0 packet) 4 = 4 -> (20 <= ihl)%nat -> (ihl + 8 <= length packet)%nat ->
  net_at 2 2 packet = Z.of_nat (length packet) -> checksum (take ihl packet) = 0 -> byte_at 9 packet = IPPROTO_ICMP ->
  net_at 12 4 packet = src -> net_at 16 4 packet = dst -> icmp_datagram src dst (drop ihl packet) packet.
Proof.
  cbn zeta. intros Hl Hv Hihl Hihl' Ht Hc Hp Hs Hd.
  rewrite byte_at_net in Hv, Hp by lia. set (options := take (ihl_of packet - 20) (drop 20 packet)).
  assert (Z.of_nat (ihl_of packet) = 4 * Z.land (byte_at 0 packet) 0x0F /\ byte_at 0 packet = 0x40 + Z.land (byte_at 0 packet) 0x0F
    /\ 0 <= Z.land (byte_at 0 packet) 0x0F <= 15) as (Hi & Hb & Hr).
  { destruct (version_ihl (byte_at 0 packet)) as [? ?]; [|by rewrite byte_at_net by lia|].
    - rewrite byte_at_net by lia. pose proof (be_val_range (take 1 (drop 0 packet))) as H.
      rewrite length_take, length_drop, Nat.min_l in H by lia. exact H.
    - unfold ihl_of. lia. }
  assert (length options = ihl_of packet - 20)%nat as Ho by (unfold options; rewrite length_take, length_drop; lia).
  assert (0x45 + Z.of_nat (length options / 4) = byte_at 0 packet) as Hb0.
  { rewrite Ho, Hb. replace (ihl_of packet - 20)%nat with ((Z.to_nat (Z.land (byte_at 0 packet) 0x0F) - 5) * 4)%nat by lia.
    rewrite Nat.div_mul by done. lia. }
  exists (take 1 (drop 1 packet)), (take 2 (drop 4 packet)), (take 2 (drop 6 packet)), (take 1 (drop 8 packet)),
    (take 2 (drop 10 packet)), options.
  assert (take (ihl_of packet) packet = ipv4_header (take 1 (drop 1 packet)) (take 2 (drop 4 packet)) (take 2 (drop 6 packet))
    (take 1 (drop 8 packet)) (take 2 (drop 10 packet)) options (Z.of_nat (length packet)) src dst) as Hhead.
  { unfold ipv4_header. rewrite Hb0, byte_at_net by lia.
    rewrite <- (net_at_slice 0 1 packet _), <- (net_at_slice 2 2 packet _), <- (net_at_slice 9 1 packet _),
      <- (net_at_slice 12 4 packet _), <- (net_at_slice 16 4 packet _) by (done || lia).
    apply (app_inv_tail (drop (ihl_of packet) packet)). rewrite take_drop, <- !app_assoc. unfold options.
    rewrite (slice_app 20 _ (ihl_of packet)) by lia.
    by rewrite (slice_app 16 4 20), (slice_app 12 4 16), (slice_app 10 2 12), (slice_app 9 1 10), (slice_app 8 1 9),
      (slice_app 6 2 8), (slice_app 4 2 6), (slice_app 2 2 4), (slice_app 1 1 2), (slice_app 0 1 1). }
  cbn zeta. rewrite <- Hhead, take_drop. split_and!; rewrite ?length_take, ?length_drop; try done; try lia.
  - rewrite Ho. apply Nat.mod_divide; [done|]. exists (Z.to_nat (Z.land (byte_at 0 packet) 0x0F) - 5)%nat. lia.
  - rewrite <- Ht. pose proof (be_val_range (take 2 (drop 2 packet))) as H.
    rewrite length_take, length_drop, Nat.min_l in H by lia. change (2 ^ (8 * Z.of_nat 2)) with 65536 in H.
    unfold net_at. lia.
Qed.

(** A reply to the request of this sequence and payload. *)
Definition is_reply (packet : bytes) (sequence : Z) (payload : bytes) : Prop :=
  exists icmp, icmp_datagram GUEST_IPV4 HOST_IPV4 icmp packet /\ echo_message 0 sequence payload icmp.

Lemma echo_message_length kind sequence payload icmp : echo_message kind sequence payload icmp -> (8 <= length icmp)%nat.
Proof. intros (_ & sum & Hs & -> & _). rewrite !length_app, !length_be_bytes. lia. Qed.

Lemma validate_accepts packet sequence payload :
  validate_echo_reply packet sequence payload = Ok tt <-> is_reply packet sequence payload.
Proof.
  split.
  - unfold validate_echo_reply. intros H. res_inv. bool_to_prop. exists (drop (ihl_of packet) packet).
    assert (8 <= length (drop (ihl_of packet) packet))%nat by (rewrite length_drop; lia).
    split; [by apply icmp_datagram_of_parts; try lia|]. apply echo_message_parts; [lia|]. by split_and!.
  - intros (icmp & Hd & Hm). pose proof (echo_message_length _ _ _ _ Hm).
    destruct (icmp_datagram_parts GUEST_IPV4 HOST_IPV4 icmp packet) as (Hl & Hv & H20 & Hi & Ht & Hc & Hp & Hs & Hds & Hdr); try done.
    apply echo_message_parts in Hm as (_ & Hc' & H0 & H1 & H4 & H6 & H8); [|lia].
    unfold validate_echo_reply. rewrite Hdr, Hv, Ht, Hc, Hp, Hs, Hds, Hc', H0, H1, H4, H6, H8, !Z.eqb_refl.
    rewrite (proj2 (Nat.ltb_ge (length packet) 28)), (proj2 (Nat.ltb_ge (ihl_of packet) 20)),
      (proj2 (Nat.ltb_ge (length packet) (ihl_of packet + 8))) by lia.
    by rewrite bool_decide_eq_true_2.
Qed.

Lemma reply_recognised packet sequence payload :
  is_reply packet sequence payload -> echo_reply_sequence packet = Ok (Some sequence).
Proof.
  intros (icmp & Hd & Hm). pose proof (echo_message_length _ _ _ _ Hm).
  destruct (icmp_datagram_parts GUEST_IPV4 HOST_IPV4 icmp packet) as (Hl & Hv & H20 & Hi & Ht & Hc & Hp & Hs & Hds & Hdr); try done.
  apply echo_message_parts in Hm as (_ & Hc' & H0 & H1 & H4 & H6 & H8); [|lia].
  unfold echo_reply_sequence. rewrite Hdr, Hv, Ht, Hc, Hp, Hc', H0, H1, H4, H6, !Z.eqb_refl.
  rewrite (proj2 (Nat.ltb_ge (length packet) 20)), (proj2 (Nat.ltb_ge (ihl_of packet) 20)),
    (proj2 (Nat.ltb_ge (length packet) (ihl_of packet))), (proj2 (Nat.ltb_ge (length icmp) 8)) by lia. done.
Qed.

(** ** Requests *)

Lemma pack_net_ok fs : forallb (fun f => uint_fits f.1 f.2) fs = true -> pack_net fs = Ok (concat (map (fun f => be_bytes f.1 f.2) fs)).
Proof. induction fs as [|[n z] fs IH]; cbn; [done|]. intros [Hz Hfs]%andb_true_iff. by rewrite IH, Hz. Qed.
Lemma pack_net_err fs : forallb (fun f => uint_fits f.1 f.2) fs = false -> pack_net fs = Err struct_error.
Proof.
  induction fs as [|[n z] fs IH]; cbn; [done|]. intros H.
  destruct (forallb _ fs) eqn:Hfs; [|by rewrite IH]. rewrite pack_net_ok by done. cbn. by destruct (uint_fits n z).
Qed.

Lemma length_echo_payload sequence n : length (echo_payload sequence n) = n.
Proof. unfold echo_payload. by rewrite length_map, length_seq. Qed.

Lemma checksum_bound data : 0 <= checksum data <= 65535.
Proof.
  unfold checksum. set (t := Z.lnot _). assert (Z.land t 0xFFFF = t mod 65536) as -> by by apply (Z.land_ones _ 16).
  pose proof (Z.mod_pos_bound t 65536). lia.
Qed.

Lemma icmp_request_ok sum sequence payload :
  0 <= sum <= 65535 -> 0 <= sequence <= 65535 -> exists icmp, icmp_request sum sequence payload = Ok icmp.
Proof.
  intros Hsum Hs. unfold icmp_request. rewrite pack_net_ok; [by eexists|]. cbn [forallb fst snd]. unfold uint_fits.
  change (2 ^ (8 * Z.of_nat 2)) with 65536. rewrite !andb_true_iff. repeat split; lia.
Qed.

Lemma icmp_request_refused sum sequence payload :
  ~ 0 <= sequence <= 65535 -> icmp_request sum sequence payload = Err struct_error.
Proof.
  intros Hs. unfold icmp_request. rewrite pack_net_err; [done|]. cbn [forallb fst snd].
  assert (uint_fits 2 sequence = false) as ->; [|by rewrite !andb_false_r].
  unfold uint_fits. change (2 ^ (8 * Z.of_nat 2)) with 65536. apply andb_false_iff. lia.
Qed.

Lemma ip_request_too_long total sequence sum : 65535 < total -> ip_request total sequence sum = Err struct_error.
Proof.
  intros Ht. unfold ip_request. apply pack_net_err. cbn [forallb fst snd].
  assert (uint_fits 2 total = false) as ->; [|by rewrite !andb_false_r].
  unfold uint_fits. change (2 ^ (8 * Z.of_nat 2)) with 65536. apply andb_false_iff. lia.
Qed.

Lemma icmp_request_sealed sequence payload :
  0 <= sequence <= 65535 -> Z.of_nat (8 + length payload) <= 65535 ->
  exists icmp0 icmp, icmp_request 0 sequence payload = Ok icmp0 /\ icmp_request (checksum icmp0) sequence payload = Ok icmp /\
    length icmp = (8 + length payload)%nat /\ echo_message 8 sequence payload icmp.
Proof.
  intros Hs Hl. set (a := be_bytes 1 8 ++ be_bytes 1 0). set (b := be_bytes 2 ICMP_IDENT ++ be_bytes 2 sequence ++ payload).
  assert (forall sum, 0 <= sum <= 65535 -> icmp_request sum sequence payload = Ok (a ++ be_bytes 2 sum ++ b)) as Hr.
  { intros sum Hsum. unfold icmp_request. rewrite pack_net_ok; [cbn [concat map mbind res_bind fst snd]; subst a b; by rewrite app_nil_r, <- !app_assoc|].
    cbn [forallb fst snd]. unfold uint_fits. change (2 ^ (8 * Z.of_nat 2)) with 65536. rewrite !andb_true_iff. repeat split; lia. }
  assert (length (a ++ be_bytes 2 0 ++ b) = 8 + length payload)%nat as Hlen.
  { subst a b. rewrite !length_app, !length_be_bytes. lia. }
  destruct (checksum_range (a ++ be_bytes 2 0 ++ b)) as (Hc & _); [lia|].
  exists (a ++ be_bytes 2 0 ++ b), (a ++ be_bytes 2 (checksum (a ++ be_bytes 2 0 ++ b)) ++ b).
  split_and!; [by apply Hr|by apply Hr|rewrite <- Hlen, !length_app, !length_be_bytes; done|].
  split; [done|]. exists (be_bytes 2 (checksum (a ++ be_bytes 2 0 ++ b))).
  split_and!; [by rewrite length_be_bytes|by subst a b; rewrite <- !app_assoc|]. apply checksum_seals; [done|].
  subst a b. rewrite !length_app, !length_be_bytes in *. lia.
Qed.

Lemma ip_request_sealed total sequence icmp :
  28 <= total <= 65535 -> 0 <= sequence <= 65535 -> Z.of_nat (length icmp) = total - 20 ->
  exists ip0 ip, ip_request total sequence 0 = Ok ip0 /\ ip_request total sequence (checksum ip0) = Ok ip /\
    length ip = 20%nat /\ icmp_datagram HOST_IPV4 GUEST_IPV4 icmp (ip ++ icmp).
Proof.
  intros Ht Hs Hl. set (id := be_bytes 2 (Z.land sequence 0xFFFF)).
  set (a := be_bytes 1 0x45 ++ be_bytes 1 0 ++ be_bytes 2 total ++ id ++ be_bytes 2 0x4000 ++ be_bytes 1 64 ++ be_bytes 1 IPPROTO_ICMP).
  set (b := be_bytes 4 HOST_IPV4 ++ be_bytes 4 GUEST_IPV4).
  assert (Z.land sequence 0xFFFF = sequence) as Hid.
  { transitivity (sequence mod 65536); [by apply (Z.land_ones _ 16)|apply Z.mod_small; lia]. }
  assert (forall sum, 0 <= sum <= 65535 -> ip_request total sequence sum = Ok (a ++ be_bytes 2 sum ++ b)) as Hr.
  { intros sum Hsum. unfold ip_request. rewrite pack_net_ok; [cbn [concat map fst snd]; subst a b id; by rewrite app_nil_r, <- !app_assoc|].
    rewrite Hid. cbn [forallb fst snd]. unfold uint_fits. change (2 ^ (8 * Z.of_nat 2)) with 65536. rewrite !andb_true_iff. repeat split; lia. }
  assert (forall sum, length (a ++ be_bytes 2 sum ++ b) = 20)%nat as Hlen.
  { intros sum. subst a b id. rewrite !length_app, !length_be_bytes. lia. }
  destruct (checksum_range (a ++ be_bytes 2 0 ++ b)) as (Hc & _); [rewrite Hlen; lia|].
  exists (a ++ be_bytes 2 0 ++ b), (a ++ be_bytes 2 (checksum (a ++ be_bytes 2 0 ++ b)) ++ b).
  split_and!; [by apply Hr|by apply Hr|by rewrite Hlen|].
  exists (be_bytes 1 0), id, (be_bytes 2 0x4000), (be_bytes 1 64), (be_bytes 2 (checksum (a ++ be_bytes 2 0 ++ b))), [].
  rewrite length_app, Hlen. replace (Z.of_nat (20 + length icmp)) with total by lia.
  assert (ipv4_header (be_bytes 1 0) id (be_bytes 2 0x4000) (be_bytes 1 64) (be_bytes 2 (checksum (a ++ be_bytes 2 0 ++ b))) [] total
    HOST_IPV4 GUEST_IPV4 = a ++ be_bytes 2 (checksum (a ++ be_bytes 2 0 ++ b)) ++ b) as ->.
  { unfold ipv4_header. subst a b. by rewrite app_nil_r, <- !app_assoc. }
  cbn zeta. split_and!; try done; [cbn; lia|lia|]. apply checksum_seals; [by subst a id|]. specialize (Hlen 0).
  rewrite !length_app, length_be_bytes in Hlen. lia.
Qed.

(** The echo request is a correct packet.  For sizes from 28 bytes to the
    largest an IPv4 packet can have and 16-bit sequence numbers the result is a
    packet of exactly that size from the host to the guest, both checksums
    verifying, whose message asks for an echo of the returned payload; for
    everything else it raises. *)
Theorem build_echo_request_correct total_size sequence :
  match build_echo_request total_size sequence with
  | Ok (packet, payload) =>
      28 <= total_size <= 65535 /\ 0 <= sequence <= 65535 /\ Z.of_nat (length packet) = total_size /\
      payload = echo_payload sequence (Z.to_nat (total_size - 28)) /\
      exists icmp, icmp_datagram HOST_IPV4 GUEST_IPV4 icmp packet /\ echo_message 8 sequence payload icmp
  | Err e => total_size < 28 /\ is_ValueError e = true \/
             28 <= total_size /\ e = struct_error /\ ~ (total_size <= 65535 /\ 0 <= sequence <= 65535)
  end.
Proof.
  unfold build_echo_request. destruct (total_size <? 28) eqn:H28; cbn [raise_if mbind res_bind]; bool_to_prop; [by left|].
  replace (total_size - 20 - 8) with (total_size - 28) by lia.
  set (payload := echo_payload sequence (Z.to_nat (total_size - 28))).
  assert (length payload = Z.to_nat (total_size - 28)) as Hlen by apply length_echo_payload.
  destruct (decide (0 <= sequence <= 65535)) as [Hs|Hs].
  - destruct (decide (total_size <= 65535)) as [Ht|Ht].
    + destruct (icmp_request_sealed sequence payload Hs) as (icmp0 & icmp & -> & Hi & Hl & Hm); [lia|].
      destruct (ip_request_sealed total_size sequence icmp) as (ip0 & ip & H0 & H1 & Hl' & Hd); [lia..|].
      cbn [mbind res_bind]. rewrite Hi. cbn [mbind res_bind]. rewrite H0. cbn [mbind res_bind]. rewrite H1. cbn [mbind res_bind].
      split_and!; try lia; [rewrite length_app; lia|done|]. eauto.
    + destruct (icmp_request_ok 0 sequence payload) as [icmp0 ->]; [lia..|]. cbn [mbind res_bind].
      destruct (icmp_request_ok (checksum icmp0) sequence payload) as [icmp ->]; [apply checksum_bound|done|].
      cbn [mbind res_bind]. rewrite ip_request_too_long by lia. right. split_and!; try done. lia.
  - rewrite icmp_request_refused by done. right. split_and!; try done. lia.
Qed.

(** ** Waiting for the replies *)

(** Packets of which some answer a request, each another one, and the rest have
    nothing to do with them: the sequences answered and the number of others. *)
Inductive answers (expected : gmap Z bytes) : list bytes -> list Z -> Z -> Prop :=
  | answers_nil : answers expected [] [] 0
  | answers_other packet packets sequences others :
      echo_reply_sequence packet = Ok None -> answers expected packets sequences others ->
      answers expected (packet :: packets) sequences (others + 1)
  | answers_reply packet packets sequence sequences others payload :
      expected !! sequence = Some payload -> is_reply packet sequence payload -> sequence ∉ sequences ->
      answers expected packets sequences others ->
      answers expected (packet :: packets) (sequence :: sequences) others.

Section replies.
Context (timeout : exn) (expected : gmap Z bytes).

Lemma answers_facts packets sequences others :
  answers expected packets sequences others ->
  0 <= others /\ NoDup sequences /\ (list_to_set sequences : gset Z) ⊆ dom expected.
Proof.
  induction 1 as [|? ? ? ? _ _ (? & ? & ?)|? ? ? ? ? ? He _ Hn _ (? & ? & ?)]; [split_and!; [done|constructor|set_solver]|..].
  - split_and!; [lia|done..].
  - apply elem_of_dom_2 in He. split_and!; [done|by constructor|set_solver].
Qed.

(** What the loop has done when it returns. *)
Definition answered (received : list bytes) (seen seen' : gset Z) (ignored : Z) : Prop :=
  exists used rest sequences others,
    received = used ++ rest /\ answers expected used sequences others /\ ignored + others <= MAX_IGNORED_L3_PACKETS /\
    (forall s, s ∈ sequences -> s ∉ seen) /\ seen' = list_to_set sequences ∪ seen /\ seen' = dom expected.

Lemma all_seen (seen : gset Z) : seen ⊆ dom expected -> (size expected <=? size seen)%nat = true <-> seen = dom expected.
Proof.
  intros Hs. rewrite Nat.leb_le, <- size_dom. split; [|by intros ->]. by apply set_subseteq_size_eq.
Qed.

Lemma answered_bound received seen seen' ignored :
  answered received seen seen' ignored -> ignored <= MAX_IGNORED_L3_PACKETS.
Proof. intros (used & rest & qs & n & _ & Ha & Hn & _). apply answers_facts in Ha as [? _]. lia. Qed.

Lemma answered_done received seen seen' ignored :
  seen = dom expected -> ignored <= MAX_IGNORED_L3_PACKETS -> answered received seen seen' ignored <-> seen' = seen.
Proof.
  intros Hs Hi. split; [by intros (? & ? & ? & ? & _ & _ & _ & _ & _ & ->)|]. intros ->.
  exists [], received, [], 0. split_and!; [done|constructor|lia|set_solver|set_solver|done].
Qed.

Lemma answered_cons packet received seen seen' ignored :
  seen <> dom expected ->
  answered (packet :: received) seen seen' ignored <->
  (echo_reply_sequence packet = Ok None /\ answered received seen seen' (ignored + 1)) \/
  exists q payload, expected !! q = Some payload /\ is_reply packet q payload /\ q ∉ seen /\
    answered received ({[q]} ∪ seen) seen' ignored.
Proof.
  intros Hs. split.
  - intros (used & rest & qs & n & Hu & Ha & Hn & Hq & -> & Hd). destruct Ha as [|p ps qs n Hp Ha|p ps q qs n payload He Hp Hq' Ha].
    + exfalso. set_solver.
    + injection Hu as <- Hu. left. split; [done|]. exists ps, rest, qs, n. split_and!; try done. lia.
    + injection Hu as <- Hu. right. exists q, payload. split_and!; try done; [set_solver|]. exists ps, rest, qs, n.
      split_and!; try done; set_solver.
  - intros [[Hp (used & rest & qs & n & -> & Ha & Hn & Hq & -> & Hd)]|(q & payload & He & Hp & Hq & used & rest & qs & n & -> & Ha & Hn & Hqs & -> & Hd)].
    + exists (packet :: used), rest, qs, (n + 1). split_and!; try done; [by constructor|lia].
    + exists (packet :: used), rest, (q :: qs), n. split_and!; try done; [econstructor; try done; set_solver|set_solver..].
Qed.

Lemma await_replies_returns received seen ignored seen' :
  seen ⊆ dom expected -> ignored <= MAX_IGNORED_L3_PACKETS ->
  await_replies timeout expected received seen ignored = Ok seen' <-> answered received seen seen' ignored.
Proof.
  revert seen ignored. induction received as [|packet received IH]; intros seen ignored Hs Hi; cbn [await_replies];
    destruct (_ <=? _)%nat eqn:Hle.
  1, 3: apply all_seen in Hle; [|done]; rewrite answered_done by done; naive_solver.
  all: assert (seen <> dom expected) as Hne by (intros Hd; apply all_seen in Hd; [congruence|done]).
  { split; [done|]. intros (used & rest & qs & n & [-> ->]%symmetry%app_nil & Ha & _ & _ & -> & Hd).
    inversion Ha; subst. set_solver. }
  rewrite answered_cons by done. destruct (echo_reply_sequence packet) as [[q|]|e] eqn:Hq; cbn [mbind res_bind].
  - assert (forall q' payload, is_reply packet q' payload -> q' = q) as Hq'.
    { intros q' payload Hp%reply_recognised. congruence. }
    destruct (expected !! q) as [payload|] eqn:He; [|naive_solver].
    unfold raise_if. destruct (bool_decide (q ∈ seen)) eqn:Hin; bool_to_prop; cbn [mbind res_bind]; [naive_solver|].
    assert ({[q]} ∪ seen ⊆ dom expected) as Hs' by (apply elem_of_dom_2 in He; set_solver).
    pose proof (validate_accepts packet q payload) as Hv.
    destruct (validate_echo_reply packet q payload) as [[]|e]; cbn [mbind res_bind]; [rewrite IH by done|]; naive_solver.
  - assert (forall q' payload, ~ is_reply packet q' payload) as Hno.
    { intros q' payload Hp%reply_recognised. congruence. }
    unfold raise_if. destruct (_ <? _) eqn:Hlt; bool_to_prop; cbn [mbind res_bind].
    + split; [done|]. intros [[_ H%answered_bound]|H]; [lia|naive_solver].
    + rewrite IH by done. naive_solver.
  - split; [done|]. intros [[? _]|(q & payload & _ & Hp%reply_recognised & _)]; congruence.
Qed.
End replies.

(** C35. Waiting for the replies is exact.  The loop over the packets that arrive
    returns exactly when, from the first packet on, every request has been answered
    once by a correct reply, in whatever order, with no more than the allowed number
    of unrelated packets among them; it then reports all of them. *)
Theorem await_replies_iff timeout expected received seen :
  await_replies timeout expected received ∅ 0 = Ok seen <->
  seen = dom expected /\
  exists used rest sequences others,
    received = used ++ rest /\ answers expected used sequences others /\ others <= MAX_IGNORED_L3_PACKETS /\
    NoDup sequences /\ list_to_set sequences = dom expected.
Proof.
  rewrite await_replies_returns by (done || set_solver). split.
  - intros (used & rest & qs & n & -> & Ha & Hn & _ & Hd & Hd'). split; [done|]. pose proof Ha as (_ & Hnd & _)%answers_facts.
    exists used, rest, qs, n. split_and!; try done. by rewrite <- Hd', Hd, (right_id_L ∅ (∪)).
  - intros (-> & used & rest & qs & n & -> & Ha & Hn & _ & Hd). exists used, rest, qs, n.
    split_and!; try done; by rewrite (right_id_L ∅ (∪)).
Qed.

(** Only correct replies are accepted: [validate_echo_reply] accepts a packet
    exactly when it is an ICMP packet from the guest to the host, header and
    message verifying, that echoes this sequence number and payload; and such a
    packet is recognised as the reply to that sequence number. *)
Theorem validate_echo_reply_iff packet sequence payload :
  (validate_echo_reply packet sequence payload = Ok tt <->
   exists icmp, icmp_datagram GUEST_IPV4 HOST_IPV4 icmp packet /\ echo_message 0 sequence payload icmp) /\
  (validate_echo_reply packet sequence payload = Ok tt -> echo_reply_sequence packet = Ok (Some sequence)).
Proof. split; [apply validate_accepts|]. intros Hv%validate_accepts. by eapply reply_recognised. Qed.

(** A peer that echoes, and the whole burst with it, its replies in reverse. *)
Definition echo_peer (packet : bytes) : bytes :=
  let payload := drop 24 packet in
  let sum := checksum (be_bytes 4 0 ++ payload) in
  take 12 packet ++ take 4 (drop 16 packet) ++ take 4 (drop 12 packet) ++ be_bytes 2 0 ++ be_bytes 2 sum ++ payload.

Definition burst_with (deliver : list bytes -> list bytes) : res (gset Z) :=
  '(packets, expected) ← build_burst burst_sizes ∅;
  await_replies (TimeoutError "timed out") expected (deliver packets) ∅ 0.

Lemma burst_echoed :
  burst_with (fun packets => reverse (map echo_peer packets)) = Ok (list_to_set (map Z.of_nat (seq 1 33))) /\
  burst_with (fun packets => map echo_peer (drop 1 packets)) = Err (TimeoutError "timed out") /\
  burst_with (fun packets => packets) = Err (TimeoutError "timed out").
Proof. split_and!; vm_compute; reflexivity. Qed.

Lemma checksum_detects_witness :
  checksum (map z2b [0x45; 0; 0; 28; 0; 1; 0x40; 0; 64; 1; 0x26; 0xDE; 10; 0; 0; 1; 10; 0; 0; 2]) = 0 /\
  checksum (<[3%nat := z2b (Z.lxor 28 (2 ^ 2))]>
              (map z2b [0x45; 0; 0; 28; 0; 1; 0x40; 0; 64; 1; 0x26; 0xDE; 10; 0; 0; 1; 10; 0; 0; 2])) <> 0.
Proof.
  split; [vm_compute; reflexivity|].
  by apply (checksum_detects (map z2b [0x45; 0; 0; 28; 0; 1; 0x40; 0; 64; 1; 0x26; 0xDE; 10; 0; 0; 1; 10; 0; 0; 2]) 3 (z2b 28) 2).
Defined.
