(* ===== verification/Benchmark.v ===== *)
(** * The high-BDP benchmark

    The pure parts of [scripts/run-tcpcc-high-bdp-iperf.py]: reading a
    scenario and the reports of iperf, tc and tcpcc, and the summary that decides
    whether a benchmark passed.  Floats are exact rationals; an integer or a
    text too large for a float behaves as Python's does.  [repr] of a value
    occurs in messages only and is a parameter. *)

From S2P Require Import Prelude PyStr Reports Py Effects Json.
From Stdlib Require Import Qabs Qround Sorted.
Local Open Scope Z_scope.

(** ** Numbers *)

(** Where a float overflows: halfway beyond the largest one. *)
Definition FLOAT_LIMIT : Z := 2 ^ 1024 - 2 ^ 970.
Definition finite (q : Q) : bool := negb (Qle_bool (inject_Z FLOAT_LIMIT) (Qabs q)).
Definition OverflowError : exn := Sys (SException "OverflowError" "int too large to convert to float").
Definition float_of_int (z : Z) : res Q := if finite (inject_Z z) then Ok (inject_Z z) else Err OverflowError.

(** [round(q)], ties to even *)
Definition py_round (q : Q) : Z :=
  let n := Qfloor q in
  match Qcompare (q - inject_Z n)%Q (1 # 2) with
  | Lt => n
  | Gt => n + 1
  | Eq => if Z.even n then n else n + 1
  end.

(** [q1 <= q2 <= q3] *)
Definition between (low q high : Q) : bool := Qle_bool low q && Qle_bool q high.

(** ** JSON values *)

(** [d.get(k)], with [None] as [JNull] *)
Definition get (k : string) (d : list (string * json)) : json := default JNull (dict_get k d).

(** [value == n] *)
Definition eq_int (value : json) (n : Z) : bool :=
  match value with
  | JBool b => (if b then 1 else 0) =? n
  | JInt z => z =? n
  | JReal q => Qeq_bool q (inject_Z n)
  | _ => false
  end.
(** [value == text] *)
Definition eq_str (value : json) (text : string) : bool :=
  match value with JStr s => bool_decide (s = text) | _ => false end.
(** [value is b] *)
Definition is_bool (value : json) (b : bool) : bool :=
  match value with JBool c => Bool.eqb b c | _ => false end.

(** [bool(value)] *)
Definition truthy (value : json) : bool :=
  match value with
  | JNull => false
  | JBool b => b
  | JInt z => negb (z =? 0)
  | JReal q => negb (Qeq_bool q 0)
  | JConst _ => true
  | JStr s => negb (str_empty s)
  | JArr [] | JObj [] => false
  | JArr _ | JObj _ => true
  end.

(** [_object] *)
Definition object (value : json) (label : string) : res (list (string * json)) :=
  match value with JObj d => Ok d | _ => Err (ValueError (label +:+ " must be a JSON object")) end.

(** A bound of [_number] with what [:g] makes of it. *)
Record limit := Limit { bound : Q; shown : string }.

Definition range_error (label : string) (minimum maximum : limit) : exn :=
  ValueError (label +:+ " must be from " +:+ shown minimum +:+ " through " +:+ shown maximum).

(** [_number], with [integer=True] and without *)
Definition integer (value : json) (label : string) (minimum maximum : limit) : res Z :=
  match value with
  | JInt z =>
      _ ← float_of_int z;
      if between (bound minimum) (inject_Z z) (bound maximum) then Ok z else Err (range_error label minimum maximum)
  | _ => Err (ValueError (label +:+ " must be a integer"))
  end.
Definition number (value : json) (label : string) (minimum maximum : limit) : res Q :=
  match value with
  | JInt z =>
      f ← float_of_int z;
      if between (bound minimum) f (bound maximum) then Ok f else Err (range_error label minimum maximum)
  | JReal q => if finite q && between (bound minimum) q (bound maximum) then Ok q else Err (range_error label minimum maximum)
  | JConst _ => Err (range_error label minimum maximum)
  | _ => Err (ValueError (label +:+ " must be a number"))
  end.

(** ** The scenario *)

Record Scenario := {
  raw : list (string * json);
  scenario_id : string;
  rate_mbps : Z;
  one_way_delay_ms : Z;
  random_loss_percent : Q;
  netem_limit_packets : Z;
  mtu : Z;
  duration_seconds : Z;
  omit_seconds : Z;
  repetitions : Z;
  settle_seconds : Q;
  minimum_goodput_mbps : Q;
  tcpcc_to_native_bbr_min_ratio : Q;
  tcpcc_to_native_bbr_max_ratio : Q;
  performance_is_observational : bool;
}.

Definition rtt_ms (s : Scenario) : Z := 2 * one_way_delay_ms s.
Definition bdp_bytes (s : Scenario) : Z :=
  py_round (inject_Z (rate_mbps s * 1000000) / 8 * inject_Z (rtt_ms s) / 1000)%Q.

(** The checks between the fields. *)
Definition check_scenario (s : Scenario) : res Scenario :=
  _ ← raise_if (Qle_bool (tcpcc_to_native_bbr_max_ratio s) (tcpcc_to_native_bbr_min_ratio s))
        (ValueError "tcpcc/native BBR ratio bounds are reversed");
  _ ← raise_if (duration_seconds s <=? omit_seconds s) (ValueError "iperf.omit_seconds must be less than duration_seconds");
  _ ← raise_if (netem_limit_packets s * mtu s <? 2 * bdp_bytes s)
        (ValueError "netem queue must hold at least two path BDPs");
  Ok s.

Definition parse_scenario (value : json) : res Scenario :=
  document ← object value "scenario";
  _ ← raise_if (negb (eq_int (get "schema_version" document) 1)) (ValueError "scenario schema_version must be 1");
  id ← match get "scenario_id" document with
       | JStr id => if str_empty id then Err (ValueError "scenario_id must be a nonempty string") else Ok id
       | _ => Err (ValueError "scenario_id must be a nonempty string")
       end;
  network ← object (get "network" document) "network";
  iperf ← object (get "iperf" document) "iperf";
  acceptance ← object (get "acceptance" document) "acceptance";
  _ ← raise_if (negb (eq_int (get "parallel_streams" iperf) 1)) (ValueError "iperf.parallel_streams must be exactly 1");
  _ ← raise_if (negb (is_bool (get "bbr_over_cubic_is_observational" acceptance) true))
        (ValueError "acceptance.bbr_over_cubic_is_observational must be true");
  observational ← match default (JBool false) (dict_get "performance_is_observational" acceptance) with
                  | JBool b => Ok b
                  | _ => Err (ValueError "acceptance.performance_is_observational must be boolean")
                  end;
  rate ← integer (get "rate_mbps" network) "network.rate_mbps" (Limit 1 "1") (Limit 10000 "10000");
  delay ← integer (get "one_way_delay_ms" network) "network.one_way_delay_ms" (Limit 1 "1") (Limit 1000 "1000");
  loss ← number (get "random_loss_percent" network) "network.random_loss_percent" (Limit (1 # 1000) "0.001") (Limit 30 "30");
  queue ← integer (get "netem_limit_packets" network) "network.netem_limit_packets" (Limit 100 "100") (Limit 1000000 "1e+06");
  packet ← integer (get "mtu" network) "network.mtu" (Limit 576 "576") (Limit 9000 "9000");
  duration ← integer (get "duration_seconds" iperf) "iperf.duration_seconds" (Limit 3 "3") (Limit 120 "120");
  omit ← integer (get "omit_seconds" iperf) "iperf.omit_seconds" (Limit 0 "0") (Limit 30 "30");
  runs ← integer (get "repetitions" iperf) "iperf.repetitions" (Limit 3 "3") (Limit 9 "9");
  settle ← number (get "settle_seconds" iperf) "iperf.settle_seconds" (Limit 0 "0") (Limit 10 "10");
  goodput ← number (get "minimum_goodput_mbps" acceptance) "acceptance.minimum_goodput_mbps" (Limit (1 # 1000) "0.001") (Limit 10000 "10000");
  low ← number (get "tcpcc_to_native_bbr_min_ratio" acceptance) "acceptance.tcpcc_to_native_bbr_min_ratio" (Limit (1 # 100) "0.01") (Limit 10 "10");
  high ← number (get "tcpcc_to_native_bbr_max_ratio" acceptance) "acceptance.tcpcc_to_native_bbr_max_ratio" (Limit (1 # 100) "0.01") (Limit 10 "10");
  check_scenario {|
    raw := document; scenario_id := id; rate_mbps := rate; one_way_delay_ms := delay; random_loss_percent := loss;
    netem_limit_packets := queue; mtu := packet; duration_seconds := duration; omit_seconds := omit; repetitions := runs;
    settle_seconds := settle; minimum_goodput_mbps := goodput; tcpcc_to_native_bbr_min_ratio := low;
    tcpcc_to_native_bbr_max_ratio := high; performance_is_observational := observational |}.

(** [load_scenario], given the text of the file *)
Definition JSONDecodeError : exn := Sys (SValueError "invalid JSON document").
Definition load_scenario (text : string) : res Scenario :=
  value ← res_of_option JSONDecodeError (loads text);
  parse_scenario value.

(** ** The report of iperf *)

Record Run := {
  bits_per_second : Q;
  goodput_mbps : Q;
  received_bytes : Z;
  seconds : Q;
  retransmits : Z;
  sender_tcp_congestion : string;
  receiver_tcp_congestion : json;
}.

(** [int(q)] *)
Definition truncate (q : Q) : Z := Z.quot (Qnum q) (Zpos (Qden q)).

Section reports.
Context (repr : json -> string).

(** [str(value)] *)
Definition str_value (value : json) : string := match value with JStr s => s | _ => repr value end.

(** One turn of the loop over the measured fields. *)
Definition positive_number (label : string) (observed : json) : res Q :=
  let invalid := ValueError ("iperf " +:+ label +:+ " is invalid: " +:+ repr observed) in
  match observed with
  | JInt z => f ← float_of_int z; if Qle_bool f 0 then Err invalid else Ok f
  | JReal q => if finite q && negb (Qle_bool q 0) then Ok q else Err invalid
  | _ => Err invalid
  end.

Definition parse_iperf_document (value : json) (expected_sender_cc : string) : res Run :=
  document ← object value "iperf result";
  _ ← raise_if (truthy (get "error" document))
        (ValueError ("iperf reported an error: " +:+ str_value (get "error" document)));
  start ← object (get "start" document) "iperf start";
  test_start ← object (get "test_start" start) "iperf test_start";
  _ ← raise_if (negb (eq_str (get "protocol" test_start) "TCP")) (ValueError "iperf result is not TCP");
  _ ← raise_if (negb (eq_int (get "reverse" test_start) 1))
        (ValueError "iperf result is not reverse/server-sender mode");
  _ ← raise_if (negb (eq_int (get "num_streams" test_start) 1)) (ValueError "iperf result is not single-stream");
  end_ ← object (get "end" document) "iperf end";
  received ← object (get "sum_received" end_) "iperf sum_received";
  sent ← object (get "sum_sent" end_) "iperf sum_sent";
  let sender_cc := get "sender_tcp_congestion" end_ in
  _ ← raise_if (negb (eq_str sender_cc expected_sender_cc))
        (ValueError ("iperf sender congestion control is " +:+ repr sender_cc +:+ ", expected " +:+ py_repr expected_sender_cc));
  bits ← positive_number "bits_per_second" (get "bits_per_second" received);
  bytes ← positive_number "received bytes" (get "bytes" received);
  elapsed ← positive_number "seconds" (get "seconds" received);
  let retransmits := get "retransmits" sent in
  let invalid := ValueError ("iperf retransmits is invalid: " +:+ repr retransmits) in
  count ← match retransmits with JInt z => if z <? 0 then Err invalid else Ok z | _ => Err invalid end;
  Ok {| bits_per_second := bits; goodput_mbps := bits / 1000000; received_bytes := truncate bytes; seconds := elapsed;
        retransmits := count; sender_tcp_congestion := expected_sender_cc;
        receiver_tcp_congestion := get "receiver_tcp_congestion" end_ |}.

End reports.

(** ** Summaries *)

(** [statistics.median]; the list is not empty. *)
Fixpoint insert_sorted (q : Q) (l : list Q) : list Q :=
  match l with
  | [] => [q]
  | p :: l => if Qle_bool q p then q :: p :: l else p :: insert_sorted q l
  end.
Definition sorted (l : list Q) : list Q := foldr insert_sorted [] l.
Definition median (l : list Q) : Q :=
  let data := sorted l in
  let n := length data in
  if Nat.odd n then nth (n / 2) data 0%Q
  else ((nth (n / 2 - 1) data 0 + nth (n / 2) data 0) / 2)%Q.

(** [min] and [max] *)
Definition q_min (p q : Q) : Q := if Qle_bool p q then p else q.
Definition q_max (p q : Q) : Q := if Qle_bool q p then p else q.
Definition minimum_of (l : list Q) : Q := match l with [] => 0%Q | q :: l => foldl q_min q l end.
Definition maximum_of (l : list Q) : Q := match l with [] => 0%Q | q :: l => foldl q_max q l end.

Definition CASES : list string := ["native_cubic"; "native_bbr"; "tcpcc_cubic"; "tcpcc_bbr"].
Definition TCPCC_CASES : list string := ["tcpcc_cubic"; "tcpcc_bbr"].

Record Summary := {
  median_goodput_mbps : Q;
  lowest_goodput_mbps : Q;
  highest_goodput_mbps : Q;
  median_retransmits : Q;
  total_retransmits : Z;
  iperf_retransmit_scope : string;
}.

Record Comparisons := {
  native_bbr_over_native_cubic : Q;
  tcpcc_bbr_over_tcpcc_cubic : Q;
  tcpcc_cubic_over_native_cubic : Q;
  tcpcc_bbr_over_native_bbr : Q;
}.

Record Check := { c_name : string; c_gate : bool; c_passed : bool; c_observed : json; c_expected : json }.

(** [q1 / q2] *)
Definition ZeroDivisionError : exn := Sys (SException "ZeroDivisionError" "float division by zero").
Definition divide (p q : Q) : res Q := if Qeq_bool q 0 then Err ZeroDivisionError else Ok (p / q)%Q.

Definition goodputs (runs : list Run) : list Q := map goodput_mbps runs.
Definition summary_of (case : string) (runs : list Run) : Summary := {|
  median_goodput_mbps := median (goodputs runs);
  lowest_goodput_mbps := minimum_of (goodputs runs);
  highest_goodput_mbps := maximum_of (goodputs runs);
  median_retransmits := median (map (fun r => inject_Z (retransmits r)) runs);
  total_retransmits := foldr Z.add 0 (map retransmits runs);
  iperf_retransmit_scope := if str_in case TCPCC_CASES then "backend_loopback_sender" else "public_wan_sender" |}.

(** One turn of the loop over the cases. *)
Definition summarize_case (measurements : list (string * list Run)) (scenario : Scenario) (case : string) :
    option (string * Summary) * list Check :=
  let runs := default [] (dict_get case measurements) in
  let count := {| c_name := case +:+ "_repetitions"; c_gate := true;
                  c_passed := Z.of_nat (length runs) =? repetitions scenario;
                  c_observed := JInt (Z.of_nat (length runs)); c_expected := JInt (repetitions scenario) |} in
  match runs with
  | [] => (None, [count])
  | _ =>
      let low := minimum_of (goodputs runs) in
      (Some (case, summary_of case runs),
       [count; {| c_name := case +:+ "_minimum_goodput"; c_gate := negb (performance_is_observational scenario);
                  c_passed := Qle_bool (minimum_goodput_mbps scenario) low; c_observed := JReal low;
                  c_expected := JStr (">= " +:+ real_repr (minimum_goodput_mbps scenario) +:+ " Mbps") |}])
  end.

Definition observation (name : string) (ratio : Q) : Check := {|
  c_name := name; c_gate := false; c_passed := Qle_bool 1 ratio; c_observed := JReal ratio;
  c_expected := JStr ">= 1 (observation only)" |}.

Definition compare_cases (scenario : Scenario) (native_cubic native_bbr tcpcc_cubic tcpcc_bbr : Q) :
    res (Comparisons * list Check) :=
  native_bbr_over_cubic ← divide native_bbr native_cubic;
  tcpcc_bbr_over_cubic ← divide tcpcc_bbr tcpcc_cubic;
  tcpcc_to_native_cubic ← divide tcpcc_cubic native_cubic;
  tcpcc_to_native_bbr ← divide tcpcc_bbr native_bbr;
  Ok ({| native_bbr_over_native_cubic := native_bbr_over_cubic; tcpcc_bbr_over_tcpcc_cubic := tcpcc_bbr_over_cubic;
         tcpcc_cubic_over_native_cubic := tcpcc_to_native_cubic; tcpcc_bbr_over_native_bbr := tcpcc_to_native_bbr |},
      [{| c_name := "tcpcc_to_native_bbr_ratio"; c_gate := negb (performance_is_observational scenario);
          c_passed := between (tcpcc_to_native_bbr_min_ratio scenario) tcpcc_to_native_bbr (tcpcc_to_native_bbr_max_ratio scenario);
          c_observed := JReal tcpcc_to_native_bbr;
          c_expected := JObj [("minimum", JReal (tcpcc_to_native_bbr_min_ratio scenario));
                              ("maximum", JReal (tcpcc_to_native_bbr_max_ratio scenario))] |};
       observation "native_bbr_over_cubic_observation" native_bbr_over_cubic;
       observation "tcpcc_bbr_over_tcpcc_cubic_observation" tcpcc_bbr_over_cubic;
       observation "tcpcc_cubic_over_native_cubic_observation" tcpcc_to_native_cubic]).

Definition summarize_measurements (measurements : list (string * list Run)) (scenario : Scenario) :
    res (list (string * Summary) * option Comparisons * list Check * bool) :=
  let parts := map (summarize_case measurements scenario) CASES in
  let summaries := omap fst parts in
  let checks := concat (map snd parts) in
  let verdict (checks : list Check) := forallb (fun c => negb (c_gate c) || c_passed c) checks in
  let median_of case := median_goodput_mbps <$> dict_get case summaries in
  match median_of "native_cubic", median_of "native_bbr", median_of "tcpcc_cubic", median_of "tcpcc_bbr" with
  | Some native_cubic, Some native_bbr, Some tcpcc_cubic, Some tcpcc_bbr =>
      '(comparisons, more) ← compare_cases scenario native_cubic native_bbr tcpcc_cubic tcpcc_bbr;
      Ok (summaries, Some comparisons, checks ++ more, verdict (checks ++ more))
  | _, _, _, _ => Ok (summaries, None, checks, verdict checks)
  end.

(** ** The queueing disciplines *)

Record Qdisc := {
  kind : string;
  qd_bytes : Z;
  packets : Z;
  drops : Z;
  overlimits : Z;
  backlog_bytes : Z;
  observed_drop_percent : Q;
}.

(** [math.isclose(p, q, rel_tol=1e-9)] *)
Definition isclose (p q : Q) : bool :=
  Qle_bool (Qabs (p - q)) ((1 # 1000000000) * q_max (Qabs p) (Qabs q)).

(** An array element that is the root qdisc of the kind. *)
Definition root_of_kind (expected_kind : string) (item : json) : option (list (string * json)) :=
  match item with
  | JObj d => if is_bool (get "root" d) true && eq_str (get "kind" d) expected_kind then Some d else None
  | _ => None
  end.

Section observations.
Context (repr : json -> string).

Definition counter (expected_kind field : string) (entry : list (string * json)) : res Z :=
  let observed := get field entry in
  let invalid := ValueError (expected_kind +:+ " qdisc " +:+ field +:+ " is invalid: " +:+ repr observed) in
  match observed with JInt z => if z <? 0 then Err invalid else Ok z | _ => Err invalid end.

(** One turn of the loop over the parameters of netem. *)
Definition netem_matches (label : string) (observed : json) (expected : Q) : res unit :=
  let mismatch := ValueError ("netem " +:+ label +:+ " is " +:+ repr observed +:+ ", expected " +:+ repr (JReal expected)) in
  match observed with
  | JInt z => f ← float_of_int z; raise_if (negb (isclose f expected)) mismatch
  | JReal q => raise_if (negb (finite q && isclose q expected)) mismatch
  | _ => Err mismatch
  end.

Definition check_netem (entry : list (string * json)) (scenario : Scenario) : res unit :=
  options ← object (get "options" entry) "netem options";
  delay ← object (get "delay" options) "netem delay";
  loss ← object (get "loss-random" options) "netem loss";
  rate ← object (get "rate" options) "netem rate";
  _ ← netem_matches "delay" (get "delay" delay) (inject_Z (one_way_delay_ms scenario) / 1000);
  _ ← netem_matches "loss" (get "loss" loss) (random_loss_percent scenario / 100);
  _ ← netem_matches "rate" (get "rate" rate) (inject_Z (rate_mbps scenario * 1000000) / 8);
  raise_if (negb (eq_int (get "limit" options) (netem_limit_packets scenario)))
    (ValueError "netem packet limit does not match the scenario").

Definition parse_qdisc_document (value : json) (expected_kind : string) (scenario : Scenario) : res Qdisc :=
  items ← match value with JArr l => Ok l | _ => Err (ValueError "tc qdisc JSON must be an array") end;
  entry ← res_of_option (ValueError ("root qdisc is not " +:+ expected_kind)) (head (omap (root_of_kind expected_kind) items));
  bytes ← counter expected_kind "bytes" entry;
  sent ← counter expected_kind "packets" entry;
  dropped ← counter expected_kind "drops" entry;
  over ← counter expected_kind "overlimits" entry;
  backlog ← counter expected_kind "backlog" entry;
  _ ← (if bool_decide (expected_kind = "netem") then check_netem entry scenario else Ok tt);
  let denominator := sent + dropped in
  Ok {| kind := expected_kind; qd_bytes := bytes; packets := sent; drops := dropped; overlimits := over;
        backlog_bytes := backlog;
        observed_drop_percent := if denominator =? 0 then 0%Q else (inject_Z (100 * dropped) / inject_Z denominator)%Q |}.

(** ** The events of tcpcc *)

Definition event : Type := list (string * json).

(** [int(value)] *)
Definition int_value (value : json) : res Z :=
  match value with
  | JBool b => Ok (if b then 1 else 0)
  | JInt z => Ok z
  | JReal q => if finite q then Ok (truncate q) else Err (Sys (SException "OverflowError" "cannot convert float infinity to integer"))
  | JConst name => if bool_decide (name = "NaN") then Err (ValueError "cannot convert float NaN to integer")
                   else Err (Sys (SException "OverflowError" "cannot convert float infinity to integer"))
  | JStr s => res_of_option (ValueError ("invalid literal for int() with base 10: " +:+ py_repr s))
                (int_of s)
  | _ => Err (TypeError "int() argument must be a string, a bytes-like object or a real number")
  end.
Definition count (field : string) (stats : event) : res Z := int_value (default (JInt 0) (dict_get field stats)).

Definition find_event (name : string) (events : list event) : option event :=
  head (filter (fun e => eq_str (get "event" e) name = true) events).

(** Whether an event tells of a refused or abandoned connection; a list or an
    object is no member of a set and raises. *)
Fixpoint any_refused (events : list event) : res bool :=
  match events with
  | [] => Ok false
  | e :: events =>
      match get "event" e with
      | JStr s => if str_in s ["connection-rejected"; "drain-timeout"] then Ok true else any_refused events
      | JArr _ => Err (TypeError "unhashable type: 'list'")
      | JObj _ => Err (TypeError "unhashable type: 'dict'")
      | _ => any_refused events
      end
  end.

Record TcpccRun := {
  ready : event;
  opened_connections : Z;
  closed_connections : Z;
  completed_data_flows : Z;
  completed_control_flows : Z;
  terminal_statuses : list (string * Z);
  data_terminal_policy : string;
  accepted_cc : string;
  hosted_memory_mib : Z;
  clean_stop : bool;
}.

Definition EPIPE : Z := 32.
Definition ECONNRESET : Z := 104.

Definition validate_tcpcc_events (events : list event) (scenario : Scenario) (expected_cc : string) (expected_memory_mib : Z) :
    res TcpccRun :=
  ready ← match find_event "ready" events with
          | Some ready => if eq_str (get "cc" ready) expected_cc then Ok ready
                          else Err (RuntimeError ("tcpcc readiness did not prove " +:+ expected_cc))
          | None => Err (RuntimeError ("tcpcc readiness did not prove " +:+ expected_cc))
          end;
  _ ← raise_if (negb (eq_int (get "hosted_memory_mib" ready) expected_memory_mib))
        (RuntimeError "tcpcc readiness did not prove the requested hosted memory");
  _ ← raise_if (negb (from_option (fun stopped => is_bool (get "clean" stopped) true) false (find_event "stopped" events)))
        (RuntimeError "tcpcc did not report a clean stop");
  refused ← any_refused events;
  _ ← raise_if refused (RuntimeError "tcpcc rejected or timed out an iperf connection");
  stats ← res_of_option (RuntimeError "tcpcc emitted no native aggregate service statistics") (find_event "service-stats" events);
  let shown := repr (JObj stats) in
  accepted ← count "accepted_connections" stats;
  completed ← count "completed_connections" stats;
  _ ← raise_if ((accepted <? repetitions scenario * 2) || negb (completed =? accepted))
        (RuntimeError ("tcpcc native service did not complete the expected iperf control and data flows: " +:+ shown));
  _ ← raise_if (negb (eq_int (get "active_connections" stats) 0) || negb (eq_int (get "rejected_connections" stats) 0)
                || negb (eq_int (get "bridge_start_failures" stats) 0))
        (RuntimeError ("tcpcc native service reported failures: " +:+ shown));
  terminal_failures ← count "terminal_failures" stats;
  last_error ← count "last_error" stats;
  _ ← raise_if ((repetitions scenario <? terminal_failures)
                || negb (bool_decide (last_error ∈ [0; - EPIPE; - ECONNRESET])))
        (RuntimeError ("tcpcc native service reported an unexpected terminal aggregate: " +:+ shown));
  let minimum_data_bytes :=
    py_round (minimum_goodput_mbps scenario * 1000000 / 8 * inject_Z (duration_seconds scenario) * (1 # 2))%Q in
  delivered ← count "backend_to_public_bytes" stats;
  _ ← raise_if (delivered <? minimum_data_bytes * repetitions scenario)
        (RuntimeError "tcpcc aggregate backend-to-public bytes are below the iperf floor");
  Ok {| ready := ready; opened_connections := accepted; closed_connections := completed;
        completed_data_flows := repetitions scenario; completed_control_flows := completed - repetitions scenario;
        terminal_statuses := [("aggregate-clean", completed - terminal_failures); (str_of_Z last_error, terminal_failures)];
        data_terminal_policy := "native hosted-service aggregate"; accepted_cc := expected_cc;
        hosted_memory_mib := expected_memory_mib; clean_stop := true |}.

End observations.

(** ** Scenarios: what is accepted *)

(** What a scenario promises to the benchmark. *)
Record legal_scenario (s : Scenario) : Prop := {
  ls_id : scenario_id s <> EmptyString;
  ls_rate : 1 <= rate_mbps s <= 10000;
  ls_delay : 1 <= one_way_delay_ms s <= 1000;
  ls_loss : ((1 # 1000) <= random_loss_percent s <= 30)%Q;
  ls_queue : 100 <= netem_limit_packets s <= 1000000;
  ls_mtu : 576 <= mtu s <= 9000;
  ls_duration : 3 <= duration_seconds s <= 120;
  ls_omit : 0 <= omit_seconds s <= 30;
  ls_repetitions : 3 <= repetitions s <= 9;
  ls_settle : (0 <= settle_seconds s <= 10)%Q;
  ls_goodput : ((1 # 1000) <= minimum_goodput_mbps s <= 10000)%Q;
  ls_low : ((1 # 100) <= tcpcc_to_native_bbr_min_ratio s <= 10)%Q;
  ls_high : ((1 # 100) <= tcpcc_to_native_bbr_max_ratio s <= 10)%Q;
  ls_ratio : (tcpcc_to_native_bbr_min_ratio s < tcpcc_to_native_bbr_max_ratio s)%Q;
  ls_measured : omit_seconds s < duration_seconds s;
  ls_bdp : 2 * (125 * rate_mbps s * rtt_ms s) <= netem_limit_packets s * mtu s;
}.

Lemma py_round_int q z : (q == inject_Z z)%Q -> py_round q = z.
Proof.
  intros Hq. unfold py_round. rewrite (Qfloor_comp _ _ Hq), Qfloor_Z.
  assert (q - inject_Z z ?= 1 # 2 = Lt)%Q as ->; [|done].
  rewrite <- Qlt_alt. rewrite Hq. unfold Qminus. by rewrite Qplus_opp_r.
Qed.

(** The product of bandwidth and delay is a whole number of bytes. *)
Lemma bdp_exact s : bdp_bytes s = 125 * rate_mbps s * rtt_ms s.
Proof.
  apply py_round_int. unfold Qeq, Qdiv, Qmult, Qinv, inject_Z. cbn. lia.
Qed.

Lemma between_iff low q high : between low q high = true <-> (low <= q <= high)%Q.
Proof. unfold between. by rewrite andb_true_iff, !Qle_bool_iff. Qed.

Lemma between_Z (low z high : Z) : between (inject_Z low) (inject_Z z) (inject_Z high) = true <-> low <= z <= high.
Proof. by rewrite between_iff, <- !Zle_Qle. Qed.

Lemma finite_le q high : (0 <= q <= high)%Q -> (high < inject_Z FLOAT_LIMIT)%Q -> finite q = true.
Proof.
  intros [H0 Hq] Hh. unfold finite. apply negb_true_iff. destruct (Qle_bool _ _) eqn:H; [|done].
  apply Qle_bool_iff in H. rewrite Qabs_pos in H by done. exfalso. eapply Qlt_not_le; [exact Hh|].
  by eapply Qle_trans.
Qed.

Lemma integer_ok v label (low high : Z) tl th z :
  integer v label (Limit (inject_Z low) tl) (Limit (inject_Z high) th) = Ok z -> v = JInt z /\ low <= z <= high.
Proof.
  destruct v; cbn [integer]; try done. intros H. res_inv. cbn [bound] in H.
  destruct (between _ _ _) eqn:Hb; [|done]. apply between_Z in Hb. by simplify_eq.
Qed.

Lemma integer_accepts label (low high : Z) tl th z :
  0 <= low -> high < 10 ^ 9 -> low <= z <= high ->
  integer (JInt z) label (Limit (low # 1) tl) (Limit (high # 1) th) = Ok z.
Proof.
  change (low # 1) with (inject_Z low). change (high # 1) with (inject_Z high).
  intros Hl Hh Hz. cbn [integer]. unfold float_of_int.
  rewrite (finite_le _ (inject_Z high)).
  - cbn [mbind res_bind bound]. by rewrite (proj2 (between_Z low z high)).
  - change 0%Q with (inject_Z 0). rewrite <- !Zle_Qle. lia.
  - rewrite <- Zlt_Qlt. eapply Z.lt_trans; [exact Hh|]. vm_compute. reflexivity.
Qed.

Lemma number_ok v label low high tl th q :
  number v label (Limit low tl) (Limit high th) = Ok q -> (low <= q <= high)%Q.
Proof.
  destruct v; cbn [number]; try done; intros H; res_inv; cbn [bound] in *.
  - destruct (between _ _ _) eqn:Hb; [|done]. simplify_eq. by apply between_iff.
  - destruct (between _ _ _) eqn:Hb; rewrite ?andb_false_r in H; [|done]. destruct (finite _); [|done].
    injection H as <-. by apply between_iff.
Qed.

Lemma number_accepts q label low high tl th :
  (0 <= low)%Q -> (high <= 10000)%Q -> (low <= q <= high)%Q -> number (JReal q) label (Limit low tl) (Limit high th) = Ok q.
Proof.
  intros Hl Hh Hq. cbn [number]. rewrite (finite_le q 10000).
  - cbn [bound andb]. by rewrite (proj2 (between_iff low q high) Hq).
  - split; [by eapply Qle_trans; [|apply Hq]|by eapply Qle_trans; [apply Hq|]].
  - vm_compute. reflexivity.
Qed.

Lemma check_scenario_iff s s' :
  check_scenario s = Ok s' <->
  s' = s /\ (tcpcc_to_native_bbr_min_ratio s < tcpcc_to_native_bbr_max_ratio s)%Q /\ omit_seconds s < duration_seconds s /\
  2 * (125 * rate_mbps s * rtt_ms s) <= netem_limit_packets s * mtu s.
Proof.
  unfold check_scenario. rewrite bdp_exact. split.
  - intros H. res_inv. bool_to_prop. split_and!; [done| |lia|lia]. apply Qnot_le_lt. intros Hle%Qle_bool_iff. congruence.
  - intros (-> & Hr & Ho & Hb). destruct (Qle_bool _ _) eqn:H; [apply Qle_bool_iff in H; by apply Qle_not_lt in H|].
    cbn [raise_if mbind res_bind]. rewrite (proj2 (Z.leb_gt _ _)), (proj2 (Z.ltb_ge _ _)) by lia. done.
Qed.

(** A document for a scenario. *)
Definition scenario_document (s : Scenario) : list (string * json) := [
  ("schema_version", JInt 1); ("scenario_id", JStr (scenario_id s));
  ("network", JObj [("rate_mbps", JInt (rate_mbps s)); ("one_way_delay_ms", JInt (one_way_delay_ms s));
                    ("random_loss_percent", JReal (random_loss_percent s));
                    ("netem_limit_packets", JInt (netem_limit_packets s)); ("mtu", JInt (mtu s))]);
  ("iperf", JObj [("parallel_streams", JInt 1); ("duration_seconds", JInt (duration_seconds s));
                  ("omit_seconds", JInt (omit_seconds s)); ("repetitions", JInt (repetitions s));
                  ("settle_seconds", JReal (settle_seconds s))]);
  ("acceptance", JObj [("bbr_over_cubic_is_observational", JBool true);
                       ("performance_is_observational", JBool (performance_is_observational s));
                       ("minimum_goodput_mbps", JReal (minimum_goodput_mbps s));
                       ("tcpcc_to_native_bbr_min_ratio", JReal (tcpcc_to_native_bbr_min_ratio s));
                       ("tcpcc_to_native_bbr_max_ratio", JReal (tcpcc_to_native_bbr_max_ratio s))])].

(** The members of a written document. *)
Ltac members :=
  repeat match goal with
  | |- context [get ?k ?d] => let v := eval vm_compute in (get k d) in change (get k d) with v
  | |- context [dict_get ?k ?d] => let v := eval vm_compute in (dict_get k d) in change (dict_get k d) with v
  | |- _ => progress cbn [object mbind res_bind eq_int is_bool negb raise_if Bool.eqb default]
  end.

(** The scenarios that are accepted are exactly the legal ones: every
    accepted document gives a scenario with all its fields in range, whose
    queue holds two bandwidth-delay products, computed without rounding; and
    every such scenario is read back from its document. *)
Theorem parse_scenario_exact :
  (forall v s, parse_scenario v = Ok s -> legal_scenario s /\ v = JObj (raw s)) /\
  (forall s, legal_scenario s -> raw s = scenario_document s -> parse_scenario (JObj (scenario_document s)) = Ok s).
Proof.
  split.
  - intros v s H. unfold parse_scenario in H. res_inv.
    repeat match goal with
    | H : integer _ _ _ _ = Ok _ |- _ => apply integer_ok in H as [_ H]
    | H : number _ _ _ _ = Ok _ |- _ => apply number_ok in H
    | H : check_scenario _ = Ok _ |- _ => apply check_scenario_iff in H as (-> & ? & ? & ?)
    end.
    destruct v; try done. cbn [object] in *. simplify_eq. split; [|done]. split; cbn in *; try done.
    match goal with H : context [get "scenario_id" x] |- _ =>
      destruct (get "scenario_id" x) as [| | | | |[]| |]; try discriminate H; by injection H as <-
    end.
  - intros s Hs Hraw. pose proof (proj2 (check_scenario_iff s s)) as Hcheck. destruct Hs.
    destruct s; cbn [raw] in Hraw; cbn [scenario_id rate_mbps one_way_delay_ms random_loss_percent netem_limit_packets mtu
      duration_seconds omit_seconds repetitions settle_seconds minimum_goodput_mbps tcpcc_to_native_bbr_min_ratio
      tcpcc_to_native_bbr_max_ratio performance_is_observational] in *.
    unfold parse_scenario. members. destruct scenario_id0 as [|c id]; [done|]. cbn [str_empty mbind res_bind].
    repeat first [rewrite integer_accepts by (done || lia) | rewrite number_accepts by done | progress cbn [mbind res_bind]].
    rewrite <- Hraw. by apply Hcheck.
Qed.

(** ** The verdict *)

Lemma insert_sorted_perm q l : insert_sorted q l ≡ₚ q :: l.
Proof. induction l as [|p l IH]; cbn; [done|]. destruct (Qle_bool q p); [done|]. rewrite IH. apply Permutation_swap. Qed.
Lemma sorted_perm l : sorted l ≡ₚ l.
Proof. induction l as [|q l IH]; cbn; [done|]. by rewrite insert_sorted_perm, IH. Qed.

Lemma sorted_ordered l : StronglySorted Qle (sorted l).
Proof.
  induction l as [|q l IH]; [constructor|]. change (sorted (q :: l)) with (insert_sorted q (sorted l)).
  revert IH. generalize (sorted l). clear l. intros l.
  induction 1 as [|p l Hs IH Hp]; cbn [insert_sorted]; [repeat constructor|]. destruct (Qle_bool q p) eqn:H.
  - apply Qle_bool_iff in H. constructor; [by constructor|]. constructor; [done|].
    eapply Forall_impl; [exact Hp|]. intros x Hx. by eapply Qle_trans.
  - constructor; [done|]. rewrite insert_sorted_perm. constructor; [|done].
    apply Qlt_le_weak, Qnot_le_lt. intros Hle%Qle_bool_iff. congruence.
Qed.

(** The median lies between bounds of the data. *)
Lemma median_forall (P : Q -> Prop) l :
  (forall p q, P p -> P q -> P ((p + q) / 2)%Q) -> l <> [] -> Forall P l -> P (median l).
Proof.
  intros Hmid Hne Hall. rewrite <- (sorted_perm l) in Hall. assert (sorted l <> []) as Hne'.
  { intros H. apply Hne, Permutation_nil_r. by rewrite <- H, sorted_perm. }
  assert (forall i, (i < length (sorted l))%nat -> P (nth i (sorted l) 0%Q)) as Hnth.
  { intros i Hi. rewrite Forall_forall in Hall. apply Hall. apply list_elem_of_In. by apply nth_In. }
  unfold median. destruct (sorted l) as [|a [|b m]] eqn:Hs; [done|by apply (Hnth 0%nat); cbn; lia|].
  rewrite <- Hs in *. assert (2 <= length (sorted l))%nat as Hlen by (rewrite Hs; cbn; lia).
  pose proof (Nat.div_lt (length (sorted l)) 2).
  destruct (Nat.odd _); [apply Hnth|apply Hmid; apply Hnth]; lia.
Qed.

Lemma foldl_min l q x : (x <= foldl q_min q l <-> Forall (Qle x) (q :: l))%Q.
Proof.
  revert q. induction l as [|p l IH]; intros q; cbn [foldl].
  - split; [intros; repeat constructor; done|]. by intros [? _]%Forall_cons.
  - rewrite IH, !Forall_cons. unfold q_min. destruct (Qle_bool q p) eqn:H.
    + apply Qle_bool_iff in H. split; [|naive_solver]. intros [Hq Hl]. split_and!; try done. by eapply Qle_trans.
    + assert (p <= q)%Q as Hpq by (apply Qlt_le_weak, Qnot_le_lt; intros Hle%Qle_bool_iff; congruence).
      split; [|naive_solver]. intros [Hp Hl]. split_and!; try done. by eapply Qle_trans.
Qed.

Lemma minimum_of_le l x : l <> [] -> (x <= minimum_of l <-> Forall (Qle x) l)%Q.
Proof. destruct l as [|q l]; [done|]. intros _. apply foldl_min. Qed.

(** Looking up what a loop over distinct names collected. *)
Lemma dict_get_omap {A B} (f : string -> option A) (g : string -> option (string * A) * B) names name :
  (forall n, (g n).1 = (fun a => (n, a)) <$> f n) -> name ∈ names -> dict_get name (omap fst (map g names)) = f name.
Proof.
  intros Hg. induction names as [|n names IH]; [by intros ?%not_elem_of_nil|]. intros Hin. cbn.
  rewrite Hg. destruct (decide (name = n)) as [->|Hne].
  - destruct (f n) as [a|] eqn:Hf; cbn; [by rewrite bool_decide_eq_true_2|].
    clear -Hg Hf. induction names as [|m names IH]; [done|]. cbn. rewrite Hg. destruct (f m) eqn:Hm; cbn; [|done].
    by rewrite bool_decide_eq_false_2 by congruence.
  - apply elem_of_cons in Hin as [?|Hin]; [done|]. destruct (f n); cbn; [|auto]. rewrite bool_decide_eq_false_2 by done. auto.
Qed.

Definition runs_of (measurements : list (string * list Run)) (case : string) : list Run :=
  default [] (dict_get case measurements).

(** What passing means. *)
Definition passes (measurements : list (string * list Run)) (scenario : Scenario) : Prop :=
  let middle case := median (goodputs (runs_of measurements case)) in
  (forall case, case ∈ CASES -> Z.of_nat (length (runs_of measurements case)) = repetitions scenario) /\
  (performance_is_observational scenario = false ->
   (forall case run, case ∈ CASES -> run ∈ runs_of measurements case ->
      (minimum_goodput_mbps scenario <= goodput_mbps run)%Q) /\
   (tcpcc_to_native_bbr_min_ratio scenario * middle "native_bbr" <= middle "tcpcc_bbr" <=
    tcpcc_to_native_bbr_max_ratio scenario * middle "native_bbr")%Q).

Section verdict.
Context (measurements : list (string * list Run)) (scenario : Scenario).
Context (Hreps : 1 <= repetitions scenario).
Context (Hpos : forall case run, case ∈ CASES -> run ∈ runs_of measurements case -> (0 < goodput_mbps run)%Q).

Definition gate (c : Check) : bool := negb (c_gate c) || c_passed c.

Definition case_passes (case : string) : Prop :=
  Z.of_nat (length (runs_of measurements case)) = repetitions scenario /\
  (performance_is_observational scenario = false ->
   forall run, run ∈ runs_of measurements case -> (minimum_goodput_mbps scenario <= goodput_mbps run)%Q).

Lemma case_verdict case : forallb gate (summarize_case measurements scenario case).2 = true <-> case_passes case.
Proof.
  unfold summarize_case, case_passes. fold (runs_of measurements case). destruct (runs_of measurements case) as [|r rs] eqn:Hr.
  - cbn [snd forallb gate c_gate c_passed negb orb]. rewrite andb_true_r, Z.eqb_eq.
    split; [|by intros [H _]]. intros H. split; [done|]. by intros _ run ?%not_elem_of_nil.
  - cbn [snd forallb]. unfold gate. cbn [c_gate c_passed negb orb]. rewrite !andb_true_iff, Z.eqb_eq, negb_involutive, orb_true_iff.
    rewrite Qle_bool_iff, minimum_of_le by done. unfold goodputs. rewrite Forall_map, Forall_forall.
    destruct (performance_is_observational scenario); naive_solver.
Qed.

Lemma cases_verdict : forallb gate (concat (map snd (map (summarize_case measurements scenario) CASES))) = true <->
  forall case, case ∈ CASES -> case_passes case.
Proof.
  rewrite forallb_forall. setoid_rewrite <- case_verdict. setoid_rewrite forallb_forall. rewrite map_map. split.
  - intros H case Hc c Hin. apply H, in_concat. eexists. split; [|exact Hin].
    apply in_map_iff. exists case. split; [done|]. by apply list_elem_of_In.
  - intros H c (l & Hl & Hc)%in_concat. apply in_map_iff in Hl as (case & <- & Hcase). eapply H; [|exact Hc].
    by apply list_elem_of_In.
Qed.
Lemma positive_median case :
  case ∈ CASES -> runs_of measurements case <> [] -> (0 < median (goodputs (runs_of measurements case)))%Q.
Proof.
  intros Hc Hne. apply median_forall.
  - intros p q Hp Hq. apply Qlt_shift_div_l; [done|]. rewrite Qmult_0_l, <- (Qplus_0_l 0). by apply Qplus_lt_le_compat; [|apply Qlt_le_weak].
  - unfold goodputs. by intros H%map_eq_nil.
  - unfold goodputs. apply Forall_map, Forall_forall. intros run Hrun. by eapply Hpos.
Qed.

Lemma divide_positive p q : (0 < q)%Q -> divide p q = Ok (p / q)%Q.
Proof.
  intros Hq. unfold divide. destruct (Qeq_bool q 0) eqn:H; [|done]. apply Qeq_bool_iff in H. rewrite H in Hq. done.
Qed.

Lemma ratio_between low high p q :
  (0 < q)%Q -> between low (p / q) high = true <-> (low * q <= p <= high * q)%Q.
Proof.
  intros Hq. rewrite between_iff. split; intros [H1 H2]; split.
  - apply (Qmult_le_compat_r _ _ q) in H1; [|by apply Qlt_le_weak]. rewrite (Qmult_comm (p / q)), Qmult_div_r in H1; [done|].
    intros H. by rewrite H in Hq.
  - apply (Qmult_le_compat_r _ _ q) in H2; [|by apply Qlt_le_weak]. rewrite (Qmult_comm (p / q)), Qmult_div_r in H2; [done|].
    intros H. by rewrite H in Hq.
  - by apply Qle_shift_div_l.
  - by apply Qle_shift_div_r.
Qed.

Definition summary_at (case : string) : option Summary :=
  match runs_of measurements case with [] => None | runs => Some (summary_of case runs) end.

Lemma summary_lookup case :
  case ∈ CASES -> dict_get case (omap fst (map (summarize_case measurements scenario) CASES)) = summary_at case.
Proof.
  apply dict_get_omap. intros n. unfold summarize_case, summary_at. fold (runs_of measurements n).
  by destruct (runs_of measurements n).
Qed.
Lemma missing_case case : case ∈ CASES -> summary_at case = None ->
  ~ (forall case, case ∈ CASES -> case_passes case) /\ ~ passes measurements scenario.
Proof.
  unfold summary_at. intros Hc Hn. assert (runs_of measurements case = []) as Hr by by destruct (runs_of _ _).
  split; [intros H; destruct (H case Hc) as [Hl _]|intros [H _]; pose proof (H case Hc) as Hl]; rewrite Hr in Hl; cbn in Hl; lia.
Qed.

Lemma compare_verdict nc nb tc tb :
  summary_at "native_cubic" = Some nc -> summary_at "native_bbr" = Some nb ->
  summary_at "tcpcc_cubic" = Some tc -> summary_at "tcpcc_bbr" = Some tb ->
  exists comparisons more,
    compare_cases scenario (median_goodput_mbps nc) (median_goodput_mbps nb) (median_goodput_mbps tc) (median_goodput_mbps tb) =
    Ok (comparisons, more) /\
    ((forall case, case ∈ CASES -> case_passes case) /\ forallb gate more = true <-> passes measurements scenario).
Proof.
  assert (forall case s, case ∈ CASES -> summary_at case = Some s ->
    median_goodput_mbps s = median (goodputs (runs_of measurements case)) /\ (0 < median_goodput_mbps s)%Q) as Hm.
  { intros case s Hc Hs. unfold summary_at in Hs. pose proof (positive_median case Hc) as Hp.
    destruct (runs_of measurements case); [done|]. injection Hs as <-. split; [done|]. by apply Hp. }
  intros Hnc Hnb Htc Htb. apply Hm in Hnc as [_ Hnc], Hnb as [Enb Hnb], Htc as [_ Htc], Htb as [Etb _]; [|set_solver..].
  unfold compare_cases. rewrite !divide_positive by done. cbn [mbind res_bind]. do 2 eexists. split; [done|].
  cbn [forallb]. unfold gate, observation. cbn [c_gate c_passed negb orb andb]. rewrite andb_true_r, negb_involutive, orb_true_iff.
  rewrite ratio_between, Enb, Etb by done. unfold passes, case_passes.
  destruct (performance_is_observational scenario); naive_solver.
Qed.
End verdict.

(** C38. The summary passes exactly the benchmarks that meet their scenario.
    Whatever was measured, as long as every goodput is positive, summarizing
    does not fail; the verdict is positive exactly when each of the four cases
    has its number of repetitions and, unless performance is only observed, no
    run is below the minimum and the median of tcpcc with BBR is within the ratios
    of the native one; a case has a summary exactly when it was run. *)
Theorem summarize_verdict measurements scenario :
  1 <= repetitions scenario ->
  (forall case run, case ∈ CASES -> run ∈ runs_of measurements case -> (0 < goodput_mbps run)%Q) ->
  exists summaries comparisons checks passed,
    summarize_measurements measurements scenario = Ok (summaries, comparisons, checks, passed) /\
    (passed = true <-> passes measurements scenario) /\
    (forall case, case ∈ CASES -> dict_get case summaries = summary_at measurements case).
Proof.
  intros Hreps Hpos. unfold summarize_measurements. fold gate.
  set (checks := concat _). set (summaries := omap _ _).
  assert (forall case, case ∈ CASES -> dict_get case summaries = summary_at measurements case) as Hs by apply summary_lookup.
  pose proof (cases_verdict measurements scenario) as Hv. fold checks in Hv.
  rewrite !Hs by set_solver. clearbody checks summaries.
  assert (forall case, case ∈ CASES -> summary_at measurements case = None ->
    exists s c k p, Ok (summaries, None : option Comparisons, checks, forallb gate checks) = Ok (s, c, k, p) /\
      (p = true <-> passes measurements scenario) /\
      (forall case, case ∈ CASES -> dict_get case s = summary_at measurements case)) as Hmissing.
  { intros case Hc Hn. destruct (missing_case measurements scenario Hreps case Hc Hn) as [H1 H2].
    do 4 eexists. split; [done|]. split; [|done]. rewrite Hv. by split; intros. }
  destruct (summary_at measurements "native_cubic") as [nc|] eqn:Hnc; [|by apply (Hmissing "native_cubic"); [set_solver|]].
  destruct (summary_at measurements "native_bbr") as [nb|] eqn:Hnb; [|by apply (Hmissing "native_bbr"); [set_solver|]].
  destruct (summary_at measurements "tcpcc_cubic") as [tc|] eqn:Htc; [|by apply (Hmissing "tcpcc_cubic"); [set_solver|]].
  destruct (summary_at measurements "tcpcc_bbr") as [tb|] eqn:Htb; [|by apply (Hmissing "tcpcc_bbr"); [set_solver|]].
  destruct (compare_verdict measurements scenario Hreps Hpos nc nb tc tb) as (comparisons & more & Hc & Hiff); try done.
  cbn [fmap option_fmap option_map]. rewrite Hc. cbn [mbind res_bind]. do 4 eexists. split; [done|]. split; [|done].
  change (forallb gate (checks ++ more) = true <-> passes measurements scenario).
  by rewrite forallb_app, andb_true_iff, Hv.
Qed.

Definition sample_scenario : Scenario := {|
  raw := []; scenario_id := "transoceanic"; rate_mbps := 1000; one_way_delay_ms := 100; random_loss_percent := 1 # 2;
  netem_limit_packets := 50000; mtu := 1500; duration_seconds := 20; omit_seconds := 2; repetitions := 3; settle_seconds := 1;
  minimum_goodput_mbps := 1; tcpcc_to_native_bbr_min_ratio := 7 # 10; tcpcc_to_native_bbr_max_ratio := 13 # 10;
  performance_is_observational := false |}.
Definition sample_run (q : Q) : Run := {|
  bits_per_second := q * 1000000; goodput_mbps := q; received_bytes := 1000000; seconds := 20; retransmits := 7;
  sender_tcp_congestion := "bbr"; receiver_tcp_congestion := JNull |}.
Definition sample_measurements (slow : Q) : list (string * list Run) := [
  ("native_cubic", map sample_run [2; 3; 4]); ("native_bbr", map sample_run [40; 60; 50]);
  ("tcpcc_cubic", map sample_run [5; 4; 3]); ("tcpcc_bbr", map sample_run [slow; 45; 44])]%Q.

Lemma summarize_verdict_witness :
  (exists summaries comparisons checks,
     summarize_measurements (sample_measurements 41) sample_scenario = Ok (summaries, comparisons, checks, true)) /\
  passes (sample_measurements 41) sample_scenario.
Proof.
  destruct (summarize_verdict (sample_measurements 41) sample_scenario) as (summaries & comparisons & checks & passed & H & Hp & _).
  - done.
  - intros case run Hc Hr. assert (Forall (fun case => Forall (fun run => (0 < goodput_mbps run)%Q)
      (runs_of (sample_measurements 41) case)) CASES) as Hall by (repeat constructor).
    rewrite Forall_forall in Hall. specialize (Hall case Hc). rewrite Forall_forall in Hall. by apply Hall.
  - assert (passed = true) as -> by (vm_compute in H; by injection H).
    split; [by do 3 eexists|]. by apply Hp.
Defined.

(** ** Observations *)

(** The counters of an accepted qdisc are not negative and the drop rate is a
    percentage. *)
Lemma parse_qdisc_bounds repr value kind scenario q :
  parse_qdisc_document repr value kind scenario = Ok q ->
  Benchmark.kind q = kind /\ 0 <= packets q /\ 0 <= drops q /\ (0 <= observed_drop_percent q <= 100)%Q.
Proof.
  intros H. unfold parse_qdisc_document in H. res_inv.
  assert (forall k f e z, counter repr k f e = Ok z -> 0 <= z) as Hc.
  { intros k f e z Hz. unfold counter in Hz. destruct (get f e); try done. destruct (_ <? 0) eqn:Hlt; [done|].
    bool_to_prop. by simplify_eq. }
  repeat match goal with H : counter _ _ _ _ = Ok _ |- _ => apply Hc in H end. cbn.
  split_and!; try done; destruct (_ =? 0) eqn:Hd; try done; bool_to_prop.
  - apply Qle_shift_div_l; [by rewrite <- (Zlt_Qlt 0); lia|]. rewrite Qmult_0_l, <- (Zle_Qle 0). lia.
  - apply Qle_shift_div_r; [by rewrite <- (Zlt_Qlt 0); lia|]. rewrite <- (inject_Z_mult 100), <- Zle_Qle. lia.
Qed.

(** An accepted run of tcpcc closed every connection it opened, at least two
    per repetition, and no event tells of a refused connection. *)
Lemma validated_run_accounts repr events scenario cc memory run :
  validate_tcpcc_events repr events scenario cc memory = Ok run ->
  closed_connections run = opened_connections run /\ 2 * repetitions scenario <= opened_connections run /\
  completed_data_flows run + completed_control_flows run = closed_connections run /\
  foldr Z.add 0 (map snd (terminal_statuses run)) = closed_connections run /\
  forall e s, e ∈ events -> get "event" e = JStr s -> s ∉ ["connection-rejected"; "drain-timeout"].
Proof.
  intros H. unfold validate_tcpcc_events in H. res_inv. bool_to_prop. cbn. split_and!; try lia.
  match goal with H : any_refused _ = Ok _ |- _ => rename H into Hr end. subst. revert Hr. clear. intros Hr e s He Hs.
  induction events as [|e' events IH]; [by apply not_elem_of_nil in He|]. cbn [any_refused] in Hr.
  apply elem_of_cons in He as [<-|He].
  - rewrite Hs in Hr. destruct (str_in s _) eqn:Hin; [done|]. unfold str_in in Hin. bool_to_prop. done.
  - apply IH; [|done]. destruct (get "event" e'); try done. destruct (str_in _ _); done.
Qed.
