(* ===== verification/Bridges.v ===== *)
(** * The bridge tests

    The checks [scripts/run-tcpcc-tun-test.py] and
    [scripts/run-tcpcc-control-test.py] make of what the hosted kernel answers:
    responses against expectations, bridge handles and the runtime tokens that go
    with them, results of ended bridges, service statistics, and the exact
    read from a socket.  They are the tests' own decoders of the records of
    [Control], and are compared with those. *)

From S2P Require Import Prelude PyStr Reports Py Effects Struct IpAddr Control.
Local Open Scope Z_scope.

(** ** Requests and responses *)

(** [request] *)
Definition request (op handle arg0 arg1 : Z) (data : bytes) : res bytes :=
  _ ← raise_if (MAX_PAYLOAD <? Z.of_nat (length data)) (ValueError "control payload exceeds ABI limit");
  pack REQUEST (MAGIC, (VERSION, (op, (handle, (arg0, (arg1, (Z.of_nat (length data), (ljust 256 data, tt)))))))).

Record expectation := {
  e_status : option Z;
  e_handle : option Z;
  e_length : option Z;
  e_data : option bytes;
}.
Definition no_expectation : expectation := {| e_status := None; e_handle := None; e_length := None; e_data := None |}.

(** [transact], from the bytes of the response on *)
Definition check_response (op : Z) (raw : bytes) (x : expectation) : res (Z * Z * bytes) :=
  let failure text := RuntimeError ("op " +:+ str_of_Z op +:+ " " +:+ text) in
  let '(magic, (version, (response_op, (status, (handle, (length, (raw_data, _))))))) := unpack RESPONSE raw in
  _ ← raise_if (negb (magic =? MAGIC) || negb (version =? VERSION) || negb (response_op =? op))
        (failure ("response header mismatch: magic=0x" +:+ hex8 magic +:+ " version=" +:+ str_of_Z version
                  +:+ " op=" +:+ str_of_Z response_op));
  let expected_status := default 0 (e_status x) in
  _ ← raise_if (negb (status =? expected_status))
        (failure ("returned " +:+ str_of_Z status +:+ ", expected " +:+ str_of_Z expected_status));
  _ ← raise_if (MAX_PAYLOAD <? length) (failure ("returned oversized payload " +:+ str_of_Z length));
  _ ← match e_handle x with
      | Some h => raise_if (negb (handle =? h)) (failure ("expected handle " +:+ str_of_Z h +:+ ", got " +:+ str_of_Z handle))
      | None => Ok tt
      end;
  _ ← match e_length x with
      | Some l => raise_if (negb (length =? l)) (failure ("expected length " +:+ str_of_Z l +:+ ", got " +:+ str_of_Z length))
      | None => Ok tt
      end;
  _ ← match e_data x with
      | Some d => raise_if (negb (length =? Z.of_nat (List.length d)) || negb (bool_decide (take (Z.to_nat length) raw_data = d)))
                    (failure "payload mismatch")
      | None => Ok tt
      end;
  Ok (handle, length, take (Z.to_nat length) raw_data).

(** ** Handles and tokens *)

Definition BRIDGE_SESSION_LIMIT : Z := 1048575.
Definition BRIDGE_RUNTIME_SLOT_BASE : Z := 2.
Definition BRIDGE_HANDLE_SLOT_BITS : Z := 20.
Definition BRIDGE_HANDLE_SLOT_MASK : Z := 0x000FFFFF.
Definition BRIDGE_HANDLE_GENERATION_MASK : Z := 0x000007FF.
Definition BRIDGE_BUFFER_LIMIT : Z := 16 * 1024.
Definition BRIDGE_TOTAL_BUFFER_LIMIT : Z := 256 * 1024.
Definition HOST_EVENT_ERROR : Z := Z.shiftl 1 3.
Definition ECANCELED : Z := 125.

Definition decode_bridge_handle (handle : Z) (label : string) : res (Z * Z) :=
  _ ← raise_if (handle <=? 0) (RuntimeError (label +:+ ": invalid bridge handle " +:+ str_of_Z handle));
  let raw := Z.land handle 0xFFFFFFFF in
  let slot := Z.land raw BRIDGE_HANDLE_SLOT_MASK in
  let generation := Z.shiftr raw BRIDGE_HANDLE_SLOT_BITS in
  _ ← raise_if ((slot <? 1) || (BRIDGE_SESSION_LIMIT <? slot))
        (RuntimeError (label +:+ ": invalid bridge handle slot " +:+ str_of_Z slot));
  _ ← raise_if ((generation <? 1) || (BRIDGE_HANDLE_GENERATION_MASK <? generation))
        (RuntimeError (label +:+ ": invalid bridge handle generation " +:+ str_of_Z generation));
  Ok (slot - 1, generation).

(** [f"{z:016x}"] *)
Definition hex16 (z : Z) : string :=
  let h := hex_of_Z z in String.concat EmptyString (replicate (16 - String.length h) "0") +:+ h.

Definition token_slot (token : Z) : Z := Z.land token 0xFFFFFFFF.
Definition token_generation (token : Z) : Z := Z.land (Z.shiftr token 32) 0x7FFFFFFF.
Definition token_marked (token : Z) : bool := negb (Z.land token (Z.shiftl 1 63) =? 0).

(** ** Results of bridges *)

(** The dictionary the validators return: the fields of the record, with the
    slot and the generation of the handle. *)
Record BridgeReport := { slot : Z; generation : Z; result : BridgeResult }.

(** [BRIDGE_RESULT.unpack(raw_result)] *)
Definition unpack_result (raw : bytes) : res (BridgeResult * Z * Z) :=
  _ ← raise_if (negb (length raw =? calcsize BRIDGE_RESULT)%nat) struct_error;
  let '(token, (public_to_backend, (backend_to_public, (buffer_limit, (total_buffer_limit,
        (terminal_events, (host_send_eagain, (host_partial_writes, (host_recv_eagain,
        (session_limit, (status, (reserved0, (reserved1, _))))))))))))) := unpack BRIDGE_RESULT raw in
  Ok ({| token := token; public_to_backend_bytes := public_to_backend; backend_to_public_bytes := backend_to_public;
         buffer_limit := buffer_limit; total_buffer_limit := total_buffer_limit; terminal_events := terminal_events;
         host_send_eagain := host_send_eagain; host_partial_writes := host_partial_writes;
         host_recv_eagain := host_recv_eagain; session_limit := session_limit; br_status := status |}, reserved0, reserved1).

Definition validate_bridge_result (handle : Z) (raw_result payload : bytes) (label : string) : res BridgeReport :=
  '(r, reserved0, reserved1) ← unpack_result raw_result;
  '(slot, handle_generation) ← decode_bridge_handle handle label;
  let failure text := RuntimeError (label +:+ ": " +:+ text) in
  let expected_token_slot := BRIDGE_RUNTIME_SLOT_BASE + slot in
  _ ← raise_if (negb (token_marked (token r)) || negb (token_slot (token r) =? expected_token_slot))
        (failure ("invalid runtime token 0x" +:+ hex16 (token r)));
  _ ← raise_if (negb (token_generation (token r) =? handle_generation))
        (failure ("token generation " +:+ str_of_Z (token_generation (token r)) +:+ " != handle generation "
                  +:+ str_of_Z handle_generation));
  let size := Z.of_nat (length payload) in
  _ ← raise_if (negb (public_to_backend_bytes r =? size) || negb (backend_to_public_bytes r =? size))
        (failure ("byte counters mismatch: public-to-backend=" +:+ str_of_Z (public_to_backend_bytes r)
                  +:+ " backend-to-public=" +:+ str_of_Z (backend_to_public_bytes r) +:+ " expected=" +:+ str_of_Z size));
  _ ← raise_if (negb (buffer_limit r =? BRIDGE_BUFFER_LIMIT))
        (failure ("buffer limit " +:+ str_of_Z (buffer_limit r) +:+ " != " +:+ str_of_Z BRIDGE_BUFFER_LIMIT));
  _ ← raise_if (negb (total_buffer_limit r =? BRIDGE_TOTAL_BUFFER_LIMIT))
        (failure ("total buffer limit " +:+ str_of_Z (total_buffer_limit r) +:+ " != " +:+ str_of_Z BRIDGE_TOTAL_BUFFER_LIMIT));
  _ ← raise_if (negb (session_limit r =? BRIDGE_SESSION_LIMIT))
        (failure ("session limit " +:+ str_of_Z (session_limit r) +:+ " != " +:+ str_of_Z BRIDGE_SESSION_LIMIT));
  _ ← raise_if (negb (Z.land (terminal_events r) HOST_EVENT_ERROR =? 0))
        (failure ("terminal host error mask 0x" +:+ hex_of_Z (terminal_events r)));
  _ ← raise_if (negb (br_status r =? 0) || negb (reserved0 =? 0) || negb (reserved1 =? 0))
        (failure ("status=" +:+ str_of_Z (br_status r) +:+ " reserved=" +:+ str_of_Z reserved0 +:+ "/" +:+ str_of_Z reserved1));
  Ok {| slot := slot; generation := handle_generation; result := r |}.

Definition validate_terminal_bridge_result (handle : Z) (raw_result : bytes) (label : string) : res BridgeReport :=
  '(r, reserved0, reserved1) ← unpack_result raw_result;
  '(slot, handle_generation) ← decode_bridge_handle handle label;
  let failure text := RuntimeError (label +:+ ": " +:+ text) in
  _ ← raise_if (negb (token_marked (token r)) || negb (token_slot (token r) =? BRIDGE_RUNTIME_SLOT_BASE + slot)
                || negb (token_generation (token r) =? handle_generation))
        (failure ("invalid terminal token 0x" +:+ hex16 (token r)));
  _ ← raise_if (negb (buffer_limit r =? BRIDGE_BUFFER_LIMIT) || negb (total_buffer_limit r =? BRIDGE_TOTAL_BUFFER_LIMIT)
                || negb (session_limit r =? BRIDGE_SESSION_LIMIT))
        (failure ("terminal resource contract changed: buffer=" +:+ str_of_Z (buffer_limit r) +:+ "/"
                  +:+ str_of_Z (total_buffer_limit r) +:+ " sessions=" +:+ str_of_Z (session_limit r)));
  _ ← raise_if (0 <=? br_status r) (failure ("reset bridge returned non-error status " +:+ str_of_Z (br_status r)));
  _ ← raise_if (br_status r =? - ECANCELED) (failure "endpoint reset was reported as cancellation");
  _ ← raise_if (negb (reserved0 =? 0) || negb (reserved1 =? 0))
        (failure ("terminal result reserved=" +:+ str_of_Z reserved0 +:+ "/" +:+ str_of_Z reserved1));
  Ok {| slot := slot; generation := handle_generation; result := r |}.

(** [decode_service_stats] of the tests: the values of the record in the state
    that is expected. *)
Definition stats_list (raw : bytes) : list Z :=
  let '(v0, (v1, (v2, (v3, (v4, (v5, (v6, (v7, (v8, (v9, (v10, (v11, (v12, (v13, (r0, (r1, (r2, _)))))))))))))))))
    := unpack SERVICE_STATS raw in
  [v0; v1; v2; v3; v4; v5; v6; v7; v8; v9; v10; v11; v12; v13; r0; r1; r2].
Definition test_service_stats (raw : bytes) (expected_state : Z) : res (list Z) :=
  _ ← raise_if (negb (length raw =? calcsize SERVICE_STATS)%nat)
        (RuntimeError ("hosted service stats are " +:+ str_of_Z (Z.of_nat (length raw)) +:+ " bytes, expected "
                       +:+ str_of_Z (Z.of_nat (calcsize SERVICE_STATS))));
  let values := stats_list raw in
  let state := nth 12 values 0 in
  _ ← raise_if (negb (state =? expected_state))
        (RuntimeError ("hosted service state is " +:+ str_of_Z state +:+ ", expected " +:+ str_of_Z expected_state));
  let reserved := drop 14 values in
  _ ← raise_if ((0 <? nth 13 values 0) || existsb (fun v => negb (v =? 0)) reserved)
        (RuntimeError ("hosted service stats contain invalid error/reserved fields: last_error="
                       +:+ str_of_Z (nth 13 values 0) +:+ " reserved=" +:+ tuple_str reserved));
  Ok values.

(** ** Reading from a socket *)

(** What the peer sends, in the pieces in which it arrives, and [recv(n)]. *)
Definition stream : Type := list bytes.
Definition recv (n : nat) (sock : stream) : bytes * stream :=
  match sock with
  | [] => ([], [])
  | chunk :: sock => if (length chunk <=? n)%nat then (chunk, sock) else (take n chunk, drop n chunk :: sock)
  end.

(** [recv_exact]; every turn takes at least one byte. *)
Fixpoint recv_loop (fuel len : nat) (data : bytes) (sock : stream) : option (res bytes * stream) :=
  if (len <=? length data)%nat then Some (Ok data, sock)
  else
    match fuel with
    | O => None
    | S fuel =>
        let '(chunk, sock) := recv (len - length data) sock in
        match chunk with
        | [] => Some (Err (EOFError ("host TCP EOF after " +:+ str_of_Z (Z.of_nat (length data)) +:+ "/"
                                     +:+ str_of_Z (Z.of_nat len) +:+ " bytes")), sock)
        | _ => recv_loop fuel len (data ++ chunk) sock
        end
    end.
Definition recv_exact (fuel len : nat) (sock : stream) : option (res bytes * stream) := recv_loop fuel len [] sock.

(** [make_payload] and [host_backend_payload] *)
Definition make_payload (prefix : bytes) (size : nat) : res bytes :=
  _ ← raise_if (size <? length prefix)%nat (ValueError "payload prefix is too large");
  Ok (prefix ++ map (fun index => z2b (Z.land (Z.of_nat index * 73 + 19) 0xFF)) (seq 0 (size - length prefix))).
Definition host_backend_payload : bytes := map (fun offset => z2b (Z.land (Z.of_nat offset * 37 + 11) 0xFF)) (seq 0 192).

(** [ping_command] *)
Definition GUEST : string := "192.0.2.2".
Definition ping_command (name : string) (count payload : Z) (df : bool) : list string :=
  ["ping"; "-4"; "-n"; "-q"; "-I"; name; "-c"; str_of_Z count; "-i"; "0.05"; "-W"; "1"]
  ++ (if df then ["-M"; "do"] else []) ++ ["-s"; str_of_Z payload; GUEST].

(** ** Handles *)

Lemma land_mod z n : 0 <= n -> Z.land z (Z.ones n) = z mod 2 ^ n.
Proof. apply Z.land_ones. Qed.

(** The slot and the generation are the digits of the handle. *)
Lemma decode_bridge_handle_iff handle label s g :
  handle < 2 ^ 32 ->
  decode_bridge_handle handle label = Ok (s, g) <->
  0 <= s < BRIDGE_SESSION_LIMIT /\ 1 <= g <= 2047 /\ handle = g * 2 ^ 20 + (s + 1).
Proof.
  intros Hh. unfold decode_bridge_handle, BRIDGE_SESSION_LIMIT, BRIDGE_HANDLE_GENERATION_MASK, BRIDGE_HANDLE_SLOT_BITS.
  assert (0 < handle -> Z.land handle 0xFFFFFFFF = handle) as Hraw.
  { intros Hp. rewrite (land_mod handle 32 ltac:(lia) : Z.land handle 0xFFFFFFFF = _). apply Z.mod_small. lia. }
  assert (Z.land handle BRIDGE_HANDLE_SLOT_MASK = handle mod 2 ^ 20) as Hs by by apply (land_mod handle 20).
  assert (Z.shiftr handle 20 = handle / 2 ^ 20) as Hg by by apply Z.shiftr_div_pow2.
  split.
  - intros H. res_inv. bool_to_prop. rewrite Hraw, Hs in * by lia. rewrite Hg in *.
    change (2 ^ 20) with 1048576 in *. pose proof (Z.div_mod handle 1048576). lia.
  - intros (Hs' & Hg' & ->). rewrite (proj2 (Z.leb_gt _ _)) by lia. cbn [raise_if mbind res_bind].
    rewrite Hraw, Hs, Hg by lia. change (2 ^ 20) with 1048576.
    rewrite Z.add_comm, Z.div_add, Z.mod_add, Z.div_small, Z.mod_small by lia.
    rewrite (proj2 (Z.ltb_ge _ _)), (proj2 (Z.ltb_ge _ _)) by lia. cbn [raise_if mbind res_bind orb].
    rewrite (proj2 (Z.ltb_ge _ _)), (proj2 (Z.ltb_ge _ _)) by lia. cbn [raise_if mbind res_bind orb].
    do 2 f_equal; lia.
Qed.

(** A runtime token is a mark, a generation and a slot. *)
Lemma token_parts token s g :
  0 <= token < 2 ^ 64 ->
  token_marked token = true /\ token_slot token = s /\ token_generation token = g <->
  0 <= s < 2 ^ 32 /\ 0 <= g < 2 ^ 31 /\ token = 2 ^ 63 + g * 2 ^ 32 + s.
Proof.
  intros Ht. unfold token_marked, token_slot, token_generation.
  assert (Z.land token 0xFFFFFFFF = token mod 2 ^ 32) as -> by by apply (land_mod token 32).
  assert (Z.land (Z.shiftr token 32) 0x7FFFFFFF = (token / 2 ^ 32) mod 2 ^ 31) as ->.
  { rewrite <- Z.shiftr_div_pow2 by lia. by apply (land_mod _ 31). }
  assert (negb (Z.land token (Z.shiftl 1 63) =? 0) = (2 ^ 63 <=? token)) as ->.
  { rewrite Z.shiftl_1_l. assert (Z.testbit token 63 = (2 ^ 63 <=? token)) as Hb.
    { apply eq_true_iff_eq.
      rewrite Z.testbit_true, Z.leb_le by lia.
      change (2 ^ 63) with 9223372036854775808. change (2 ^ 64) with 18446744073709551616 in Ht. Z.to_euclidean_division_equations; lia. }
    rewrite <- Hb. destruct (Z.testbit token 63) eqn:H63.
    - apply negb_true_iff, Z.eqb_neq. intros H0. apply (f_equal (fun z => Z.testbit z 63)) in H0.
      rewrite Z.land_spec, H63, Z.pow2_bits_true, Z.bits_0 in H0 by lia. done.
    - apply negb_false_iff, Z.eqb_eq. apply Z.bits_inj'. intros n Hn. rewrite Z.land_spec, Z.pow2_bits_eqb, Z.bits_0 by lia.
      destruct (63 =? n) eqn:Hn63; [|apply andb_false_r]. bool_to_prop. subst. by rewrite H63. }
  rewrite Z.leb_le. change (2 ^ 63) with 9223372036854775808. change (2 ^ 64) with 18446744073709551616 in Ht.
  change (2 ^ 32) with 4294967296. change (2 ^ 31) with 2147483648. Z.to_euclidean_division_equations; lia.
Qed.

(** ** Results *)

Lemma unpack_result_clean raw r : unpack_result raw = Ok (r, 0, 0) <-> pack BRIDGE_RESULT (bridge_values r) = Ok raw.
Proof.
  rewrite unpack_int_iff by done. unfold unpack_result. split.
  - intros H. res_inv. bool_to_prop.
    destruct (unpack BRIDGE_RESULT raw) as (t & p & q & bl & tl & te & hs & hp & hr & sl & st & r0 & r1 & []). by simplify_eq.
  - intros [Hl Hu]. rewrite Hl, Nat.eqb_refl. cbn [negb raise_if mbind res_bind]. rewrite Hu. by destruct r.
Qed.

Lemma result_token_range raw r : pack BRIDGE_RESULT (bridge_values r) = Ok raw -> 0 <= token r < 2 ^ 64.
Proof.
  intros H%pack_int_fits; [|done]. unfold BRIDGE_RESULT, bridge_values in H. cbn [values_fit fst snd] in H.
  apply andb_true_iff in H as [H _]. unfold uint_fits in H. change (8 * Z.of_nat 8) with 64 in H. bool_to_prop. done.
Qed.

(** The token that goes with a handle of this slot and generation. *)
Definition runtime_token (r : BridgeReport) : Z := 2 ^ 63 + generation r * 2 ^ 32 + (slot r + BRIDGE_RUNTIME_SLOT_BASE).

(** What both validators require. *)
Definition same_bridge (handle : Z) (r : BridgeReport) : Prop :=
  0 <= slot r < BRIDGE_SESSION_LIMIT /\ 1 <= generation r <= 2047 /\ handle = generation r * 2 ^ 20 + (slot r + 1) /\
  token (result r) = runtime_token r /\ buffer_limit (result r) = BRIDGE_BUFFER_LIMIT /\
  total_buffer_limit (result r) = BRIDGE_TOTAL_BUFFER_LIMIT /\ session_limit (result r) = BRIDGE_SESSION_LIMIT.

Lemma token_matches raw r s g :
  pack BRIDGE_RESULT (bridge_values r) = Ok raw -> 0 <= s < BRIDGE_SESSION_LIMIT -> 1 <= g <= 2047 ->
  token_marked (token r) = true /\ token_slot (token r) = BRIDGE_RUNTIME_SLOT_BASE + s /\ token_generation (token r) = g <->
  token r = runtime_token {| slot := s; generation := g; result := r |}.
Proof.
  intros Hr%result_token_range Hs Hg. rewrite token_parts by done. unfold runtime_token, BRIDGE_RUNTIME_SLOT_BASE, BRIDGE_SESSION_LIMIT in *.
  cbn [slot generation]. change (2 ^ 32) with 4294967296. change (2 ^ 31) with 2147483648. lia.
Qed.

(** The tests accept exactly the results the service would: an ended bridge is
    accepted when its record is one that [decode_bridge_result] reads without an
    error, when the token carries the slot and the generation of the handle, when
    both directions carried the whole payload, and when the limits are those of
    the hosted kernel and no error event was seen. *)
Theorem validate_bridge_result_iff handle raw payload label r :
  handle < 2 ^ 32 ->
  validate_bridge_result handle raw payload label = Ok r <->
  decode_bridge_result (VBytes raw) false = Ok (result r) /\ same_bridge handle r /\
  public_to_backend_bytes (result r) = Z.of_nat (length payload) /\
  backend_to_public_bytes (result r) = Z.of_nat (length payload) /\
  Z.land (terminal_events (result r)) HOST_EVENT_ERROR = 0.
Proof.
  intros Hh. rewrite decode_bridge_result_iff. unfold validate_bridge_result, same_bridge. split.
  - intros H. res_inv. destruct x as [[r' r0] r1]. res_inv. destruct x as [s g]. res_inv. bool_to_prop. subst.
    match goal with H : unpack_result _ = _ |- _ => apply unpack_result_clean in H end.
    match goal with H : decode_bridge_handle _ _ = _ |- _ => apply decode_bridge_handle_iff in H as (? & ? & ?); [|done] end.
    cbn [result slot generation]. split_and!; try done; try (unfold BRIDGE_SESSION_LIMIT in *; lia).
    by apply (token_matches raw).
  - intros ((Hp & Hst & Hst0 & _) & (Hs & Hg & Hhandle & Htok & Hbl & Htl & Hsl) & Hpb & Hbp & Hev).
    destruct r as [s g r]. cbn [result slot generation] in *.
    rewrite (proj2 (unpack_result_clean raw r)) by done. cbn [mbind res_bind].
    rewrite (proj2 (decode_bridge_handle_iff handle label s g Hh)) by done. cbn [mbind res_bind].
    apply (token_matches raw) in Htok as (Hm & Hts & Htg); [|done..].
    rewrite Hm, Hts, Htg, Hpb, Hbp, Hbl, Htl, Hsl, Hev, Hst0, !Z.eqb_refl by done. done.
Qed.

(** A bridge that ended with an error, likewise: its status is an error other
    than cancellation. *)
Theorem validate_terminal_bridge_result_iff handle raw label r :
  handle < 2 ^ 32 ->
  validate_terminal_bridge_result handle raw label = Ok r <->
  decode_bridge_result (VBytes raw) true = Ok (result r) /\ same_bridge handle r /\
  br_status (result r) < 0 /\ br_status (result r) <> - ECANCELED.
Proof.
  intros Hh. rewrite decode_bridge_result_iff. unfold validate_terminal_bridge_result, same_bridge. split.
  - intros H. res_inv. destruct x as [[r' r0] r1]. res_inv. destruct x as [s g]. res_inv. bool_to_prop. subst.
    match goal with H : unpack_result _ = _ |- _ => apply unpack_result_clean in H end.
    match goal with H : decode_bridge_handle _ _ = _ |- _ => apply decode_bridge_handle_iff in H as (? & ? & ?); [|done] end.
    cbn [result slot generation]. split_and!; try done; try (unfold BRIDGE_SESSION_LIMIT in *; lia).
    by apply (token_matches raw).
  - intros ((Hp & Hst & _ & _) & (Hs & Hg & Hhandle & Htok & Hbl & Htl & Hsl) & Hneg & Hcan).
    destruct r as [s g r]. cbn [result slot generation] in *.
    rewrite (proj2 (unpack_result_clean raw r)) by done. cbn [mbind res_bind].
    rewrite (proj2 (decode_bridge_handle_iff handle label s g Hh)) by done. cbn [mbind res_bind].
    apply (token_matches raw) in Htok as (Hm & Hts & Htg); [|done..].
    rewrite Hm, Hts, Htg, Hbl, Htl, Hsl, !Z.eqb_refl, (proj2 (Z.leb_gt _ _)), (proj2 (Z.eqb_neq _ _)) by done. done.
Qed.

(** The statistics of the service, likewise. *)
Lemma test_service_stats_iff raw expected values :
  test_service_stats raw expected = Ok values <->
  values = stats_list raw /\ exists r, decode_service_stats (VBytes raw) = Ok r /\ state r = expected.
Proof.
  unfold test_service_stats, stats_list. setoid_rewrite decode_service_stats_iff. setoid_rewrite unpack_int_iff; [|done..].
  destruct (unpack SERVICE_STATS raw) as (v0&v1&v2&v3&v4&v5&v6&v7&v8&v9&v10&v11&v12&v13&r0&r1&r2&[]). cbn -[str_of_Z calcsize]. split.
  - intros H. res_inv. bool_to_prop. split; [done|].
    exists {| accepted_connections := v0; completed_connections := v1; rejected_connections := v2; ss_public_to_backend_bytes := v3;
      ss_backend_to_public_bytes := v4; active_connections := v5; peak_connections := v6; ss_max_connections := v7;
      accept_batch := v8; accept_eagain := v9; bridge_start_failures := v10; terminal_failures := v11; state := v12;
      last_error := v13 |}. subst. by split_and!.
  - intros (-> & r & ([Hl Hu] & He) & <-). rewrite Hl, Nat.eqb_refl. unfold service_values in Hu. simplify_eq. cbn [negb raise_if mbind res_bind].
    by rewrite (Z.eqb_refl (state r)), (proj2 (Z.ltb_ge 0 (last_error r)) He).
Qed.

(** ** Responses *)

(** What a test takes from a response is what the client of the service
    decodes, with the status that was expected. *)
Lemma check_response_sound op raw x handle len data :
  length raw = calcsize RESPONSE -> check_response op raw x = Ok (handle, len, data) ->
  decode_response (VBytes raw) op =
    Ok {| operation := op; status := default 0 (e_status x); handle := handle; data := data |} /\
  (forall h, e_handle x = Some h -> handle = h) /\ (forall l, e_length x = Some l -> len = l) /\
  (forall d, e_data x = Some d -> data = d).
Proof.
  intros Hl H. unfold check_response in H. unfold decode_response.
  assert (exact_bytes (VBytes raw) (calcsize RESPONSE) "control response has" = Ok raw) as -> by by apply exact_bytes_Ok.
  cbn [mbind res_bind]. destruct (unpack RESPONSE raw) as (m & v & o & st & h & n & d & []). res_inv. bool_to_prop. subst.
  rewrite !Z.eqb_refl, (proj2 (Z.ltb_ge _ _)) by done. cbn [negb raise_if mbind res_bind].
  destruct (e_handle x), (e_length x), (e_data x); res_inv; bool_to_prop; subst; split_and!; try done; by intros ? [= <-].
Qed.

(** ** Exact reads *)

Lemma recv_loop_exact fuel len data sock :
  Forall (fun chunk => chunk <> []) sock -> (len - length data <= fuel)%nat -> (length data <= len)%nat ->
  exists r sock', recv_loop fuel len data sock = Some (r, sock') /\
    if (len - length data <=? length (concat sock))%nat
    then r = Ok (data ++ take (len - length data) (concat sock)) /\ concat sock' = drop (len - length data) (concat sock)
    else sock' = [] /\ r = Err (EOFError ("host TCP EOF after " +:+ str_of_Z (Z.of_nat (length data + length (concat sock)))
                                          +:+ "/" +:+ str_of_Z (Z.of_nat len) +:+ " bytes")).
Proof.
  revert data sock. induction fuel as [|fuel IH]; intros data sock Hs Hf Hl; cbn [recv_loop].
  all: destruct (len <=? length data)%nat eqn:Hle; bool_to_prop; try lia.
  1, 2: replace (len - length data)%nat with 0%nat by lia; do 2 eexists; split; [done|]; cbn [Nat.leb];
    by rewrite take_0, drop_0, app_nil_r.
  remember (len - length data)%nat as n eqn:Hn. destruct sock as [|chunk sock]; cbn [recv].
  { do 2 eexists. split; [done|]. cbn [concat length]. rewrite (proj2 (Nat.leb_gt _ _)) by lia. by rewrite Nat.add_0_r. }
  apply Forall_cons in Hs as [Hc Hs]. destruct (length chunk <=? n)%nat eqn:Hcn; bool_to_prop.
  - destruct chunk as [|b chunk]; [done|]. remember (b :: chunk) as c eqn:Ec.
    assert (1 <= length c)%nat by (subst c; cbn; lia).
    destruct (IH (data ++ c) sock) as (r & sock' & -> & Hr); [done|rewrite length_app; lia|rewrite length_app; lia|].
    exists r, sock'. split; [done|]. rewrite length_app in Hr. cbn [concat]. rewrite length_app.
    replace (len - (length data + length c))%nat with (n - length c)%nat in Hr by lia.
    destruct (n - length c <=? length (concat sock))%nat eqn:H1; bool_to_prop.
    + rewrite (proj2 (Nat.leb_le _ _)) by lia. rewrite take_app_ge, drop_app_ge by lia. by rewrite app_assoc.
    + rewrite (proj2 (Nat.leb_gt _ _)) by lia. by rewrite Nat.add_assoc.
  - destruct (take n chunk) as [|b t] eqn:Ht.
    { apply (f_equal length) in Ht. rewrite length_take in Ht. cbn in Ht. lia. }
    rewrite <- Ht. assert (length (take n chunk) = n) as Htl by (rewrite length_take; lia).
    destruct (IH (data ++ take n chunk) (drop n chunk :: sock)) as (r & sock' & -> & Hr).
    + constructor; [|done]. intros Hd%(f_equal length). rewrite length_drop in Hd. cbn in Hd. lia.
    + rewrite length_app. lia.
    + rewrite length_app. lia.
    + exists r, sock'. split; [done|]. rewrite length_app, Htl in Hr. replace (len - (length data + n))%nat with 0%nat in Hr by lia.
      cbn [Nat.leb concat] in *. rewrite length_app, (proj2 (Nat.leb_le _ _)) by lia. rewrite take_app_le, drop_app_le by lia.
      rewrite take_0, drop_0, app_nil_r in Hr. done.
Qed.

(** An exact read ends with exactly the bytes asked for, however they arrive:
    with one turn per byte it returns the first bytes of the stream and leaves
    the rest when the peer sends enough, and raises [EOFError] with the number
    received when it does not. *)
Theorem recv_exact_delivers fuel len sock :
  Forall (fun chunk => chunk <> []) sock -> (len <= fuel)%nat ->
  exists r rest, recv_exact fuel len sock = Some (r, rest) /\
    if (len <=? length (concat sock))%nat
    then r = Ok (take len (concat sock)) /\ concat rest = drop len (concat sock)
    else rest = [] /\ r = Err (EOFError ("host TCP EOF after " +:+ str_of_Z (Z.of_nat (length (concat sock)))
                                         +:+ "/" +:+ str_of_Z (Z.of_nat len) +:+ " bytes")).
Proof.
  intros Hs Hf. destruct (recv_loop_exact fuel len [] sock Hs) as (r & rest & H & Hr); [cbn; lia|cbn; lia|].
  exists r, rest. split; [exact H|]. cbn [length] in Hr. by rewrite Nat.sub_0_r in Hr.
Qed.

Lemma recv_exact_delivers_witness :
  recv_exact 5 5 [map z2b [1; 2]; map z2b [3; 4; 5; 6]; map z2b [7]] =
  Some (Ok (map z2b [1; 2; 3; 4; 5]), [map z2b [6]; map z2b [7]]).
Proof.
  destruct (recv_exact_delivers 5 5 [map z2b [1; 2]; map z2b [3; 4; 5; 6]; map z2b [7]]) as (r & rest & H & Hr).
  - by repeat constructor.
  - done.
  - rewrite H. vm_compute in Hr. destruct Hr as [-> _]. vm_compute in H. injection H as <-. vm_compute. reflexivity.
Defined.

Definition sample_result : bytes :=
  default [] (match pack BRIDGE_RESULT (2 ^ 63 + 7 * 2 ^ 32 + 5, (3, (3, (16384, (262144, (4, (1, (0, (2, (1048575, (0, (0, (0, tt)))))))))))))
              with Ok b => Some b | Err _ => None end).

Lemma validate_bridge_result_iff_witness :
  7 * 2 ^ 20 + 4 < 2 ^ 32 /\
  exists r, validate_bridge_result (7 * 2 ^ 20 + 4) sample_result (map z2b [1; 2; 3]) "sample" = Ok r /\
    slot r = 3 /\ generation r = 7 /\ decode_bridge_result (VBytes sample_result) false = Ok (result r).
Proof.
  split; [lia|].
  destruct (validate_bridge_result (7 * 2 ^ 20 + 4) sample_result (map z2b [1; 2; 3]) "sample") as [r|e] eqn:H;
    [|vm_compute in H; discriminate H].
  exists r. split; [done|]. pose proof H as H'. apply (validate_bridge_result_iff (7 * 2 ^ 20 + 4)) in H' as (Hd & _); [|lia].
  vm_compute in H. injection H as <-. by split_and!.
Defined.
