(* ===== verification/Capacity.v ===== *)
(** * Capacity discovery

    The parts of [scripts/run-tcpcc-capacity-discovery.py] that decide: the
    levels of a run, the limit on descriptors, the figures read from [/proc], the
    wait for a number of active connections, the idle limits and the gate on
    memory stability.  Files and the clock are arguments: the text of a file, or
    the sequence of what was observed. *)

From S2P Require Import Prelude PyStr Reports Py Effects Json Struct IpAddr Control Benchmark Bridges.
From Stdlib Require Import Sorted.
Local Open Scope Z_scope.

(** ** Levels *)

(** [sorted(set(levels))] *)
Fixpoint insert_z (z : Z) (l : list Z) : list Z :=
  match l with
  | [] => [z]
  | y :: l => if z <=? y then z :: y :: l else y :: insert_z z l
  end.
Definition sorted_set (l : list Z) : list Z := foldr insert_z [] (remove_dups l).

Definition level_range_error : exn :=
  ArgumentTypeError ("levels must be unique increasing values from 1 through " +:+ str_of_Z BRIDGE_SESSION_LIMIT).

Definition parse_levels (value : string) : res (list Z) :=
  levels ← res_of_option (ArgumentTypeError "levels must be comma-separated integers") (mapM int_of (split_on "," value));
  _ ← raise_if (bool_decide (levels = []) || existsb (fun level => (level <? 1) || (BRIDGE_SESSION_LIMIT <? level)) levels
                || negb (bool_decide (sorted_set levels = levels)))
        level_range_error;
  Ok levels.

(** ** Descriptors *)

Definition RLIM_INFINITY : Z := -1.
(** [setrlimit] has the new limits in effect, or raises. *)
Definition ensure_driver_fd_capacity (setrlimit : Z * Z -> res (Z * Z)) (limits : Z * Z) (connections : Z) : res (Z * Z) :=
  let required := connections * 2 + 256 in
  let '(soft, hard) := limits in
  '(soft, hard) ← (if soft <? required
                   then setrlimit (if hard =? RLIM_INFINITY then required else Z.min required hard, hard)
                   else Ok (soft, hard));
  _ ← raise_if (soft <? required)
        (RuntimeError ("capacity driver needs RLIMIT_NOFILE >= " +:+ str_of_Z required +:+ ", got " +:+ str_of_Z soft));
  Ok (soft, hard).

(** ** Process figures *)

Definition int_text (text : string) : res Z :=
  res_of_option (ValueError ("invalid literal for int() with base 10: " +:+ py_repr text)) (int_of text).

(** [line.partition(":")], when there is a separator *)
Definition partition_colon (line : string) : option (string * string) :=
  n ← str_find ":" line; Some (str_take n line, str_drop (S n) line).

(** [text.strip().split()[0]] *)
Definition first_word (text : string) : res string :=
  res_of_option (Sys (SException "IndexError" "list index out of range")) (head (split_ws (str_strip text))).

(** The loops over the lines of a file: the values of the wanted keys, the last
    one of each, where [read] takes a value from its text. *)
Fixpoint read_fields (strip : bool) (read : string -> res Z) (keys lines : list string) (found : gmap string Z) : res (gmap string Z) :=
  match lines with
  | [] => Ok found
  | line :: lines =>
      match partition_colon line with
      | Some (key, raw) =>
          let key := if strip then str_strip key else key in
          if str_in key keys then v ← read raw; read_fields strip read keys lines (<[key := v]> found)
          else read_fields strip read keys lines found
      | None => read_fields strip read keys lines found
      end
  end.
Definition kib (raw : string) : res Z := word ← first_word raw; int_text word.
Definition io_count (raw : string) : res Z := int_text (str_strip raw).

Definition missing (keys : list string) (found : gmap string Z) : list string :=
  sort_on id (filter (fun k => found !! k = None) keys).
Definition require (path : string) (keys : list string) (found : gmap string Z) : res unit :=
  raise_if (negb (bool_decide (missing keys found = []))) (RuntimeError (path +:+ " is missing " +:+ py_repr_list (missing keys found))).

(** The files of one process; [p_rollup] is [None] where it cannot be read. *)
Record Proc := {
  p_status : string;
  p_rollup : option string;
  p_stat : string;
  p_fds : Z;
  p_io : string;
}.

Record Metrics := {
  rss_kib : Z;
  pss_kib : option Z;
  private_dirty_kib : option Z;
  anonymous_kib : option Z;
  virtual_kib : Z;
  threads : Z;
  host_fds : Z;
  cpu_ticks : Z;
  voluntary_context_switches : Z;
  nonvoluntary_context_switches : Z;
  read_syscalls : Z;
  write_syscalls : Z;
  read_bytes : Z;
  write_bytes : Z;
  smaps_rollup_available : bool;
  rss_source : string;
}.

Definition STATUS_KEYS : list string :=
  ["VmRSS"; "VmSize"; "RssAnon"; "Threads"; "voluntary_ctxt_switches"; "nonvoluntary_ctxt_switches"].
Definition ROLLUP_KEYS : list string := ["Rss"; "Pss"; "Private_Dirty"; "Anonymous"].
Definition IO_KEYS : list string := ["syscr"; "syscw"; "read_bytes"; "write_bytes"].

(** The ticks of [/proc/<pid>/stat], after the command in parentheses. *)
Definition stat_ticks (path raw_stat : string) : res Z :=
  let raw_stat := str_strip raw_stat in
  closing ← res_of_option (RuntimeError (path +:+ " has no closing command delimiter")) (str_rfind ")" raw_stat);
  let fields := split_ws (str_drop (S closing) raw_stat) in
  _ ← raise_if (length fields <=? 12)%nat (RuntimeError (path +:+ " is truncated"));
  user ← int_text (nth 11 fields EmptyString);
  system ← int_text (nth 12 fields EmptyString);
  Ok (user + system).

Definition process_metrics (pid : Z) (p : Proc) : res Metrics :=
  let path name := "/proc/" +:+ str_of_Z pid +:+ "/" +:+ name in
  status ← read_fields true kib STATUS_KEYS (splitlines (p_status p)) ∅;
  _ ← require (path "status") ["VmRSS"; "VmSize"; "Threads"] status;
  rollup ← match p_rollup p with
           | Some text => read_fields true kib ROLLUP_KEYS (splitlines text) ∅
           | None => Ok ∅
           end;
  _ ← match p_rollup p with Some _ => require (path "smaps_rollup") ROLLUP_KEYS rollup | None => Ok tt end;
  ticks ← stat_ticks (path "stat") (p_stat p);
  io ← read_fields false io_count IO_KEYS (splitlines (p_io p)) ∅;
  _ ← require (path "io") IO_KEYS io;
  let status_of key := default 0 (status !! key) in
  let io_of key := default 0 (io !! key) in
  let available := bool_decide (is_Some (p_rollup p)) in
  Ok {| rss_kib := default (status_of "VmRSS") (rollup !! "Rss");
        pss_kib := rollup !! "Pss";
        private_dirty_kib := rollup !! "Private_Dirty";
        anonymous_kib := match rollup !! "Anonymous" with Some v => Some v | None => status !! "RssAnon" end;
        virtual_kib := status_of "VmSize";
        threads := status_of "Threads";
        host_fds := p_fds p;
        cpu_ticks := ticks;
        voluntary_context_switches := status_of "voluntary_ctxt_switches";
        nonvoluntary_context_switches := status_of "nonvoluntary_ctxt_switches";
        read_syscalls := io_of "syscr";
        write_syscalls := io_of "syscw";
        read_bytes := io_of "read_bytes";
        write_bytes := io_of "write_bytes";
        smaps_rollup_available := available;
        rss_source := if available then "smaps_rollup" else "status" |}.

(** [process_metric_deltas] *)
Record Deltas := {
  d_cpu_ticks : Z;
  d_voluntary_context_switches : Z;
  d_nonvoluntary_context_switches : Z;
  d_read_syscalls : Z;
  d_write_syscalls : Z;
  d_read_bytes : Z;
  d_write_bytes : Z;
}.
Definition process_metric_deltas (before after : Metrics) : Deltas := {|
  d_cpu_ticks := cpu_ticks after - cpu_ticks before;
  d_voluntary_context_switches := voluntary_context_switches after - voluntary_context_switches before;
  d_nonvoluntary_context_switches := nonvoluntary_context_switches after - nonvoluntary_context_switches before;
  d_read_syscalls := read_syscalls after - read_syscalls before;
  d_write_syscalls := write_syscalls after - write_syscalls before;
  d_read_bytes := read_bytes after - read_bytes before;
  d_write_bytes := write_bytes after - write_bytes before |}.

(** [round(q, 6)] *)
Definition round6 (q : Q) : Q := (inject_Z (py_round (q * 1000000)) / 1000000)%Q.

Record Idle := {
  idle_seconds : Q;
  cpu_percent_one_core : Q;
  host_wakeups_per_second : Q;
  idle_deltas : Deltas;
  idle_before : Metrics;
  idle_after : Metrics;
}.

(** [idle_observation], from the two samples and the time between them *)
Definition idle_observation (before after : Metrics) (elapsed : Q) (clock_ticks : Z) : res Idle :=
  let deltas := process_metric_deltas before after in
  cpu_percent ← divide (inject_Z (d_cpu_ticks deltas * 100)) (inject_Z clock_ticks * elapsed);
  wakeups ← divide (inject_Z (Z.max (d_read_syscalls deltas) (d_voluntary_context_switches deltas))) elapsed;
  Ok {| idle_seconds := round6 elapsed; cpu_percent_one_core := round6 cpu_percent; host_wakeups_per_second := round6 wakeups;
        idle_deltas := deltas; idle_before := before; idle_after := after |}.

Definition exceeds (observed : Q) (ceiling : option Q) : bool :=
  match ceiling with Some c => negb (Qle_bool observed c) | None => false end.
Definition enforce_idle_limits (show : Q -> string) (label : string) (observation : Idle)
    (max_idle_cpu_percent max_idle_host_wakeups_per_second : option Q) : res unit :=
  _ ← raise_if (exceeds (cpu_percent_one_core observation) max_idle_cpu_percent)
        (RuntimeError (label +:+ " idle CPU exceeded ceiling: " +:+ show (cpu_percent_one_core observation) +:+ "% > "
                       +:+ show (default 0%Q max_idle_cpu_percent) +:+ "%"));
  raise_if (exceeds (host_wakeups_per_second observation) max_idle_host_wakeups_per_second)
    (RuntimeError (label +:+ " idle host wakeups exceeded ceiling: " +:+ show (host_wakeups_per_second observation) +:+ "/s > "
                   +:+ show (default 0%Q max_idle_host_wakeups_per_second) +:+ "/s")).

(** ** Memory stability *)

Record Stability := {
  st_status : string;
  st_gate : string;
  st_rounds : Z;
  baseline_anonymous_kib : Z;
  drift_allowance_kib : Z;
  ceiling_anonymous_kib : Z;
  post_reclaim_anonymous_kib : list Z;
  maximum_post_reclaim_anonymous_kib : Z;
  maximum_drift_kib : Z;
  final_drift_kib : Z;
  late_round_span_kib : Z;
}.

(** [max(l, default=d)] and [min] *)
Definition max_of (d : Z) (l : list Z) : Z := match l with [] => d | z :: l => foldl Z.max z l end.
Definition min_of (d : Z) (l : list Z) : Z := match l with [] => d | z :: l => foldl Z.min z l end.

(** The last three. *)
Definition late (l : list Z) : list Z := drop (length l - Nat.min 3 (length l)) l.

(** [str] of a list of integers *)
Definition list_str (l : list Z) : string := "[" +:+ str_join ", " (str_of_Z <$> l) +:+ "]".

(** The rounds as their [post_reclaim_process.anonymous_kib]. *)
Definition summarize_stability (baseline allowance expected_rounds : Z) (floors : list (option Z)) : res Stability :=
  let completed := Z.of_nat (length floors) in
  _ ← raise_if (negb (completed =? expected_rounds))
        (RuntimeError ("memory stability completed " +:+ str_of_Z completed +:+ "/" +:+ str_of_Z expected_rounds +:+ " rounds"));
  observed ← res_of_option (RuntimeError "anonymous RSS is required for the stability gate") (mapM id floors);
  let ceiling := baseline + allowance in
  let maximum := max_of baseline observed in
  _ ← raise_if (ceiling <? maximum)
        (RuntimeError ("post-reclaim anonymous RSS ratcheted above the stability ceiling: baseline=" +:+ str_of_Z baseline
                       +:+ " KiB allowance=" +:+ str_of_Z allowance +:+ " KiB ceiling=" +:+ str_of_Z ceiling
                       +:+ " KiB floors=" +:+ list_str observed));
  Ok {| st_status := "passed"; st_gate := "hard"; st_rounds := expected_rounds; baseline_anonymous_kib := baseline; drift_allowance_kib := allowance;
        ceiling_anonymous_kib := ceiling; post_reclaim_anonymous_kib := observed;
        maximum_post_reclaim_anonymous_kib := maximum; maximum_drift_kib := maximum - baseline;
        final_drift_kib := match last observed with Some z => z - baseline | None => 0 end;
        late_round_span_kib := max_of 0 (late observed) - min_of 0 (late observed) |}.

(** ** Waiting for connections *)

(** What one turn of the loop sees: the exit status of the hosted kernel, or
    the statistics of the service. *)
Inductive sighting := Exited (status : Z) | Seen (stats : ServiceStats).

Definition healthy (s : ServiceStats) : bool :=
  (rejected_connections s =? 0) && (bridge_start_failures s =? 0) && (terminal_failures s =? 0) && (last_error s =? 0).

Section waiting.
Context (asdict : ServiceStats -> string) (target : Z).

(** [CapacityReached] *)
Definition capacity_reached (text : string) : exn := Sys (SException "CapacityReached" text).

(** [wait_service_active], over the turns before the deadline *)
Fixpoint wait_service_active (sightings : list sighting) (latest : option ServiceStats) : res ServiceStats :=
  match sightings with
  | [] => Err (capacity_reached ("service reached only " +:+ from_option asdict "no stats" latest +:+ " while waiting for "
                                 +:+ str_of_Z target +:+ " active connections"))
  | Exited status :: _ =>
      Err (capacity_reached ("hosted kernel exited with " +:+ str_of_Z status +:+ " at target " +:+ str_of_Z target))
  | Seen s :: sightings =>
      _ ← raise_if (negb (ss_max_connections s =? 0))
            (capacity_reached ("capacity service unexpectedly enabled an admission limit: " +:+ str_of_Z (ss_max_connections s)));
      _ ← raise_if (negb (healthy s))
            (capacity_reached ("service rejected or failed a flow at target " +:+ str_of_Z target +:+ ": " +:+ asdict s));
      if (target <=? accepted_connections s) && (target <=? active_connections s) then Ok s
      else wait_service_active sightings (Some s)
  end.
End waiting.

(** ** Levels: what is accepted *)

Lemma insert_z_perm z l : insert_z z l ≡ₚ z :: l.
Proof. induction l as [|y l IH]; cbn; [done|]. destruct (z <=? y); [done|]. rewrite IH. apply Permutation_swap. Qed.

Lemma insert_z_increasing z l : StronglySorted Z.lt l -> z ∉ l -> StronglySorted Z.lt (insert_z z l).
Proof.
  induction 1 as [|y l Hs IH Hy]; intros Hz; cbn [insert_z]; [repeat constructor|].
  apply not_elem_of_cons in Hz as [Hzy Hz]. destruct (z <=? y) eqn:H; bool_to_prop.
  - constructor; [by constructor|]. constructor; [lia|]. eapply Forall_impl; [exact Hy|]. cbn. lia.
  - constructor; [by apply IH|]. rewrite insert_z_perm. by constructor.
Qed.

Lemma sorted_set_increasing l : StronglySorted Z.lt (sorted_set l).
Proof.
  unfold sorted_set. pose proof (NoDup_remove_dups l) as Hnd. induction Hnd as [|z k Hz Hnd IH]; cbn [foldr]; [constructor|].
  apply insert_z_increasing; [done|]. enough (foldr insert_z [] k ≡ₚ k) as ->; [done|].
  clear. induction k as [|y k IH]; cbn; [done|]. by rewrite insert_z_perm, IH.
Qed.

(** [sorted(set(l)) == l] says that the list increases. *)
Lemma sorted_set_id l : sorted_set l = l <-> StronglySorted Z.lt l.
Proof.
  split; [intros <-; apply sorted_set_increasing|]. intros Hs. unfold sorted_set.
  assert (remove_dups l = l) as ->.
  { induction Hs as [|z l Hs IH Hz]; [done|]. cbn. case_decide as Hin; [|by rewrite IH].
    rewrite Forall_forall in Hz. specialize (Hz z Hin). lia. }
  induction Hs as [|z l Hs IH Hz]; [done|]. cbn [foldr]. rewrite IH. destruct l as [|y l]; [done|]. cbn.
  apply Forall_cons in Hz as [Hz _]. by rewrite (proj2 (Z.leb_le _ _)) by lia.
Qed.

Definition legal_levels (levels : list Z) : Prop :=
  levels <> [] /\ Forall (fun level => 1 <= level <= BRIDGE_SESSION_LIMIT) levels /\ StronglySorted Z.lt levels.

Lemma level_writable z : 1 <= z <= BRIDGE_SESSION_LIMIT -> writable_int z.
Proof. unfold BRIDGE_SESSION_LIMIT. intros Hz. apply writable_word. lia. Qed.

(** Levels are accepted exactly when they increase: comma-separated integers
    are taken when there is at least one, each within the limit of sessions, each
    larger than the one before; and every such list is read back from its text. *)
Theorem parse_levels_exact :
  (forall value levels, parse_levels value = Ok levels <->
     mapM int_of (split_on "," value) = Some levels /\ legal_levels levels) /\
  (forall levels, legal_levels levels -> parse_levels (str_join "," (map str_of_Z levels)) = Ok levels).
Proof.
  assert (forall value levels, parse_levels value = Ok levels <->
    mapM int_of (split_on "," value) = Some levels /\ legal_levels levels) as Hiff.
  { intros value levels. unfold parse_levels, legal_levels. destruct (mapM int_of _) as [l|]; cbn [res_of_option mbind res_bind];
      [|naive_solver]. rewrite <- sorted_set_id. unfold raise_if.
    destruct (_ || _ || _) eqn:H; cbn [mbind res_bind].
    - split; [done|]. intros ([= ->] & Hne & Hr & Hs). rewrite !orb_true_iff in H. destruct H as [[H|H]|H].
      + by bool_to_prop.
      + apply existsb_exists in H as (z & Hin & Hz). apply list_elem_of_In in Hin. rewrite Forall_forall in Hr.
        specialize (Hr z Hin). apply orb_true_iff in Hz as [Hz|Hz]; bool_to_prop; lia.
      + by bool_to_prop.
    - bool_to_prop. split; [|by intros [[= ->] _]]. intros [= <-]. split_and!; try done. apply Forall_forall. intros z Hin.
      match goal with H : existsb _ _ = false |- _ => rewrite <- not_true_iff_false, existsb_exists in H; rename H into He end.
      destruct (decide (1 <= z <= BRIDGE_SESSION_LIMIT)) as [|Hz]; [done|]. exfalso. apply He. exists z.
      split; [by apply list_elem_of_In|]. apply orb_true_iff. rewrite !Z.ltb_lt. lia. }
  split; [exact Hiff|]. intros levels Hl. apply Hiff. split; [|done]. destruct Hl as (Hne & Hr & _).
  change "," with (chr_str ","). rewrite split_on_join.
  - apply mapM_Some. apply Forall2_fmap_l, Forall_Forall2_diag. eapply Forall_impl; [exact Hr|].
    intros z Hz. by apply int_of_str, level_writable.
  - by intros H%map_eq_nil.
  - apply Forall_map. eapply Forall_impl; [exact Hr|]. intros z [Hz _]. apply str_of_Z_not_mem; [lia|done].
Qed.

(** ** Stability: what passes *)

Lemma foldl_max_le l z c : foldl Z.max z l <= c <-> z <= c /\ Forall (fun y => y <= c) l.
Proof.
  revert z. induction l as [|y l IH]; intros z; cbn [foldl]; [|rewrite IH, Forall_cons, Z.max_lub_iff; tauto].
  split; [intros; split; [done|constructor]|by intros []].
Qed.

Lemma foldl_max_in l z : foldl Z.max z l ∈ z :: l.
Proof.
  revert z. induction l as [|y l IH]; intros z; cbn [foldl]; [set_solver|].
  specialize (IH (Z.max z y)). destruct (Z.max_spec z y) as [[_ E]|[_ E]]; rewrite E in *; set_solver.
Qed.

Lemma mapM_id_Some (floors : list (option Z)) l : mapM id floors = Some l <-> floors = map Some l.
Proof.
  rewrite mapM_Some. split.
  - induction 1 as [|o z floors l Ho _ IH]; [done|]. cbn in *. by subst.
  - intros ->. apply Forall2_fmap_l, Forall_Forall2_diag, Forall_true. done.
Qed.

Lemma max_of_le d l c : max_of d l <= c <-> Forall (fun z => z <= c) l /\ (l = [] -> d <= c).
Proof. destruct l as [|z l]; cbn [max_of]; [naive_solver|]. rewrite foldl_max_le, Forall_cons. naive_solver. Qed.

Lemma span_nonneg l : 0 <= max_of 0 l - min_of 0 l.
Proof.
  destruct l as [|z l]; [done|]. cbn [max_of min_of]. assert (foldl Z.min z l <= z <= foldl Z.max z l); [|lia]. revert z.
  induction l as [|y l IH]; intros z; cbn [foldl]; [lia|]. pose proof (IH (Z.min z y)). pose proof (IH (Z.max z y)). lia.
Qed.

(** The stability gate bounds every round: a run is summarized exactly when all
    its rounds were made, each with a floor that was measured and does not exceed
    the baseline by more than the allowance; the reported maximum is a floor that
    was seen, or the baseline when there was none, and no floor exceeds it. *)
Theorem summarize_stability_exact baseline allowance rounds floors :
  ((exists s, summarize_stability baseline allowance rounds floors = Ok s) <->
   Z.of_nat (length floors) = rounds /\ exists observed, floors = map Some observed /\
     Forall (fun z => z <= baseline + allowance) observed /\ (observed = [] -> 0 <= allowance)) /\
  forall s, summarize_stability baseline allowance rounds floors = Ok s ->
    let observed := post_reclaim_anonymous_kib s in
    floors = map Some observed /\ Forall (fun z => z <= maximum_post_reclaim_anonymous_kib s) observed /\
    maximum_post_reclaim_anonymous_kib s ∈ baseline :: observed /\ 0 <= late_round_span_kib s.
Proof.
  unfold summarize_stability. split.
  - split.
    + intros [s H]. res_inv. bool_to_prop.
      match goal with H : res_of_option _ ?o = Ok ?l |- _ => destruct o eqn:Ho; [|done]; injection H as -> end.
      apply mapM_id_Some in Ho. match goal with H : max_of _ _ <= _ |- _ => apply max_of_le in H as [Hall He] end.
      split; [done|]. eexists. split_and!; [done|done|]. intros Hn. specialize (He Hn). lia.
    + intros (Hr & observed & Hf & Hall & He). rewrite Hr, Z.eqb_refl, (proj2 (mapM_id_Some floors observed) Hf).
      cbn [negb raise_if mbind res_bind res_of_option]. rewrite (proj2 (Z.ltb_ge _ _)); [by eexists|].
      apply max_of_le. split; [done|]. intros Hn. specialize (He Hn). lia.
  - intros s H. res_inv. match goal with H : res_of_option _ ?o = Ok ?l |- _ => destruct o eqn:Ho; [|done]; injection H as -> end.
    apply mapM_id_Some in Ho. cbn. split_and!; [done| | |apply span_nonneg].
    + by apply (max_of_le baseline _ (max_of baseline _)).
    + match goal with |- max_of _ ?o ∈ _ => destruct o as [|z l]; [set_solver|] end. cbn [max_of]. pose proof (foldl_max_in l z). set_solver.
Qed.

(** ** Waiting: what is returned *)

(** Waiting returns the first statistics that reach the target, everything seen
    before being healthy and below it. *)
Theorem wait_service_active_iff asdict target sightings latest s :
  wait_service_active asdict target sightings latest = Ok s <->
  exists before after, sightings = map Seen before ++ Seen s :: after /\
    Forall (fun b => ss_max_connections b = 0 /\ healthy b = true) (before ++ [s]) /\
    Forall (fun b => accepted_connections b < target \/ active_connections b < target) before /\
    target <= accepted_connections s /\ target <= active_connections s.
Proof.
  revert latest. induction sightings as [|[status|b] sightings IH]; intros latest; cbn [wait_service_active].
  - split; [done|]. by intros ([] & after & ? & _).
  - split; [done|]. by intros ([] & after & ? & _).
  - assert ((exists before after, Seen b :: sightings = map Seen before ++ Seen s :: after /\
      Forall (fun b => ss_max_connections b = 0 /\ healthy b = true) (before ++ [s]) /\
      Forall (fun b => accepted_connections b < target \/ active_connections b < target) before /\
      target <= accepted_connections s /\ target <= active_connections s) <->
      ss_max_connections b = 0 /\ healthy b = true /\
      ((b = s /\ target <= accepted_connections s /\ target <= active_connections s) \/
       ((accepted_connections b < target \/ active_connections b < target) /\
        wait_service_active asdict target sightings (Some b) = Ok s))) as ->.
    { rewrite IH. split.
      - intros ([|b' before] & after & Heq & Hh & Hb & Ha & Ha'); cbn in Heq; injection Heq as -> Heq.
        + apply Forall_cons in Hh as [[? ?] _]. naive_solver.
        + cbn in Hh. apply Forall_cons in Hh as [[? ?] Hh], Hb as [? Hb]. split_and!; try done. right. split; [done|]. eauto 10.
      - intros (Hm & Hh & [(-> & Ha & Ha')|(Hb & before & after & -> & Hall & Hbelow & Ha & Ha')]).
        + exists [], sightings. split_and!; try done; by repeat constructor.
        + exists (b :: before), after. split_and!; try done; by constructor. }
    unfold raise_if. destruct (ss_max_connections b =? 0) eqn:H1; bool_to_prop; cbn [negb mbind res_bind]; [|naive_solver].
    destruct (healthy b); cbn [negb mbind res_bind]; [|naive_solver].
    destruct (_ && _) eqn:H2; [bool_to_prop|apply andb_false_iff in H2 as [H2|H2]; bool_to_prop]; naive_solver lia.
Qed.

(** ** Limits *)

(** Where the limit can be set up to the hard one, the driver goes on exactly when
    it can have two descriptors per connection and some to spare; it never lowers
    the soft limit and leaves the hard one. *)
Lemma ensure_driver_fd_capacity_raises soft hard connections limits :
  hard = RLIM_INFINITY \/ soft <= hard ->
  ensure_driver_fd_capacity (fun limits => Ok limits) (soft, hard) connections = Ok limits <->
  (hard = RLIM_INFINITY \/ connections * 2 + 256 <= Z.max soft hard) /\ limits = (Z.max soft (connections * 2 + 256), hard).
Proof.
  unfold ensure_driver_fd_capacity, RLIM_INFINITY. intros Hh. destruct (soft <? connections * 2 + 256) eqn:Hs; bool_to_prop.
  - cbn [mbind res_bind]. destruct (hard =? -1) eqn:H1; bool_to_prop.
    + rewrite Z.ltb_irrefl. cbn [raise_if mbind res_bind]. rewrite (Z.max_r soft (connections * 2 + 256)) by lia. naive_solver.
    + destruct (Z.min (connections * 2 + 256) hard <? connections * 2 + 256) eqn:H2; bool_to_prop; cbn [raise_if mbind res_bind].
      * split; [done|]. intros [[?|?] _]; lia.
      * rewrite Z.min_l, (Z.max_r soft (connections * 2 + 256)) by lia. split; [intros [= <-]; split; [right; lia|done]|by intros [_ ->]].
  - cbn [mbind res_bind]. rewrite (proj2 (Z.ltb_ge _ _)) by lia. cbn [raise_if mbind res_bind]. rewrite (Z.max_l soft (connections * 2 + 256)) by lia.
    split; [intros [= <-]; split; [right; lia|done]|by intros [_ ->]].
Qed.

Definition within (observed : Q) (ceiling : option Q) : Prop := forall c, ceiling = Some c -> (observed <= c)%Q.

Lemma exceeds_false observed ceiling : exceeds observed ceiling = false <-> within observed ceiling.
Proof.
  unfold exceeds, within. destruct ceiling as [c|]; [|naive_solver]. rewrite negb_false_iff, Qle_bool_iff. naive_solver.
Qed.

(** The idle limits hold exactly when each ceiling that is given does. *)
Lemma enforce_idle_limits_iff show label observation cpu wakeups :
  enforce_idle_limits show label observation cpu wakeups = Ok tt <->
  within (cpu_percent_one_core observation) cpu /\ within (host_wakeups_per_second observation) wakeups.
Proof.
  rewrite <- !exceeds_false. unfold enforce_idle_limits. destruct (exceeds _ cpu), (exceeds _ wakeups); cbn; naive_solver.
Qed.

(** ** Process figures *)

Lemma str_rfind_none c s : str_mem c s = false -> str_rfind c s = None.
Proof. induction s as [|d s IH]; cbn; [done|]. intros [Hd Hs]%orb_false_iff. by rewrite IH, Hd. Qed.

Lemma str_rfind_last c a b : str_mem c b = false -> str_rfind c (a +:+ String c b) = Some (String.length a).
Proof.
  intros Hb. induction a as [|d a IH]; rewrite ?str_app_nil_l, ?str_app_cons; cbn [str_rfind String.length].
  - by rewrite str_rfind_none, is_char_refl.
  - by rewrite IH.
Qed.

(** The name of a command, parentheses and spaces included, does not disturb the
    figures after it. *)
Lemma stat_ticks_command path command fields user system :
  let raw := command +:+ ")" +:+ fields in
  str_strip raw = raw -> str_mem ")" fields = false -> (12 < length (split_ws fields))%nat ->
  int_of (nth 11 (split_ws fields) EmptyString) = Some user -> int_of (nth 12 (split_ws fields) EmptyString) = Some system ->
  stat_ticks path raw = Ok (user + system).
Proof.
  cbn zeta. intros Hs Hf Hl Hu Hsys. unfold stat_ticks, int_text. rewrite Hs, str_app_cons, str_app_nil_l, str_rfind_last by done.
  cbn [res_of_option mbind res_bind].
  replace (str_drop (S (String.length command)) (command +:+ String ")" fields)) with fields
    by (clear; induction command as [|c command IH]; [done|]; rewrite str_app_cons; exact IH).
  rewrite (proj2 (Nat.leb_gt _ _) Hl). cbn [raise_if mbind res_bind]. by rewrite Hu, Hsys.
Qed.
