(* ===== verification/Logs.v ===== *)
(** * Logs

    The text the test programs write and read: the telemetry line of
    [scripts/run-tcpcc-tun-test.py], and the parsers of
    [scripts/collect-m7-hosted-report.py] and
    [scripts/run-tcpcc-high-bdp-iperf.py], with their regular expressions as
    deterministic scanners.  Each class of these expressions is followed by a
    character outside it, so the longest run is the only one that can match and
    nothing is tried twice.  Floats are exact rationals. *)

From S2P Require Import Prelude PyStr Reports Py Effects Json Struct Benchmark.
Local Open Scope Z_scope.

(** ** Scanners *)

(** The longest prefix of a class; [class+] when it is not empty. *)
Fixpoint span (p : ascii -> bool) (s : string) : string * string :=
  match s with
  | String c t => if p c then let '(a, b) := span p t in (String c a, b) else (EmptyString, s)
  | EmptyString => (EmptyString, EmptyString)
  end.
Definition some_of (p : ascii -> bool) (s : string) : option (string * string) :=
  let '(a, b) := span p s in if str_empty a then None else Some (a, b).
Definition spaces (s : string) : option string := snd <$> some_of is_space s.

(** [re.search] and [re.findall] of a scanner that returns what it read and the
    rest of the text. *)
Fixpoint search {A} (m : string -> option (A * string)) (s : string) : option A :=
  match m s with
  | Some (a, _) => Some a
  | None => match s with EmptyString => None | String _ s => search m s end
  end.
Fixpoint findall {A} (m : string -> option (A * string)) (fuel : nat) (s : string) : list A :=
  match fuel with
  | O => []
  | S fuel =>
      match m s with
      | Some (a, rest) => a :: findall m fuel rest
      | None => match s with EmptyString => [] | String _ s => findall m fuel s end
      end
  end.

Definition SystemExit (text : string) : exn := Sys (SBaseException "SystemExit" text).

(** ** The environment file *)

(** [text.strip(chars)] *)
Fixpoint lstrip_of (p : ascii -> bool) (s : string) : string :=
  match s with String c t => if p c then lstrip_of p t else s | EmptyString => EmptyString end.
Fixpoint rstrip_of (p : ascii -> bool) (s : string) : string :=
  match s with
  | String c t => let t := rstrip_of p t in if str_empty t && p c then EmptyString else String c t
  | EmptyString => EmptyString
  end.
Definition is_quote (c : ascii) : bool := is_char "'" c || is_char dquote c.

Definition env_line (raw_line : string) : option (string * string) :=
  let line := str_strip raw_line in
  if str_empty line || startswith "#" line then None
  else n ← str_find "=" line;
       Some (str_take n line, rstrip_of is_quote (lstrip_of is_quote (str_strip (str_drop (S n) line)))).
Definition read_env (text : string) : list (string * string) :=
  fold_left (fun d kv => dict_set kv.1 kv.2 d) (omap env_line (splitlines text)) [].

(** ** Telemetry of the congestion controls *)

Definition TCP_FIELDS : list string :=
  ["guest_to_host"; "host_to_guest"; "state"; "ca_state"; "rto_us"; "rtt_us"; "rttvar_us"; "snd_cwnd"; "snd_ssthresh";
   "unacked"; "lost"; "retrans"; "total_retrans"; "pacing_rate"; "max_pacing_rate"; "delivery_rate"].

(** [([a-z_]+)=([0-9]+)] *)
Definition is_key_char (c : ascii) : bool := is_lower c || is_char "_" c.
Definition key_value (s : string) : option ((string * string) * string) :=
  '(key, rest) ← some_of is_key_char s;
  rest ← strip_prefix "=" rest;
  '(value, rest) ← some_of is_digit rest;
  Some ((key, value), rest).
Definition key_values (line : string) : list (string * string) := findall key_value (S (String.length line)) line.

Definition int_group (text : string) : res Z :=
  res_of_option (ValueError "Exceeds the limit (4300 digits) for integer string conversion") (int_of text).

Fixpoint telemetry (kvs : list (string * string)) (fields : gmap string Z) : res (gmap string Z) :=
  match kvs with
  | [] => Ok fields
  | (key, value) :: kvs => v ← int_group value; telemetry kvs (<[key := v]> fields)
  end.

(** The turn of [parse_tcp_log] for one congestion control, whose name as text
    is [cc_name]. *)
Definition parse_tcp_line (path : string) (lines : list string) (cc_name : string) : res (list (string * Z)) :=
  let matches := filter (fun line => startswith (cc_name +:+ ":") line = true) lines in
  line ← match matches with
         | [line] => Ok line
         | _ => Err (SystemExit (path +:+ ": expected exactly one " +:+ cc_name +:+ " telemetry line, got "
                                 +:+ str_of_Z (Z.of_nat (length matches))))
         end;
  fields ← telemetry (key_values line) ∅;
  let missing := filter (fun key => fields !! key = None) TCP_FIELDS in
  _ ← raise_if (negb (bool_decide (missing = [])))
        (SystemExit (path +:+ ": " +:+ cc_name +:+ " telemetry missing fields: " +:+ str_join ", " missing));
  Ok (map (fun key => (key, default 0 (fields !! key))) TCP_FIELDS).

(** ** The telemetry line *)

(** [TCP_INFO] *)
Definition TCP_INFO : list field :=
  [FUint 1; FUint 1; FUint 2; FUint 4; FUint 4; FUint 4; FUint 4; FUint 4; FUint 4; FUint 4; FUint 4; FUint 4;
   FUint 8; FUint 8; FUint 8].
Definition TCP_ESTABLISHED : Z := 1.
Definition HOST_IPV4 : string := "192.0.2.1".
Definition GUEST_IPV4 : string := "192.0.2.2".

(** [query_tcp_info], from the answer of [transact] on: the items of the
    dictionary in their order *)
Definition tcp_info_of (cc_name : string) (len : Z) (raw_info : bytes) : res (list (string * Z)) :=
  _ ← raise_if (negb (len =? Z.of_nat (calcsize TCP_INFO)))
        (RuntimeError (cc_name +:+ ": TCP telemetry size mismatch: " +:+ str_of_Z len +:+ " != "
                       +:+ str_of_Z (Z.of_nat (calcsize TCP_INFO))));
  _ ← raise_if (negb (length raw_info =? calcsize TCP_INFO)%nat) struct_error;
  let '(state, (ca_state, (_, (rto_us, (rtt_us, (rttvar_us, (snd_cwnd, (snd_ssthresh, (unacked, (lost, (retrans,
        (total_retrans, (pacing_rate, (max_pacing_rate, (delivery_rate, _))))))))))))))) := unpack TCP_INFO raw_info in
  _ ← raise_if (negb (state =? TCP_ESTABLISHED))
        (RuntimeError (cc_name +:+ ": TCP telemetry sampled state " +:+ str_of_Z state +:+ ", expected ESTABLISHED"));
  _ ← raise_if (snd_cwnd =? 0) (RuntimeError (cc_name +:+ ": TCP telemetry reported zero snd_cwnd"));
  Ok [("state", state); ("ca_state", ca_state); ("rto_us", rto_us); ("rtt_us", rtt_us); ("rttvar_us", rttvar_us);
      ("snd_cwnd", snd_cwnd); ("snd_ssthresh", snd_ssthresh); ("unacked", unacked); ("lost", lost); ("retrans", retrans);
      ("total_retrans", total_retrans); ("pacing_rate", pacing_rate); ("max_pacing_rate", max_pacing_rate);
      ("delivery_rate", delivery_rate)].

(** The line [exercise_external_tcp] returns; [tcp_info] is written in the order of its
    items, which is the order of the format string. *)
Definition key_text (kv : string * Z) : string := kv.1 +:+ "=" +:+ str_of_Z kv.2.
Definition telemetry_line (cc_name : string) (port guest_to_host host_to_guest : Z) (tcp_info : list (string * Z)) : string :=
  cc_name +:+ ": guest=" +:+ GUEST_IPV4 +:+ " host=" +:+ HOST_IPV4 +:+ ":" +:+ str_of_Z port +:+ " "
  +:+ str_join " " (map key_text (("guest_to_host", guest_to_host) :: ("host_to_guest", host_to_guest) :: tcp_info)).

(** ** ping and tc *)

(** One of two literals. *)
Definition either (a b s : string) : option string :=
  match strip_prefix a s with Some rest => Some rest | None => strip_prefix b s end.

Definition is_decimal_char (c : ascii) : bool := is_digit c || is_char "." c.

(** [(?:rtt|round-trip) min/avg/max/(?:mdev|stddev) = ([0-9.]+)/([0-9.]+)/([0-9.]+)/([0-9.]+) ms] *)
Definition ping_rtt (s : string) : option ((string * string * string * string) * string) :=
  rest ← either "rtt" "round-trip" s;
  rest ← strip_prefix " min/avg/max/" rest;
  rest ← either "mdev" "stddev" rest;
  rest ← strip_prefix " = " rest;
  '(minimum, rest) ← some_of is_decimal_char rest;
  rest ← strip_prefix "/" rest;
  '(average, rest) ← some_of is_decimal_char rest;
  rest ← strip_prefix "/" rest;
  '(maximum, rest) ← some_of is_decimal_char rest;
  rest ← strip_prefix "/" rest;
  '(deviation, rest) ← some_of is_decimal_char rest;
  rest ← strip_prefix " ms" rest;
  Some ((minimum, average, maximum, deviation), rest).

(** [time[=<]([0-9.]+)\s*ms] *)
Definition ping_sample (s : string) : option (string * string) :=
  rest ← strip_prefix "time" s;
  rest ← either "=" "<" rest;
  '(value, rest) ← some_of is_decimal_char rest;
  rest ← strip_prefix "ms" (snd (span is_space rest));
  Some (value, rest).

(** [Sent\s+(\d+)\s+bytes\s+(\d+)\s+pkt\s+\(dropped\s+(\d+),\s+overlimits\s+(\d+)\s+requeues\s+(\d+)\)] *)
Definition qdisc_counters (s : string) : option ((string * string * string * string * string) * string) :=
  let digits_after_spaces s := rest ← spaces s; some_of is_digit rest in
  let word_after_spaces w s := rest ← spaces s; strip_prefix w rest in
  rest ← strip_prefix "Sent" s;
  '(bytes, rest) ← digits_after_spaces rest;
  rest ← word_after_spaces "bytes" rest;
  '(packets, rest) ← digits_after_spaces rest;
  rest ← word_after_spaces "pkt" rest;
  rest ← word_after_spaces "(dropped" rest;
  '(dropped, rest) ← digits_after_spaces rest;
  rest ← strip_prefix "," rest;
  rest ← word_after_spaces "overlimits" rest;
  '(overlimits, rest) ← digits_after_spaces rest;
  rest ← word_after_spaces "requeues" rest;
  '(requeues, rest) ← digits_after_spaces rest;
  rest ← strip_prefix ")" rest;
  Some ((bytes, packets, dropped, overlimits, requeues), rest).

Record QdiscLog := { bytes_sent : Z; packets_sent : Z; dropped : Z; ql_overlimits : Z; requeues : Z }.

Definition parse_qdisc (path text : string) : res QdiscLog :=
  '(b, p, d, o, r) ← res_of_option (SystemExit (path +:+ ": cannot parse netem qdisc counters")) (search qdisc_counters text);
  b ← int_group b; p ← int_group p; d ← int_group d; o ← int_group o; r ← int_group r;
  Ok {| bytes_sent := b; packets_sent := p; dropped := d; ql_overlimits := o; requeues := r |}.

(** [float(text)] of a text of digits and points *)
Definition float_text (text : string) : option Q :=
  let '(whole, fraction) :=
    match str_find "." text with
    | Some n => (str_take n text, str_drop (S n) text)
    | None => (text, EmptyString)
    end in
  if str_empty (whole +:+ fraction) || negb (str_forallb is_digit (whole +:+ fraction)) then None
  else Some (decimal (digits_val 10 0 (whole +:+ fraction)) (- Z.of_nat (String.length fraction))).
Definition float_group (text : string) : res Q :=
  res_of_option (ValueError ("could not convert string to float: " +:+ py_repr text)) (float_text text).

Record PingLog := { min_ms : Q; avg_ms : Q; max_ms : Q; mdev_or_stddev_ms : Q }.

(** [parse_ping] *)
Definition parse_ping (path text : string) : res PingLog :=
  '(a, b, c, d) ← res_of_option (SystemExit (path +:+ ": cannot parse delayed-path ping RTT")) (search ping_rtt text);
  a ← float_group a; b ← float_group b; c ← float_group c; d ← float_group d;
  Ok {| min_ms := a; avg_ms := b; max_ms := c; mdev_or_stddev_ms := d |}.

Record Ping := { minimum_ms : Q; average_ms : Q; median_ms : Q; maximum_ms : Q; deviation_ms : Q; samples_received : Z }.

Fixpoint float_groups (l : list string) : res (list Q) :=
  match l with [] => Ok [] | t :: l => q ← float_group t; qs ← float_groups l; Ok (q :: qs) end.

(** [parse_ping_output] *)
Definition parse_ping_output (output : string) : res Ping :=
  samples ← float_groups (findall ping_sample (S (String.length output)) output);
  _ ← raise_if (bool_decide (length samples = 0%nat)) (RuntimeError "high-BDP ping returned no RTT samples");
  '(a, b, c, d) ← res_of_option (RuntimeError "could not parse high-BDP ping RTT") (search ping_rtt output);
  a ← float_group a; b ← float_group b; c ← float_group c; d ← float_group d;
  Ok {| minimum_ms := a; average_ms := b; median_ms := median samples; maximum_ms := c; deviation_ms := d;
        samples_received := Z.of_nat (length samples) |}.

(** ** Events *)

(** [read_events], given the text of the file if it exists *)
Fixpoint event_lines (lines : list string) : res (list event) :=
  match lines with
  | [] => Ok []
  | line :: lines =>
      if str_empty (str_strip line) then event_lines lines
      else
        value ← res_of_option JSONDecodeError (loads line);
        e ← match value with JObj d => Ok d | _ => Err (RuntimeError "tcpcc event is not a JSON object") end;
        es ← event_lines lines;
        Ok (e :: es)
  end.
Definition read_events (text : option string) : res (list event) :=
  match text with Some text => event_lines (splitlines text) | None => Ok [] end.

(** * Lemmas *)

Definition add_rest {A} (t : string) (p : A * string) : A * string := (p.1, p.2 +:+ t).

(** A scanner does not see past a character outside its classes. *)
Lemma span_app p a c b : p c = false -> span p (a +:+ String c b) = add_rest (String c b) (span p a).
Proof.
  intros Hc. induction a as [|d a IH]; rewrite ?str_app_nil_l, ?str_app_cons; cbn [span]; [by rewrite Hc|].
  destruct (p d); [|done]. rewrite IH. by destruct (span p a).
Qed.

Lemma span_all p a : str_forallb p a = true -> span p a = (a, EmptyString).
Proof. induction a as [|c a IH]; cbn; [done|]. intros [-> Ha]%andb_true_iff. by rewrite IH. Qed.

Lemma span_length p a : (String.length (span p a).1 + String.length (span p a).2 = String.length a)%nat.
Proof. induction a as [|c a IH]; cbn; [done|]. destruct (p c); cbn; [|done]. destruct (span p a). cbn in *. lia. Qed.

Lemma some_of_app p a c b : p c = false -> some_of p (a +:+ String c b) = add_rest (String c b) <$> some_of p a.
Proof.
  intros Hc. unfold some_of. rewrite span_app by done. destruct (span p a) as [x y]. cbn. by destruct (str_empty x).
Qed.

Lemma some_of_all p a : str_empty a = false -> str_forallb p a = true -> some_of p a = Some (a, EmptyString).
Proof. intros He Ha. unfold some_of. by rewrite span_all, He. Qed.

Lemma some_of_length p a x y : some_of p a = Some (x, y) -> (String.length y < String.length a)%nat.
Proof.
  unfold some_of. pose proof (span_length p a) as Hl. destruct (span p a) as [x' y']. cbn in Hl.
  destruct x' as [|c x']; cbn; [done|]. intros [= <- <-]. cbn in Hl. lia.
Qed.

(** What separates two fields: no character of a key or a number, no ["="]. *)
Definition separates (c : ascii) : bool := negb (is_key_char c) && negb (is_digit c) && negb (is_char "=" c).

Lemma key_value_app a c b : separates c = true -> key_value (a +:+ String c b) = add_rest (String c b) <$> key_value a.
Proof.
  unfold separates. intros [[Hk%negb_true_iff Hd%negb_true_iff]%andb_true_iff He%negb_true_iff]%andb_true_iff.
  unfold key_value. rewrite some_of_app by done. destruct (some_of is_key_char a) as [[x y]|]; [|done].
  cbn [fmap option_fmap option_map mbind option_bind add_rest fst snd].
  assert (forall u, strip_prefix "=" (u +:+ String c b) = (fun r => r +:+ String c b) <$> strip_prefix "=" u) as Hs.
  { intros [|d u]; rewrite ?str_app_nil_l, ?str_app_cons; cbn; [by rewrite He|]. by destruct (is_char "=" d). }
  rewrite Hs. destruct (strip_prefix "=" y) as [z|]; [|done].
  cbn [fmap option_fmap option_map mbind option_bind add_rest fst snd].
  rewrite some_of_app by done. by destruct (some_of is_digit z) as [[]|].
Qed.

Lemma key_value_length a kv rest : key_value a = Some (kv, rest) -> (String.length rest < String.length a)%nat.
Proof.
  unfold key_value. intros H.
  destruct (some_of is_key_char a) as [[x y]|] eqn:Hx; [|done]. cbn [mbind option_bind] in H. apply some_of_length in Hx.
  destruct (strip_prefix "=" y) as [z|] eqn:Hz; [|done]. cbn [mbind option_bind] in H. apply strip_prefix_Some in Hz.
  destruct (some_of is_digit z) as [[u v]|] eqn:Hu; [|done]. cbn in H. simplify_eq. apply some_of_length in Hu.
  rewrite str_app_cons, str_app_nil_l in Hx. cbn in Hx. lia.
Qed.

Lemma key_value_equals a kv rest : key_value a = Some (kv, rest) -> str_mem "=" a = true.
Proof.
  intros H. destruct (str_mem "=" a) eqn:Hm; [done|]. exfalso. revert H. unfold key_value, some_of.
  assert (str_mem "=" (span is_key_char a).2 = false) as Hs.
  { induction a as [|c a IH]; [done|]. cbn in *. apply orb_false_iff in Hm as [Hc Hm].
    destruct (is_key_char c); cbn; [|by rewrite Hc, Hm]. destruct (span is_key_char a). by apply IH. }
  destruct (span is_key_char a) as [x y]. cbn in Hs. destruct (str_empty x); [done|]. cbn.
  destruct y as [|c y]; [done|]. cbn in Hs. apply orb_false_iff in Hs as [-> _]. done.
Qed.

(** Fuel beyond the length of the text changes nothing. *)
Lemma findall_fuel fuel fuel' a :
  (String.length a < fuel)%nat -> (String.length a < fuel')%nat -> findall key_value fuel a = findall key_value fuel' a.
Proof.
  revert fuel' a. induction fuel as [|fuel IH]; intros [|fuel'] a H H'; try lia. cbn.
  destruct (key_value a) as [[kv rest]|] eqn:Hk.
  - apply key_value_length in Hk. f_equal. apply IH; lia.
  - destruct a as [|c a]; [done|]. cbn in *. apply IH; lia.
Qed.

Lemma findall_app fuel a c b :
  separates c = true -> (String.length a + String.length b + 1 < fuel)%nat ->
  findall key_value fuel (a +:+ String c b) = key_values a ++ key_values b.
Proof.
  intros Hc. revert a. induction fuel as [|fuel IH]; intros a Hf; [lia|]. cbn [findall]. rewrite key_value_app by done.
  unfold key_values at 1. cbn [findall].
  destruct (key_value a) as [[kv rest]|] eqn:Hk.
  - cbn [fmap option_fmap option_map add_rest fst snd app]. apply key_value_length in Hk. rewrite IH by lia.
    f_equal. unfold key_values at 1. by rewrite (findall_fuel _ (String.length a)) by lia.
  - cbn [fmap option_fmap option_map].
    destruct a as [|d a]; rewrite ?str_app_nil_l, ?str_app_cons; cbn [String.length] in *.
    + apply (findall_fuel fuel (S (String.length b))); lia.
    + by rewrite IH by lia.
Qed.

Lemma key_values_app a c b : separates c = true -> key_values (a +:+ String c b) = key_values a ++ key_values b.
Proof.
  intros Hc. apply findall_app; [done|].
  assert (String.length (a +:+ String c b) = String.length a + S (String.length b))%nat as ->; [|lia].
  clear. induction a as [|d a IH]; rewrite ?str_app_nil_l, ?str_app_cons; cbn; [done|]. by rewrite IH.
Qed.

Lemma key_values_none a : str_mem "=" a = false -> key_values a = [].
Proof.
  unfold key_values. generalize (S (String.length a)) as fuel. intros fuel. revert a.
  induction fuel as [|fuel IH]; intros a Ha; [done|]. cbn.
  destruct (key_value a) as [[kv rest]|] eqn:Hk; [by rewrite (key_value_equals _ _ _ Hk) in Ha|].
  destruct a as [|c a]; [done|]. cbn in Ha. apply orb_false_iff in Ha as [_ Ha]. by apply IH.
Qed.

(** ** The telemetry line is read back *)

Definition good_key (k : string) : bool := negb (str_empty k) && str_forallb is_key_char k.

Lemma key_values_one k z :
  good_key k = true -> 0 <= z -> key_values (key_text (k, z)) = [(k, str_of_Z z)].
Proof.
  intros [He%negb_true_iff Hk]%andb_true_iff Hz. unfold key_text, key_values. cbn [fst snd findall].
  assert (key_value (k +:+ "=" +:+ str_of_Z z) = Some ((k, str_of_Z z), EmptyString)) as ->; [|by destruct (String.length _)].
  unfold key_value. rewrite str_app_cons, str_app_nil_l, some_of_app, some_of_all by done.
  cbn [fmap option_fmap option_map add_rest fst snd mbind option_bind]. rewrite str_app_nil_l.
  cbn [strip_prefix]. rewrite is_char_refl. cbn [mbind option_bind].
  by rewrite (some_of_all _ _ (str_of_Z_nonempty z Hz) (str_of_Z_digits z Hz)).
Qed.

Lemma key_values_join kvs :
  Forall (fun kv => good_key kv.1 = true /\ 0 <= kv.2) kvs ->
  key_values (str_join " " (map key_text kvs)) = map (fun kv => (kv.1, str_of_Z kv.2)) kvs.
Proof.
  induction 1 as [|[k z] kvs [Hk Hz] H IH]; [done|]. cbn [map fst snd] in *. destruct kvs as [|kv kvs].
  - cbn [map str_join]. by apply key_values_one.
  - cbn [map] in *. rewrite str_join_cons2, str_app_cons, str_app_nil_l, key_values_app by done.
    rewrite key_values_one, IH by done. done.
Qed.

Definition into (fields : gmap string Z) (kvs : list (string * Z)) : gmap string Z :=
  foldl (fun m kv => <[kv.1 := kv.2]> m) fields kvs.

Lemma telemetry_into kvs fields :
  Forall (fun kv => writable_int kv.2) kvs ->
  telemetry (map (fun kv => (kv.1, str_of_Z kv.2)) kvs) fields = Ok (into fields kvs).
Proof.
  intros H. revert fields. induction H as [|[k z] kvs Hz H IH]; intros fields; [done|].
  cbn [map telemetry fst snd] in *. unfold int_group. rewrite int_of_str by done. cbn. apply IH.
Qed.

Lemma telemetry_app a b fields : telemetry (a ++ b) fields = (m ← telemetry a fields; telemetry b m).
Proof.
  revert fields. induction a as [|[k v] a IH]; intros fields; [done|]. cbn.
  destruct (int_group v); cbn; [apply IH|done].
Qed.

Lemma into_lookup_other kvs fields k : k ∉ kvs.*1 -> into fields kvs !! k = fields !! k.
Proof.
  unfold into. revert fields. induction kvs as [|[k' v] kvs IH]; intros fields Hk; [done|].
  cbn in *. apply not_elem_of_cons in Hk as [Hne Hk]. by rewrite IH, lookup_insert_ne.
Qed.

Lemma into_lookup kvs fields :
  NoDup kvs.*1 -> map (fun k => (k, default 0 (into fields kvs !! k))) kvs.*1 = kvs.
Proof.
  revert fields. induction kvs as [|[k v] kvs IH]; intros fields Hn; [done|].
  cbn in Hn. apply NoDup_cons in Hn as [Hk Hn]. cbn [fmap list_fmap map fst].
  change (into fields ((k, v) :: kvs)) with (into (<[k := v]> fields) kvs).
  rewrite into_lookup_other, lookup_insert_eq by done. cbn. f_equal. by apply IH.
Qed.

Lemma into_present kvs fields k : k ∈ kvs.*1 -> into fields kvs !! k <> None.
Proof.
  unfold into. revert fields. induction kvs as [|[k' v] kvs IH]; intros fields Hk; [by apply elem_of_nil in Hk|].
  destruct (decide (k ∈ kvs.*1)) as [Hin|Hin]; [by apply IH|].
  cbn in *. apply elem_of_cons in Hk as [->|Hk]; [|done].
  pose proof (into_lookup_other kvs (<[k' := v]> fields) k' Hin) as H. unfold into in H. by rewrite H, lookup_insert_eq.
Qed.

(** The fields of the line in their order. *)
Definition line_fields (sent received : Z) (info : list (string * Z)) : list (string * Z) :=
  ("guest_to_host", sent) :: ("host_to_guest", received) :: info.

Lemma key_values_line name port sent received info :
  str_mem "=" name = false -> 0 <= port ->
  Forall (fun kv => good_key kv.1 = true /\ 0 <= kv.2) (line_fields sent received info) ->
  key_values (telemetry_line name port sent received info)
  = [("guest", "192"); ("host", "192")] ++ map (fun kv => (kv.1, str_of_Z kv.2)) (line_fields sent received info).
Proof.
  intros Hn Hp Hf. unfold telemetry_line.
  change (": guest=" +:+ ?x) with (String ":" (" guest=" +:+ x)).
  rewrite key_values_app, (key_values_none name) by done.
  change (_ :: _ :: info) with (line_fields sent received info).
  set (joined := str_join _ _).
  replace (" guest=" +:+ GUEST_IPV4 +:+ " host=" +:+ HOST_IPV4 +:+ ":" +:+ str_of_Z port +:+ " " +:+ joined)
    with ((" guest=" +:+ GUEST_IPV4 +:+ " host=" +:+ HOST_IPV4) +:+ String ":" (str_of_Z port +:+ String " " joined))
    by (by rewrite !str_app_assoc).
  rewrite !key_values_app, (key_values_none (str_of_Z port)) by
    (done || by eapply str_forallb_not_mem; [apply str_of_Z_digits|]).
  unfold joined. rewrite (key_values_join (line_fields sent received info)) by done. done.
Qed.

Lemma parse_tcp_line_reads path lines name port sent received info :
  str_mem "=" name = false -> 0 <= port ->
  (line_fields sent received info).*1 = TCP_FIELDS ->
  Forall (fun kv => writable_int kv.2) (line_fields sent received info) ->
  filter (fun line => startswith (name +:+ ":") line = true) lines = [telemetry_line name port sent received info] ->
  parse_tcp_line path lines name = Ok (line_fields sent received info).
Proof.
  intros Hn Hp Hkeys Hw Hl. unfold parse_tcp_line. rewrite Hl. cbn [mbind res_bind].
  rewrite key_values_line; [|done|done|]; last first.
  { apply Forall_forall. intros kv Hkv. split; [|by eapply Forall_forall in Hw as [? ?]].
    assert (kv.1 ∈ TCP_FIELDS) as Hin by (rewrite <- Hkeys; by apply list_elem_of_fmap_2).
    assert (forallb good_key TCP_FIELDS = true) as Hg by done. by eapply forallb_forall, list_elem_of_In. }
  rewrite telemetry_app. cbn [telemetry].
  change (int_group "192") with (Ok 192 : res Z). cbn [mbind res_bind]. rewrite telemetry_into by done. cbn [mbind res_bind].
  assert (NoDup (line_fields sent received info).*1) as Hnd by (rewrite Hkeys; by apply (bool_decide_unpack (NoDup TCP_FIELDS))).
  rewrite bool_decide_eq_true_2; cbn [negb raise_if mbind res_bind].
  - rewrite <- Hkeys. by rewrite into_lookup.
  - apply elem_of_nil_inv. intros k [Hk Hin]%list_elem_of_filter. rewrite <- Hkeys in Hin. by eapply into_present.
Qed.

(** ** What the hosted kernel reports *)

Lemma writable_uint n z : uint_fits n z = true -> (n <= 8)%nat -> writable_int z.
Proof.
  unfold uint_fits. intros [Hz%Z.leb_le Hlt%Z.ltb_lt]%andb_true_iff Hn. apply writable_word. split; [done|].
  eapply Z.lt_le_trans; [exact Hlt|]. apply Z.pow_le_mono_r; lia.
Qed.

(** An accepted answer is of an established connection with a window; its items
    are the last of [TCP_FIELDS], in that order, and each is written in full. *)
Lemma tcp_info_of_fields name len raw info :
  tcp_info_of name len raw = Ok info ->
  info.*1 = drop 2 TCP_FIELDS /\ Forall (fun kv => writable_int kv.2) info
  /\ dict_get "state" info = Some TCP_ESTABLISHED /\ (exists w, dict_get "snd_cwnd" info = Some w /\ 0 < w).
Proof.
  unfold tcp_info_of. intros H.
  destruct (negb (len =? _)); [done|]. cbn [raise_if mbind res_bind] in H.
  destruct (length raw =? calcsize TCP_INFO)%nat eqn:Hl; [|done]. cbn [negb raise_if mbind res_bind] in H.
  pose proof (unpack_fit TCP_INFO raw eq_refl (proj1 (Nat.eqb_eq _ _) Hl)) as Hfit.
  destruct (unpack TCP_INFO raw) as (v1&v2&v3&v4&v5&v6&v7&v8&v9&v10&v11&v12&v13&v14&v15&u).
  cbn [TCP_INFO values_fit fst snd] in Hfit. rewrite !andb_true_iff in Hfit. destruct_and!.
  destruct (v1 =? TCP_ESTABLISHED) eqn:Hs; [|done]. destruct (v7 =? 0) eqn:Hc; [done|].
  cbn [negb raise_if mbind res_bind] in H. injection H as <-. bool_to_prop. subst.
  split_and!; [done| |done|].
  - repeat (apply Forall_cons; split; [cbn [snd]; eapply writable_uint; [eassumption|lia]|]). by apply Forall_nil.
  - exists v7. split; [done|]. unfold uint_fits in *. bool_to_prop. lia.
Qed.

(** ** Counters of the qdisc are read back *)

Definition qdisc_text (b p d o r : Z) : string :=
  "Sent " +:+ str_of_Z b +:+ " bytes " +:+ str_of_Z p +:+ " pkt (dropped " +:+ str_of_Z d +:+ ", overlimits "
  +:+ str_of_Z o +:+ " requeues " +:+ str_of_Z r +:+ ")".

Lemma some_of_number z c t :
  0 <= z -> is_digit c = false -> some_of is_digit (str_of_Z z +:+ String c t) = Some (str_of_Z z, String c t).
Proof.
  intros Hz Hc. rewrite some_of_app, (some_of_all _ _ (str_of_Z_nonempty z Hz) (str_of_Z_digits z Hz)) by done.
  done.
Qed.

(** Before a number or a word, one space is all the space there is. *)
Lemma spaces_one c t : is_space c = false -> spaces (String " " (String c t)) = Some (String c t).
Proof. intros Hc. unfold spaces, some_of. cbn. by rewrite Hc. Qed.

Lemma spaces_number z t : 0 <= z -> spaces (String " " (str_of_Z z +:+ t)) = Some (str_of_Z z +:+ t).
Proof.
  intros Hz. pose proof (str_of_Z_nonempty z Hz) as He. pose proof (str_of_Z_digits z Hz) as Hd.
  destruct (str_of_Z z) as [|c s]; [done|]. cbn in Hd. apply andb_true_iff in Hd as [Hc _].
  rewrite str_app_cons. apply spaces_one. revert Hc. by_char c.
Qed.

Lemma qdisc_counters_text b p d o r t :
  0 <= b -> 0 <= p -> 0 <= d -> 0 <= o -> 0 <= r ->
  qdisc_counters (qdisc_text b p d o r +:+ t) = Some ((str_of_Z b, str_of_Z p, str_of_Z d, str_of_Z o, str_of_Z r), t).
Proof.
  intros Hb Hp Hd Ho Hr. unfold qdisc_counters, qdisc_text. rewrite !str_app_assoc.
  rewrite !str_app_cons, !str_app_nil_l. cbn beta zeta.
  repeat first [ rewrite spaces_number by done | rewrite some_of_number by done
               | rewrite spaces_one by done | progress cbn [mbind option_bind]
               | progress (cbn [strip_prefix]; rewrite ?is_char_refl) ].
  done.
Qed.

(** The counters tc prints are the counters the report has, wherever its
    first such line stands. *)
Lemma parse_qdisc_reads path before b p d o r after :
  Forall writable_int [b; p; d; o; r] -> str_mem "S" before = false ->
  parse_qdisc path (before +:+ qdisc_text b p d o r +:+ after)
  = Ok {| bytes_sent := b; packets_sent := p; dropped := d; ql_overlimits := o; requeues := r |}.
Proof.
  intros Hw Hs. repeat match goal with H : Forall _ (_ :: _) |- _ => apply Forall_cons in H as [? H] end.
  unfold parse_qdisc.
  assert (search qdisc_counters (before +:+ qdisc_text b p d o r +:+ after)
          = Some (str_of_Z b, str_of_Z p, str_of_Z d, str_of_Z o, str_of_Z r)) as ->.
  { induction before as [|c before IH].
    - rewrite str_app_nil_l. pose proof (qdisc_counters_text b p d o r after) as Hq. unfold writable_int in *.
      destruct (qdisc_text b p d o r +:+ after); cbn [search]; by rewrite Hq by tauto.
    - cbn in Hs. apply orb_false_iff in Hs as [Hc Hs]. rewrite str_app_cons. cbn [search].
      unfold qdisc_counters at 1. cbn [strip_prefix]. rewrite Hc. cbn [mbind option_bind]. by apply IH. }
  cbn [res_of_option mbind res_bind]. unfold int_group. by rewrite !int_of_str by done.
Qed.
