(* ===== verification/Hosted.v ===== *)
(** * The hosted report

    [scripts/collect-m7-hosted-report.py]: the telemetry, ping and tc logs of one
    run against the acceptance of its scenario.  The scenario is a JSON document
    whose values the code takes as they are, so the operations on them
    ([value["key"]], [float(value)], names of any type as dictionary keys) are
    those of the language, errors included.  [str] of a name that is no text is
    a parameter.  Floats are exact rationals with infinities and NaN. *)

From S2P Require Import Prelude PyStr Reports Py Effects Json Struct Benchmark Logs.
Local Open Scope Z_scope.

(** ** Floats *)

Inductive pyfloat := Fin (q : Q) | Inf (negative : bool) | NaN.

Definition is_negative (q : Q) : bool := negb (Qle_bool 0 q).
Definition number_of (q : Q) : pyfloat := if finite q then Fin q else Inf (is_negative q).

(** [x * y] *)
Definition number_mul (x y : pyfloat) : pyfloat :=
  match x, y with
  | Fin p, Fin q => number_of (p * q)
  | Inf n, Fin q | Fin q, Inf n => if Qeq_bool q 0 then NaN else Inf (xorb n (is_negative q))
  | Inf m, Inf n => Inf (xorb m n)
  | NaN, _ | _, NaN => NaN
  end.
(** [x <= y] *)
Definition number_le (x y : pyfloat) : bool :=
  match x, y with
  | Fin p, Fin q => Qle_bool p q
  | NaN, _ | _, NaN => false
  | Inf m, Inf n => m || negb n
  | Inf m, Fin _ => m
  | Fin _, Inf n => negb n
  end.
(** [x == 0.0] *)
Definition number_zero (x : pyfloat) : bool := match x with Fin q => Qeq_bool q 0 | _ => false end.
(** [int(x)] *)
Definition int_of_number (x : pyfloat) : res Z :=
  match x with
  | Fin q => Ok (truncate q)
  | Inf _ => Err (Sys (SException "OverflowError" "cannot convert float infinity to integer"))
  | NaN => Err (ValueError "cannot convert float NaN to integer")
  end.

(** Underscores stand between digits only, and are dropped. *)
Fixpoint drop_underscores (after_digit : bool) (s : string) : option string :=
  match s with
  | EmptyString => Some EmptyString
  | String c t =>
      if is_char "_" c then
        match t with
        | String d _ => if after_digit && is_digit d then drop_underscores false t else None
        | EmptyString => None
        end
      else String c <$> drop_underscores (is_digit c) t
  end.

Definition float_magnitude (s : string) : option Q :=
  s ← drop_underscores false s;
  let '(whole, rest) := span_digits s in
  let '(fraction, rest) := match rest with String "." t => span_digits t | _ => (EmptyString, rest) end in
  let '(exponent, rest) := scan_exponent rest in
  if str_empty (whole +:+ fraction) || negb (str_empty rest) then None
  else Some (decimal (digits_val 10 0 (whole +:+ fraction)) (default 0 exponent - Z.of_nat (String.length fraction))).

(** [text.lower()] on ASCII letters, the only ones of the words below *)
Fixpoint lower (s : string) : string :=
  match s with
  | String c t => String (if in_range "A" "Z" c then ascii_of_nat (nat_of_ascii c + 32) else c) (lower t)
  | EmptyString => EmptyString
  end.

(** [float(text)] *)
Definition float_str (text : string) : option pyfloat :=
  let text := str_strip text in
  let '(negative, text) :=
    match text with String "-" t => (true, t) | String "+" t => (false, t) | _ => (false, text) end in
  let low := lower text in
  if str_in low ["inf"; "infinity"] then Some (Inf negative)
  else if bool_decide (low = "nan") then Some NaN
  else q ← float_magnitude text; Some (number_of (if negative : bool then - q else q)%Q).

(** [float(value)] *)
Definition float_value (value : json) : res pyfloat :=
  match value with
  | JBool b => Ok (Fin (if b then 1 else 0))
  | JInt z => q ← float_of_int z; Ok (Fin q)
  | JReal q => Ok (number_of q)
  | JConst name => Ok (if bool_decide (name = "NaN") then NaN else Inf (bool_decide (name = "-Infinity")))
  | JStr s => res_of_option (ValueError ("could not convert string to float: " +:+ py_repr s)) (float_str s)
  | _ => Err (TypeError "float() argument must be a string or a real number")
  end.

(** [f"{x:.3f}"] *)
Definition pad3 (s : string) : string := String.concat EmptyString (replicate (3 - String.length s) "0") +:+ s.
Definition fixed3 (x : pyfloat) : string :=
  match x with
  | Fin q =>
      let n := py_round (Qabs.Qabs q * 1000) in
      (if is_negative q then "-" else EmptyString) +:+ str_of_Z (n / 1000) +:+ "." +:+ pad3 (str_of_Z (n mod 1000))
  | Inf negative => if negative then "-inf" else "inf"
  | NaN => "nan"
  end.

(** ** JSON values *)

Definition KeyError (key : string) : exn := Sys (SException "KeyError" (py_repr key)).

(** [value["key"]] *)
Definition index (value : json) (key : string) : res json :=
  match value with
  | JObj d => res_of_option (KeyError key) (dict_get key d)
  | JArr _ => Err (TypeError "list indices must be integers or slices, not str")
  | JStr _ => Err (TypeError "string indices must be integers, not 'str'")
  | _ => Err (TypeError "object is not subscriptable")
  end.

(** What a value is as a key of a dictionary. *)
Inductive key := KStr (s : string) | KNone | KNumber (x : pyfloat).
Definition key_of (value : json) : res key :=
  match value with
  | JStr s => Ok (KStr s)
  | JNull => Ok KNone
  | JBool b => Ok (KNumber (Fin (if b then 1 else 0)))
  | JInt z => Ok (KNumber (Fin (inject_Z z)))
  | JReal q => Ok (KNumber (number_of q))
  | JConst name => Ok (KNumber (if bool_decide (name = "NaN") then NaN else Inf (bool_decide (name = "-Infinity"))))
  | JArr _ => Err (TypeError "unhashable type: 'list'")
  | JObj _ => Err (TypeError "unhashable type: 'dict'")
  end.
Definition key_eq (a b : key) : bool :=
  match a, b with
  | KStr s, KStr t => bool_decide (s = t)
  | KNone, KNone => true
  | KNumber (Fin p), KNumber (Fin q) => Qeq_bool p q
  | KNumber (Inf m), KNumber (Inf n) => Bool.eqb m n
  | KNumber NaN, KNumber NaN => true
  | _, _ => false
  end.

Definition Fields : Type := list (string * Z).
Definition Telemetry : Type := list (key * Fields).

Fixpoint tcp_set (k : key) (v : Fields) (d : Telemetry) : Telemetry :=
  match d with
  | [] => [(k, v)]
  | (k', v') :: d => if key_eq k k' then (k', v) :: d else (k', v') :: tcp_set k v d
  end.
Fixpoint tcp_get (k : key) (d : Telemetry) : option Fields :=
  match d with [] => None | (k', v) :: d => if key_eq k k' then Some v else tcp_get k d end.

(** A field of [TCP_FIELDS], which every parsed entry has. *)
Definition field_of (name : string) (fields : Fields) : Z := default 0 (dict_get name fields).

Section report.
Context (repr : json -> string).

(** [f"{cc_name}"] *)
Definition shown_name (cc_name : json) : string := match cc_name with JStr s => s | j => repr j end.

Fixpoint parse_tcp_log (path : string) (lines : list string) (expected_ccs : list json) (result : Telemetry) : res Telemetry :=
  match expected_ccs with
  | [] => Ok result
  | cc_name :: ccs =>
      fields ← parse_tcp_line path lines (shown_name cc_name);
      k ← key_of cc_name;
      parse_tcp_log path lines ccs (tcp_set k fields result)
  end.

(** ** The checks *)

Record Accept := { a_name : string; a_passed : bool; a_observed : json; a_expected : json }.

(** [add_check] *)
Definition add_check (name : string) (passed : bool) (observed expected : json) : Accept :=
  {| a_name := name; a_passed := passed; a_observed := observed; a_expected := expected |}.

(** [if acceptance[flag]: add_check(...)] *)
Definition gated (acceptance : json) (flag : string) (c : Accept) : res (list Accept) :=
  v ← index acceptance flag; Ok (if truthy v then [c] else []).

Definition positive (name : string) (n : Z) : Accept := add_check name (0 <? n) (JInt n) (JStr "> 0").
Definition exactly (name : string) (n expected : Z) : Accept := add_check name (n =? expected) (JInt n) (JInt expected).

Definition network_checks (network acceptance : json) (ping : PingLog) (qdisc : QdiscLog) (min_rtt_ms : pyfloat) :
    res (list Accept) :=
  loss_percent ← index network "loss_percent";
  loss ← float_value loss_percent;
  drops ← gated acceptance "require_qdisc_dropped_zero" (exactly "qdisc_zero_drops" (dropped qdisc) 0);
  Ok ([add_check "configured_loss_is_zero" (number_zero loss) loss_percent (JInt 0);
       positive "qdisc_carried_packets" (packets_sent qdisc)] ++ drops ++
      [add_check "ping_rtt_reflects_delay" (number_le min_rtt_ms (Fin (avg_ms ping))) (JReal (avg_ms ping))
         (JStr (">= " +:+ fixed3 min_rtt_ms +:+ " ms"))]).

Definition cc_checks (acceptance : json) (expected_guest_to_host expected_host_to_guest min_tcp_rtt_us : Z)
    (cc_name : string) (fields : Fields) : res (list Accept) :=
  let name text := cc_name +:+ "_" +:+ text in
  let value text := field_of text fields in
  established ← gated acceptance "require_established" (exactly (name "established") (value "state") 1);
  rto ← gated acceptance "require_nonzero_rto" (positive (name "nonzero_rto") (value "rto_us"));
  rtt ← gated acceptance "require_nonzero_rtt" (positive (name "nonzero_rtt") (value "rtt_us"));
  cwnd ← gated acceptance "require_nonzero_cwnd" (positive (name "nonzero_cwnd") (value "snd_cwnd"));
  Ok ([exactly (name "guest_to_host_bytes") (value "guest_to_host") expected_guest_to_host;
       exactly (name "host_to_guest_bytes") (value "host_to_guest") expected_host_to_guest]
      ++ established ++ rto ++ rtt ++ cwnd ++
      [add_check (name "tcp_rtt_reflects_delay") (min_tcp_rtt_us <=? value "rtt_us") (JInt (value "rtt_us"))
         (JStr (">= " +:+ str_of_Z min_tcp_rtt_us +:+ " us"))]).

Fixpoint all_cc_checks (acceptance : json) (expected_guest_to_host expected_host_to_guest min_tcp_rtt_us : Z)
    (tcp : Telemetry) (cc_names : list json) : res (list Accept) :=
  match cc_names with
  | [] => Ok []
  | cc_name :: cc_names =>
      k ← key_of cc_name;
      fields ← res_of_option (KeyError (shown_name cc_name)) (tcp_get k tcp);
      checks ← cc_checks acceptance expected_guest_to_host expected_host_to_guest min_tcp_rtt_us (shown_name cc_name) fields;
      more ← all_cc_checks acceptance expected_guest_to_host expected_host_to_guest min_tcp_rtt_us tcp cc_names;
      Ok (checks ++ more)
  end.

Definition bbr_checks (acceptance : json) (tcp : Telemetry) : res (list Accept) :=
  v ← index acceptance "require_bbr_pacing";
  if truthy v then
    fields ← res_of_option (SystemExit "scenario requires BBR pacing but does not include bbr") (tcp_get (KStr "bbr") tcp);
    Ok [positive "bbr_nonzero_pacing_rate" (field_of "pacing_rate" fields)]
  else Ok [].

(** [main] from the parsed logs to the checks *)
Definition acceptance_checks (network transfer acceptance : json) (cc_names : list json)
    (tcp : Telemetry) (ping : PingLog) (qdisc : QdiscLog) : res (list Accept) :=
  expected_guest_to_host ← (v ← index transfer "guest_to_host_bytes_per_cc"; int_value v);
  expected_host_to_guest ← (v ← index transfer "host_to_guest_bytes_per_cc"; int_value v);
  delay_ms ← (v ← index network "delay_ms"; float_value v);
  min_rtt_fraction ← (v ← index acceptance "min_rtt_fraction_of_delay"; float_value v);
  let min_rtt_ms := number_mul delay_ms min_rtt_fraction in
  min_tcp_rtt_us ← int_of_number (number_mul (number_mul delay_ms (Fin 1000)) min_rtt_fraction);
  checks ← network_checks network acceptance ping qdisc min_rtt_ms;
  per_cc ← all_cc_checks acceptance expected_guest_to_host expected_host_to_guest min_tcp_rtt_us tcp cc_names;
  bbr ← bbr_checks acceptance tcp;
  Ok (checks ++ per_cc ++ bbr).

(** ** The report *)

(** The texts of the files [main] reads, with the paths for its messages. *)
Record Inputs := {
  i_scenario : string;
  i_scenario_path : string; i_scenario_text : string;
  i_upstream_path : string; i_upstream_text : string;
  i_tcp_path : string; i_tcp_text : string;
  i_ping_path : string; i_ping_text : string;
  i_qdisc_path : string; i_qdisc_text : string;
}.

(** The report as far as it is computed; the scenario and the names of the
    runtime are copied into the document as they are. *)
Record HostedReport := {
  h_upstream : list (string * string);
  h_ping : PingLog; h_qdisc : QdiscLog; h_tcp : Telemetry;
  h_checks : list Accept; h_passed : bool;
}.

(** The members of the report's ["upstream"] and the variables they come from. *)
Definition upstream_of (upstream : list (string * string)) : list (string * string) :=
  map (fun '(name, variable) => (name, default EmptyString (dict_get variable upstream)))
    [("remote", "LINUX_REMOTE"); ("series", "LINUX_SERIES"); ("tag", "LINUX_TAG"); ("version", "LINUX_VERSION");
     ("commit", "LINUX_COMMIT")].

Definition read_json (path text : string) : res (list (string * json)) :=
  value ← res_of_option JSONDecodeError (loads text);
  match value with JObj d => Ok d | _ => Err (SystemExit (path +:+ ": expected a JSON object")) end.

Definition REQUIRED_UPSTREAM : list string :=
  ["LINUX_REMOTE"; "LINUX_SERIES"; "LINUX_TAG"; "LINUX_VERSION"; "LINUX_COMMIT"].

(** The scenario of the contract with its parts: network, transfer, acceptance
    and the names of the congestion controls. *)
Definition find_scenario (i : Inputs) : res (json * json * json * list json) :=
  contract ← read_json (i_scenario_path i) (i_scenario_text i);
  _ ← raise_if (negb (eq_int (get "schema_version" contract) 1)) (SystemExit "unsupported M7 scenario schema_version");
  let unknown := SystemExit ("unknown M7 scenario: " +:+ i_scenario i) in
  scenarios ← match get "scenarios" contract with JObj d => Ok d | _ => Err unknown end;
  scenario ← res_of_option unknown (dict_get (i_scenario i) scenarios);
  _ ← match scenario with JObj _ => Ok tt | _ => Err (SystemExit ("scenario " +:+ i_scenario i +:+ " is not an object")) end;
  network ← index scenario "network";
  transfer ← index scenario "transfer";
  acceptance ← index scenario "acceptance";
  names ← index transfer "congestion_controls";
  cc_names ← match names with
             | JArr (name :: names) => Ok (name :: names)
             | _ => Err (SystemExit "scenario has no congestion controls")
             end;
  Ok (network, transfer, acceptance, cc_names).

(** [main] up to the report it writes *)
Definition collect_report (i : Inputs) : res HostedReport :=
  '(network, transfer, acceptance, cc_names) ← find_scenario i;
  let upstream := read_env (i_upstream_text i) in
  let missing := filter (fun k => str_empty (default EmptyString (dict_get k upstream)) = true) REQUIRED_UPSTREAM in
  _ ← raise_if (negb (bool_decide (missing = [])))
        (SystemExit (i_upstream_path i +:+ ": missing upstream provenance: " +:+ str_join ", " missing));
  tcp ← parse_tcp_log (i_tcp_path i) (splitlines (i_tcp_text i)) cc_names [];
  ping ← parse_ping (i_ping_path i) (i_ping_text i);
  qdisc ← parse_qdisc (i_qdisc_path i) (i_qdisc_text i);
  checks ← acceptance_checks network transfer acceptance cc_names tcp ping qdisc;
  Ok {| h_upstream := upstream_of upstream; h_ping := ping; h_qdisc := qdisc; h_tcp := tcp; h_checks := checks;
        h_passed := forallb a_passed checks |}.

(** The end of [main], after the report is written: the line it prints *)
Definition conclude_report (i : Inputs) (r : HostedReport) : res string :=
  _ ← raise_if (negb (h_passed r))
        (SystemExit ("M7 hosted baseline acceptance failed: "
                     +:+ str_join ", " (map a_name (filter (fun c => a_passed c = false) (h_checks r)))));
  Ok ("M7 hosted baseline passed: scenario=" +:+ i_scenario i +:+ " ping_avg_ms=" +:+ fixed3 (Fin (avg_ms (h_ping r)))
      +:+ " qdisc_dropped=" +:+ str_of_Z (dropped (h_qdisc r))).
End report.

(** * From the test to the report *)

(** One exercise of a congestion control by the TUN test: its transfer, and the
    answer of the hosted kernel with the items decoded from it. *)
Record Exercise := {
  x_name : string; x_port : Z; x_sent : Z; x_received : Z;
  x_len : Z; x_raw : bytes; x_info : list (string * Z);
}.
Definition x_line (x : Exercise) : string := telemetry_line (x_name x) (x_port x) (x_sent x) (x_received x) (x_info x).
Definition x_fields (x : Exercise) : Fields := line_fields (x_sent x) (x_received x) (x_info x).

Definition exercised (x : Exercise) : Prop :=
  str_mem "=" (x_name x) = false /\ str_mem ":" (x_name x) = false /\ 0 <= x_port x
  /\ writable_int (x_sent x) /\ writable_int (x_received x)
  /\ tcp_info_of (x_name x) (x_len x) (x_raw x) = Ok (x_info x).

Lemma colon_prefix a b t : str_mem ":" a = false -> str_mem ":" b = false -> startswith (a +:+ ":") (b +:+ String ":" t) = true -> a = b.
Proof.
  revert b. induction a as [|c a IH]; intros [|d b] Ha Hb; rewrite ?str_app_nil_l, ?str_app_cons; unfold startswith;
    cbn [strip_prefix str_mem] in *; [done| | |].
  - apply orb_false_iff in Hb as [-> _]. done.
  - apply orb_false_iff in Ha as [Hc _]. destruct (is_char c ":") eqn:E; [|done].
    apply is_char_true in E as ->. by rewrite is_char_refl in Hc.
  - apply orb_false_iff in Ha as [_ Ha], Hb as [_ Hb]. destruct (is_char c d) eqn:E; [|done].
    apply is_char_true in E as ->. intros H. f_equal. by apply IH.
Qed.

Lemma x_line_prefix n x : exercised x -> str_mem ":" n = false ->
  startswith (n +:+ ":") (x_line x) = true <-> n = x_name x.
Proof.
  intros (_ & Hc & _) Hn. unfold x_line, telemetry_line. split.
  - rewrite str_app_cons. by apply colon_prefix.
  - intros ->. rewrite (str_app_cons ":" " guest="). unfold startswith.
    match goal with |- context [strip_prefix _ (_ +:+ String ":" ?t)] =>
      replace (x_name x +:+ String ":" t) with ((x_name x +:+ ":") +:+ t) by (by rewrite str_app_assoc) end.
    by rewrite strip_prefix_app.
Qed.

Lemma exercised_lines xs x :
  Forall exercised xs -> NoDup (map x_name xs) -> x ∈ xs ->
  filter (fun line => startswith (x_name x +:+ ":") line = true) (map x_line xs) = [x_line x].
Proof.
  induction 1 as [|y xs Hy H IH]; intros Hn Hx; [by apply elem_of_nil in Hx|].
  cbn [map] in *. apply NoDup_cons in Hn as [Hny Hn].
  assert (str_mem ":" (x_name x) = false) as Hc.
  { eapply (Forall_forall exercised (y :: xs)); [by constructor|done]. }
  apply elem_of_cons in Hx as [->|Hx].
  - rewrite filter_cons_True by (by apply x_line_prefix). f_equal. apply elem_of_nil_inv.
    intros l [Hl (z & -> & Hz)%list_elem_of_fmap]%list_elem_of_filter.
    apply x_line_prefix in Hl; [|by eapply Forall_forall|done]. apply Hny. rewrite Hl. by apply list_elem_of_fmap_2.
  - rewrite filter_cons_False; [by apply IH|]. intros Hl%x_line_prefix; [|done|done]. apply Hny. rewrite <- Hl.
    by apply list_elem_of_fmap_2.
Qed.

Lemma x_fields_fine x :
  exercised x -> (x_fields x).*1 = TCP_FIELDS /\ Forall (fun kv => writable_int kv.2) (x_fields x).
Proof.
  intros (_ & _ & _ & Hs & Hr & (Hk & Hw & _)%tcp_info_of_fields). split.
  - unfold x_fields, line_fields. cbn [fmap list_fmap fst]. fold (fmap (M:=list) (fst (A:=string) (B:=Z)) (x_info x)). by rewrite Hk.
  - apply Forall_cons; split; [done|]. apply Forall_cons; by split.
Qed.

Lemma tcp_set_new k v d : Forall (fun e => key_eq k e.1 = false) d -> tcp_set k v d = d ++ [(k, v)].
Proof. induction 1 as [|[k' v'] d Hk H IH]; [done|]. cbn in *. by rewrite Hk, IH. Qed.

Lemma parse_tcp_log_reads repr path lines xs acc :
  (forall x, x ∈ xs -> parse_tcp_line path lines (x_name x) = Ok (x_fields x)) ->
  NoDup (map x_name xs) -> (forall x, x ∈ xs -> Forall (fun e => key_eq (KStr (x_name x)) e.1 = false) acc) ->
  parse_tcp_log repr path lines (map (fun x => JStr (x_name x)) xs) acc
  = Ok (acc ++ map (fun x => (KStr (x_name x), x_fields x)) xs).
Proof.
  revert acc. induction xs as [|x xs IH]; intros acc Hr Hn Ha; cbn [map parse_tcp_log]; [by rewrite app_nil_r|].
  cbn [shown_name key_of]. rewrite Hr by constructor. cbn [mbind res_bind].
  rewrite tcp_set_new by (apply Ha; constructor). cbn [map] in Hn. apply NoDup_cons in Hn as [Hx Hn].
  rewrite IH; [by rewrite <- app_assoc|by intros; apply Hr; constructor|done|].
  intros y Hy. apply Forall_app. split; [by apply Ha; constructor|]. repeat constructor. cbn.
  apply bool_decide_eq_false_2. intros Heq. apply Hx. rewrite <- Heq. by apply (list_elem_of_fmap_2 x_name).
Qed.

(** C39. Telemetry survives the log: for exercises of congestion controls with
    different names, each with an answer of the hosted kernel that the TUN test
    accepts, the lines the test prints, in any order and among lines of other
    programs, give the report exactly the transfer and the decoded items of each,
    under its name and in the order the scenario names them. *)
Theorem parse_tcp_log_roundtrip repr path xs lines others :
  Forall exercised xs -> NoDup (map x_name xs) ->
  lines ≡ₚ map x_line xs ++ others ->
  (forall x other, x ∈ xs -> other ∈ others -> startswith (x_name x +:+ ":") other = false) ->
  parse_tcp_log repr path lines (map (fun x => JStr (x_name x)) xs) []
  = Ok (map (fun x => (KStr (x_name x), x_fields x)) xs).
Proof.
  intros Hx Hn Hp Ho. rewrite parse_tcp_log_reads; [done| |done|by constructor].
  intros x Hin. pose proof (proj1 (Forall_forall _ _) Hx x Hin) as Hex. pose proof (x_fields_fine x Hex) as [Hk Hw].
  apply (parse_tcp_line_reads path lines (x_name x) (x_port x)); [apply Hex|apply Hex|done|done|].
  apply Permutation_singleton_r. rewrite Hp, filter_app, exercised_lines by done.
  replace (filter _ others) with (@nil string); [done|]. symmetry. apply elem_of_nil_inv.
  intros l [Hl Hin']%list_elem_of_filter. by rewrite (Ho x l) in Hl.
Qed.

(** * The verdict *)

Definition demanded (acceptance : json) (flag : string) : Prop :=
  exists v, index acceptance flag = Ok v /\ truthy v = true.
Definition reads {A} (value : json) (key : string) (convert : json -> res A) (x : A) : Prop :=
  (v ← index value key; convert v) = Ok x.

(** What the scenario asks of the telemetry of one congestion control. *)
Definition cc_accepted (acceptance : json) (sent received min_tcp_rtt_us : Z) (fields : Fields) : Prop :=
  field_of "guest_to_host" fields = sent /\ field_of "host_to_guest" fields = received
  /\ (demanded acceptance "require_established" -> field_of "state" fields = TCP_ESTABLISHED)
  /\ (demanded acceptance "require_nonzero_rto" -> 0 < field_of "rto_us" fields)
  /\ (demanded acceptance "require_nonzero_rtt" -> 0 < field_of "rtt_us" fields)
  /\ (demanded acceptance "require_nonzero_cwnd" -> 0 < field_of "snd_cwnd" fields)
  /\ min_tcp_rtt_us <= field_of "rtt_us" fields.

Notation passes l := (forallb a_passed l = true).

Lemma gated_passes acceptance flag c l :
  gated acceptance flag c = Ok l -> passes l <-> (demanded acceptance flag -> a_passed c = true).
Proof.
  unfold gated, demanded. intros H. destruct (index acceptance flag) as [v|]; [|done]. cbn in H. injection H as <-.
  destruct (truthy v) eqn:Hv; cbn; rewrite ?andb_true_r.
  - split; [done|]. intros H. apply H. by exists v.
  - split; [|done]. intros _ (w & [= <-] & Hw). congruence.
Qed.

Lemma positive_passes name n : a_passed (positive name n) = true <-> 0 < n.
Proof. apply Z.ltb_lt. Qed.
Lemma exactly_passes name n m : a_passed (exactly name n m) = true <-> n = m.
Proof. apply Z.eqb_eq. Qed.

Lemma network_checks_pass network acceptance ping qdisc min_rtt_ms l loss :
  network_checks network acceptance ping qdisc min_rtt_ms = Ok l -> reads network "loss_percent" float_value loss ->
  passes l <->
  number_zero loss = true /\ 0 < packets_sent qdisc
  /\ (demanded acceptance "require_qdisc_dropped_zero" -> dropped qdisc = 0)
  /\ number_le min_rtt_ms (Fin (avg_ms ping)) = true.
Proof.
  unfold network_checks, reads. intros H Hloss. destruct (index network _) as [v|]; [|done]. cbn [mbind res_bind] in *.
  rewrite Hloss in H. cbn [mbind res_bind] in H. destruct (gated _ _ _) as [drops|] eqn:Hg; [|done]. cbn [mbind res_bind] in H.
  injection H as <-. apply gated_passes in Hg. rewrite exactly_passes in Hg.
  cbn [app forallb]. rewrite !forallb_app. cbn [forallb]. rewrite !andb_true_iff, Hg, positive_passes. cbn. tauto.
Qed.

Lemma cc_checks_pass acceptance sent received rtt name fields l :
  cc_checks acceptance sent received rtt name fields = Ok l ->
  passes l <-> cc_accepted acceptance sent received rtt fields.
Proof.
  unfold cc_checks, cc_accepted. cbn zeta. intros H.
  destruct (gated _ "require_established" _) as [l1|] eqn:H1; [|done]. cbn [mbind res_bind] in H.
  destruct (gated _ "require_nonzero_rto" _) as [l2|] eqn:H2; [|done]. cbn [mbind res_bind] in H.
  destruct (gated _ "require_nonzero_rtt" _) as [l3|] eqn:H3; [|done]. cbn [mbind res_bind] in H.
  destruct (gated _ "require_nonzero_cwnd" _) as [l4|] eqn:H4; [|done]. cbn [mbind res_bind] in H. injection H as <-.
  apply gated_passes in H1, H2, H3, H4. rewrite exactly_passes in H1. rewrite positive_passes in H2, H3, H4.
  cbn [app forallb]. rewrite !forallb_app. cbn [forallb].
  rewrite !andb_true_iff, H1, H2, H3, H4, !exactly_passes. cbn. rewrite Z.leb_le. tauto.
Qed.

Lemma all_cc_checks_pass repr acceptance sent received rtt tcp names l :
  all_cc_checks repr acceptance sent received rtt tcp names = Ok l ->
  passes l <->
  (forall name k fields, name ∈ names -> key_of name = Ok k -> tcp_get k tcp = Some fields ->
     cc_accepted acceptance sent received rtt fields).
Proof.
  revert l. induction names as [|name names IH]; intros l H; cbn [all_cc_checks] in H.
  - injection H as <-. split; [|done]. by intros _ ? ? ? ?%elem_of_nil.
  - destruct (key_of name) as [k|] eqn:Hk; [|done]. cbn [mbind res_bind] in H.
    destruct (tcp_get k tcp) as [fields|] eqn:Hf; [|done]. cbn [mbind res_bind res_of_option] in H.
    destruct (cc_checks _ _ _ _ _ _) as [l1|] eqn:H1; [|done]. cbn [mbind res_bind] in H.
    destruct (all_cc_checks _ _ _ _ _ _) as [l2|] eqn:H2; [|done]. cbn [mbind res_bind] in H. injection H as <-.
    rewrite forallb_app, andb_true_iff, (cc_checks_pass _ _ _ _ _ _ _ H1), (IH _ eq_refl). split.
    + intros [Hc Hrest] name' k' fields' [->|Hin]%elem_of_cons Hk' Hf'; [|by eapply Hrest].
      rewrite Hk in Hk'. injection Hk' as <-. rewrite Hf in Hf'. by injection Hf' as <-.
    + intros Hall. split; [by eapply Hall; [constructor| |]|]. intros name' k' fields' Hin. apply Hall. by constructor.
Qed.

Lemma bbr_checks_pass acceptance tcp l :
  bbr_checks acceptance tcp = Ok l ->
  passes l <->
  (demanded acceptance "require_bbr_pacing" ->
     exists fields, tcp_get (KStr "bbr") tcp = Some fields /\ 0 < field_of "pacing_rate" fields).
Proof.
  unfold bbr_checks, demanded. intros H. destruct (index acceptance _) as [v|]; [|done]. cbn [mbind res_bind] in H.
  destruct (truthy v) eqn:Hv.
  - destruct (tcp_get _ tcp) as [fields|]; [|done]. cbn [mbind res_bind res_of_option] in H. injection H as <-.
    cbn [forallb]. rewrite andb_true_r, positive_passes. split; [by exists fields|].
    intros Hd. destruct Hd as (? & [= <-] & ?); [by exists v|done].
  - injection H as <-. split; [|done]. intros _ (w & [= <-] & Hw). congruence.
Qed.

(** C40. The hosted baseline passes exactly when the run meets its scenario: once
    the report is collected, the program ends with its success line if and only
    if the configured loss is zero, packets went through the qdisc and, where
    demanded, none was dropped, the mean ping reaches the demanded part of the
    delay, every named congestion control moved its bytes, reaches that part of
    the delay in its own estimate and has what else is demanded of it, and BBR
    paces where demanded. *)
Theorem hosted_verdict repr i r network transfer acceptance cc_names sent received delay fraction rtt loss :
  collect_report repr i = Ok r -> find_scenario i = Ok (network, transfer, acceptance, cc_names) ->
  reads transfer "guest_to_host_bytes_per_cc" int_value sent -> reads transfer "host_to_guest_bytes_per_cc" int_value received ->
  reads network "delay_ms" float_value delay -> reads acceptance "min_rtt_fraction_of_delay" float_value fraction ->
  int_of_number (number_mul (number_mul delay (Fin 1000)) fraction) = Ok rtt ->
  reads network "loss_percent" float_value loss ->
  (exists line, conclude_report i r = Ok line) <->
  number_zero loss = true /\ 0 < packets_sent (h_qdisc r)
  /\ (demanded acceptance "require_qdisc_dropped_zero" -> dropped (h_qdisc r) = 0)
  /\ number_le (number_mul delay fraction) (Fin (avg_ms (h_ping r))) = true
  /\ (forall name k fields, name ∈ cc_names -> key_of name = Ok k -> tcp_get k (h_tcp r) = Some fields ->
        cc_accepted acceptance sent received rtt fields)
  /\ (demanded acceptance "require_bbr_pacing" ->
        exists fields, tcp_get (KStr "bbr") (h_tcp r) = Some fields /\ 0 < field_of "pacing_rate" fields).
Proof.
  unfold collect_report. intros H Hs Hsent Hrec Hdelay Hfrac Hrtt Hloss. rewrite Hs in H. cbn [mbind res_bind] in H.
  res_inv. unfold acceptance_checks, reads in *. cbn [h_qdisc h_ping h_tcp].
  match goal with H : context [all_cc_checks] |- _ => rename H into Hc end.
  rewrite Hsent in Hc. cbn [mbind res_bind] in Hc. rewrite Hrec in Hc. cbn [mbind res_bind] in Hc.
  rewrite Hdelay in Hc. cbn [mbind res_bind] in Hc. rewrite Hfrac in Hc. cbn [mbind res_bind] in Hc.
  rewrite Hrtt in Hc. cbn [mbind res_bind] in Hc.
  destruct (network_checks _ _ _ _ _) as [l1|] eqn:K1; [|done]. cbn [mbind res_bind] in Hc.
  destruct (all_cc_checks _ _ _ _ _ _ _) as [l2|] eqn:K2; [|done]. cbn [mbind res_bind] in Hc.
  destruct (bbr_checks _ _) as [l3|] eqn:K3; [|done]. cbn [mbind res_bind] in Hc. injection Hc as <-.
  pose proof (network_checks_pass _ _ _ _ _ _ _ K1 Hloss) as N1. apply all_cc_checks_pass in K2. apply bbr_checks_pass in K3.
  transitivity (passes (l1 ++ l2 ++ l3)).
  - unfold conclude_report. cbn [h_passed].
    destruct (forallb a_passed (l1 ++ l2 ++ l3)); cbn [negb raise_if mbind res_bind]; split; try done.
    + intros _. by eexists.
    + by intros [line Hline].
  - rewrite !forallb_app, !andb_true_iff, N1, K2, K3. tauto.
Qed.

(** ** A run of the shipped scenario *)

Definition sample_exercise (name : string) (port rtt pacing : Z) : Exercise :=
  let raw := match pack TCP_INFO (1, (0, (0, (204000, (rtt, (400, (64, (32, (0, (0, (0, (1, (pacing, (pacing, (9000, tt)))))))))))))))
             with Ok raw => raw | Err _ => [] end in
  {| x_name := name; x_port := port; x_sent := 2097152; x_received := 16384; x_len := 64; x_raw := raw;
     x_info := match tcp_info_of name 64 raw with Ok info => info | Err _ => [] end |}.
Definition sample_exercises : list Exercise :=
  [sample_exercise "cubic" 40001 50200 0; sample_exercise "bbr" 40002 50300 123456].
Definition sample_lines : list string := ["tun ready"; x_line (sample_exercise "bbr" 40002 50300 123456);
                                          x_line (sample_exercise "cubic" 40001 50200 0)].

Lemma parse_tcp_log_roundtrip_witness :
  parse_tcp_log dump "tcp.log" sample_lines [JStr "cubic"; JStr "bbr"] []
  = Ok (map (fun x => (KStr (x_name x), x_fields x)) sample_exercises).
Proof.
  apply (parse_tcp_log_roundtrip dump "tcp.log" sample_exercises sample_lines ["tun ready"]).
  - repeat (apply Forall_cons; split); [| |by apply Forall_nil];
      (split_and!; [reflexivity|reflexivity|cbn; lia| | |vm_compute; reflexivity]); apply writable_word; cbn; lia.
  - apply (bool_decide_unpack (NoDup (map x_name sample_exercises))). vm_compute. exact I.
  - unfold sample_lines, sample_exercises. cbn [map app].
    etransitivity; [apply Permutation_cons_append|]. cbn [app]. apply perm_swap.
  - intros x other Hx Ho. apply list_elem_of_singleton in Ho as ->. unfold sample_exercises in Hx.
    apply elem_of_cons in Hx as [->|Hx]; [|apply list_elem_of_singleton in Hx as ->]; vm_compute; reflexivity.
Defined.

Definition sample_network : json :=
  JObj [("delay_ms", JInt 50); ("loss_percent", JInt 0); ("limit_packets", JInt 10000)].
Definition sample_transfer : json :=
  JObj [("congestion_controls", JArr [JStr "cubic"; JStr "bbr"]);
        ("guest_to_host_bytes_per_cc", JInt 2097152); ("host_to_guest_bytes_per_cc", JInt 16384)].
Definition sample_acceptance : json :=
  JObj [("min_rtt_fraction_of_delay", JReal (6 # 10)); ("require_qdisc_dropped_zero", JBool true);
        ("require_established", JBool true); ("require_nonzero_rto", JBool true); ("require_nonzero_rtt", JBool true);
        ("require_nonzero_cwnd", JBool true); ("require_bbr_pacing", JBool true)].
Definition sample_contract : json :=
  JObj [("schema_version", JInt 1);
        ("scenarios", JObj [("hosted-lossless-delayed-50ms",
           JObj [("network", sample_network); ("transfer", sample_transfer); ("acceptance", sample_acceptance)])])].

Definition sample_inputs : Inputs := {|
  i_scenario := "hosted-lossless-delayed-50ms";
  i_scenario_path := "scenarios-v1.json"; i_scenario_text := dump sample_contract;
  i_upstream_path := "upstream.env";
  i_upstream_text := str_join (chr_str "010") ["# pinned"; "LINUX_REMOTE='https://example.org/linux.git'"; "LINUX_SERIES=6.12";
                                               "LINUX_TAG=v6.12.1"; "LINUX_VERSION=6.12.1"; "LINUX_COMMIT=0123abcd"];
  i_tcp_path := "tcp.log"; i_tcp_text := str_join (chr_str "010") sample_lines;
  i_ping_path := "ping.log"; i_ping_text := "rtt min/avg/max/mdev = 50.031/50.125/50.310/0.071 ms";
  i_qdisc_path := "qdisc.log"; i_qdisc_text := " Sent 141120 bytes 2034 pkt (dropped 0, overlimits 0 requeues 0)";
|}.

Lemma hosted_verdict_witness :
  exists r, collect_report dump sample_inputs = Ok r /\ (exists line, conclude_report sample_inputs r = Ok line)
    /\ 0 < packets_sent (h_qdisc r) /\ dropped (h_qdisc r) = 0.
Proof.
  destruct (collect_report dump sample_inputs) as [r|e] eqn:H; [|vm_compute in H; discriminate H].
  exists r. split; [reflexivity|].
  assert (exists line, conclude_report sample_inputs r = Ok line) as Hline.
  { vm_compute in H. injection H as <-. eexists. vm_compute. reflexivity. }
  split; [exact Hline|].
  apply (hosted_verdict dump sample_inputs r sample_network sample_transfer sample_acceptance [JStr "cubic"; JStr "bbr"]
           2097152 16384 (Fin 50) (Fin (6 # 10)) 30000 (Fin 0)) in Hline; try assumption; try (vm_compute; reflexivity).
  destruct Hline as (_ & Hp & Hd & _). split; [exact Hp|]. apply Hd. exists (JBool true). split; reflexivity.
Defined.
