(* ===== verification/HighBdp.v ===== *)
(** * The high-BDP benchmark: running it

    The rest of [scripts/run-tcpcc-high-bdp-iperf.py]: commands in network
    namespaces, the topology, children and their logs, packet captures, one
    measurement, the start of a tcpcc instance, [benchmark] with its cleanup, and
    [main].  What is measured and how it is judged is in [Benchmark] and
    [Logs].  Documents are written as JSON values; the traceback text and [repr]
    are parameters. *)

From Stdlib Require Import QArith.Qreduction Lqa.
From S2P Require Import Prelude PyStr Reports Py Effects Json Benchmark Logs.
Local Open Scope Z_scope.

(** ** Names and constants *)

Definition SERVER_ADDRESS : string := "10.203.0.2".
Definition SERVER_PREFIX : Z := 24.
Definition SERVER_NETWORK : string := "10.203.0.0/24".
Definition WAN_SERVER_ADDRESS : string := "10.203.0.1".
Definition CLIENT_ADDRESS : string := "10.203.1.2".
Definition CLIENT_PREFIX : Z := 24.
Definition CLIENT_NETWORK : string := "10.203.1.0/24".
Definition WAN_CLIENT_ADDRESS : string := "10.203.1.1".
Definition NATIVE_PORT : Z := 46001.
Definition TCPCC_BBR_PUBLIC_PORT : Z := 46002.
Definition TCPCC_BACKEND_PORT : Z := 46003.
Definition TCPCC_CUBIC_PUBLIC_PORT : Z := 46004.
Definition CASE_CC : list (string * string) :=
  [("native_cubic", "cubic"); ("native_bbr", "bbr"); ("tcpcc_cubic", "cubic"); ("tcpcc_bbr", "bbr")].
Definition TCPCC_PUBLIC_PORTS : list (string * Z) :=
  [("tcpcc_cubic", TCPCC_CUBIC_PUBLIC_PORT); ("tcpcc_bbr", TCPCC_BBR_PUBLIC_PORT)].
Definition TCPCC_TUN_ADDRESSES : list (string * (string * string)) :=
  [("tcpcc_cubic", ("198.19.0.1", "198.19.0.2")); ("tcpcc_bbr", ("198.18.0.1", "198.18.0.2"))].
Definition TCPCC_EXPECTED_MEMORY_MIB : Z := 128.
Definition SIGINT : Z := 2.
Definition SIGTERM : Z := 15.
Definition X_OK : Z := 1.

Record Names := {
  server_ns : string; wan_ns : string; client_ns : string;
  server_dev : string; wan_server_dev : string; wan_client_dev : string; client_dev : string;
  tun_cubic : string; tun_bbr : string;
}.
Definition names_of (suffix : string) : Names := {|
  server_ns := "tcps" +:+ suffix; wan_ns := "tcpw" +:+ suffix; client_ns := "tcpc" +:+ suffix;
  server_dev := "ts" +:+ suffix; wan_server_dev := "tws" +:+ suffix; wan_client_dev := "twc" +:+ suffix;
  client_dev := "tc" +:+ suffix; tun_cubic := "tcu" +:+ suffix; tun_bbr := "tbb" +:+ suffix |}.
(** [names[f"tun_{cc_name}"]] *)
Definition tun_of (names : Names) (cc_name : string) : string :=
  if bool_decide (cc_name = "cubic") then tun_cubic names else tun_bbr names.
Definition namespaces_of (names : Names) : list string := [server_ns names; wan_ns names; client_ns names].

Definition newline : string := chr_str "010".
(** [directory / name] *)
Definition in_dir (directory name : string) : string := directory +:+ "/" +:+ name.

(** ** Numbers in commands *)

(** The exponent of the first digit of a positive number. *)
Definition first_exponent (q : Q) : Z :=
  let e := Z.of_nat (String.length (str_of_Z (Qnum q))) - Z.of_nat (String.length (str_of_Z (Zpos (Qden q)))) in
  if Qle_bool (decimal 1 e) q then e else e - 1.
Definition no_zeros (s : string) : string := rstrip_of (is_char "0") s.
Definition with_point (whole fraction : string) : string :=
  if str_empty fraction then whole else whole +:+ "." +:+ fraction.
Definition zeros (n : Z) : string := String.concat EmptyString (replicate (Z.to_nat n) "0").

(** [f"{q:g}"] of a number that is not negative: six digits *)
Definition fmt_g (q : Q) : string :=
  if Qeq_bool q 0 then "0"
  else
    let e := first_exponent q in
    let m := py_round (q * decimal 1 (5 - e)) in
    let '(m, e) := if m =? 1000000 then (100000, e + 1) else (m, e) in
    let ds := str_of_Z m in
    if (e <? -4) || (5 <? e) then
      with_point (str_take 1 ds) (no_zeros (str_drop 1 ds)) +:+ "e" +:+ (if e <? 0 then "-" else "+")
      +:+ (if Z.abs e <? 10 then "0" else EmptyString) +:+ str_of_Z (Z.abs e)
    else if e <? 0 then with_point "0" (no_zeros (zeros (- e - 1) +:+ ds))
    else with_point (str_take (Z.to_nat (e + 1)) ds) (no_zeros (str_drop (Z.to_nat (e + 1)) ds)).

(** [needle in text] *)
Fixpoint str_contains (needle text : string) : bool :=
  startswith needle text || match text with EmptyString => false | String _ text => str_contains needle text end.

(** ** Commands *)

Section commands.
Context `{E : Env} {S : Type}.

(** [run] *)
Definition run (command : list string) (check : bool) (timeout : Q) : M S (Z * string) :=
  completed ← perform (CExec command timeout);
  _ ← of_res (raise_if (check && negb (completed.1 =? 0))
                (RuntimeError ("command failed with " +:+ str_of_Z completed.1 +:+ ": " +:+ str_join " " command
                               +:+ newline +:+ completed.2)));
  mret completed.
(** A command that has to succeed, in the default time, and its output. *)
Definition run_checked (command : list string) : M S string := completed ← run command true 30; mret completed.2.

Definition ns_command (namespace : string) (command : list string) : list string :=
  ["ip"; "netns"; "exec"; namespace] ++ command.

Definition write_text (path text : string) : M S unit := perform (CWriteText path text).

Definition start_logged_process (command : list string) (path : string) : M S Z :=
  stream ← perform (COpenFile path);
  try_finally (perform (CSpawn command (ToStream stream) ToStdout)) (perform (CCloseFile stream)).

Definition is_TimeoutExpired (e : exn) : bool := match e with Sys (STimeoutExpired _) => true | _ => false end.

(** Waits, and kills a child that does not end in time. *)
Definition wait_or_kill (process : Z) : M S Z :=
  try_except (perform (CProcWait process 10))
    (fun e => if is_TimeoutExpired e then perform (CProcKill process);; perform (CProcWait process 5) else raise e).

Definition stop_process (process : option Z) : M S unit :=
  match process with
  | None => mret tt
  | Some process =>
      status ← perform (CProcPoll process);
      match status with
      | Some _ => mret tt
      | None => perform (CProcTerminate process);; wait_or_kill process;; mret tt
      end
  end.

(** ** Packet captures *)

Definition start_packet_capture (names : Names) (output_dir case : string) (round_number public_port : Z) :
    M S (Z * string) :=
  let name extension := "packet-" +:+ case +:+ "-round-" +:+ str_of_Z round_number +:+ extension in
  let diagnostic_path := in_dir output_dir (name ".log") in
  diagnostic_stream ← perform (COpenFile diagnostic_path);
  process ← try_finally
    (perform (CSpawn (ns_command (wan_ns names)
       ["tcpdump"; "-i"; wan_server_dev names; "-n"; "-U"; "-s"; "160"; "-w"; in_dir output_dir (name ".pcap");
        "tcp"; "and"; "host"; SERVER_ADDRESS; "and"; "port"; str_of_Z public_port]) ToNull (ToStream diagnostic_stream)))
    (perform (CCloseFile diagnostic_stream));
  _ ← perform (CSleep (1 # 5));
  status ← perform (CProcPoll process);
  match status with
  | Some code =>
      diagnostic ← perform (CReadText diagnostic_path);
      raise (RuntimeError ("tcpdump exited with " +:+ str_of_Z code +:+ " before " +:+ case +:+ " round "
                           +:+ str_of_Z round_number +:+ ":" +:+ newline +:+ diagnostic))
  | None => mret (process, name ".pcap")
  end.

Definition stop_packet_capture (process : Z) : M S unit :=
  running ← perform (CProcPoll process);
  _ ← match running with None => perform (CProcSignal process SIGINT) | Some _ => mret tt end;
  status ← wait_or_kill process;
  of_res (raise_if (negb (status =? 0) && negb (status =? - SIGINT))
            (RuntimeError ("tcpdump exited with status " +:+ str_of_Z status))).

(** ** Readiness *)

Definition listens (port : Z) (line : string) : bool :=
  match split_ws line with _ :: _ :: _ :: address :: _ => str_contains (":" +:+ str_of_Z port) address | _ => false end.

Fixpoint wait_listener_loop (fuel : nat) (namespace : string) (port process : Z) (deadline : Q) : M S unit :=
  match fuel with
  | O => out_of_fuel
  | Datatypes.S fuel =>
      now ← perform CClock;
      if Qle_bool deadline now then raise (TimeoutError ("listener on port " +:+ str_of_Z port +:+ " did not become ready"))
      else
        status ← perform (CProcPoll process);
        match status with
        | Some code => raise (RuntimeError ("listener process exited with " +:+ str_of_Z code +:+ " on port " +:+ str_of_Z port))
        | None =>
            sockets ← run (ns_command namespace ["ss"; "-H"; "-lnt"]) false 30;
            if existsb (listens port) (splitlines sockets.2) then mret tt
            else perform (CSleep (1 # 20));; wait_listener_loop fuel namespace port process deadline
        end
  end.
Definition wait_listener (fuel : nat) (namespace : string) (port process : Z) : M S unit :=
  now ← perform CClock; wait_listener_loop fuel namespace port process (now + 10).

(** [read_events] *)
Definition read_events_file (path : string) : M S (list event) :=
  there ← perform (CExists path);
  if there : bool then text ← perform (CReadText path); of_res (read_events (Some text)) else mret [].

Fixpoint wait_tcpcc_ready_loop (fuel : nat) (event_path : string) (process : Z) (deadline : Q) : M S event :=
  match fuel with
  | O => out_of_fuel
  | Datatypes.S fuel =>
      now ← perform CClock;
      if Qle_bool deadline now then raise (TimeoutError "tcpcc did not become ready")
      else
        events ← read_events_file event_path;
        match find_event "ready" events with
        | Some ready => mret ready
        | None =>
            status ← perform (CProcPoll process);
            match status with
            | Some code => raise (RuntimeError ("tcpcc exited with " +:+ str_of_Z code +:+ " before readiness"))
            | None => perform (CSleep (1 # 20));; wait_tcpcc_ready_loop fuel event_path process deadline
            end
        end
  end.
Definition wait_tcpcc_ready (fuel : nat) (event_path : string) (process : Z) : M S event :=
  now ← perform CClock; wait_tcpcc_ready_loop fuel event_path process (now + 20).
End commands.

(** ** The topology *)

(** The commands that build it, up to the check of congestion controls. *)
Definition link_commands (names : Names) : list (list string) :=
  map (fun namespace => ["ip"; "netns"; "add"; namespace]) (namespaces_of names)
  ++ [["ip"; "link"; "add"; server_dev names; "type"; "veth"; "peer"; "name"; wan_server_dev names];
      ["ip"; "link"; "add"; wan_client_dev names; "type"; "veth"; "peer"; "name"; client_dev names]]
  ++ map (fun '(device, namespace) => ["ip"; "link"; "set"; device; "netns"; namespace])
       [(server_dev names, server_ns names); (wan_server_dev names, wan_ns names);
        (wan_client_dev names, wan_ns names); (client_dev names, client_ns names)]
  ++ map (fun namespace => ns_command namespace ["ip"; "link"; "set"; "lo"; "up"]) (namespaces_of names).

Definition endpoint_commands (scenario : Scenario) (endpoint : string * string * string * Z) : list (list string) :=
  let '(namespace, device, address, prefix) := endpoint in
  [ns_command namespace ["ip"; "address"; "add"; address +:+ "/" +:+ str_of_Z prefix; "dev"; device];
   ns_command namespace ["ip"; "link"; "set"; "dev"; device; "mtu"; str_of_Z (mtu scenario); "up"];
   ns_command namespace ["ethtool"; "-K"; device; "gro"; "off"; "gso"; "off"; "tso"; "off"]].
Definition address_commands (scenario : Scenario) (names : Names) : list (list string) :=
  concat (map (endpoint_commands scenario)
    [(server_ns names, server_dev names, SERVER_ADDRESS, SERVER_PREFIX);
     (wan_ns names, wan_server_dev names, WAN_SERVER_ADDRESS, SERVER_PREFIX);
     (wan_ns names, wan_client_dev names, WAN_CLIENT_ADDRESS, CLIENT_PREFIX);
     (client_ns names, client_dev names, CLIENT_ADDRESS, CLIENT_PREFIX)])
  ++ [ns_command (server_ns names) ["ip"; "route"; "add"; CLIENT_NETWORK; "via"; WAN_SERVER_ADDRESS];
      ns_command (client_ns names) ["ip"; "route"; "add"; SERVER_NETWORK; "via"; WAN_CLIENT_ADDRESS]].

Definition rp_filter_off (device : string) : string := "net.ipv4.conf." +:+ device +:+ ".rp_filter=0".
Definition sysctl_commands (names : Names) : list (list string) :=
  let set namespace setting := ns_command namespace ["sysctl"; "-q"; "-w"; setting] in
  map (set (server_ns names))
    ["net.ipv4.ip_forward=1"; "net.ipv4.tcp_congestion_control=cubic"; rp_filter_off "all"; rp_filter_off "default";
     rp_filter_off (server_dev names)]
  ++ map (set (wan_ns names))
       ["net.ipv4.ip_forward=1"; rp_filter_off "all"; rp_filter_off "default"; rp_filter_off (wan_server_dev names);
        rp_filter_off (wan_client_dev names)]
  ++ map (set (client_ns names)) [rp_filter_off "all"; rp_filter_off "default"; rp_filter_off (client_dev names)].

(** And those after it. *)
Definition qdisc_commands (scenario : Scenario) (names : Names) : list (list string) :=
  let replace namespace device discipline :=
    ns_command namespace (["tc"; "qdisc"; "replace"; "dev"; device; "root"] ++ discipline) in
  [replace (server_ns names) (server_dev names) ["fq"]; replace (client_ns names) (client_dev names) ["fq"]]
  ++ map (fun device => replace (wan_ns names) device
            ["netem"; "limit"; str_of_Z (netem_limit_packets scenario); "delay"; str_of_Z (one_way_delay_ms scenario) +:+ "ms";
             "loss"; "random"; fmt_g (random_loss_percent scenario) +:+ "%"; "rate"; str_of_Z (rate_mbps scenario) +:+ "mbit"])
       [wan_server_dev names; wan_client_dev names].

Section topology.
Context `{E : Env} {S : Type} (repr : json -> string).

Definition run_all (commands : list (list string)) : M S unit :=
  for_each commands (fun command => run_checked command;; mret tt).

(** The outputs of some commands, each under a heading. *)
Fixpoint headed (entries : list (string * list string)) : M S (list string) :=
  match entries with
  | [] => mret []
  | (heading, command) :: entries =>
      output ← run_checked command;
      rest ← headed entries;
      mret (heading :: output :: rest)
  end.

Definition setup_topology (scenario : Scenario) (names : Names) : M S string :=
  run_all (link_commands names ++ address_commands scenario names ++ sysctl_commands names);;
  output ← run_checked (ns_command (server_ns names) ["cat"; "/proc/sys/net/ipv4/tcp_available_congestion_control"]);
  let available := str_strip output in
  _ ← for_each ["cubic"; "bbr"] (fun cc_name =>
        of_res (raise_if (negb (str_in cc_name (split_ws available)))
                  (RuntimeError ("native congestion control unavailable: " +:+ cc_name))));
  output ← run_checked (ns_command (server_ns names) ["sysctl"; "-n"; "net.ipv4.tcp_congestion_control"]);
  let host_default_cc := str_strip output in
  _ ← of_res (raise_if (negb (bool_decide (host_default_cc = "cubic")))
                (RuntimeError ("high-BDP outer host default is not fixed to CUBIC: " +:+ py_repr host_default_cc)));
  run_all (qdisc_commands scenario names);;
  lines ← headed (concat (map (fun namespace =>
            [("## " +:+ namespace +:+ " addresses", ns_command namespace ["ip"; "-br"; "address"]);
             ("## " +:+ namespace +:+ " routes", ns_command namespace ["ip"; "route"])]) (namespaces_of names)));
  mret (str_join newline
    (["available_cc=" +:+ available; "outer_host_default_cc=" +:+ host_default_cc;
      "configured_rtt_ms=" +:+ str_of_Z (rtt_ms scenario); "configured_bdp_bytes=" +:+ str_of_Z (bdp_bytes scenario)] ++ lines)).

Definition qdisc_report (names : Names) : M S string :=
  records ← headed (map (fun '(namespace, device) =>
      ("## " +:+ namespace +:+ "/" +:+ device, ns_command namespace ["tc"; "-s"; "qdisc"; "show"; "dev"; device]))
    [(server_ns names, server_dev names); (wan_ns names, wan_server_dev names); (wan_ns names, wan_client_dev names);
     (client_ns names, client_dev names)]);
  mret (str_join newline records).

Record Observations := {
  server_endpoint : Qdisc; client_endpoint : Qdisc; ack_direction : Qdisc; data_direction : Qdisc;
}.
(** One turn of [collect_qdisc_observations] *)
Definition observe_qdisc (scenario : Scenario) (namespace device expected_kind : string) : M S Qdisc :=
  raw ← run_checked (ns_command namespace ["tc"; "-s"; "-j"; "qdisc"; "show"; "dev"; device]);
  value ← of_res (res_of_option JSONDecodeError (loads raw));
  of_res (parse_qdisc_document repr value expected_kind scenario).
Definition collect_qdisc_observations (names : Names) (scenario : Scenario) : M S Observations :=
  server ← observe_qdisc scenario (server_ns names) (server_dev names) "fq";
  client ← observe_qdisc scenario (client_ns names) (client_dev names) "fq";
  ack ← observe_qdisc scenario (wan_ns names) (wan_server_dev names) "netem";
  data ← observe_qdisc scenario (wan_ns names) (wan_client_dev names) "netem";
  mret {| server_endpoint := server; client_endpoint := client; ack_direction := ack; data_direction := data |}.

Definition ping_path (names : Names) : M S (Ping * string) :=
  completed ← run (ns_command (client_ns names) ["ping"; "-4"; "-n"; "-c"; "20"; "-i"; "0.1"; "-W"; "2"; SERVER_ADDRESS]) true 45;
  ping ← of_res (parse_ping_output completed.2);
  mret (ping, completed.2).
End topology.

(** ** One measurement *)

Record Measurement := {
  m_run : Run; m_case : string; m_round : Z; m_order : Z; m_public_port : Z;
  m_raw_artifact : string; m_packet_trace_artifact : option string;
}.

Section measurement.
Context `{E : Env} {S : Type} (repr : json -> string).

Definition cc_of (case : string) : string := default EmptyString (dict_get case CASE_CC).

Definition iperf_command (names : Names) (scenario : Scenario) (case : string) (round_number public_port : Z) : list string :=
  ns_command (client_ns names)
    ["iperf3"; "-4"; "--client"; SERVER_ADDRESS; "--port"; str_of_Z public_port; "--reverse"; "--parallel"; "1";
     "--omit"; str_of_Z (omit_seconds scenario); "--time"; str_of_Z (duration_seconds scenario);
     "--congestion"; cc_of case; "--connect-timeout"; "5000"; "--get-server-output"; "--json";
     "--extra-data"; case +:+ "-round-" +:+ str_of_Z round_number].

Definition run_iperf_measurement (names : Names) (scenario : Scenario) (output_dir case : string)
    (round_number order : Z) (packet_trace : bool) : M S Measurement :=
  _ ← of_res (raise_if (negb (str_in case CASES)) (ValueError ("unknown iperf case " +:+ case)));
  let public_port := default NATIVE_PORT (dict_get case TCPCC_PUBLIC_PORTS) in
  let timeout := inject_Z (duration_seconds scenario + omit_seconds scenario + 30) in
  capture ← (if packet_trace then c ← start_packet_capture names output_dir case round_number public_port; mret (Some c)
             else mret None);
  completed ← try_finally (run (iperf_command names scenario case round_number public_port) false timeout)
                (match capture with Some (process, _) => stop_packet_capture process | None => mret tt end);
  let artifact := "iperf-" +:+ case +:+ "-round-" +:+ str_of_Z round_number +:+ ".json" in
  _ ← write_text (in_dir output_dir artifact) completed.2;
  _ ← of_res (raise_if (negb (completed.1 =? 0))
                (RuntimeError (case +:+ " round " +:+ str_of_Z round_number +:+ " failed with " +:+ str_of_Z completed.1
                               +:+ ":" +:+ newline +:+ completed.2)));
  document ← of_res (res_of_option (RuntimeError (case +:+ " emitted invalid iperf JSON")) (loads completed.2));
  result ← of_res (parse_iperf_document repr document (cc_of case));
  mret {| m_run := result; m_case := case; m_round := round_number; m_order := order; m_public_port := public_port;
          m_raw_artifact := artifact; m_packet_trace_artifact := snd <$> capture |}.

(** ** The tcpcc instances *)

(** A text that is there and not empty *)
Definition named (value : json) (message : string) : res string :=
  match value with JStr s => if str_empty s then Err (RuntimeError message) else Ok s | _ => Err (RuntimeError message) end.

Definition assert_tcpcc_resources_removed (names : Names) (ready : event) : M S unit :=
  tun_name ← of_res (named (get "tun" ready) "tcpcc readiness omitted the TUN name");
  firewall_resource ← of_res (named (get "firewall_resource" ready) "tcpcc readiness omitted the firewall resource");
  link ← run (ns_command (server_ns names) ["ip"; "link"; "show"; "dev"; tun_name]) false 30;
  _ ← of_res (raise_if (link.1 =? 0) (RuntimeError ("owned TUN " +:+ tun_name +:+ " survived benchmark shutdown")));
  table ← run (ns_command (server_ns names) ["nft"; "list"; "table"; "ip"; firewall_resource]) false 30;
  of_res (raise_if (table.1 =? 0)
            (RuntimeError ("owned nftables table " +:+ firewall_resource +:+ " survived benchmark shutdown"))).

Record Environment := {
  native_kernel_release : string; iperf_version : string; hosted_kernel_path : string; tcpcc_commit : string;
}.
Definition IndexError : exn := Sys (SException "IndexError" "list index out of range").

Definition collect_environment (names : Names) (kernel : string) : M S Environment :=
  version ← run_checked ["iperf3"; "--version"];
  version ← of_res (res_of_option IndexError (head (splitlines version)));
  given ← perform (CGetEnv "GITHUB_SHA");
  commit ← match given with
           | Some commit => mret (Some commit)
           | None =>
               git ← perform (CWhich "git");
               match git with
               | None => mret None
               | Some _ =>
                   observed ← run ["git"; "rev-parse"; "HEAD"] false 10;
                   mret (if observed.1 =? 0 then Some (str_strip observed.2) else None)
               end
           end;
  release ← run_checked (ns_command (server_ns names) ["uname"; "-r"]);
  mret {| native_kernel_release := str_strip release; iperf_version := version; hosted_kernel_path := kernel;
          tcpcc_commit := match commit with Some c => if str_empty c then "unknown" else c | None => "unknown" end |}.

Definition tcpcc_command (root : string) (names : Names) (kernel case : string) : list string :=
  let '(tun_host, tun_guest) := default (EmptyString, EmptyString) (dict_get case TCPCC_TUN_ADDRESSES) in
  let public_port := default 0 (dict_get case TCPCC_PUBLIC_PORTS) in
  ns_command (server_ns names)
    [in_dir root "tcpcc"; "--forward";
     SERVER_ADDRESS +:+ ":" +:+ str_of_Z public_port +:+ "=127.0.0.1:" +:+ str_of_Z TCPCC_BACKEND_PORT;
     "--cc"; cc_of case; "--kernel"; kernel; "--firewall-backend"; "nft-lib"; "--tun-name"; tun_of names (cc_of case);
     "--tun-host-address"; tun_host; "--tun-guest-address"; tun_guest; "--shutdown-grace-period"; "5"].

Definition start_tcpcc_case (fuel : nat) (root : string) (names : Names) (kernel output_dir case : string) :
    M S (Z * string * event) :=
  let event_path := in_dir output_dir (case +:+ "-events.jsonl") in
  event_stream ← perform (COpenFile event_path);
  diagnostic_stream ← perform (COpenFile (in_dir output_dir (case +:+ ".log")));
  process ← try_finally (perform (CSpawn (tcpcc_command root names kernel case) (ToStream event_stream) (ToStream diagnostic_stream)))
              (perform (CCloseFile event_stream);; perform (CCloseFile diagnostic_stream));
  ready ← wait_tcpcc_ready fuel event_path process;
  mret (process, event_path, ready).
End measurement.

(** ** The report *)

Definition optional_text (o : option string) : json := match o with Some s => JStr s | None => JNull end.
Definition measurement_json (m : Measurement) : json :=
  let r := m_run m in
  JObj [("bits_per_second", JReal (bits_per_second r)); ("goodput_mbps", JReal (goodput_mbps r));
        ("received_bytes", JInt (received_bytes r)); ("seconds", JReal (seconds r)); ("retransmits", JInt (retransmits r));
        ("sender_tcp_congestion", JStr (sender_tcp_congestion r)); ("receiver_tcp_congestion", receiver_tcp_congestion r);
        ("case", JStr (m_case m)); ("round", JInt (m_round m)); ("order", JInt (m_order m));
        ("public_port", JInt (m_public_port m)); ("raw_artifact", JStr (m_raw_artifact m));
        ("packet_trace_artifact", optional_text (m_packet_trace_artifact m))].
Definition summary_json (s : Summary) : json :=
  JObj [("median_goodput_mbps", JReal (median_goodput_mbps s)); ("minimum_goodput_mbps", JReal (lowest_goodput_mbps s));
        ("maximum_goodput_mbps", JReal (highest_goodput_mbps s)); ("median_retransmits", JReal (median_retransmits s));
        ("total_retransmits", JInt (total_retransmits s)); ("iperf_retransmit_scope", JStr (iperf_retransmit_scope s))].
Definition comparisons_json (c : Comparisons) : json :=
  JObj [("native_bbr_over_native_cubic", JReal (native_bbr_over_native_cubic c));
        ("tcpcc_bbr_over_tcpcc_cubic", JReal (tcpcc_bbr_over_tcpcc_cubic c));
        ("tcpcc_cubic_over_native_cubic", JReal (tcpcc_cubic_over_native_cubic c));
        ("tcpcc_bbr_over_native_bbr", JReal (tcpcc_bbr_over_native_bbr c))].
Definition check_json (c : Check) : json :=
  JObj [("name", JStr (c_name c)); ("gate", JBool (c_gate c)); ("passed", JBool (c_passed c));
        ("observed", c_observed c); ("expected", c_expected c)].
Definition qdisc_json (q : Qdisc) : json :=
  JObj [("kind", JStr (kind q)); ("bytes", JInt (qd_bytes q)); ("packets", JInt (packets q)); ("drops", JInt (drops q));
        ("overlimits", JInt (overlimits q)); ("backlog_bytes", JInt (backlog_bytes q));
        ("observed_drop_percent", JReal (observed_drop_percent q))].
Definition ping_json (p : Ping) : json :=
  JObj [("minimum_ms", JReal (minimum_ms p)); ("average_ms", JReal (average_ms p)); ("median_ms", JReal (median_ms p));
        ("maximum_ms", JReal (maximum_ms p)); ("deviation_ms", JReal (deviation_ms p));
        ("samples_received", JInt (samples_received p))].
Definition contract_json (c : TcpccRun) : json :=
  JObj [("ready", JObj (ready c)); ("opened_connections", JInt (opened_connections c));
        ("closed_connections", JInt (closed_connections c)); ("completed_data_flows", JInt (completed_data_flows c));
        ("completed_control_flows", JInt (completed_control_flows c));
        ("terminal_statuses", JObj (map (fun kv => (kv.1, JInt kv.2)) (terminal_statuses c)));
        ("data_terminal_policy", JStr (data_terminal_policy c)); ("accepted_cc", JStr (accepted_cc c));
        ("hosted_memory_mib", JInt (hosted_memory_mib c)); ("clean_stop", JBool (clean_stop c))].
Definition environment_json (e : Environment) : json :=
  JObj [("native_kernel_release", JStr (native_kernel_release e)); ("iperf_version", JStr (iperf_version e));
        ("hosted_kernel_path", JStr (hosted_kernel_path e)); ("tcpcc_commit", JStr (tcpcc_commit e))].

Record Results := {
  r_environment : Environment; r_ping : Ping; r_qdisc : Observations;
  r_measurements : list (string * list Measurement);
  r_summaries : list (string * Summary); r_comparisons : option Comparisons;
  r_contracts : list (string * TcpccRun);
  r_checks : list Check; r_passed : bool;
}.

Definition report_json (scenario : Scenario) (r : Results) : json :=
  JObj [("schema_version", JInt 1); ("scenario_id", JStr (scenario_id scenario)); ("scenario", JObj (raw scenario));
        ("derived_network", JObj [("configured_rtt_ms", JInt (rtt_ms scenario)); ("configured_bdp_bytes", JInt (bdp_bytes scenario))]);
        ("measurement_semantics",
         JObj [("goodput", JStr "end-to-end application bytes delivered");
               ("native_retransmits", JStr "iperf public WAN sender");
               ("tcpcc_retransmits", JStr "iperf backend loopback sender; hosted public-socket retransmits are not currently exported")]);
        ("environment", environment_json (r_environment r)); ("ping", ping_json (r_ping r));
        ("qdisc", JObj [("server_endpoint", qdisc_json (server_endpoint (r_qdisc r)));
                        ("client_endpoint", qdisc_json (client_endpoint (r_qdisc r)));
                        ("ack_direction", qdisc_json (ack_direction (r_qdisc r)));
                        ("data_direction", qdisc_json (data_direction (r_qdisc r)))]);
        ("measurements", JObj (map (fun kv => (kv.1, JArr (map measurement_json kv.2))) (r_measurements r)));
        ("summaries", JObj (map (fun kv => (kv.1, summary_json kv.2)) (r_summaries r)
                            ++ match r_comparisons r with Some c => [("comparisons", comparisons_json c)] | None => [] end));
        ("tcpcc_runtime", JObj (map (fun kv => (kv.1, contract_json kv.2)) (r_contracts r)));
        ("checks", JArr (map check_json (r_checks r))); ("passed", JBool (r_passed r))].

(** ** The further checks *)

Definition rtt_check (scenario : Scenario) (ping : Ping) : Check := {|
  c_name := "observed_median_rtt_sanity"; c_gate := false;
  c_passed := between ((7 # 10) * inject_Z (rtt_ms scenario)) (median_ms ping) (inject_Z (2 * rtt_ms scenario));
  c_observed := JReal (median_ms ping);
  c_expected := JObj [("configured_rtt_ms", JInt (rtt_ms scenario)); ("tolerance", JStr "70%-200% (observation only)")] |}.
Definition contract_checks (case : string) (contract : TcpccRun) : list Check :=
  [{| c_name := case +:+ "_public_connections_inherited_cc"; c_gate := true;
      c_passed := bool_decide (accepted_cc contract = cc_of case); c_observed := JStr (accepted_cc contract);
      c_expected := JStr (cc_of case) |};
   {| c_name := case +:+ "_clean_shutdown"; c_gate := true; c_passed := clean_stop contract;
      c_observed := JBool (clean_stop contract); c_expected := JBool true |}].
Definition loss_check (scenario : Scenario) (direction : string) (q : Qdisc) : Check :=
  let configured := random_loss_percent scenario in
  let low := ((1 # 5) * configured)%Q in
  let high := (5 * configured)%Q in
  {| c_name := direction +:+ "_netem_loss_observed"; c_gate := true; c_passed := between low (observed_drop_percent q) high;
     c_observed := JReal (observed_drop_percent q);
     c_expected := JObj [("configured_percent", JReal configured); ("minimum", JReal low); ("maximum", JReal high)] |}.
Definition endpoint_check (endpoint : string) (q : Qdisc) : Check := {|
  c_name := endpoint +:+ "_fq_without_drops"; c_gate := true; c_passed := drops q =? 0; c_observed := JInt (drops q);
  c_expected := JInt 0 |}.

Definition further_checks (scenario : Scenario) (ping : Ping) (qdisc : Observations) (contracts : list (string * TcpccRun)) : list Check :=
  [rtt_check scenario ping]
  ++ concat (map (fun kv => contract_checks kv.1 kv.2) contracts)
  ++ [loss_check scenario "ack_direction" (ack_direction qdisc); loss_check scenario "data_direction" (data_direction qdisc);
      endpoint_check "server_endpoint" (server_endpoint qdisc); endpoint_check "client_endpoint" (client_endpoint qdisc)].

(** ** The benchmark *)

Record Args := {
  a_integration : bool; a_kernel : string; a_scenario_file : string; a_packet_trace : bool; a_output_dir : string;
}.

(** The variables of [benchmark] that its cleanup or its loops use. *)
Record Bench := {
  b_namespaces : list string;
  b_native_server : option Z;
  b_backend_server : option Z;
  b_processes : list (string * Z);
  b_event_paths : list (string * string);
  b_ready : list (string * event);
  b_measurements : list (string * list Measurement);
}.
Definition new_bench : Bench := {|
  b_namespaces := []; b_native_server := None; b_backend_server := None; b_processes := []; b_event_paths := [];
  b_ready := []; b_measurements := map (fun case => (case, [])) CASES |}.

Definition add_namespace (namespace : string) (b : Bench) : Bench := {|
  b_namespaces := b_namespaces b ++ [namespace]; b_native_server := b_native_server b; b_backend_server := b_backend_server b;
  b_processes := b_processes b; b_event_paths := b_event_paths b; b_ready := b_ready b; b_measurements := b_measurements b |}.
Definition set_native (process : Z) (b : Bench) : Bench := {|
  b_namespaces := b_namespaces b; b_native_server := Some process; b_backend_server := b_backend_server b;
  b_processes := b_processes b; b_event_paths := b_event_paths b; b_ready := b_ready b; b_measurements := b_measurements b |}.
Definition set_backend (process : Z) (b : Bench) : Bench := {|
  b_namespaces := b_namespaces b; b_native_server := b_native_server b; b_backend_server := Some process;
  b_processes := b_processes b; b_event_paths := b_event_paths b; b_ready := b_ready b; b_measurements := b_measurements b |}.
Definition add_instance (case : string) (process : Z) (event_path : string) (ready : event) (b : Bench) : Bench := {|
  b_namespaces := b_namespaces b; b_native_server := b_native_server b; b_backend_server := b_backend_server b;
  b_processes := dict_set case process (b_processes b); b_event_paths := dict_set case event_path (b_event_paths b);
  b_ready := dict_set case ready (b_ready b); b_measurements := b_measurements b |}.
Definition add_measurement (case : string) (m : Measurement) (b : Bench) : Bench := {|
  b_namespaces := b_namespaces b; b_native_server := b_native_server b; b_backend_server := b_backend_server b;
  b_processes := b_processes b; b_event_paths := b_event_paths b; b_ready := b_ready b;
  b_measurements := dict_set case (default [] (dict_get case (b_measurements b)) ++ [m]) (b_measurements b) |}.

(** [CASES[i:] + CASES[:i]] *)
Definition rotation (i : nat) : list string := drop i CASES ++ take i CASES.

Section benchmark.
Context `{E : Env} (repr : json -> string) (root : string) (fuel : nat) (args : Args).
Abbreviation B := (M Bench).

Definition iperf_server (address : string) (port : Z) (names : Names) : list string :=
  ns_command (server_ns names) ["iperf3"; "--server"; "--bind"; address; "--port"; str_of_Z port; "--forceflush"].

Definition start_servers (names : Names) (output_dir : string) : B unit :=
  native ← start_logged_process (iperf_server SERVER_ADDRESS NATIVE_PORT names) (in_dir output_dir "iperf-native-server.log");
  _ ← modify (set_native native);
  _ ← wait_listener fuel (server_ns names) NATIVE_PORT native;
  backend ← start_logged_process (iperf_server "127.0.0.1" TCPCC_BACKEND_PORT names) (in_dir output_dir "iperf-tcpcc-backend.log");
  _ ← modify (set_backend backend);
  wait_listener fuel (server_ns names) TCPCC_BACKEND_PORT backend.

Definition start_instances (names : Names) (kernel output_dir : string) : B unit :=
  _ ← for_each TCPCC_CASES (fun case =>
        '(process, event_path, ready) ← start_tcpcc_case fuel root names kernel output_dir case;
        modify (add_instance case process event_path ready));
  output ← run_checked (ns_command (server_ns names) ["sysctl"; "-n"; "net.ipv4.tcp_congestion_control"]);
  of_res (raise_if (negb (bool_decide (str_strip output = "cubic")))
            (RuntimeError ("outer host CC changed after tcpcc startup: " +:+ py_repr (str_strip output)))).

Definition measure_round (names : Names) (scenario : Scenario) (output_dir : string) (round_index : nat) : B unit :=
  for_each (imap (fun i case => (i, case)) (rotation round_index)) (fun '(order_index, case) =>
    measurement ← run_iperf_measurement repr names scenario output_dir case
                    (Z.of_nat round_index + 1) (Z.of_nat order_index + 1) (a_packet_trace args);
    _ ← modify (add_measurement case measurement);
    perform (CSleep (settle_seconds scenario))).
Definition measure (names : Names) (scenario : Scenario) (output_dir : string) : B unit :=
  for_each (seq 0 (Z.to_nat (repetitions scenario))) (measure_round names scenario output_dir).

Definition stop_instances : B unit :=
  b ← get_state;
  let process_of case := default 0 (dict_get case (b_processes b)) in
  _ ← for_each TCPCC_CASES (fun case => perform (CProcSignal (process_of case) SIGTERM));
  for_each TCPCC_CASES (fun case =>
    status ← perform (CProcWait (process_of case) 20);
    of_res (raise_if (negb (status =? 0)) (RuntimeError (case +:+ " tcpcc exited with status " +:+ str_of_Z status)))).

(** One turn of the loop over the instances' events *)
Definition contract_of (names : Names) (scenario : Scenario) (case : string) : B TcpccRun :=
  b ← get_state;
  events ← read_events_file (default EmptyString (dict_get case (b_event_paths b)));
  contract ← of_res (validate_tcpcc_events repr events scenario (cc_of case) TCPCC_EXPECTED_MEMORY_MIB);
  _ ← assert_tcpcc_resources_removed names (ready contract);
  mret contract.

(** What is made of the measurements: the report and the verdict. *)
Definition judge (names : Names) (scenario : Scenario) (output_dir : string) (environment : Environment) (ping : Ping) : B Z :=
  _ ← (text ← qdisc_report names; write_text (in_dir output_dir "qdisc-after.txt") text);
  qdisc ← collect_qdisc_observations repr names scenario;
  cubic ← contract_of names scenario "tcpcc_cubic";
  bbr ← contract_of names scenario "tcpcc_bbr";
  let contracts := [("tcpcc_cubic", cubic); ("tcpcc_bbr", bbr)] in
  b ← get_state;
  '(summaries, comparisons, checks, passed) ←
    of_res (summarize_measurements (map (fun kv => (kv.1, map m_run kv.2)) (b_measurements b)) scenario);
  let checks := checks ++ further_checks scenario ping qdisc contracts in
  let passed := passed && forallb (fun c => negb (c_gate c) || c_passed c) checks in
  let report := report_json scenario {|
    r_environment := environment; r_ping := ping; r_qdisc := qdisc; r_measurements := b_measurements b;
    r_summaries := summaries; r_comparisons := comparisons; r_contracts := contracts; r_checks := checks; r_passed := passed |} in
  _ ← perform (CWriteJson (in_dir output_dir "report.json") report);
  _ ← perform (CEmit report);
  _ ← of_res (raise_if (negb passed) (RuntimeError "high-BDP iperf acceptance checks failed"));
  mret 0.

(** The body of the [try] *)
Definition benchmark_body (names : Names) (scenario : Scenario) (kernel output_dir : string) : B Z :=
  _ ← for_each (namespaces_of names) (fun namespace => modify (add_namespace namespace));
  topology ← setup_topology scenario names;
  _ ← write_text (in_dir output_dir "topology.txt") topology;
  _ ← (text ← qdisc_report names; write_text (in_dir output_dir "qdisc-before.txt") text);
  '(ping, ping_log) ← ping_path names;
  _ ← write_text (in_dir output_dir "ping.txt") ping_log;
  environment ← collect_environment names kernel;
  _ ← start_servers names output_dir;
  _ ← start_instances names kernel output_dir;
  _ ← measure names scenario output_dir;
  _ ← stop_instances;
  judge names scenario output_dir environment ping.

(** The [finally] *)
Definition benchmark_cleanup : B unit :=
  b ← get_state;
  _ ← for_each (b_processes b) (fun entry => stop_process (Some entry.2));
  _ ← stop_process (b_backend_server b);
  _ ← stop_process (b_native_server b);
  for_each (reverse (b_namespaces b)) (fun namespace => run ["ip"; "netns"; "delete"; namespace] false 30;; mret tt).

(** What is required before anything is set up. *)
Definition prepare : B (string * Scenario * string * Names) :=
  euid ← perform CGetEuid;
  _ ← of_res (raise_if (negb (euid =? 0)) (Sys (SOSError OsPermission None "--integration requires root")));
  _ ← for_each (["ethtool"; "ip"; "iperf3"; "nft"; "ss"; "sysctl"; "tc"] ++ (if a_packet_trace args then ["tcpdump"] else []))
        (fun command =>
           found ← perform (CWhich command);
           of_res (raise_if (bool_decide (found = None))
                     (Sys (SOSError OsFileNotFound None ("required command is unavailable: " +:+ command)))));
  kernel ← perform (CResolve (a_kernel args));
  executable ← perform (CAccess kernel X_OK);
  _ ← of_res (raise_if (negb executable) (Sys (SOSError OsPermission None ("hosted kernel is not executable: " +:+ kernel))));
  text ← perform (CReadText (a_scenario_file args));
  scenario ← of_res (load_scenario text);
  output_dir ← perform (CRealpath (a_output_dir args));
  _ ← perform (CMakeDirs output_dir);
  suffix ← perform (CTokenHex 3);
  mret (kernel, scenario, output_dir, names_of suffix).

Definition benchmark : B Z :=
  '(kernel, scenario, output_dir, names) ← prepare;
  try_finally (benchmark_body names scenario kernel output_dir) benchmark_cleanup.

(** [main], after the options *)
Definition benchmark_main (format_exception : exn -> string) : B Z :=
  if a_integration args then
    try_except benchmark (fun error =>
      _ ← perform (CMakeDirs (a_output_dir args));
      _ ← write_text (in_dir (a_output_dir args) "failure.txt") (format_exception error);
      _ ← perform (CDiagnostic ("tcpcc high-BDP iperf benchmark failed: " +:+ exn_str error));
      mret 1)
  else raise (ValueError "refusing privileged setup without --integration").
End benchmark.

(** * Children and commands of a run *)

Definition ev_spawned (ev : Effects.event) : option Z :=
  match ev with
  | Ev c r =>
      match c return reply (ret c) -> option Z with
      | CSpawn _ _ _ => fun r => match r with Answer process => Some process | Fault _ => None end
      | _ => fun _ => None
      end r
  end.
(** A child that was seen to have ended. *)
Definition ev_ended (ev : Effects.event) : option Z :=
  match ev with
  | Ev c r =>
      match c return reply (ret c) -> option Z with
      | CProcPoll process => fun r => match r with Answer (Some _) => Some process | _ => None end
      | CProcWait process _ => fun r => match r with Answer _ => Some process | Fault _ => None end
      | _ => fun _ => None
      end r
  end.
Definition ev_exec (ev : Effects.event) : option (list string) :=
  match ev_call ev with CExec argv _ => Some argv | _ => None end.
(** A call of the cleanup that failed in a way the cleanup does not handle. *)
Definition ev_stuck (ev : Effects.event) : bool :=
  match ev with
  | Ev c r =>
      match c return reply (ret c) -> bool with
      | CProcPoll _ | CProcTerminate _ | CProcKill _ | CProcSignal _ _ | CExec _ _ =>
          fun r => match r with Answer _ => false | Fault _ => true end
      | CProcWait _ timeout =>
          fun r => match r with
                   | Answer _ => false
                   | Fault (STimeoutExpired _) => Qeq_bool timeout 5
                   | Fault _ => true
                   end
      | _ => fun _ => false
      end r
  end.

Definition spawned (t : trace) : list Z := omap ev_spawned t.
Definition ended (t : trace) : list Z := omap ev_ended t.
Definition execs (t : trace) : list (list string) := omap ev_exec t.
Definition stuck (t : trace) : bool := existsb ev_stuck t.

Lemma spawned_app t u : spawned (t ++ u) = spawned t ++ spawned u.
Proof. apply omap_app. Qed.
Lemma ended_app t u : ended (t ++ u) = ended t ++ ended u.
Proof. apply omap_app. Qed.
Lemma execs_app t u : execs (t ++ u) = execs t ++ execs u.
Proof. apply omap_app. Qed.
Lemma stuck_app t u : stuck (t ++ u) = stuck t || stuck u.
Proof. apply existsb_app. Qed.

(** The children the cleanup knows of. *)
Definition procs (b : Bench) : option Z * option Z * list (string * Z) := (b_native_server b, b_backend_server b, b_processes b).
Definition tracked (b : Bench) : list Z :=
  (b_processes b).*2 ++ option_list (b_backend_server b) ++ option_list (b_native_server b).

Lemma tracked_procs b b' : procs b' = procs b -> tracked b' = tracked b.
Proof. unfold procs, tracked. by intros [= -> -> ->]. Qed.

(** Code that starts no child and leaves the known ones. *)
Definition childless (b : Bench) (t : trace) (b' : Bench) : Prop := procs b' = procs b /\ b_namespaces b' = b_namespaces b /\ spawned t = [].

#[export] Instance childless_rel : TraceRel childless.
Proof.
  split; [done|]. intros s t s' t' s'' (Hp & Hn & Ht) (Hp' & Hn' & Ht'). unfold childless. rewrite Hp', Hn'.
  by rewrite spawned_app, Ht, Ht'.
Qed.

Section childless.
Context `{E : Env}.

Lemma childless_perform c : match c with CSpawn _ _ _ => False | _ => True end -> steps childless (perform c : M Bench (ret c)).
Proof. intros Hc. apply steps_perform. intros s r. unfold childless. by destruct c. Qed.
Lemma childless_modify f : (forall b, procs (f b) = procs b /\ b_namespaces (f b) = b_namespaces b) -> steps childless (modify f).
Proof. intros Hf. apply steps_modify. intros b. unfold childless. by destruct (Hf b). Qed.
End childless.

Ltac childless_step :=
  match goal with
  | |- steps childless (perform ?c) => exact (childless_perform c I)
  | |- steps childless (modify _) => apply childless_modify; intros; split; reflexivity
  | |- _ => steps_step
  end.
Ltac childless := repeat childless_step.

Section calm.
Context `{E : Env} (repr : json -> string).

Lemma run_childless command check timeout : steps childless (run command check timeout).
Proof. unfold run. childless. Qed.
#[local] Hint Resolve run_childless : steps.
Lemma run_checked_childless command : steps childless (run_checked command).
Proof. unfold run_checked. childless. Qed.
#[local] Hint Resolve run_checked_childless : steps.
Lemma write_text_childless path text : steps childless (write_text path text).
Proof. unfold write_text. childless. Qed.
#[local] Hint Resolve write_text_childless : steps.
Lemma run_all_childless commands : steps childless (run_all commands).
Proof. unfold run_all. childless. Qed.
#[local] Hint Resolve run_all_childless : steps.
Lemma headed_childless entries : steps childless (headed entries).
Proof. induction entries as [|[] entries IH]; cbn [headed]; childless. Qed.
#[local] Hint Resolve headed_childless : steps.
Lemma setup_topology_childless scenario names : steps childless (setup_topology scenario names).
Proof. unfold setup_topology. childless. Qed.
Lemma qdisc_report_childless names : steps childless (qdisc_report names).
Proof. unfold qdisc_report. childless. Qed.
#[local] Hint Resolve qdisc_report_childless : steps.
Lemma collect_qdisc_childless names scenario : steps childless (collect_qdisc_observations repr names scenario).
Proof. unfold collect_qdisc_observations, observe_qdisc. childless. Qed.
#[local] Hint Resolve collect_qdisc_childless : steps.
Lemma ping_path_childless names : steps childless (ping_path names).
Proof. unfold ping_path. childless. Qed.
Lemma collect_environment_childless names kernel : steps childless (collect_environment names kernel).
Proof. unfold collect_environment. childless. Qed.
Lemma wait_listener_childless fuel namespace port process : steps childless (wait_listener fuel namespace port process).
Proof.
  unfold wait_listener. childless. match goal with |- steps _ (wait_listener_loop _ _ _ _ ?d) => generalize d end.
  induction fuel as [|fuel IH]; intros d; cbn [wait_listener_loop]; childless.
Qed.
Lemma read_events_childless path : steps childless (read_events_file path).
Proof. unfold read_events_file. childless. Qed.
#[local] Hint Resolve read_events_childless : steps.
Lemma wait_ready_childless fuel path process : steps childless (wait_tcpcc_ready fuel path process).
Proof.
  unfold wait_tcpcc_ready. childless. match goal with |- steps _ (wait_tcpcc_ready_loop _ _ _ ?d) => generalize d end.
  induction fuel as [|fuel IH]; intros d; cbn [wait_tcpcc_ready_loop]; childless.
Qed.
Lemma stop_instances_childless : steps childless stop_instances.
Proof. unfold stop_instances. childless. Qed.
Lemma judge_childless names scenario output_dir environment ping :
  steps childless (judge repr names scenario output_dir environment ping).
Proof. unfold judge, contract_of, assert_tcpcc_resources_removed. childless. Qed.
Lemma stop_capture_childless process : steps childless (stop_packet_capture process).
Proof. unfold stop_packet_capture, wait_or_kill. childless. Qed.
End calm.
#[export] Hint Resolve run_childless run_checked_childless write_text_childless setup_topology_childless qdisc_report_childless
  ping_path_childless collect_environment_childless wait_listener_childless wait_ready_childless stop_instances_childless
  judge_childless stop_capture_childless : steps.

(** ** No child is lost *)

(** What a function that starts a child does between the start and its return. *)
Definition starting (ev : Effects.event) : Prop :=
  match ev_call ev with
  | CCloseFile _ | CClock | CExists _ | CReadText _ | CProcPoll _ | CSleep _ => True
  | _ => False
  end.
(** A request to child [p] that failed. *)
Definition unstoppable (p : Z) (ev : Effects.event) : Prop :=
  ev_stuck ev = true /\
  match ev_call ev with CProcPoll q | CProcSignal q _ | CProcKill q | CProcWait q _ => q = p | _ => False end.
(** [p] is the last child of [t], and [P] holds of what follows its start. *)
Definition last_child (p : Z) (P : trace -> Prop) (t : trace) : Prop :=
  exists u argv output error v, t = u ++ Ev (CSpawn argv output error) (Answer p) :: v /\ spawned v = [] /\ P v.
(** A run that stops with child [p] on its hands: it was being started when the function that started it raised, or it is
    a capture that could not be stopped. *)
Definition abandoned (p : Z) (t : trace) : Prop :=
  last_child p (fun v => Forall starting v \/ Exists (unstoppable p) v) t.

Definition starts (b : Bench) (t : trace) (b' : Bench) : Prop := childless b t b' /\ Forall starting t.
#[export] Instance starts_rel : TraceRel starts.
Proof.
  split; [by split; [apply rel_refl|]|]. intros s t s' t' s'' [H F] [H' F']. split; [exact (rel_trans _ _ _ _ _ H H')|by apply Forall_app].
Qed.
Lemma starts_call `{E : Env} c :
  match c with CCloseFile _ | CClock | CExists _ | CReadText _ | CProcPoll _ | CSleep _ => True | _ => False end ->
  steps starts (perform c : M Bench (ret c)).
Proof.
  intros Hc. apply steps_perform. intros s r. split; [by destruct c|]. apply Forall_singleton. unfold starting. by destruct c.
Qed.
Ltac starts := repeat match goal with |- steps starts (perform ?c) => exact (starts_call c I) | |- _ => steps_step end.

Lemma wait_ready_starts `{E : Env} fuel path process : steps starts (wait_tcpcc_ready fuel path process).
Proof.
  unfold wait_tcpcc_ready. starts. match goal with |- steps _ (wait_tcpcc_ready_loop _ _ _ ?d) => generalize d end.
  induction fuel as [|fuel IH]; intros d; cbn [wait_tcpcc_ready_loop]; unfold read_events_file; starts.
Qed.

Lemma last_child_app p (P Q : trace -> Prop) t t' :
  last_child p P t -> spawned t' = [] -> (forall v, P v -> Q (v ++ t')) -> last_child p Q (t ++ t').
Proof.
  intros (u & argv & output & error & v & -> & Hv & HP) Ht HQ. exists u, argv, output, error, (v ++ t').
  rewrite <- app_assoc, spawned_app, Hv, Ht. split_and!; [done|done|by apply HQ].
Qed.

Section pending.
Context (ns : list string).

(** The child that is not among the known ones: it is being started, it is a capture that runs, or it could not be stopped. *)
Inductive child := NoChild | Fresh (p : Z) | Capture (p : Z) | Lost (p : Z).
Definition is_child (x : child) (p : Z) : Prop := match x with NoChild => False | Fresh q | Capture q | Lost q => q = p end.
Definition held (x : child) (t : trace) : Prop :=
  match x with
  | NoChild => True
  | Fresh p => last_child p (Forall starting) t
  | Capture p => last_child p (fun _ => True) t
  | Lost p => last_child p (Exists (unstoppable p)) t
  end.

(** The namespaces to delete are [ns], and every child of [t] is known in [b] or has ended, but for [x]. *)
Definition pending (x : child) (t : trace) (b : Bench) : Prop :=
  b_namespaces b = ns /\ (forall p, p ∈ spawned t -> p ∈ tracked b \/ p ∈ ended t \/ is_child x p) /\ held x t.

#[local] Abbreviation known := (option Z * option Z * list (string * Z))%type.

(** From a point where all but [x] are known or ended to one where all but [y] are; one that is reached by an exception can
    have lost one child. *)
Definition tracks {A} (P : known -> Prop) (x : child) (m : M Bench A) (D : known -> Prop) (y : A -> child) : Prop :=
  forall b t0, P (procs b) -> pending x t0 b -> acts m b (fun o b' t =>
    match o with
    | Ret a => D (procs b') /\ pending (y a) (t0 ++ t) b'
    | Raise _ => exists z, pending z (t0 ++ t) b' /\ forall p, z <> Capture p
    | OutOfFuel => True
    end).

Lemma pending_weaken x y t t' b b' :
  pending x t b -> b_namespaces b' = b_namespaces b -> (forall p, p ∈ tracked b -> p ∈ tracked b') -> spawned t' = [] ->
  (forall p, is_child x p -> is_child y p) -> held y (t ++ t') -> pending y (t ++ t') b'.
Proof.
  intros (Hn & Hp & _) Hb' Hb Ht Hxy Hy. split; [by rewrite Hb'|]. split; [|done]. intros p.
  rewrite spawned_app, ended_app, Ht, app_nil_r. intros Hin. destruct (Hp p Hin) as [|[|]]; [auto|set_solver|auto].
Qed.

Lemma held_starts x t t' : held x t -> spawned t' = [] -> Forall starting t' -> held x (t ++ t').
Proof.
  destruct x; [done|..]; intros Hx Ht Hs; (eapply last_child_app; [exact Hx|done|]); intros v Hv; [by apply Forall_app|done|].
  apply Exists_app. by left.
Qed.
Lemma held_calm x t t' : held x t -> spawned t' = [] -> (forall p, x <> Fresh p) -> held x (t ++ t').
Proof.
  destruct x as [|p|p|p]; intros Hx Ht Hf; [done|by destruct (Hf p)|..]; (eapply last_child_app; [exact Hx|done|]);
    intros v Hv; [done|]. apply Exists_app. by left.
Qed.

Context `{E : Env}.

Lemma tracks_bind {A B} P x (m : M Bench A) D y (f : A -> M Bench B) F z :
  tracks P x m D y -> (forall a, tracks D (y a) (f a) F z) -> tracks P x (m ≫= f) F z.
Proof.
  intros Hm Hf b t0 HP Hx. apply acts_bind. eapply acts_mono; [|by apply (Hm b t0)].
  intros [a|e|] b' t; [|done|done]. intros [HD Hy]. eapply acts_mono; [|by apply (Hf a b' (t0 ++ t))].
  intros o b'' t'. cbv beta. by rewrite <- ?app_assoc.
Qed.

Lemma childless_pending {A} (m : M Bench A) P x b t0 : steps childless m -> (forall p, x <> Fresh p) -> P (procs b) -> pending x t0 b ->
  acts m b (fun _ b' t => P (procs b') /\ pending x (t0 ++ t) b').
Proof.
  intros Hm Hf HP Hx. eapply acts_mono; [|apply (Hm b)]. intros o b' t (Hp & Hn & Ht). rewrite Hp. split; [done|].
  eapply pending_weaken; [done|done| |done|done|by apply held_calm; [apply Hx|..]]. by rewrite (tracked_procs b b' Hp).
Qed.

Lemma tracks_childless {A} P (m : M Bench A) : steps childless m -> tracks P NoChild m P (fun _ => NoChild).
Proof.
  intros Hm b t0 HP Hx. eapply acts_mono; [|by apply (childless_pending m P NoChild b t0)]. intros [a|e|] b' t [HP' Hx']; eauto.
Qed.

(** A function that starts a child. *)
Lemma starts_pending {A} P (m : M Bench A) x b t0 : steps starts m -> P (procs b) -> pending x t0 b ->
  acts m b (fun _ b' t => P (procs b') /\ pending x (t0 ++ t) b').
Proof.
  intros Hm HP Hx. eapply acts_mono; [|apply (Hm b)]. intros o b' t ((Hp & Hn & Ht) & Hs). rewrite Hp. split; [done|].
  eapply pending_weaken; [done|done| |done|done|by apply held_starts; [apply Hx|..]]. by rewrite (tracked_procs b b' Hp).
Qed.
Lemma tracks_starts {A} P p (m : M Bench A) : steps starts m -> tracks P (Fresh p) m P (fun _ => Fresh p).
Proof.
  intros Hm b t0 HP Hx. eapply acts_mono; [|by apply (starts_pending P m (Fresh p) b t0)]. intros [a|e|] b' t [HP' Hx']; eauto.
Qed.

Lemma tracks_ret {A} P (a : A) y : tracks P (y a) (mret a) P y.
Proof. intros b t0 HP Hx. apply acts_ret. by rewrite app_nil_r. Qed.

Lemma tracks_register P D p f :
  (forall b, P (procs b) ->
    D (procs (f b)) /\ b_namespaces (f b) = b_namespaces b /\ forall q, q ∈ tracked b \/ q = p -> q ∈ tracked (f b)) ->
  tracks P (Fresh p) (modify f) D (fun _ => NoChild).
Proof.
  intros Hf b t0 HP Hx. apply acts_modify. destruct (Hf b HP) as (HD & Hn & Hin). destruct Hx as (Hns & Hx & _). rewrite app_nil_r.
  split; [done|]. split; [by rewrite Hn|]. split; [|done]. intros q Hq. destruct (Hx q Hq) as [|[|[]]]; auto.
Qed.

(** A child that runs while [m] does and is then stopped. *)
Lemma tracks_finally {A} P x (m : M Bench A) fin y :
  (forall p, x <> Fresh p) -> steps childless m -> tracks P x fin P (fun _ => y) -> (forall p, y <> Capture p) ->
  tracks P x (try_finally m fin) P (fun _ => y).
Proof.
  intros Hf Hm Hfin Hy b t0 HP Hx. apply acts_finally.
  eapply acts_mono; [|by apply (childless_pending m P x b t0)].
  intros o b' t [HP' Hx']. destruct o as [a|e|]; [| |done];
    (eapply acts_mono; [|by apply (Hfin b' (t0 ++ t))]); intros [[]|e'|] b'' t'; cbv beta; rewrite <- ?app_assoc; naive_solver.
Qed.

(** A child that is started before its streams are closed. *)
Lemma tracks_spawn P argv output error fin : steps starts fin ->
  tracks P NoChild (try_finally (perform (CSpawn argv output error)) fin) P Fresh.
Proof.
  intros Hfin b t0 HP Hx. apply acts_finally. acts_call; intros r.
  - assert (Hr : pending (Fresh r) (t0 ++ [Ev (CSpawn argv output error) (Answer r)]) b).
    { destruct Hx as (Hns & Hx & _). split; [done|]. split.
      - intros p. rewrite spawned_app, ended_app. cbn. intros [Hp|Hp]%elem_of_app; [|set_solver].
        destruct (Hx p Hp) as [|[|]]; set_solver.
      - by exists t0, argv, output, error, []. }
    eapply acts_mono; [|by apply (starts_pending P fin (Fresh r) b)].
    intros [[]|e|] b' t; cbn [app]; rewrite <- ?app_assoc; naive_solver.
  - assert (Hr : pending NoChild (t0 ++ [Ev (CSpawn argv output error) (Fault r)]) b) by by apply (pending_weaken NoChild _ t0 _ b).
    eapply acts_mono; [|by apply (starts_pending P fin NoChild b)].
    intros [[]|e|] b' t; cbn [app]; rewrite <- ?app_assoc; naive_solver.
Qed.

Lemma tracks_for_each {A} P (l : list A) (f : A -> M Bench unit) :
  (forall a, tracks P NoChild (f a) P (fun _ => NoChild)) -> tracks P NoChild (for_each l f) P (fun _ => NoChild).
Proof.
  intros Hf. induction l as [|a l IH]; cbn [for_each]; [apply (tracks_ret P tt (fun _ => NoChild))|]. eapply tracks_bind; [apply Hf|by intros].
Qed.

Lemma start_logged_tracks P command path : tracks P NoChild (start_logged_process command path) P Fresh.
Proof.
  unfold start_logged_process. eapply tracks_bind; [apply tracks_childless; childless|]. intros stream.
  apply tracks_spawn. starts.
Qed.

Lemma start_capture_tracks P names output_dir case round_number port :
  tracks P NoChild (start_packet_capture names output_dir case round_number port) P (fun c => Fresh c.1).
Proof.
  unfold start_packet_capture. eapply tracks_bind; [apply tracks_childless; childless|]. intros stream.
  eapply tracks_bind; [apply tracks_spawn; starts|]. intros process.
  eapply tracks_bind; [apply tracks_starts; starts|]. intros ?.
  eapply tracks_bind; [apply tracks_starts; starts|]. intros [code|].
  - eapply tracks_bind; [apply tracks_starts; starts|]. intros diagnostic b t0 HP Hx. apply acts_raise.
    exists (Fresh process). by rewrite app_nil_r.
  - apply (tracks_ret P (process, _) (fun c => Fresh c.1)).
Qed.

(** A call on a running capture: what it answers leaves it running, and when it fails the capture is lost. *)
Lemma capture_lost p c e b t : pending (Capture p) t b -> spawned [Ev c (Fault e)] = [] -> unstoppable p (Ev c (Fault e)) ->
  pending (Lost p) (t ++ [Ev c (Fault e)]) b.
Proof.
  intros Hx Hs Hu. eapply pending_weaken; [done|done|done|done|done|]. eapply last_child_app; [apply Hx|done|].
  intros v _. apply Exists_app. right. by constructor.
Qed.
Lemma capture_calm p t t' b : pending (Capture p) t b -> spawned t' = [] -> pending (Capture p) (t ++ t') b.
Proof. intros Hx Ht. eapply pending_weaken; [done|done|done|done|done|]. by apply held_calm; [apply Hx|..]. Qed.
Lemma capture_ended p t t' b : pending (Capture p) t b -> spawned t' = [] -> p ∈ ended t' -> pending NoChild (t ++ t') b.
Proof.
  intros (Hns & Hx & _) Ht He. split; [done|]. split; [|done]. intros q. rewrite spawned_app, ended_app, Ht, app_nil_r. intros Hq.
  destruct (Hx q Hq) as [|[|[]]]; [by left|right; left; set_solver..].
Qed.

Lemma tracks_capture_call P p c : match c with CProcPoll q | CProcSignal q _ | CProcKill q => q = p | _ => False end ->
  tracks P (Capture p) (perform c) P (fun _ => Capture p).
Proof.
  intros Hc b t0 HP Hx. acts_call; intros r.
  - split; [done|]. apply capture_calm; [done|by destruct c].
  - exists (Lost p). split; [|done]. apply capture_lost; [done|by destruct c|]. split; by destruct c.
Qed.

(** Waiting for a capture settles it. *)
Lemma wait_or_kill_tracks P p : tracks P (Capture p) (wait_or_kill p) P (fun _ => NoChild).
Proof.
  intros b t0 HP Hx. unfold wait_or_kill. apply acts_try. acts_call; intros r.
  - split; [done|]. apply (capture_ended p); [done|done|]. set_solver.
  - destruct (is_TimeoutExpired (Sys r)) eqn:Hr.
    + assert (tracks P (Capture p) (perform (CProcKill p);; perform (CProcWait p 5)) P (fun _ => NoChild)) as Hkill.
      { eapply tracks_bind; [by apply (tracks_capture_call P p (CProcKill p))|]. intros ? b' t' HP' Hx'. acts_call; intros v.
        - split; [done|]. apply (capture_ended p); [done|done|]. set_solver.
        - exists (Lost p). split; [|done]. apply capture_lost; [done|done|]. by split; [destruct v|]. }
      eapply acts_mono; [|apply (Hkill b (t0 ++ [Ev (CProcWait p 10) (Fault r)])); [done|by apply capture_calm]].
      intros o b' t. cbv beta. by rewrite <- ?app_assoc.
    + apply acts_raise. exists (Lost p). split; [|done]. apply capture_lost; [done|done|]. by split; [destruct r|].
Qed.

Lemma stop_capture_tracks P process : tracks P (Capture process) (stop_packet_capture process) P (fun _ => NoChild).
Proof.
  unfold stop_packet_capture. eapply tracks_bind; [by apply (tracks_capture_call P process (CProcPoll process))|]. intros running.
  eapply (tracks_bind _ _ _ P (fun _ => Capture process)).
  { destruct running; [apply (tracks_ret P tt (fun _ => Capture process))|by apply (tracks_capture_call P process (CProcSignal process SIGINT))]. }
  intros ?. eapply tracks_bind; [apply wait_or_kill_tracks|]. intros status. apply tracks_childless. childless.
Qed.

Lemma tracks_started {A} P p (m : M Bench A) D y : tracks P (Capture p) m D y -> tracks P (Fresh p) m D y.
Proof.
  intros Hm b t0 HP (Hn & Hx & Hp). apply Hm; [done|]. split; [done|]. split; [done|].
  rewrite <- (app_nil_r t0). by eapply last_child_app; [exact Hp|..].
Qed.

Lemma start_tcpcc_tracks P fuel root names kernel output_dir case :
  tracks P NoChild (start_tcpcc_case fuel root names kernel output_dir case) P (fun c => Fresh c.1.1).
Proof.
  unfold start_tcpcc_case. eapply tracks_bind; [apply tracks_childless; childless|]. intros stream.
  eapply tracks_bind; [apply tracks_childless; childless|]. intros diagnostic.
  eapply tracks_bind; [apply tracks_spawn; starts|]. intros process.
  eapply tracks_bind; [apply tracks_starts, wait_ready_starts|]. intros ready.
  apply (tracks_ret P (process, _, ready) (fun c => Fresh c.1.1)).
Qed.

Let capture_of (c : option (Z * string)) : child := match c with Some c => Fresh c.1 | None => NoChild end.
Lemma measurement_tracks P repr names scenario output_dir case round_number order packet_trace :
  tracks P NoChild (run_iperf_measurement repr names scenario output_dir case round_number order packet_trace) P (fun _ => NoChild).
Proof.
  unfold run_iperf_measurement. eapply tracks_bind; [apply tracks_childless; childless|]. intros ?.
  eapply (tracks_bind _ _ _ P capture_of).
  { destruct packet_trace; [|apply (tracks_ret P None capture_of)].
    eapply tracks_bind; [apply start_capture_tracks|]. intros capture.
    destruct capture; apply (tracks_ret P (Some (_, _)) capture_of). }
  intros capture. eapply (tracks_bind _ _ _ P (fun _ => NoChild)); [|intros completed; apply tracks_childless; childless].
  destruct capture as [[process name]|]; [apply tracks_started|];
    (apply tracks_finally; [done|childless| |done]); [apply stop_capture_tracks|]. apply tracks_childless. childless.
Qed.

(** ** The benchmark as a whole *)

Context (repr : json -> string) (root : string) (fuel : nat) (args : Args).

Lemma start_servers_tracks names output_dir :
  tracks (eq (None, None, [])) NoChild (start_servers fuel names output_dir) (fun k => k.2 = []) (fun _ => NoChild).
Proof.
  unfold start_servers. eapply tracks_bind; [apply start_logged_tracks|]. intros native.
  eapply (tracks_bind _ _ _ (eq (Some native, None, []))).
  { apply tracks_register. unfold procs, tracked. cbn. intros b [= <- <- <-]. do 2 (split; [done|]). set_solver. }
  intros ?. eapply tracks_bind; [apply tracks_childless; childless|]. intros ?.
  eapply tracks_bind; [apply start_logged_tracks|]. intros backend.
  eapply (tracks_bind _ _ _ (fun k => k.2 = [])).
  { apply tracks_register. unfold procs, tracked. cbn. intros b [= <- <- <-]. do 2 (split; [done|]). set_solver. }
  intros ?. apply tracks_childless. childless.
Qed.

Lemma start_instances_tracks names kernel output_dir :
  tracks (fun k => k.2 = []) NoChild (start_instances root fuel names kernel output_dir) (fun _ => True) (fun _ => NoChild).
Proof.
  unfold start_instances. eapply (tracks_bind _ _ _ (fun _ => True) (fun _ => NoChild)); [|intros; apply tracks_childless; childless].
  unfold TCPCC_CASES. cbn [for_each].
  eapply (tracks_bind _ _ _ (fun k => exists p, k.2 = [("tcpcc_cubic", p)]) (fun _ => NoChild)).
  { eapply tracks_bind; [apply start_tcpcc_tracks|]. intros [[process path] ready]. apply tracks_register.
    unfold procs, tracked. cbn. intros b ->. split; [by eexists|]. split; [done|]. set_solver. }
  intros ?. eapply (tracks_bind _ _ _ (fun _ => True) (fun _ => NoChild)); [|intros; apply (tracks_ret _ tt (fun _ => NoChild))].
  eapply tracks_bind; [apply start_tcpcc_tracks|]. intros [[process path] ready]. apply tracks_register.
  unfold procs, tracked. cbn. intros b [p ->]. do 2 (split; [done|]). cbn. set_solver.
Qed.

Lemma measure_tracks names scenario output_dir :
  tracks (fun _ => True) NoChild (measure repr args names scenario output_dir) (fun _ => True) (fun _ => NoChild).
Proof.
  unfold measure, measure_round. apply tracks_for_each. intros i. apply tracks_for_each. intros [order case].
  eapply tracks_bind; [apply measurement_tracks|]. intros m. apply tracks_childless. childless.
Qed.

(** What follows the registration of the namespaces. *)
Lemma body_tracks names scenario kernel output_dir :
  tracks (eq (None, None, [])) NoChild (
    topology ← setup_topology scenario names;
    _ ← write_text (in_dir output_dir "topology.txt") topology;
    _ ← (text ← qdisc_report names; write_text (in_dir output_dir "qdisc-before.txt") text);
    '(ping, ping_log) ← ping_path names;
    _ ← write_text (in_dir output_dir "ping.txt") ping_log;
    environment ← collect_environment names kernel;
    _ ← start_servers fuel names output_dir;
    _ ← start_instances root fuel names kernel output_dir;
    _ ← measure repr args names scenario output_dir;
    _ ← stop_instances;
    judge repr names scenario output_dir environment ping) (fun _ => True) (fun _ => NoChild).
Proof.
  do 3 (eapply tracks_bind; [apply tracks_childless; childless|]; intros ?).
  eapply tracks_bind; [apply tracks_childless; childless|]. intros [ping log].
  do 2 (eapply tracks_bind; [apply tracks_childless; childless|]; intros ?).
  eapply tracks_bind; [apply start_servers_tracks|]. intros ?.
  eapply tracks_bind; [apply start_instances_tracks|]. intros ?.
  eapply tracks_bind; [apply measure_tracks|]. intros ?. apply tracks_childless. childless.
Qed.
End pending.

Section cleanup.
Context `{E : Env} (repr : json -> string) (root : string) (fuel : nat) (args : Args).

(** A run that ends at the first of its calls that fails in a way the cleanup does not handle. *)
Definition broken (t : trace) : Prop := exists t' ev, t = t' ++ [ev] /\ stuck t' = false /\ ev_stuck ev = true.

(** Code of the cleanup: it starts nothing, and it sees every one of [ps] end and runs [cs], in order; it stops short only at
    a call that fails. *)
Definition settled {A} (b : Bench) (ps : list Z) (cs : list (list string)) (o : outcome A) (b' : Bench) (t : trace) : Prop :=
  b' = b /\ spawned t = [] /\
  match o with
  | Ret _ => stuck t = false /\ (forall p, p ∈ ps -> p ∈ ended t) /\ execs t = cs
  | _ => broken t /\ execs t `prefix_of` cs
  end.
Definition settles {A} (m : M Bench A) (ps : list Z) (cs : list (list string)) : Prop := forall b, acts m b (settled b ps cs).

Lemma settles_ret {A} (a : A) : settles (mret a) [] [].
Proof. intros b. apply acts_ret. split_and!; [done|done|done| |done]. set_solver. Qed.
Lemma broken_app t t' : stuck t = false -> broken t' -> broken (t ++ t').
Proof.
  intros Ht (u & ev & -> & Hu & Hev). exists (t ++ u), ev. rewrite app_assoc, stuck_app, Ht, Hu. done.
Qed.
Lemma settles_bind {A B} (m : M Bench A) ps cs (f : A -> M Bench B) ps' cs' :
  settles m ps cs -> (forall a, settles (f a) ps' cs') -> settles (m ≫= f) (ps ++ ps') (cs ++ cs').
Proof.
  assert (forall t, execs t `prefix_of` cs -> execs t `prefix_of` cs ++ cs') as Hpre by (intros; by apply prefix_app_r).
  intros Hm Hf b. apply acts_bind. eapply acts_mono; [|apply Hm]. intros [a|e|] b' t (-> & Ht & Ho);
    [|by destruct Ho; split_and!; auto..]. destruct Ho as (Hst & Hps & Hcs).
  eapply acts_mono; [|apply Hf]. intros o' b' t' (-> & Ht' & Ho').
  unfold settled. rewrite spawned_app, stuck_app, execs_app, ended_app, Ht, Ht', Hcs, Hst. do 2 (split; [done|]).
  destruct o' as [a'|e|]; [destruct Ho' as (-> & Hps' & ->)|destruct Ho'; split; [by apply broken_app|by apply prefix_app]..].
  split; [done|]. split; [|done]. set_solver.
Qed.
Lemma settles_stops {A} (l : list A) f g : (forall a, settles (f a) [g a] []) -> settles (for_each l f) (map g l) [].
Proof. intros Hf. induction l; cbn [for_each map]; [apply settles_ret|by apply (settles_bind _ [_] [] _ _ [])]. Qed.
Lemma settles_runs {A} (l : list A) f g : (forall a, settles (f a) [] [g a]) -> settles (for_each l f) [] (map g l).
Proof. intros Hf. induction l; cbn [for_each map]; [apply settles_ret|by apply (settles_bind _ [] [_] _ [])]. Qed.

Lemma settled_answer {A} b ps cs (a : A) ev : ev_stuck ev = false -> ev_spawned ev = None ->
  (forall p, p ∈ ps -> ev_ended ev = Some p) -> execs [ev] = cs -> settled b ps cs (Ret a) b [ev].
Proof.
  intros Hev Hs He Hc. split; [done|]. split; [unfold spawned; cbn; by rewrite Hs|]. split; [unfold stuck; cbn; by rewrite Hev|].
  split; [|done]. intros p Hp. unfold ended. cbn. rewrite (He p Hp). set_solver.
Qed.
Lemma settled_fault {A} b ps cs x ev : ev_stuck ev = true -> ev_spawned ev = None -> execs [ev] `prefix_of` cs ->
  settled b ps cs (Raise x : outcome A) b [ev].
Proof.
  intros Hev Hs Hc. split; [done|]. split; [unfold spawned; cbn; by rewrite Hs|]. split; [|done]. by exists [], ev.
Qed.

Lemma settles_call c : match c with CProcTerminate _ | CProcKill _ => True | _ => False end ->
  settles (perform c) [] [].
Proof.
  intros Hc b. destruct c; try done.
  all: acts_call; intros r; [apply settled_answer; [done..|set_solver|done]|by apply settled_fault].
Qed.
Lemma settled_after {A} b ps cs (o : outcome A) b' ev t : ev_stuck ev = false -> ev_spawned ev = None -> ev_exec ev = None ->
  settled b ps cs o b' t -> settled b ps cs o b' (ev :: t).
Proof.
  intros Hev Hs Hx (-> & Ht & Ho). unfold settled, spawned, execs, ended, stuck. cbn. rewrite Hev, Hs, Hx.
  split; [done|]. split; [done|]. destruct o as [a|e|]; [|destruct Ho; split; [by apply (broken_app [ev]); [unfold stuck; cbn; rewrite Hev|]|done]..].
  destruct Ho as (? & Hp & ?). split_and!; [done| |done]. intros p Hin. destruct (ev_ended ev); set_solver.
Qed.

Lemma wait_or_kill_settles process : settles (wait_or_kill process) [process] [].
Proof.
  intros b. unfold wait_or_kill. apply acts_try. acts_call.
  - intros v. apply settled_answer; [done..|set_solver|done].
  - intros e. destruct (is_TimeoutExpired (Sys e)) eqn:He; [|apply acts_raise, settled_fault; by destruct e].
    eapply acts_mono; [|apply (settles_bind _ [] [] (fun _ => perform (CProcWait process 5)) [process] [])].
    + intros o b' t H. apply settled_after; [by destruct e|done..].
    + by apply settles_call.
    + intros _ b'. acts_call; intros v; [apply settled_answer; [done..|set_solver|done]|apply settled_fault; by destruct v].
Qed.

Lemma stop_process_settles process : settles (stop_process process) (option_list process) [].
Proof.
  destruct process as [process|]; cbn [stop_process]; [|apply settles_ret]. intros b. apply acts_bind.
  acts_call; [|intros e; by apply settled_fault]. intros [code|].
  - apply acts_ret. apply settled_answer; [done..|set_solver|done].
  - eapply acts_mono; [|apply (settles_bind _ [] [] _ [process] [])].
    + intros o b' t H. by apply settled_after.
    + by apply settles_call.
    + intros _. apply (settles_bind _ [process] [] _ [] []); [apply wait_or_kill_settles|intros; apply settles_ret].
Qed.

Definition delete_namespace (namespace : string) : list string := ["ip"; "netns"; "delete"; namespace].

Lemma delete_settles namespace : settles (run ["ip"; "netns"; "delete"; namespace] false 30;; mret tt) [] [delete_namespace namespace].
Proof.
  intros b. unfold run. cbn [andb raise_if of_res]. apply acts_bind, acts_bind. acts_call; [|intros e; by apply settled_fault].
  intros r. apply acts_bind, acts_ret, acts_ret, acts_ret. apply settled_answer; [done..|set_solver|done].
Qed.

Lemma cleanup_settles b : acts benchmark_cleanup b (settled b (tracked b) (map delete_namespace (reverse (b_namespaces b)))).
Proof.
  unfold benchmark_cleanup. apply acts_bind, acts_get.
  assert (settles
    (for_each (b_processes b) (fun entry => stop_process (Some entry.2));; stop_process (b_backend_server b);;
     stop_process (b_native_server b);;
     for_each (reverse (b_namespaces b)) (fun namespace => run ["ip"; "netns"; "delete"; namespace] false 30;; mret tt))
    (tracked b) (map delete_namespace (reverse (b_namespaces b)))) as Hall; [|apply Hall].
  apply (settles_bind _ _ []).
  { apply settles_stops. intros entry. apply (stop_process_settles (Some entry.2)). }
  intros _. apply (settles_bind _ _ []); [apply stop_process_settles|]. intros _.
  rewrite <- (app_nil_r (option_list (b_native_server b))). apply (settles_bind _ _ []); [apply stop_process_settles|]. intros _.
  apply settles_runs. apply delete_settles.
Qed.
End cleanup.

(** ** The waits end *)

(** The time known to have passed: the last reading of the clock and the sleeps since. *)
Definition sleep_step (e : option Q) (ev : Effects.event) : option Q :=
  match ev with
  | Ev c r =>
      match c return reply (ret c) -> option Q with
      | CClock => fun r => match r with Answer q => Some q | Fault _ => e end
      | CSleep q => fun r => match r with Answer _ => (fun e => q + e)%Q <$> e | Fault _ => e end
      | _ => fun _ => e
      end r
  end.
Definition slept (tr : trace) : option Q := fold_left sleep_step tr None.

Lemma slept_snoc tr ev : slept (tr ++ [ev]) = sleep_step (slept tr) ev.
Proof. unfold slept. by rewrite fold_left_app. Qed.

Section waits.
Context `{E : Env}.

(** The clock is monotonic, and a sleep takes as long as it was asked to. *)
Definition sleeps_pass : Prop := forall tr e q, slept tr = Some e -> env_reply tr CClock = Answer q -> (e <= q)%Q.

(** What one turn of a wait does between the clock and the sleep. *)
Definition turn {S A} (m : M S A) : Prop := steps (fun (_ : S) t _ => forall e, fold_left sleep_step t e = e) m.

#[local] Instance turn_rel {S} : TraceRel (fun (_ : S) t _ => forall e, fold_left sleep_step t e = e).
Proof. split; [done|]. intros s t s' t' s'' H H' e. by rewrite fold_left_app, H, H'. Qed.

Lemma turn_call {S} c : match c with CClock | CSleep _ => False | _ => True end -> turn (perform c : M S (ret c)).
Proof. intros Hc. apply steps_perform. intros s r e. by destruct c. Qed.

Lemma wp_eq {S A} (m m' : M S A) Q s tr : m s tr = m' s tr -> wp m' Q s tr -> wp m Q s tr.
Proof. unfold wp. by intros ->. Qed.

(** A loop that looks at the clock, tries and sleeps for a twentieth of a second. *)
Lemma wp_polling {S A} (loop : nat -> Q -> M S A) (late : exn) (attempt : M S (option (res A))) :
  sleeps_pass -> turn attempt -> ends attempt ->
  (forall n d s tr, loop (Datatypes.S n) d s tr = (
     now ← perform CClock;
     if Qle_bool d now then raise late
     else found ← attempt;
          match found with Some r => of_res r | None => perform (CSleep (1 # 20));; loop n d end) s tr) ->
  forall n d e s tr, slept tr = Some e -> (d <= e + (Z.of_nat n # 20))%Q ->
  wp (loop (Datatypes.S n) d) (fun o _ _ => o <> OutOfFuel) s tr.
Proof.
  intros Htime Hturn Hends Hloop n d. induction n as [|n IH]; intros e s tr He Hd; (eapply wp_eq; [apply Hloop|]);
    (apply wp_bind; wp_call; [intros now Hnow|done]);
    pose proof (Htime _ _ _ He Hnow) as Hle; (destruct (Qle_bool d now) eqn:Hlate; [done|]);
    (assert (now < d)%Q by (apply Qnot_le_lt; intros H; by rewrite (proj2 (Qle_bool_iff _ _) H) in Hlate)).
  { assert ((Z.of_nat 0 # 20) == 0)%Q by done. lra. }
  apply wp_bind. eapply wp_of_acts; [apply acts_ends; [apply Hturn|apply Hends]|].
  intros [found|x|] s' suf [Ht Ho]; [|done|done]. destruct found as [r|]; [by destruct r|].
  apply wp_bind. wp_call; [intros u _|done]. apply (IH ((1 # 20) + now)%Q).
  - rewrite slept_snoc. unfold slept. rewrite fold_left_app, Ht, fold_left_app. done.
  - assert ((Z.of_nat (Datatypes.S n) # 20) == (1 # 20) + (Z.of_nat n # 20))%Q by (unfold Qeq; cbn -[Z.of_nat]; lia). lra.
Qed.

Ltac same_run :=
  intros; cbn [wait_listener_loop wait_tcpcc_ready_loop]; unfold mbind, M_bind, mret, M_ret; cbv beta;
  repeat match goal with
         | |- context [match perform ?c ?s ?tr with _ => _ end] => destruct (perform c s tr) as [[[?|?|] ?] ?]
         | |- context [match run ?c ?b ?q ?s ?tr with _ => _ end] => destruct (run c b q s tr) as [[[?|?|] ?] ?]
         | |- context [match read_events_file ?c ?s ?tr with _ => _ end] => destruct (read_events_file c s tr) as [[[?|?|] ?] ?]
         | |- context [match ?x with _ => _ end] => destruct x
         end; reflexivity.

Lemma deadline_fuel (now : Q) k n : (20 * k < Z.of_nat (Datatypes.S n)) -> (now + inject_Z k <= now + (Z.of_nat n # 20))%Q.
Proof. intros Hk. assert (inject_Z k <= (Z.of_nat n # 20))%Q; [|lra]. unfold Qle, inject_Z. cbn. lia. Qed.

Lemma ends_wait_listener {S} fuel namespace port process :
  sleeps_pass -> (400 < fuel)%nat -> ends (wait_listener fuel namespace port process : M S unit).
Proof.
  intros Htime Hfuel s tr. unfold wait_listener. apply wp_bind. wp_call; [intros now Hnow|done].
  destruct fuel as [|n]; [lia|].
  eapply (wp_polling (fun n d => wait_listener_loop n namespace port process d) _
    (status ← perform (CProcPoll process);
     match status with
     | Some code => mret (Some (Err (RuntimeError ("listener process exited with " +:+ str_of_Z code +:+ " on port " +:+ str_of_Z port))))
     | None => sockets ← run (ns_command namespace ["ss"; "-H"; "-lnt"]) false 30;
               mret (if existsb (listens port) (splitlines sockets.2) then Some (Ok tt) else None)
     end) Htime).
  - unfold turn, run. repeat first [exact (turn_call (CProcPoll _) I)|exact (turn_call (CExec _ _) I)|steps_step].
  - unfold run. ends.
  - same_run.
  - by rewrite slept_snoc.
  - apply (deadline_fuel now 10). lia.
Qed.

Lemma ends_wait_ready {S} fuel path process :
  sleeps_pass -> (400 < fuel)%nat -> ends (wait_tcpcc_ready fuel path process : M S event).
Proof.
  intros Htime Hfuel s tr. unfold wait_tcpcc_ready. apply wp_bind. wp_call; [intros now Hnow|done].
  destruct fuel as [|n]; [lia|].
  eapply (wp_polling (fun n d => wait_tcpcc_ready_loop n path process d) _
    (events ← read_events_file path;
     match find_event "ready" events with
     | Some ready => mret (Some (Ok ready))
     | None => status ← perform (CProcPoll process);
               mret (match status with
                     | Some code => Some (Err (RuntimeError ("tcpcc exited with " +:+ str_of_Z code +:+ " before readiness")))
                     | None => None
                     end)
     end) Htime).
  - unfold turn, read_events_file.
    repeat first [exact (turn_call (CProcPoll _) I)|exact (turn_call (CExists _) I)|exact (turn_call (CReadText _) I)|steps_step].
  - unfold read_events_file. ends.
  - same_run.
  - by rewrite slept_snoc.
  - apply (deadline_fuel now 20). lia.
Qed.
End waits.

Section ending.
Context `{E : Env} (repr : json -> string) (root : string) (fuel : nat) (args : Args).

Lemma ends_headed {S} entries : ends (headed entries : M S (list string)).
Proof. induction entries as [|[] entries IH]; cbn [headed]; unfold run_checked, run; ends. Qed.
#[local] Hint Resolve ends_headed : ends.

Lemma ends_judge names scenario output_dir environment ping : ends (judge repr names scenario output_dir environment ping).
Proof.
  unfold judge, qdisc_report, write_text, collect_qdisc_observations, observe_qdisc, contract_of, read_events_file,
    assert_tcpcc_resources_removed, run_checked, run. ends.
Qed.
Lemma ends_measure names scenario output_dir : ends (measure repr args names scenario output_dir).
Proof.
  unfold measure, measure_round, run_iperf_measurement, start_packet_capture, stop_packet_capture, wait_or_kill, write_text, run.
  ends.
Qed.
Lemma ends_setup {S} scenario names : ends (setup_topology scenario names : M S string).
Proof. unfold setup_topology, run_all, run_checked, run. ends. Qed.
#[local] Hint Resolve ends_judge ends_measure ends_setup ends_wait_listener ends_wait_ready : ends.

Lemma ends_benchmark : sleeps_pass -> (400 < fuel)%nat -> ends (benchmark repr root fuel args).
Proof.
  intros Htime Hfuel.
  unfold benchmark, prepare, benchmark_body, benchmark_cleanup, start_servers, start_instances, start_logged_process,
    start_tcpcc_case, stop_instances, stop_process, wait_or_kill, ping_path, collect_environment, qdisc_report, write_text,
    run_checked, run. ends.
Qed.
End ending.

(** ** The commands of the topology *)

Section following.
Context `{E : Env} {S : Type}.

(** The commands of [m] are those of [cs], in their order, up to where it fails; all of them when it does not, and then
    every one has succeeded. *)
Definition succeeded (ev : Effects.event) : Prop :=
  match ev with
  | Ev c r =>
      match c return reply (ret c) -> Prop with
      | CExec _ _ => fun r => match r with Answer completed => completed.1 = 0 | Fault _ => False end
      | _ => fun _ => True
      end r
  end.
Definition follows {A} (m : M S A) (cs : list (list string)) : Prop :=
  forall s, acts m s (fun o s' t =>
    s' = s /\ execs t `prefix_of` cs /\ match o with Ret _ => execs t = cs /\ Forall succeeded t | _ => True end).

Lemma follows_bind {A B} (m : M S A) cs (f : A -> M S B) cs' :
  follows m cs -> (forall a, follows (f a) cs') -> follows (m ≫= f) (cs ++ cs').
Proof.
  intros Hm Hf s. apply acts_bind. eapply acts_mono; [|apply Hm]. intros [a|e|] s' t (-> & Hp & Ho).
  2,3: split_and!; [done| |done]; by apply prefix_app_r.
  destruct Ho as [Hcs Ht]. eapply acts_mono; [|apply (Hf a)]. intros o s' t' (-> & Hp' & Ho').
  rewrite execs_app, Hcs. split_and!; [done|by apply prefix_app|]. destruct o; [|done|done].
  destruct Ho' as [-> Ht']. split; [done|by apply Forall_app].
Qed.
Lemma follows_skip {A B} (m : M S A) (f : A -> M S B) cs : follows m [] -> (forall a, follows (f a) cs) -> follows (m ≫= f) cs.
Proof. apply (follows_bind m [] f cs). Qed.
Lemma follows_ret {A} (a : A) : follows (mret a) [].
Proof. intros s. apply acts_ret. by split_and!. Qed.
Lemma follows_map {A B} (m : M S A) (f : A -> B) cs : follows m cs -> follows (a ← m; mret (f a)) cs.
Proof. intros Hm. rewrite <- (app_nil_r cs). apply follows_bind; [done|intros; apply follows_ret]. Qed.
Lemma follows_of_res {A} (r : res A) : follows (of_res r) [].
Proof. intros s. destruct r; [apply acts_ret|apply acts_raise]; by split_and!. Qed.
Lemma follows_run_checked command : follows (run_checked command) [command].
Proof.
  intros s. unfold run_checked, run. apply acts_bind, acts_bind. acts_call; [|intros e; by split_and!]. intros completed.
  apply acts_bind. destruct (completed.1 =? 0) eqn:H; cbn [andb negb raise_if of_res].
  - apply acts_ret, acts_ret, acts_ret. apply Z.eqb_eq in H. split_and!; [done|done|done|]. by repeat constructor.
  - apply acts_raise. by split_and!.
Qed.
Lemma follows_for_each_nil {A} (l : list A) f : (forall a, follows (f a) []) -> follows (for_each l f) [].
Proof. intros Hf. induction l; cbn [for_each]; [apply follows_ret|]. by apply (follows_bind _ [] _ []). Qed.
Lemma follows_run_all commands : follows (run_all commands) commands.
Proof.
  unfold run_all. induction commands as [|c cs IH]; cbn [for_each]; [apply follows_ret|].
  apply (follows_bind _ [c]); [|done]. apply (follows_bind _ [c] _ []); [apply follows_run_checked|intros; apply follows_ret].
Qed.
Lemma follows_headed entries : follows (headed entries) entries.*2.
Proof.
  induction entries as [|[heading c] entries IH]; cbn [headed fmap list_fmap]; [apply follows_ret|].
  apply (follows_bind _ [c]); [apply follows_run_checked|]. intros output.
  by apply follows_map.
Qed.

(** The whole topology: links, addresses and routes, settings, the look at the congestion controls, queueing
    disciplines, and the record of what was built. *)
Definition topology_plan (scenario : Scenario) (names : Names) : list (list string) :=
  (link_commands names ++ address_commands scenario names ++ sysctl_commands names)
  ++ [ns_command (server_ns names) ["cat"; "/proc/sys/net/ipv4/tcp_available_congestion_control"]]
  ++ [ns_command (server_ns names) ["sysctl"; "-n"; "net.ipv4.tcp_congestion_control"]]
  ++ qdisc_commands scenario names
  ++ concat (map (fun namespace => [ns_command namespace ["ip"; "-br"; "address"]; ns_command namespace ["ip"; "route"]])
               (namespaces_of names)).

(** The commands that build the topology refine their plan: they are issued in its order up to the first that fails,
    and when [setup_topology] returns all of them were issued and every one has succeeded. *)
Theorem setup_topology_follows scenario names : follows (setup_topology scenario names) (topology_plan scenario names).
Proof.
  unfold setup_topology, topology_plan. apply follows_bind; [apply follows_run_all|]. intros _.
  apply follows_bind; [apply follows_run_checked|]. intros available.
  apply follows_skip; [apply follows_for_each_nil; intros; apply follows_of_res|]. intros _.
  apply follows_bind; [apply follows_run_checked|]. intros host_default_cc.
  apply follows_skip; [apply follows_of_res|]. intros _. apply follows_bind; [apply follows_run_all|]. intros _.
  apply follows_map. apply follows_headed.
Qed.
End following.

(** ** The rounds *)

Definition slot (m : Measurement) : string * Z * Z := (m_case m, m_round m, m_order m).
Definition slots (case : string) (b : Bench) : list (string * Z * Z) := map slot (default [] (dict_get case (b_measurements b))).

(** The slots of a case in the rounds [is]: one in each, at its place in the rotation. *)
Definition slots_of_round (case : string) (i : nat) : list (string * Z * Z) :=
  omap (fun '(order, x) => if String.eqb x case then Some (x, Z.of_nat i + 1, Z.of_nat order + 1) else None)
    (imap (fun order x => (order, x)) (rotation i)).

Lemma rotation_permutes i : rotation i ≡ₚ CASES.
Proof. unfold rotation. rewrite Permutation_app_comm. by rewrite take_drop. Qed.

Lemma dict_set_keys {A} k (v : A) d : k ∈ d.*1 -> (dict_set k v d).*1 = d.*1.
Proof.
  induction d as [|[k' v'] d IH]; cbn; [set_solver|]. intros Hk. case_bool_decide as Hkk; cbn; [by subst|].
  f_equal. apply IH. set_solver.
Qed.

Section rounds.
Context `{E : Env} (repr : json -> string) (args : Args).

(** Where only what is returned matters. *)
Definition gives {S A} (m : M S A) (I : S -> Prop) (Q : A -> S -> Prop) : Prop :=
  forall s, I s -> acts m s (fun o s' _ => match o with Ret a => Q a s' | _ => True end).

Lemma gives_bind {S A B} (m : M S A) (f : A -> M S B) I P Q :
  gives m I P -> (forall a, gives (f a) (P a) Q) -> gives (m ≫= f) I Q.
Proof.
  intros Hm Hf s Hs. apply acts_bind. eapply acts_mono; [|by apply Hm]. intros [a|e|] s' t Ho; [|done|done].
  eapply acts_mono; [|by apply Hf]. done.
Qed.
Lemma gives_keeps {S A} (m : M S A) I : keeps I (fun _ => True) m -> gives m I (fun _ => I).
Proof. intros Hm s Hs. eapply acts_mono; [|by apply Hm]. intros [] s' t [? _]; done. Qed.

Lemma iperf_gives {S} names scenario output_dir case round_number order packet_trace (I : S -> Prop) :
  gives (run_iperf_measurement repr names scenario output_dir case round_number order packet_trace) I
    (fun m s => I s /\ slot m = (case, round_number, order)).
Proof.
  unfold run_iperf_measurement. eapply gives_bind; [apply gives_keeps; keeps|]. intros ?. cbv zeta.
  eapply gives_bind; [apply gives_keeps; destruct packet_trace; unfold start_packet_capture; keeps|]. intros capture.
  eapply gives_bind.
  { apply gives_keeps. unfold run, stop_packet_capture, wait_or_kill. keeps. }
  intros completed. do 4 (eapply gives_bind; [apply gives_keeps; unfold write_text; keeps|]; intros ?).
  intros s Hs. by apply acts_ret.
Qed.

Lemma slots_add case x m b : slots case (add_measurement x m b) = slots case b ++ if String.eqb x case then [slot m] else [].
Proof.
  unfold slots, add_measurement. cbn. rewrite dict_get_set. destruct (String.eqb_spec x case) as [->|Hne].
  - rewrite bool_decide_true by done. cbn. by rewrite map_app.
  - rewrite bool_decide_false by done. by rewrite app_nil_r.
Qed.

Definition keyed (b : Bench) : Prop := (b_measurements b).*1 = CASES.

Lemma measure_round_gives names scenario output_dir i (before : string -> list (string * Z * Z)) :
  gives (measure_round repr args names scenario output_dir i) (fun b => keyed b /\ forall case, slots case b = before case)
    (fun _ b => keyed b /\ forall case, slots case b = before case ++ slots_of_round case i).
Proof.
  unfold measure_round, slots_of_round.
  assert (Forall (fun turn => turn.2 ∈ CASES) (imap (fun order x => (order, x)) (rotation i))) as Hin.
  { apply Forall_lookup. intros k [order x]. rewrite list_lookup_imap. intros (y & Hy & [= -> ->])%fmap_Some.
    cbn. rewrite <- (rotation_permutes i). by eapply list_elem_of_lookup_2. }
  revert before. induction Hin as [|[order x] l Hx Hl IH]; intros before; cbn [for_each].
  { intros b [Hk Hb]. apply acts_ret. split; [done|]. intros case. cbn. by rewrite Hb, app_nil_r. }
  eapply gives_bind; [|intros ?].
  - eapply gives_bind; [apply iperf_gives|]. intros m. eapply (gives_bind _ _ _ (fun _ => _)); [|intros ?; apply gives_keeps; keeps].
    intros b [[Hk Hb] Hm]. apply acts_modify. instantiate (1 := fun b => keyed b /\ forall case, slots case b = before case ++
      if String.eqb x case then [(x, Z.of_nat i + 1, Z.of_nat order + 1)] else []). split.
    + unfold keyed, add_measurement. cbn. rewrite dict_set_keys; [done|]. rewrite Hk. done.
    + intros case. rewrite slots_add, Hb, Hm. done.
  - intros b Hb. eapply acts_mono; [|apply (IH (fun case => before case ++
      if String.eqb x case then [(x, Z.of_nat i + 1, Z.of_nat order + 1)] else [])); exact Hb].
    intros [[]|e|] b' t; [|done|done]. intros [Hk Hs]. split; [done|]. intros case. rewrite Hs. cbn.
    destruct (String.eqb x case); [by rewrite <- app_assoc|by rewrite app_nil_r].
Qed.

Lemma measure_gives names scenario output_dir :
  gives (measure repr args names scenario output_dir) (fun b => keyed b /\ forall case, slots case b = [])
    (fun _ b => keyed b /\ forall case, slots case b = concat (map (slots_of_round case) (seq 0 (Z.to_nat (repetitions scenario))))).
Proof.
  unfold measure. generalize (seq 0 (Z.to_nat (repetitions scenario))) as l. intros l.
  enough (forall before, gives (for_each l (measure_round repr args names scenario output_dir))
    (fun b => keyed b /\ forall case, slots case b = before case)
    (fun _ b => keyed b /\ forall case, slots case b = before case ++ concat (map (slots_of_round case) l))) as H.
  { apply (H (fun _ => [])). }
  induction l as [|i l IH]; intros before; cbn [for_each].
  { intros b [Hk Hb]. apply acts_ret. split; [done|]. intros case. cbn. by rewrite Hb, app_nil_r. }
  eapply gives_bind; [apply measure_round_gives|]. intros ? b Hb. eapply acts_mono; [|apply (IH (fun case => before case ++ slots_of_round case i)); exact Hb].
  intros [[]|e|] b' t; [|done|done]. intros [Hk Hs]. split; [done|]. intros case. rewrite Hs. cbn. by rewrite <- app_assoc.
Qed.
End rounds.

(** One measurement of every case in every round. *)
Lemma slots_of_round_one case i : case ∈ CASES -> exists order, slots_of_round case i = [(case, Z.of_nat i + 1, order)] /\ 1 <= order <= 4.
Proof.
  intros Hc. unfold slots_of_round. assert (rotation i = rotation (i `min` 4)) as ->.
  { unfold rotation. destruct (decide (i <= 4)%nat) as [|H]; [by rewrite Nat.min_l|]. rewrite Nat.min_r by lia.
    rewrite (drop_ge CASES i), (take_ge CASES i) by (cbn; lia). done. }
  assert (i `min` 4 <= 4)%nat as Hi by lia. revert Hi. generalize (i `min` 4)%nat as k. intros k Hk.
  unfold CASES in Hc. repeat (apply elem_of_cons in Hc as [->|Hc]); [..|by apply not_elem_of_nil in Hc];
    (destruct k as [|[|[|[|[|k]]]]]; [..|lia]); (eexists; split; [vm_compute; reflexivity|lia]).
Qed.

(** ** What a benchmark comes to *)

(** Code before anything is set up. *)
Definition idle (b : Bench) (t : trace) (b' : Bench) : Prop := b' = b /\ spawned t = [] /\ execs t = [].
#[export] Instance idle_rel : TraceRel idle.
Proof.
  split; [done|]. intros s t s' t' s'' (-> & H & H') (-> & H2 & H2'). unfold idle. by rewrite spawned_app, execs_app, H, H', H2, H2'.
Qed.

Section verdict.
Context `{E : Env} (repr : json -> string) (root : string) (fuel : nat) (args : Args).

Lemma idle_call c : match c with CSpawn _ _ _ | CExec _ _ => False | _ => True end -> steps idle (perform c : M Bench (ret c)).
Proof. intros Hc. apply steps_perform. intros s r. unfold idle. by destruct c. Qed.

Lemma prepare_idle : steps idle (prepare args).
Proof.
  unfold prepare. repeat match goal with |- steps idle (perform ?c) => exact (idle_call c I) | |- _ => steps_step end.
Qed.

(** What [prepare] returns was read: the scenario from its file, the names from the random suffix. *)
Definition prepared (result : string * Scenario * string * Names) (t : trace) : Prop :=
  let '(_, scenario, _, names) := result in
  (exists text, Ev (CReadText (a_scenario_file args)) (Answer text) ∈ t /\ load_scenario text = Ok scenario) /\
  (exists suffix, Ev (CTokenHex 3) (Answer suffix) ∈ t /\ names = names_of suffix).

Definition finds {A} (m : M Bench A) (P : A -> trace -> Prop) : Prop :=
  forall b, acts m b (fun o _ t => match o with Ret r => P r t | _ => True end).

Lemma finds_skip {A B} (m : M Bench A) (f : A -> M Bench B) P :
  (forall r t t', P r t' -> P r (t ++ t')) -> steps idle m -> (forall a, finds (f a) P) -> finds (m ≫= f) P.
Proof.
  intros HP Hm Hf b. apply acts_bind. eapply acts_mono; [|apply Hm]. intros [a|e|] b' t _; [|done|done].
  eapply acts_mono; [|apply (Hf a)]. intros [r|e|] b'' t' Ho; [|done|done]. by apply HP.
Qed.

Lemma prepared_app r t t' : prepared r t' -> prepared r (t ++ t').
Proof. destruct r as [[[? ?] ?] ?]. intros [(text & ? & ?) (suffix & ? & ?)]. split; eexists; (split; [|done]); set_solver. Qed.

Lemma prepare_finds : finds (prepare args) prepared.
Proof.
  unfold prepare.
  do 6 (apply finds_skip; [apply prepared_app| |intros ?];
    [repeat match goal with |- steps idle (perform ?c) => exact (idle_call c I) | |- _ => steps_step end|]).
  intros b. apply acts_bind. acts_call; [|done]. intros text. apply acts_bind, acts_of_res.
  destruct (load_scenario text) as [scenario|] eqn:Hs; [|done].
  do 3 (apply acts_bind; acts_call; [|done]; intros ?). apply acts_ret.
  split; eexists; (split; [|done]); set_solver.
Qed.

(** A run that set something up: its body, then its cleanup.  Every child the body started is known to the cleanup, was
    seen to end, or is the one the failing body could not hand over.  The cleanup sees every child it knows end and deletes
    the namespaces in reverse order; it stops short only at a call that fails, whose error is that of the run. *)
Definition released (o : outcome Z) (t : trace) : Prop :=
  exists kernel scenario output_dir suffix t0 body b t1 cleaned t2,
    t = t0 ++ t1 ++ t2 /\
    Ev (CTokenHex 3) (Answer suffix) ∈ t0 /\ spawned t0 = [] /\ execs t0 = [] /\
    ran (benchmark_body repr root fuel args (names_of suffix) scenario kernel output_dir) new_bench body b t1 /\
    ran benchmark_cleanup b cleaned b t2 /\
    (forall p, p ∈ spawned t1 -> p ∈ tracked b \/ p ∈ ended t1 \/ ((exists e, body = Raise e) /\ abandoned p t1)) /\
    spawned t2 = [] /\
    match cleaned with
    | Ret _ => o = body /\ (forall p, p ∈ tracked b -> p ∈ ended t2) /\
               execs t2 = map delete_namespace (reverse (namespaces_of (names_of suffix)))
    | Raise e => o = Raise e /\ broken t2 /\ execs t2 `prefix_of` map delete_namespace (reverse (namespaces_of (names_of suffix)))
    | OutOfFuel => False
    end.

Lemma register_acts l b : acts (for_each l (fun namespace => modify (add_namespace namespace))) b (fun o b' t =>
  o = Ret tt /\ t = [] /\ procs b' = procs b /\ b_namespaces b' = b_namespaces b ++ l /\ b_measurements b' = b_measurements b).
Proof.
  revert b. induction l as [|n l IH]; intros b; cbn [for_each].
  { apply acts_ret. by rewrite app_nil_r. }
  apply acts_bind, acts_modify. eapply acts_mono; [|apply IH]. intros o b' t (-> & -> & -> & -> & ->). cbn. by rewrite <- app_assoc.
Qed.

Lemma body_pending names scenario kernel output_dir :
  acts (benchmark_body repr root fuel args names scenario kernel output_dir) new_bench (fun o b t =>
    o = OutOfFuel \/ b_namespaces b = namespaces_of names /\
    forall p, p ∈ spawned t -> p ∈ tracked b \/ p ∈ ended t \/ ((exists e, o = Raise e) /\ abandoned p t)).
Proof.
  unfold benchmark_body. apply acts_bind. eapply acts_mono; [|apply register_acts].
  intros o b1 t (-> & -> & Hp1 & Hn1 & _). cbn [app].
  eapply acts_mono; [|eapply (body_tracks (namespaces_of names) repr root fuel args _ _ _ _ b1 [])].
  - intros [v|e|] b' t; cbn [app]; [intros (_ & Hn & Hx & _)|intros (z & (Hn & Hx & Hz) & Hc)|by left]; right; (split; [done|]);
      intros p Hp; (destruct (Hx p Hp) as [|[|H]]; [auto..|]); [done|]. right. right. split; [eauto|].
    destruct z as [|q|q|q]; cbn in H; [done|subst q|by destruct (Hc q)|subst q];
      rewrite <- (app_nil_r t); (eapply last_child_app; [exact Hz|done|]); intros u Hu; rewrite app_nil_r; auto.
  - by rewrite Hp1.
  - split; [done|]. split; [set_solver|done].
Qed.

Lemma guarded_released suffix scenario kernel output_dir t0 :
  Ev (CTokenHex 3) (Answer suffix) ∈ t0 -> spawned t0 = [] -> execs t0 = [] ->
  acts (try_finally (benchmark_body repr root fuel args (names_of suffix) scenario kernel output_dir) benchmark_cleanup) new_bench
    (fun o _ t => o = OutOfFuel \/ released o (t0 ++ t)).
Proof.
  intros Hsuffix Ht0 Hx0. apply acts_finally.
  eapply acts_mono; [|apply acts_ran, (body_pending (names_of suffix) scenario kernel output_dir)].
  intros o b1 t1 [[->|[Hn Hp]] Hbody]; [by left|].
  assert (acts benchmark_cleanup b1 (fun o' _ t2 => match o' with
    | Ret _ => released o (t0 ++ t1 ++ t2)
    | Raise e => released (Raise e) (t0 ++ t1 ++ t2)
    | OutOfFuel => True end)) as Hc; [|destruct o; [..|by left]; (eapply acts_mono; [|exact Hc]); intros [] ? ?; auto].
  eapply acts_mono; [|apply acts_ran, cleanup_settles]. intros o' b2 t2 [(-> & Hs & Hc) Hclean]. rewrite Hn in Hc.
  destruct o' as [u|e|]; [destruct Hc as (_ & He & Hcs)|destruct Hc|done];
    (exists kernel, scenario, output_dir, suffix, t0, o, b1, t1; eexists _, t2; split_and!; first [done|exact Hbody|exact Hclean]).
Qed.

Lemma benchmark_acts :
  acts (benchmark repr root fuel args) new_bench (fun o _ t =>
    o = OutOfFuel \/ ((exists e, o = Raise e) /\ spawned t = [] /\ execs t = []) \/ released o t).
Proof.
  unfold benchmark. apply acts_bind. eapply acts_mono; [|apply acts_and; [apply prepare_idle|apply prepare_finds]].
  intros o b0 t0 [(-> & Hs & Hx) Ho]. destruct o as [[[[kernel scenario] output_dir] names]|e|]; [|by right; left; split; [eexists|]|by left].
  destruct Ho as [_ (suffix & Hsuffix & ->)]. eapply acts_mono; [|by apply (guarded_released suffix _ _ _ t0)]. naive_solver.
Qed.

(** C36. However a benchmark ends, its cleanup has run on all it knows of.  On a clock that advances it does end.  A run
    that is refused has started nothing.  Any other run is its body followed by its cleanup, whatever the body came to.
    Every child the body started has been seen to end or is known to the cleanup, but for one of a body that raised: the
    last child, either still being started (nothing was run since but the steps of its start) or a capture that a failed
    request left running.  The cleanup sees every child it knows end and deletes the three namespaces of the run in
    reverse order.  It stops short only at the first of its own calls that fails, and then the run ends in that error. *)
Theorem benchmark_releases : sleeps_pass -> (400 < fuel)%nat ->
  acts (benchmark repr root fuel args) new_bench (fun o _ t =>
    o <> OutOfFuel /\ (((exists e, o = Raise e) /\ spawned t = [] /\ execs t = []) \/ released o t)).
Proof.
  intros Htime Hfuel. eapply acts_mono; [|apply acts_ends; [apply benchmark_acts|by apply ends_benchmark]].
  intros o b' t [[H|H] Ho]; done.
Qed.
End verdict.

(** ** A benchmark that passes *)

(** Code that measures nothing. *)
Definition measured (b : Bench) (t : trace) (b' : Bench) : Prop := b_measurements b' = b_measurements b.
#[export] Instance measured_rel : TraceRel measured.
Proof. split; [done|]. intros s t s' t' s'' H H'. unfold measured in *. congruence. Qed.

Ltac measured :=
  repeat match goal with
         | |- steps measured (perform ?c) => exact (steps_perform measured c (fun _ _ => eq_refl))
         | |- steps measured (modify ?f) => exact (steps_modify measured f (fun _ => eq_refl))
         | |- _ => steps_step
         end.

Section passing.
Context `{E : Env} (repr : json -> string) (root : string) (fuel : nat) (args : Args).

Lemma headed_measured entries : steps measured (headed entries).
Proof. induction entries as [|[] entries IH]; cbn [headed]; unfold run_checked, run; measured. Qed.
#[local] Hint Resolve headed_measured : steps.

Lemma wait_listener_measured namespace port process : steps measured (wait_listener fuel namespace port process).
Proof.
  unfold wait_listener. measured. match goal with |- steps _ (wait_listener_loop _ _ _ _ ?d) => generalize d end.
  induction fuel as [|n IH]; intros d; cbn [wait_listener_loop]; unfold run; measured.
Qed.
Lemma wait_ready_measured path process : steps measured (wait_tcpcc_ready fuel path process).
Proof.
  unfold wait_tcpcc_ready. measured. match goal with |- steps _ (wait_tcpcc_ready_loop _ _ _ ?d) => generalize d end.
  induction fuel as [|n IH]; intros d; cbn [wait_tcpcc_ready_loop]; unfold read_events_file; measured.
Qed.
#[local] Hint Resolve wait_listener_measured wait_ready_measured : steps.

Lemma setup_measured scenario names : steps measured (setup_topology scenario names).
Proof. unfold setup_topology, run_all, run_checked, run. measured. Qed.
Lemma qdisc_report_measured names : steps measured (qdisc_report names).
Proof. unfold qdisc_report. measured. Qed.
Lemma environment_measured names kernel : steps measured (collect_environment names kernel).
Proof. unfold collect_environment, run_checked, run. measured. Qed.
Lemma servers_measured names output_dir : steps measured (start_servers fuel names output_dir).
Proof. unfold start_servers, start_logged_process. measured. Qed.
Lemma instances_measured names kernel output_dir : steps measured (start_instances root fuel names kernel output_dir).
Proof. unfold start_instances, start_tcpcc_case, run_checked, run. measured. Qed.
Lemma stop_measured : steps measured stop_instances.
Proof. unfold stop_instances. measured. Qed.
Lemma contract_measured names scenario case : steps measured (contract_of repr names scenario case).
Proof. unfold contract_of, read_events_file, assert_tcpcc_resources_removed, run. measured. Qed.
Lemma observations_measured names scenario : steps measured (collect_qdisc_observations repr names scenario).
Proof. unfold collect_qdisc_observations, observe_qdisc, run_checked, run. measured. Qed.
#[local] Hint Resolve setup_measured qdisc_report_measured environment_measured servers_measured instances_measured
  stop_measured contract_measured observations_measured : steps.

(** A report on these measurements was emitted in which every gate passes. *)
Definition passing (scenario : Scenario) (ms : list (string * list Measurement)) (t : trace) : Prop :=
  exists r checks,
    Ev (CEmit (report_json scenario r)) (Answer tt) ∈ t /\ r_passed r = true /\ r_measurements r = ms /\
    summarize_measurements (map (fun kv => (kv.1, map m_run kv.2)) ms) scenario =
      Ok (r_summaries r, r_comparisons r, checks, true) /\
    r_checks r = checks ++ further_checks scenario (r_ping r) (r_qdisc r) (r_contracts r) /\
    (forall c, c ∈ r_checks r -> c_gate c = true -> c_passed c = true).

Lemma passing_app scenario ms t t' : passing scenario ms t' -> passing scenario ms (t ++ t').
Proof. intros (r & checks & Hin & H). exists r, checks. split; [set_solver|done]. Qed.

(** A state that satisfies [I] leads to a return only with [Q]. *)
Definition leads {A} (I : Bench -> Prop) (m : M Bench A) (Q : A -> trace -> Prop) : Prop :=
  forall b, I b -> acts m b (fun o _ t => match o with Ret a => Q a t | _ => True end).

Lemma leads_skip {A B} ms (m : M Bench A) (f : A -> M Bench B) Q :
  (forall r t t', Q r t' -> Q r (t ++ t')) -> steps measured m ->
  (forall a, leads (fun b => b_measurements b = ms) (f a) Q) -> leads (fun b => b_measurements b = ms) (m ≫= f) Q.
Proof.
  intros HQ Hm Hf b Hb. apply acts_bind. eapply acts_mono; [|apply Hm]. intros [a|e|] b' t Hb'; [|done|done].
  unfold measured in Hb'. eapply acts_mono; [|apply (Hf a b'); congruence]. intros [r|e|] b'' t' Ho; [|done|done]. by apply HQ.
Qed.

Lemma judge_leads names scenario output_dir environment ping ms :
  leads (fun b => b_measurements b = ms) (judge repr names scenario output_dir environment ping)
    (fun v t => v = 0 /\ passing scenario ms t).
Proof.
  unfold judge. do 4 (apply leads_skip; [intros r t t' [? ?]; split; [done|by apply passing_app]|unfold write_text; measured|intros ?]).
  intros b Hb. cbv zeta. apply acts_bind, acts_get. rewrite Hb. apply acts_bind, acts_of_res.
  destruct (summarize_measurements _ _) as [[[[summaries comparisons] checks] passed]|] eqn:Hsum; [|done].
  do 2 (apply acts_bind; acts_call; [|done]; intros []). apply acts_bind, acts_of_res.
  destruct (passed && _) eqn:Hp; cbn [negb raise_if]; [|done]. apply acts_ret. split; [done|].
  apply andb_true_iff in Hp as [-> Hall]. rewrite forallb_forall in Hall. eexists; exists checks. split.
  { apply list_elem_of_further, list_elem_of_here. }
  split_and!; try done. intros c Hc Hg. specialize (Hall c). apply list_elem_of_In, Hall in Hc. by rewrite Hg in Hc.
Qed.

(** Every case was measured once in every round. *)
Definition complete (scenario : Scenario) (ms : list (string * list Measurement)) : Prop :=
  ms.*1 = CASES /\
  forall case, case ∈ CASES ->
    map (fun m => (m_case m, m_round m)) (default [] (dict_get case ms)) =
    map (fun i => (case, Z.of_nat i + 1)) (seq 0 (Z.to_nat (repetitions scenario))).

Lemma slots_complete scenario b : keyed b ->
  (forall case, slots case b = concat (map (slots_of_round case) (seq 0 (Z.to_nat (repetitions scenario))))) ->
  complete scenario (b_measurements b).
Proof.
  intros Hk Hs. split; [done|]. intros case Hc. specialize (Hs case). unfold slots in Hs. revert Hs.
  generalize (seq 0 (Z.to_nat (repetitions scenario))) (default [] (dict_get case (b_measurements b))). clear -Hc.
  intros l ms H. apply (f_equal (map fst)) in H. rewrite map_map in H. change (fun m => (m_case m, m_round m)) with (fun m => (slot m).1).
  rewrite H. clear H ms. induction l as [|i l IH]; cbn; [done|]. rewrite map_app, IH.
  destruct (slots_of_round_one case i Hc) as (order & -> & _). done.
Qed.

Lemma body_leads names scenario kernel output_dir :
  leads (fun b => b_measurements b = b_measurements new_bench) (benchmark_body repr root fuel args names scenario kernel output_dir)
    (fun v t => v = 0 /\ exists ms, complete scenario ms /\ passing scenario ms t).
Proof.
  assert (forall (v : Z) t t', (v = 0 /\ exists ms, complete scenario ms /\ passing scenario ms t') ->
    v = 0 /\ exists ms, complete scenario ms /\ passing scenario ms (t ++ t')) as Happ.
  { intros v t t' [-> (ms & Hc & Hp)]. split; [done|]. exists ms. split; [done|by apply passing_app]. }
  unfold benchmark_body. do 4 (apply leads_skip; [done|unfold write_text; measured|intros ?]).
  apply leads_skip; [done|unfold ping_path, run; measured|]. intros [ping log].
  do 4 (apply leads_skip; [done|unfold write_text; measured|intros ?]). intros b Hb. apply acts_bind.
  eapply acts_mono; [|apply (measure_gives repr args names scenario output_dir)].
  2: { unfold keyed, slots. rewrite Hb. split; [done|]. intros case. cbn. by repeat case_bool_decide. }
  intros [u|e|] b' t; [|done|done]. intros [Hk Hs]. eapply acts_mono.
  { instantiate (1 := fun o _ t' => match o with Ret v => v = 0 /\ passing scenario (b_measurements b') t' | _ => True end).
    intros [v|e|] b'' t' Ho; [|done|done]. destruct Ho as [-> Hp]. split; [done|]. eexists. split; [by apply slots_complete|].
    by apply passing_app. }
  revert b' Hk Hs. intros b' _ _. refine (leads_skip (b_measurements b') stop_instances _ _ _ stop_measured _ b' eq_refl).
  - intros v t1 t2 [-> Hp]. split; [done|by apply passing_app].
  - intros _. apply judge_leads.
Qed.

Lemma benchmark_leads : leads (eq new_bench) (benchmark repr root fuel args) (fun v t => v = 0 /\
  exists text scenario ms, Ev (CReadText (a_scenario_file args)) (Answer text) ∈ t /\ load_scenario text = Ok scenario /\
    complete scenario ms /\ passing scenario ms t).
Proof.
  intros b <-. unfold benchmark. apply acts_bind. eapply acts_mono; [|apply acts_and; [apply prepare_idle|apply prepare_finds]].
  intros o b0 t0 [(-> & _) Ho]. destruct o as [[[[kernel scenario] output_dir] names]|e|]; [|done|done].
  destruct Ho as [(text & Htext & Hs) _]. apply acts_finally.
  eapply acts_mono; [|by apply (body_leads names scenario kernel output_dir)]. intros o b1 t1 Ho.
  assert (forall t2, match o with Ret v => v = 0 /\ exists text scenario ms,
    Ev (CReadText (a_scenario_file args)) (Answer text) ∈ t0 ++ t1 ++ t2 /\ load_scenario text = Ok scenario /\
    complete scenario ms /\ passing scenario ms (t0 ++ t1 ++ t2) | _ => True end) as Hpost.
  { intros t2. destruct o as [v|e|]; [|done|done]. destruct Ho as [-> (ms & Hc & Hp)]. split; [done|].
    exists text, scenario, ms. split_and!; [set_solver|done|done|]. apply passing_app. destruct Hp as (r & checks & Hin & Hp).
    exists r, checks. split; [set_solver|done]. }
  destruct o; [| |done]; (eapply acts_mono; [|apply cleanup_settles]); intros [] b2 t2 _; try done; apply Hpost.
Qed.

(** C37. A benchmark reports success only for what it measured and judged: [main] returns 0 only if the scenario was read
    from its file, every case was measured once in every round, and a report on just these measurements was emitted
    that summarizes them as passing and in which every gate passes; and it returns 1 only after it has written why. *)
Theorem benchmark_main_verdict format_exception :
  acts (benchmark_main repr root fuel args format_exception) new_bench (fun o _ t =>
    match o with
    | Ret v =>
        a_integration args = true /\
        (v = 0 /\ (exists text scenario ms, Ev (CReadText (a_scenario_file args)) (Answer text) ∈ t /\
           load_scenario text = Ok scenario /\ complete scenario ms /\ passing scenario ms t) \/
         v = 1 /\ exists e, Ev (CWriteText (in_dir (a_output_dir args) "failure.txt") (format_exception e)) (Answer tt) ∈ t)
    | _ => True
    end).
Proof.
  unfold benchmark_main. destruct (a_integration args); [|by apply acts_raise]. apply acts_try.
  eapply acts_mono; [|by apply benchmark_leads]. intros [v|e|] b' t Ho; [by auto| |done]. unfold write_text.
  do 3 (apply acts_bind; acts_call; [|done]; intros []). apply acts_ret. split; [done|]. right. split; [done|].
  exists e. set_solver.
Qed.
End passing.

(** In four rounds a case has every place once. *)
Lemma rotation_latin case : case ∈ CASES ->
  map snd (concat (map (slots_of_round case) (seq 0 4))) ≡ₚ [1; 2; 3; 4].
Proof.
  intros Hc. unfold CASES in Hc. repeat (apply elem_of_cons in Hc as [->|Hc]); [..|by apply not_elem_of_nil in Hc];
    vm_compute; solve_Permutation.
Qed.

(** ** A host on which the benchmark runs *)

Module Lab.

Definition scenario_text : string := dump (JObj [
  ("schema_version", JInt 1); ("scenario_id", JStr "short");
  ("network", JObj [("rate_mbps", JInt 8); ("one_way_delay_ms", JInt 100); ("random_loss_percent", JInt 10);
                    ("netem_limit_packets", JInt 40000); ("mtu", JInt 1500)]);
  ("iperf", JObj [("duration_seconds", JInt 15); ("omit_seconds", JInt 5); ("parallel_streams", JInt 1);
                  ("repetitions", JInt 3); ("settle_seconds", JInt 1)]);
  ("acceptance", JObj [("minimum_goodput_mbps", JReal (1 # 100)); ("tcpcc_to_native_bbr_min_ratio", JReal (1 # 2));
                       ("tcpcc_to_native_bbr_max_ratio", JInt 2); ("bbr_over_cubic_is_observational", JBool true)])]).

Definition iperf_text (cc : string) : string := dump (JObj [
  ("start", JObj [("test_start", JObj [("protocol", JStr "TCP"); ("reverse", JInt 1); ("num_streams", JInt 1)])]);
  ("end", JObj [("sum_received", JObj [("bits_per_second", JInt 5000000); ("bytes", JInt 9375000); ("seconds", JInt 15)]);
                ("sum_sent", JObj [("retransmits", JInt 40)]); ("sender_tcp_congestion", JStr cc)])]).

Definition qdisc_text : string :=
  let counters dropped := [("root", JBool true); ("bytes", JInt 100000); ("packets", JInt 900); ("drops", JInt dropped);
                           ("overlimits", JInt 0); ("backlog", JInt 0)] in
  dump (JArr [
    JObj (("kind", JStr "fq") :: counters 0);
    JObj (("kind", JStr "netem") :: counters 100 ++
      [("options", JObj [("delay", JObj [("delay", JReal (1 # 10))]); ("loss-random", JObj [("loss", JReal (1 # 10))]);
                         ("rate", JObj [("rate", JInt 1000000)]); ("limit", JInt 40000)])])]).

Definition events_text (cc : string) : string := str_join newline (map dump [
  JObj [("event", JStr "ready"); ("cc", JStr cc); ("hosted_memory_mib", JInt TCPCC_EXPECTED_MEMORY_MIB); ("tun", JStr "tun0");
        ("firewall_resource", JStr "tcpcc_0")];
  JObj [("event", JStr "service-stats"); ("accepted_connections", JInt 6); ("completed_connections", JInt 6);
        ("active_connections", JInt 0); ("rejected_connections", JInt 0); ("bridge_start_failures", JInt 0);
        ("terminal_failures", JInt 0); ("last_error", JInt 0); ("backend_to_public_bytes", JInt 30000000)];
  JObj [("event", JStr "stopped"); ("clean", JBool true)]]).

Definition cc_in (text : string) : string := if str_contains "bbr" text then "bbr" else "cubic".

Definition ping_text : string := "64 bytes: time=201 ms" +:+ newline +:+ "rtt min/avg/max/mdev = 200.0/201.0/202.0/0.5 ms".
Definition sockets_text : string :=
  "LISTEN 0 4096 " +:+ SERVER_ADDRESS +:+ ":" +:+ str_of_Z NATIVE_PORT +:+ " 0.0.0.0:*" +:+ newline
  +:+ "LISTEN 0 4096 127.0.0.1:" +:+ str_of_Z TCPCC_BACKEND_PORT +:+ " 0.0.0.0:*".

Definition output (argv : list string) : Z * string :=
  if str_in "cat" argv then (0, "reno cubic bbr")
  else if str_in "ping" argv then (0, ping_text)
  else if str_in "ss" argv then (0, sockets_text)
  else if str_in "sysctl" argv then (0, "cubic")
  else if str_in "--version" argv then (0, "iperf 3.16")
  else if str_in "--client" argv then (0, iperf_text (if str_in "bbr" argv then "bbr" else "cubic"))
  else if str_in "-j" argv then (0, qdisc_text)
  else if str_in "list" argv || (str_in "link" argv && str_in "show" argv) then (1, "not found")
  else (0, "ok").

(** With or without events of the instances. *)
Definition host (ready : bool) : Env := fun tr c =>
  match c return reply (ret c) with
  | CGetEuid => Answer 0
  | CWhich name => Answer (Some name)
  | CResolve path => Answer path
  | CRealpath path => Answer path
  | CAccess _ _ => Answer true
  | CReadText path => if str_contains "events" path then Answer (events_text (cc_in path)) else Answer scenario_text
  | CMakeDirs _ => Answer tt
  | CTokenHex _ => Answer "0a1b2c"
  | CExec argv _ => Answer (output argv)
  | COpenFile _ => Answer 3
  | CCloseFile _ => Answer tt
  | CSpawn _ _ _ => Answer (Z.of_nat (length tr))
  | CProcPoll _ => Answer None
  | CProcWait _ _ => Answer 0
  | CProcSignal _ _ => Answer tt
  | CProcTerminate _ => Answer tt
  | CWriteText _ _ => Answer tt
  | CWriteJson _ _ => Answer tt
  | CEmit _ => Answer tt
  | CDiagnostic _ => Answer tt
  | CExists _ => Answer ready
  | CGetEnv _ => Answer (Some "0123abcd")
  | CSleep _ => Answer tt
  | CClock => Answer (Qred (default 0%Q (slept tr)))
  | _ => Fault (SException "NotImplementedError" "a call that is not expected")
  end.

Definition arguments : Args := {|
  a_integration := true; a_kernel := "vmlinux"; a_scenario_file := "scenario.json"; a_packet_trace := true; a_output_dir := "out" |}.

Lemma host_time ready : @sleeps_pass (host ready).
Proof. intros tr e q He [= <-]. rewrite He. rewrite Qred_correct. cbn. lra. Qed.

Definition run_main (ready : bool) : outcome Z * Bench * trace :=
  @benchmark_main (host ready) (fun _ => EmptyString) "/tcpcc" 401 arguments (fun _ => "traceback") new_bench [].

(** On a host where all goes well it passes, every child has ended and the namespaces are gone. *)
Lemma host_passes : let '(o, _, t) := run_main true in
  o = Ret 0 /\ length (spawned t) = 16%nat /\ bool_decide (spawned t ⊆ ended t) = true.
Proof. vm_compute. done. Qed.

(** A request to a child to end. *)
Definition asked (p : Z) (ev : Effects.event) : bool :=
  match ev_call ev with CProcTerminate q | CProcKill q | CProcSignal q _ | CKillGroup q _ => q =? p | _ => false end.

(** An instance that is not ready in time is the one child that can be lost: [start_tcpcc_case] has raised before its caller
    could know of it.  The run fails, the servers are stopped and the namespaces deleted, and nobody asks it to end. *)
Lemma host_loses : let '(o, _, t) := run_main false in
  o = Ret 1 /\ length (spawned t) = 3%nat /\ length (ended t) = 2%nat /\
  filter (fun p => existsb (asked p) t = false) (spawned t) = filter (fun p => p ∉ ended t) (spawned t) /\
  length (filter (fun p => p ∉ ended t) (spawned t)) = 1%nat.
Proof. vm_compute. done. Qed.

Lemma releases_witness : @sleeps_pass (host false) /\ (400 < 401)%nat /\
  exists o b t, @benchmark (host false) (fun _ => EmptyString) "/tcpcc" 401 arguments new_bench [] = (o, b, t) /\
    o <> OutOfFuel /\ ((exists e, o = Raise e) /\ spawned t = [] /\ execs t = [] \/
      @released (host false) (fun _ => EmptyString) "/tcpcc" 401 arguments o t).
Proof.
  split; [apply host_time|]. split; [lia|].
  destruct (@benchmark (host false) (fun _ => EmptyString) "/tcpcc" 401 arguments new_bench []) as [[o b] t] eqn:Hrun.
  exists o, b, t. split; [done|].
  destruct (acts_run _ _ _ _ _ _ _ (@benchmark_releases (host false) (fun _ => EmptyString) "/tcpcc" 401 arguments
    (host_time false) ltac:(lia)) Hrun) as (suf & -> & H). exact H.
Defined.
End Lab.
