(* ===== verification/Sessions.v ===== *)
(** * The hosted kernel: handles of bridge sessions

    The registry of [linux-overlay/arch/tcpcc/kernel/bridge.c]: slots that are
    reused with a new generation, the handles and event tokens made of slot and
    generation, finding a session by its handle, and releasing it.  What a
    session holds besides is a parameter.  Memory allocation and [idr_alloc] are
    inputs. *)

From S2P Require Import Prelude PyStr Reports Py Effects Struct IpAddr Control Bridges.
From stdpp Require Import gmap.
Local Open Scope Z_scope.

(** ** Machine integers *)

Definition u32 (z : Z) : Z := z mod 2 ^ 32.
Definition u64 (z : Z) : Z := z mod 2 ^ 64.
Definition s32 (z : Z) : Z := let u := u32 z in if u <? 2 ^ 31 then u else u - 2 ^ 32.

Definition EAGAIN : Z := 11.
Definition ENOMEM : Z := 12.
Definition EBUSY : Z := 16.
Definition EINVAL : Z := 22.
Definition ENOENT : Z := 2.

(** ** Handles *)

Definition TCPCC_BRIDGE_SESSION_LIMIT : Z := 1048575.
Definition TCPCC_BRIDGE_RUNTIME_SLOT_BASE : Z := 2.
Definition TCPCC_BRIDGE_HANDLE_SLOT_BITS : Z := 20.
Definition TCPCC_BRIDGE_HANDLE_SLOT_MASK : Z := 0x000fffff.
Definition TCPCC_BRIDGE_HANDLE_GENERATION_MASK : Z := 0x000007ff.

Definition tcpcc_bridge_make_handle (index generation : Z) : Z :=
  s32 (Z.lor (u32 (Z.shiftl generation TCPCC_BRIDGE_HANDLE_SLOT_BITS)) (u32 (index + 1))).

Definition tcpcc_bridge_next_generation (generation : Z) : Z :=
  let generation := Z.land (u32 (generation + 1)) TCPCC_BRIDGE_HANDLE_GENERATION_MASK in
  if generation =? 0 then 1 else generation.

(** [TCPCC_HOST_EVENT_RUNTIME_TOKEN] *)
Definition runtime_token (slot generation : Z) : Z :=
  Z.lor (Z.lor (Z.shiftl 1 63) (Z.shiftl (Z.land generation 0x7fffffff) 32)) (u32 slot).

(** ** The registry *)

Section registry.
Context {A : Type}.

Record Session := {
  s_handle : Z; s_token : Z; s_generation : Z; s_allocated : bool;
  s_body : A;
}.
Record Slot := { slot_session : option Session; slot_generation : Z }.
Record Registry := {
  slots : gmap Z Slot;
  free_slots : list Z;
  active : list Z;
  active_sessions : Z;
}.
Definition new_registry : Registry := {| slots := ∅; free_slots := []; active := []; active_sessions := 0 |}.

Definition with_session (session : option Session) (slot : Slot) : Slot :=
  {| slot_session := session; slot_generation := slot_generation slot |}.

(** A free identifier, or a negative error *)
Context (idr_alloc : gmap Z Slot -> Z).

(** [memory]: whether [kzalloc] finds some. *)
Definition tcpcc_bridge_allocate_slot (memory : bool) (r : Registry) : sum Z (Z * Registry) :=
  match free_slots r with
  | id :: free =>
      inr (id, {| slots := slots r; free_slots := free; active := active r; active_sessions := active_sessions r |})
  | [] =>
      if memory then
        let id := idr_alloc (slots r) in
        if id <? 0 then inl id
        else inr (id, {| slots := <[id := {| slot_session := None; slot_generation := 0 |}]> (slots r);
                         free_slots := []; active := active r; active_sessions := active_sessions r |})
      else inl (- ENOMEM)
  end.

Definition tcpcc_bridge_allocate_session (memory memory' : bool) (body : A) (r : Registry) : sum Z (Z * Session) * Registry :=
  match tcpcc_bridge_allocate_slot memory r with
  | inl error => (inl error, r)
  | inr (id, r) =>
      if memory' then
        let slot := default {| slot_session := None; slot_generation := 0 |} (slots r !! id) in
        let generation := tcpcc_bridge_next_generation (slot_generation slot) in
        let session := {|
          s_handle := tcpcc_bridge_make_handle (id - 1) generation;
          s_token := runtime_token (TCPCC_BRIDGE_RUNTIME_SLOT_BASE + id - 1) generation;
          s_generation := generation; s_allocated := true; s_body := body |} in
        (inr (id, session),
         {| slots := <[id := {| slot_session := Some session; slot_generation := generation |}]> (slots r);
            free_slots := free_slots r; active := active r ++ [id]; active_sessions := active_sessions r + 1 |})
      else
        (inl (- ENOMEM),
         {| slots := slots r; free_slots := id :: free_slots r; active := active r; active_sessions := active_sessions r |})
  end.

Definition tcpcc_bridge_find_handle (handle : Z) (r : Registry) : option (Z * Session) :=
  if handle <=? 0 then None
  else
    let raw := u32 handle in
    let slot := Z.land raw TCPCC_BRIDGE_HANDLE_SLOT_MASK in
    let generation := Z.shiftr raw TCPCC_BRIDGE_HANDLE_SLOT_BITS in
    if (slot =? 0) || (TCPCC_BRIDGE_SESSION_LIMIT <? slot) || (generation =? 0)
       || (TCPCC_BRIDGE_HANDLE_GENERATION_MASK <? generation) then None
    else
      slot_entry ← slots r !! slot;
      session ← slot_session slot_entry;
      if negb (s_allocated session) || negb (s_handle session =? handle) || negb (s_generation session =? generation) then None
      else Some (slot, session).

(** The end of [tcpcc_bridge_reap], and of [tcpcc_bridge_release_failed_start] *)
Definition release_slot (id : Z) (r : Registry) : Registry := {|
  slots := alter (with_session None) id (slots r);
  free_slots := id :: free_slots r;
  active := filter (fun other => other <> id) (active r);
  active_sessions := active_sessions r - 1 |}.

(** The session an event is for, in [tcpcc_bridge_dispatch_event] *)
Definition dispatch_session (token : Z) (r : Registry) : option (Z * Session) :=
  if Z.land token (Z.shiftl 1 63) =? 0 then None
  else
    let runtime_slot := u32 token in
    if (runtime_slot <? TCPCC_BRIDGE_RUNTIME_SLOT_BASE)
       || (TCPCC_BRIDGE_RUNTIME_SLOT_BASE + TCPCC_BRIDGE_SESSION_LIMIT <=? runtime_slot) then None
    else
      let id := runtime_slot - TCPCC_BRIDGE_RUNTIME_SLOT_BASE + 1 in
      slot ← slots r !! id;
      session ← slot_session slot;
      if s_token session =? token then Some (id, session) else None.
End registry.
Arguments Session A : clear implicits.
Arguments Slot A : clear implicits.
Arguments Registry A : clear implicits.

(** ** Handles and generations *)

(** A number below a power of two, put below a multiple of it. *)
Lemma without_permutation (x : Z) l : NoDup l -> x ∈ l -> l ≡ₚ x :: filter (fun other => other <> x) l.
Proof.
  intros Hl Hx. apply NoDup_Permutation; [done|constructor; [rewrite list_elem_of_filter; naive_solver|by apply NoDup_filter]|].
  intros y. rewrite elem_of_cons, list_elem_of_filter. destruct (decide (y = x)); naive_solver.
Qed.
Lemma lor_low a b n : 0 <= n -> 0 <= b < 2 ^ n -> Z.lor (a * 2 ^ n) b = a * 2 ^ n + b.
Proof.
  intros Hn Hb. symmetry. rewrite <- Z.lxor_lor; [apply Z.add_nocarry_lxor|];
    (apply Z.bits_inj'; intros k Hk; rewrite Z.land_spec, Z.bits_0; destruct (decide (k < n)) as [Hlt|Hge];
     [rewrite Z.mul_pow2_bits_low by lia; done|]; apply andb_false_iff; right;
     rewrite <- (Z.mod_small b (2 ^ n)) by lia; apply Z.mod_pow2_bits_high; lia).
Qed.

Lemma make_handle_value id g : 1 <= id <= TCPCC_BRIDGE_SESSION_LIMIT -> 0 <= g <= 2047 ->
  tcpcc_bridge_make_handle (id - 1) g = g * 2 ^ 20 + id.
Proof.
  unfold TCPCC_BRIDGE_SESSION_LIMIT. intros Hid Hg.
  unfold tcpcc_bridge_make_handle, s32, u32, TCPCC_BRIDGE_HANDLE_SLOT_BITS. rewrite Z.sub_add, Z.shiftl_mul_pow2 by lia.
  rewrite (Z.mod_small (g * _)), (Z.mod_small id) by (change (2 ^ 32) with 4294967296; change (2 ^ 20) with 1048576; lia).
  rewrite lor_low by (change (2 ^ 20) with 1048576; lia). change (2 ^ 31) with 2147483648. change (2 ^ 32) with 4294967296.
  change (2 ^ 20) with 1048576. rewrite (Z.mod_small _ 4294967296), (proj2 (Z.ltb_lt _ _)) by lia. done.
Qed.

Lemma next_generation_value g : 0 <= g <= 2047 -> tcpcc_bridge_next_generation g = if g =? 2047 then 1 else g + 1.
Proof.
  intros Hg. unfold tcpcc_bridge_next_generation, u32, TCPCC_BRIDGE_HANDLE_GENERATION_MASK. cbv zeta.
  rewrite (Z.mod_small (g + 1)) by (change (2 ^ 32) with 4294967296; lia).
  change (Z.land (g + 1) 0x7ff) with (Z.land (g + 1) (Z.ones 11)). rewrite Z.land_ones by lia. change (2 ^ 11) with 2048.
  destruct (Z.eqb_spec g 2047) as [->|Hne]; [done|]. rewrite Z.mod_small by lia. by rewrite (proj2 (Z.eqb_neq _ _)) by lia.
Qed.
Lemma next_generation_range g : 0 <= g <= 2047 -> 1 <= tcpcc_bridge_next_generation g <= 2047.
Proof. intros Hg. rewrite next_generation_value by done. destruct (Z.eqb_spec g 2047); lia. Qed.

(** The generation after [k] more uses of a slot. *)
Fixpoint generations (k : nat) (g : Z) : Z :=
  match k with O => g | S k => generations k (tcpcc_bridge_next_generation g) end.

Lemma generations_value k g : 1 <= g <= 2047 -> generations k g = (g - 1 + Z.of_nat k) mod 2047 + 1.
Proof.
  revert g. induction k as [|k IH]; intros g Hg; cbn [generations]; [rewrite Z.mod_small; lia|].
  rewrite IH by (apply next_generation_range; lia). rewrite next_generation_value by lia. f_equal.
  destruct (Z.eqb_spec g 2047) as [->|Hne]; [|f_equal; lia].
  replace (2047 - 1 + Z.of_nat (S k)) with (1 - 1 + Z.of_nat k + 1 * 2047) by lia. by rewrite Z.mod_add by lia.
Qed.
(** A slot has the same generation again only after 2047 uses. *)
Lemma generations_fresh k g : 1 <= g <= 2047 -> (0 < k < 2047)%nat -> generations k g <> g.
Proof.
  intros Hg Hk H. rewrite generations_value in H by done.
  destruct (decide (g - 1 + Z.of_nat k < 2047)); [rewrite Z.mod_small in H; lia|].
  replace (g - 1 + Z.of_nat k) with (g - 1 + Z.of_nat k - 2047 + 1 * 2047) in H by lia.
  rewrite Z.mod_add, Z.mod_small in H; lia.
Qed.

(** The digits of a handle. *)
Lemma handle_digits id g : 1 <= id <= TCPCC_BRIDGE_SESSION_LIMIT -> 1 <= g <= 2047 ->
  let handle := tcpcc_bridge_make_handle (id - 1) g in
  0 < handle < 2 ^ 31 /\ Z.land (u32 handle) TCPCC_BRIDGE_HANDLE_SLOT_MASK = id /\
  Z.shiftr (u32 handle) TCPCC_BRIDGE_HANDLE_SLOT_BITS = g.
Proof.
  intros Hid Hg. cbv zeta. rewrite make_handle_value by lia. revert Hid.
  unfold TCPCC_BRIDGE_SESSION_LIMIT, TCPCC_BRIDGE_HANDLE_SLOT_MASK, TCPCC_BRIDGE_HANDLE_SLOT_BITS, u32. intros Hid.
  change 0xfffff with (Z.ones 20). rewrite Z.land_ones, Z.shiftr_div_pow2 by lia. change (2 ^ 20) with 1048576.
  change (2 ^ 31) with 2147483648. change (2 ^ 32) with 4294967296. rewrite (Z.mod_small _ 4294967296) by lia.
  rewrite Z.add_comm, Z.mod_add, Z.div_add, Z.mod_small, Z.div_small; lia.
Qed.
Lemma handle_inj id g id' g' :
  1 <= id <= TCPCC_BRIDGE_SESSION_LIMIT -> 1 <= g <= 2047 -> 1 <= id' <= TCPCC_BRIDGE_SESSION_LIMIT -> 1 <= g' <= 2047 ->
  tcpcc_bridge_make_handle (id - 1) g = tcpcc_bridge_make_handle (id' - 1) g' -> id = id' /\ g = g'.
Proof.
  intros Hid Hg Hid' Hg' H. destruct (handle_digits id g Hid Hg) as (_ & H1 & H2).
  destruct (handle_digits id' g' Hid' Hg') as (_ & H1' & H2'). rewrite H in *. split; congruence.
Qed.

(** ** The registry *)

Section invariant.
Context {A : Type} (idr_alloc : gmap Z (Slot A) -> Z).

(** [idr_alloc(&slots, slot, 1, TCPCC_BRIDGE_SESSION_LIMIT + 1, ...)] gives an unused identifier of the range, or an error. *)
Hypothesis idr_alloc_fresh : forall m, 0 <= idr_alloc m ->
  1 <= idr_alloc m <= TCPCC_BRIDGE_SESSION_LIMIT /\ m !! idr_alloc m = None.

Definition slot_good (id : Z) (slot : Slot A) : Prop :=
  1 <= id <= TCPCC_BRIDGE_SESSION_LIMIT /\ 0 <= slot_generation slot <= 2047 /\
  forall session, slot_session slot = Some session ->
    1 <= slot_generation slot /\ s_allocated session = true /\ s_generation session = slot_generation slot /\
    s_handle session = tcpcc_bridge_make_handle (id - 1) (slot_generation slot) /\
    s_token session = runtime_token (TCPCC_BRIDGE_RUNTIME_SLOT_BASE + id - 1) (slot_generation slot).

(** The slot of a live session. *)
Definition live (id : Z) (r : Registry A) : Prop := exists slot session, slots r !! id = Some slot /\ slot_session slot = Some session.

Record registry_good (r : Registry A) : Prop := {
  rg_slots : forall id slot, slots r !! id = Some slot -> slot_good id slot;
  rg_nodup : NoDup (free_slots r ++ active r);
  rg_active : forall id, id ∈ active r <-> live id r;
  rg_free : forall id, id ∈ free_slots r <-> exists slot, slots r !! id = Some slot /\ slot_session slot = None;
  rg_count : active_sessions r = Z.of_nat (length (active r));
}.

Lemma new_registry_good : registry_good new_registry.
Proof.
  split; cbn; [done|constructor| | |done]; intros id; split; intros H; try (by apply not_elem_of_nil in H).
  - by destruct H as (? & ? & ? & _).
  - by destruct H as (? & ? & _).
Qed.

(** A slot that is neither free nor live yet: between its allocation and the session. *)
Record taken (id : Z) (g : Z) (r : Registry A) : Prop := {
  tk_slot : slots r !! id = Some {| slot_session := None; slot_generation := g |};
  tk_slots : forall id slot, slots r !! id = Some slot -> slot_good id slot;
  tk_nodup : NoDup (id :: free_slots r ++ active r);
  tk_active : forall id, id ∈ active r <-> live id r;
  tk_free : forall id', id' ∈ id :: free_slots r <-> exists slot, slots r !! id' = Some slot /\ slot_session slot = None;
  tk_count : active_sessions r = Z.of_nat (length (active r));
}.

Lemma allocate_slot_taken memory r id r' : registry_good r ->
  tcpcc_bridge_allocate_slot idr_alloc memory r = inr (id, r') ->
  taken id (default 0 (slot_generation <$> slots r !! id)) r' /\ active r' = active r /\ ~ live id r /\
  forall id', id' <> id -> slots r' !! id' = slots r !! id'.
Proof.
  intros Hr H. unfold tcpcc_bridge_allocate_slot in H. destruct (free_slots r) as [|id0 free] eqn:Hfree.
  - destruct memory; [|done]. destruct (Z.ltb_spec (idr_alloc (slots r)) 0) as [|Hge]; [done|]. injection H as <- <-.
    destruct (idr_alloc_fresh (slots r) Hge) as [Hrange Hnew]. set (i := idr_alloc (slots r)) in *. rewrite Hnew. cbn.
    assert (forall id', live id' {| slots := <[i := {| slot_session := None; slot_generation := 0 |}]> (slots r); free_slots := [];
      active := active r; active_sessions := active_sessions r |} <-> live id' r) as Hlive.
    { intros id'. unfold live. cbn. destruct (decide (id' = i)) as [->|Hne]; [rewrite lookup_insert_eq, Hnew; naive_solver|].
      by rewrite lookup_insert_ne. }
    assert (~ live i r) as Hi by (intros (? & ? & Hs & _); congruence).
    split_and!; [split; cbn|done|done|].
    + by rewrite lookup_insert_eq.
    + intros id' slot. destruct (decide (id' = i)) as [->|Hne].
      * rewrite lookup_insert_eq. intros [= <-]. split; [done|]. split; [cbn; lia|done].
      * rewrite lookup_insert_ne by done. apply Hr.
    + pose proof (rg_nodup r Hr) as Hnd. rewrite Hfree in Hnd. constructor; [|done]. by rewrite (rg_active r Hr).
    + intros id'. by rewrite Hlive, (rg_active r Hr).
    + intros id'. rewrite list_elem_of_singleton. destruct (decide (id' = i)) as [->|Hne].
      * rewrite lookup_insert_eq. split; [intros _; by eexists|done].
      * rewrite lookup_insert_ne by done. split; [done|]. intros H. apply (rg_free r Hr) in H. rewrite Hfree in H.
        by apply not_elem_of_nil in H.
    + apply Hr.
    + intros id' Hne. by rewrite lookup_insert_ne.
  - injection H as -> <-. destruct (proj1 (rg_free r Hr id)) as (slot & Hslot & Hnone); [rewrite Hfree; by left|].
    assert (~ live id r) as Hl by (intros (? & ? & ? & ?); congruence).
    rewrite Hslot. cbn. split_and!; [split; cbn|done|done|done].
    + rewrite Hslot. destruct slot. cbn in *. by subst.
    + apply Hr.
    + pose proof (rg_nodup r Hr) as Hnd. by rewrite Hfree in Hnd.
    + apply Hr.
    + intros id'. rewrite <- (rg_free r Hr), Hfree. done.
    + apply Hr.
Qed.
Lemma allocate_session_good memory memory' body r : registry_good r ->
  let '(result, r') := tcpcc_bridge_allocate_session idr_alloc memory memory' body r in
  registry_good r' /\
  match result with
  | inl _ => forall id slot, slots r' !! id = Some slot ->
               slots r !! id = Some slot \/ slots r !! id = None /\ slot_session slot = None /\ slot_generation slot = 0
  | inr (id, session) =>
      ~ live id r /\ s_body session = body /\
      exists g, g = tcpcc_bridge_next_generation (default 0 (slot_generation <$> slots r !! id)) /\
      s_handle session = tcpcc_bridge_make_handle (id - 1) g /\
      slots r' !! id = Some {| slot_session := Some session; slot_generation := g |} /\
      forall id', id' <> id -> slots r' !! id' = slots r !! id'
  end.
Proof.
  intros Hr. unfold tcpcc_bridge_allocate_session.
  destruct (tcpcc_bridge_allocate_slot idr_alloc memory r) as [error|[id r1]] eqn:Halloc; [by auto|].
  destruct (allocate_slot_taken memory r id r1 Hr Halloc) as (Ht & Hact & Hlive & Hothers).
  set (g0 := default 0 (slot_generation <$> slots r !! id)) in *.
  assert (slot_good id {| slot_session := None; slot_generation := g0 |}) as (Hid & Hg0 & _) by apply Ht, Ht.
  destruct memory'; [|split; [split; cbn; apply Ht|]].
  - rewrite (tk_slot _ _ _ Ht). cbn [default slot_generation]. set (g := tcpcc_bridge_next_generation g0).
    assert (1 <= g <= 2047) as Hg by by apply next_generation_range.
    set (session := {| s_handle := _ |}). match goal with |- registry_good ?x /\ _ => set (r2 := x) end. split.
    + assert (forall id', live id' r2 <-> id' = id \/ live id' r1) as Hl.
      { intros id'. unfold live. cbn. destruct (decide (id' = id)) as [->|Hne]; [rewrite lookup_insert_eq|by rewrite lookup_insert_ne; naive_solver].
        split; [by left|]. intros _. by do 2 eexists. }
      split.
      * intros id' slot. cbn. destruct (decide (id' = id)) as [->|Hne]; [|rewrite lookup_insert_ne by done; apply Ht].
        rewrite lookup_insert_eq. intros [= <-]. split; [done|]. cbn. split; [lia|]. intros s [= <-]. split_and!; try done; lia.
      * pose proof (tk_nodup _ _ _ Ht) as Hnd. cbn. by rewrite app_assoc, <- Permutation_cons_append.
      * intros id'. rewrite Hl. cbn. rewrite elem_of_app, list_elem_of_singleton, (tk_active _ _ _ Ht). naive_solver.
      * intros id'. pose proof (tk_nodup _ _ _ Ht) as Hnd. apply NoDup_cons in Hnd as [Hnin _].
        cbn. destruct (decide (id' = id)) as [->|Hne]; [rewrite lookup_insert_eq; split; [set_solver|by intros (? & [= <-] & ?)]|].
        rewrite lookup_insert_ne by done. rewrite <- (tk_free _ _ _ Ht). set_solver.
      * cbn. rewrite length_app, (tk_count _ _ _ Ht). cbn. lia.
    + split; [done|]. split; [done|]. exists g. split_and!; [done|done|cbn; by rewrite lookup_insert_eq|].
      intros id' Hne. cbn. rewrite lookup_insert_ne by done. by apply Hothers.
  - intros id' slot Hs. cbn in Hs. destruct (decide (id' = id)) as [->|Hne]; [|rewrite Hothers in Hs by done; by left].
    rewrite (tk_slot _ _ _ Ht) in Hs. injection Hs as <-. destruct (slots r !! id) as [slot|] eqn:Hold; [|by right]. left.
    unfold g0. cbn. destruct slot as [[session|] g]; [|done]. exfalso. apply Hlive. by do 2 eexists.
Qed.

Lemma find_handle_iff h id session r : registry_good r ->
  tcpcc_bridge_find_handle h r = Some (id, session) <->
  exists slot, slots r !! id = Some slot /\ slot_session slot = Some session /\ s_handle session = h.
Proof.
  intros Hr. unfold tcpcc_bridge_find_handle. split.
  - intros H. destruct (h <=? 0); [done|]. cbv zeta in H. destruct (_ || _); [done|].
    destruct (slots r !! Z.land (u32 h) TCPCC_BRIDGE_HANDLE_SLOT_MASK) as [slot|] eqn:Hslot; [|done]. cbn in H.
    destruct (slot_session slot) as [s|] eqn:Hs; [|done]. cbn in H. destruct (_ || _) eqn:Hg in H; [done|].
    injection H as <- <-. exists slot. split_and!; [done|done|].
    apply orb_false_iff in Hg as [Hg _]. apply orb_false_iff in Hg as [_ Hg]. by apply negb_false_iff, Z.eqb_eq in Hg.
  - intros (slot & Hslot & Hs & <-). destruct (rg_slots r Hr id slot Hslot) as (Hid & Hg & Hses).
    destruct (Hses session Hs) as (Hg1 & Ha & Hgen & Hh & _). rewrite Hh.
    destruct (handle_digits id (slot_generation slot) Hid ltac:(lia)) as (Hpos & -> & ->).
    rewrite (proj2 (Z.leb_gt _ _)) by lia. cbv zeta.
    rewrite (proj2 (Z.eqb_neq id 0)), (proj2 (Z.ltb_ge _ id)), (proj2 (Z.eqb_neq (slot_generation slot) 0)),
      (proj2 (Z.ltb_ge _ (slot_generation slot))) by (unfold TCPCC_BRIDGE_HANDLE_GENERATION_MASK; lia).
    cbn [orb]. rewrite Hslot. cbn. rewrite Hs. cbn. rewrite Ha, Hgen, Hh, !Z.eqb_refl. done.
Qed.

Lemma release_slot_good id r : registry_good r -> live id r ->
  registry_good (release_slot id r) /\
  (forall id', id' <> id -> slots (release_slot id r) !! id' = slots r !! id') /\
  exists slot, slots r !! id = Some slot /\
    slots (release_slot id r) !! id = Some {| slot_session := None; slot_generation := slot_generation slot |}.
Proof.
  intros Hr (slot & session & Hslot & Hs). assert (id ∈ active r) as Hin by (apply (rg_active r Hr); by do 2 eexists).
  assert (slots (release_slot id r) !! id = Some {| slot_session := None; slot_generation := slot_generation slot |}) as Hnew.
  { cbn. by rewrite lookup_alter_eq, Hslot. }
  assert (forall id', id' <> id -> slots (release_slot id r) !! id' = slots r !! id') as Hothers.
  { intros id' Hne. cbn. by rewrite lookup_alter_ne. }
  split; [|split; [done|by exists slot]]. pose proof (rg_nodup r Hr) as Hnd. apply NoDup_app in Hnd as (Hf & Hdis & Ha). split.
  - intros id' slot'. destruct (decide (id' = id)) as [->|Hne]; [|rewrite Hothers by done; apply Hr].
    rewrite Hnew. intros [= <-]. destruct (rg_slots r Hr id slot Hslot) as (Hid & Hg & _). done.
  - cbn. constructor.
    + rewrite elem_of_app, list_elem_of_filter. intros [Hfree|[? _]]; [|done]. by apply (Hdis id).
    + apply NoDup_app. split_and!; [done| |by apply NoDup_filter]. intros x Hx. rewrite list_elem_of_filter. intros [_ Hx']. by apply (Hdis x).
  - intros id'. cbn [active release_slot]. rewrite list_elem_of_filter, (rg_active r Hr). unfold live.
    destruct (decide (id' = id)) as [->|Hne]; [rewrite Hnew; naive_solver|rewrite Hothers by done; naive_solver].
  - intros id'. cbn [free_slots release_slot]. rewrite elem_of_cons, (rg_free r Hr).
    destruct (decide (id' = id)) as [->|Hne]; [rewrite Hnew; naive_solver|rewrite Hothers by done; naive_solver].
  - cbn. rewrite (rg_count r Hr). assert (active r ≡ₚ id :: filter (fun other => other <> id) (active r)) as Hp
      by (by apply without_permutation).
    rewrite Hp at 1. cbn. lia.
Qed.

(** ** Sequences of operations *)

Inductive Operation :=
  | Allocate (memory memory' : bool) (body : A)
  | Release (handle : Z).

Definition registry_step (r : Registry A) (op : Operation) : Registry A :=
  match op with
  | Allocate memory memory' body => (tcpcc_bridge_allocate_session idr_alloc memory memory' body r).2
  | Release h => match tcpcc_bridge_find_handle h r with Some (id, _) => release_slot id r | None => r end
  end.
Definition registry_run (ops : list Operation) (r : Registry A) : Registry A := fold_left registry_step ops r.

Lemma found_live h id session r : registry_good r -> tcpcc_bridge_find_handle h r = Some (id, session) -> live id r.
Proof. intros Hr H. apply find_handle_iff in H as (slot & ? & ? & _); [|done]. by do 2 eexists. Qed.

Lemma registry_step_good r op : registry_good r -> registry_good (registry_step r op).
Proof.
  intros Hr. destruct op as [memory memory' body|h]; cbn [registry_step].
  - pose proof (allocate_session_good memory memory' body r Hr) as H.
    by destruct (tcpcc_bridge_allocate_session idr_alloc memory memory' body r) as [result r'], H.
  - destruct (tcpcc_bridge_find_handle h r) as [[id session]|] eqn:Hf; [|done]. eapply release_slot_good; [done|by eapply found_live].
Qed.

Lemma registry_run_good ops r : registry_good r -> registry_good (registry_run ops r).
Proof. revert r. induction ops as [|op ops IH]; intros r Hr; [done|]. apply IH. by apply registry_step_good. Qed.

(** *** A stale handle *)

(** What a slot can have become after [k] allocations of any slots. *)
Definition aged (k : nat) (slot slot' : Slot A) : Prop :=
  exists n, (n <= k)%nat /\ slot_generation slot' = generations n (slot_generation slot) /\
    (n = O -> slot_session slot' = slot_session slot \/ slot_session slot' = None).

Lemma aged_refl slot : aged 0 slot slot.
Proof. exists O. by auto. Qed.
Lemma aged_trans k k' slot slot' slot'' : aged k slot slot' -> aged k' slot' slot'' -> aged (k + k') slot slot''.
Proof.
  intros (n & Hn & Hg & Hs) (n' & Hn' & Hg' & Hs'). exists (n + n')%nat. split; [lia|]. split.
  - rewrite Hg', Hg. generalize (slot_generation slot). clear. revert n'. induction n as [|n IH]; intros n' g; [done|]. cbn. apply IH.
  - intros H. assert (n = O /\ n' = O) as [-> ->] by lia. specialize (Hs eq_refl). specialize (Hs' eq_refl). naive_solver congruence.
Qed.

Definition is_allocate (op : Operation) : bool := match op with Allocate _ _ _ => true | Release _ => false end.
Definition allocations (ops : list Operation) : nat := length (List.filter is_allocate ops).

Lemma step_ages r op id slot : registry_good r -> slots r !! id = Some slot ->
  exists slot', slots (registry_step r op) !! id = Some slot' /\ aged (if is_allocate op then 1 else 0) slot slot'.
Proof.
  intros Hr Hslot. destruct op as [memory memory' body|h]; cbn [registry_step is_allocate].
  - pose proof (allocate_session_good memory memory' body r Hr) as H.
    destruct (tcpcc_bridge_allocate_session idr_alloc memory memory' body r) as [result r'] eqn:Ha. cbn [snd]. destruct H as [Hr' H].
    destruct result as [error|[id' session]].
    + destruct (slots r' !! id) as [slot'|] eqn:Hnew.
      * exists slot'. split; [done|]. destruct (H id slot' Hnew) as [Ho|(Ho & _)]; [|congruence].
        rewrite Hslot in Ho. injection Ho as ->. exists O. split; [lia|]. by auto.
      * exfalso. clear H Hr'. revert Ha Hnew. unfold tcpcc_bridge_allocate_session.
        destruct (tcpcc_bridge_allocate_slot idr_alloc memory r) as [e|[i r1]] eqn:Halloc; [by intros [= _ <-]; congruence|].
        destruct (allocate_slot_taken memory r i r1 Hr Halloc) as (Ht & _ & _ & Hothers).
        destruct memory'; [done|]. intros [= _ <-]. cbn. destruct (decide (id = i)) as [->|Hne]; [by rewrite (tk_slot _ _ _ Ht)|].
        rewrite Hothers by done. congruence.
    + destruct H as (_ & _ & g & Hg & _ & Hnew & Hothers). destruct (decide (id = id')) as [<-|Hne].
      * eexists. split; [exact Hnew|]. exists 1%nat. split; [lia|]. split; [|done]. cbn. by rewrite Hg, Hslot.
      * exists slot. rewrite Hothers by done. split; [done|]. exists O. split; [lia|]. by auto.
  - destruct (tcpcc_bridge_find_handle h r) as [[id' session]|] eqn:Hf; [|exists slot; split; [done|apply aged_refl]].
    destruct (release_slot_good id' r Hr ltac:(by eapply found_live)) as (_ & Hothers & slot' & Hslot' & Hnew).
    destruct (decide (id = id')) as [<-|Hne].
    + eexists. split; [exact Hnew|]. rewrite Hslot in Hslot'. injection Hslot' as <-. exists O. by auto.
    + exists slot. rewrite Hothers by done. split; [done|apply aged_refl].
Qed.

Lemma run_ages ops r id slot : registry_good r -> slots r !! id = Some slot ->
  registry_good (registry_run ops r) /\
  exists slot', slots (registry_run ops r) !! id = Some slot' /\ aged (allocations ops) slot slot'.
Proof.
  revert r slot. induction ops as [|op ops IH]; intros r slot Hr Hslot; cbn [registry_run fold_left].
  { split; [done|]. exists slot. split; [done|apply aged_refl]. }
  destruct (step_ages r op id slot Hr Hslot) as (slot1 & Hslot1 & Hage).
  destruct (IH (registry_step r op) slot1 ltac:(by apply registry_step_good) Hslot1) as (Hgood & slot2 & Hslot2 & Hage2).
  split; [done|]. exists slot2. split; [done|]. replace (allocations (op :: ops)) with ((if is_allocate op then 1 else 0) + allocations ops)%nat.
  - by eapply aged_trans.
  - unfold allocations. cbn. by destruct (is_allocate op).
Qed.

(** C18. A handle that was joined is stale: it is not found again, whatever sessions are started and ended after it, until
    2047 more have been started, although its slot is reused at once. *)
Theorem stale_handle r h id session ops : registry_good r -> tcpcc_bridge_find_handle h r = Some (id, session) ->
  (allocations ops < 2047)%nat -> tcpcc_bridge_find_handle h (registry_run (Release h :: ops) r) = None.
Proof.
  intros Hr Hfind Hops. cbn [registry_run fold_left registry_step]. rewrite Hfind. pose proof (found_live _ _ _ _ Hr Hfind) as Hlive.
  apply find_handle_iff in Hfind as (slot & Hslot & Hs & Hh); [|done]. destruct (rg_slots r Hr id slot Hslot) as (Hid & Hg & Hses).
  destruct (Hses session Hs) as (Hg1 & _ & _ & Hmade & _).
  destruct (release_slot_good id r Hr Hlive) as (Hgood & _ & slot0 & Hslot0 & Hfree). rewrite Hslot in Hslot0. injection Hslot0 as <-.
  destruct (run_ages ops _ _ _ Hgood Hfree) as (Hgood' & slot' & Hslot' & n & Hn & Hgen & Hnone). cbn in Hgen, Hnone.
  fold (registry_run ops (release_slot id r)). destruct (tcpcc_bridge_find_handle h _) as [[id' session']|] eqn:Hf; [exfalso|done].
  apply find_handle_iff in Hf as (slot2 & Hslot2 & Hs2 & Hh2); [|done].
  destruct (rg_slots _ Hgood' id' slot2 Hslot2) as (Hid' & Hg' & Hses'). destruct (Hses' session' Hs2) as (Hg1' & _ & _ & Hmade' & _).
  destruct (handle_inj id (slot_generation slot) id' (slot_generation slot2)) as [<- Heq]; [done|lia|done|lia|congruence|].
  rewrite Hslot' in Hslot2. injection Hslot2 as <-. destruct n as [|n].
  - destruct Hnone as [Hn0|Hn0]; [done|congruence|congruence].
  - apply (generations_fresh (S n) (slot_generation slot)); [lia|lia|congruence].
Qed.

(** *** The registry as a table *)

(** What the clients rely on: a table from handles to sessions, in which a new session has an unused positive handle. *)
Inductive table_step (t : gmap Z A) : Operation -> gmap Z A -> Prop :=
  | table_start memory memory' body h : t !! h = None -> 0 < h < 2 ^ 31 -> table_step t (Allocate memory memory' body) (<[h := body]> t)
  | table_refuse memory memory' body : table_step t (Allocate memory memory' body) t
  | table_release h : table_step t (Release h) (delete h t).
Inductive table_run : gmap Z A -> list Operation -> gmap Z A -> Prop :=
  | table_done t : table_run t [] t
  | table_next t op t' ops t'' : table_step t op t' -> table_run t' ops t'' -> table_run t (op :: ops) t''.

Definition represents (r : Registry A) (t : gmap Z A) : Prop :=
  forall h body, t !! h = Some body <-> exists id session, tcpcc_bridge_find_handle h r = Some (id, session) /\ s_body session = body.

(** A session by its slot. *)
Definition at_slot (r : Registry A) (id : Z) (session : Session A) : Prop :=
  exists slot, slots r !! id = Some slot /\ slot_session slot = Some session.

Lemma represents_iff r t : registry_good r ->
  represents r t <-> forall h body, t !! h = Some body <-> exists id session, at_slot r id session /\ s_handle session = h /\ s_body session = body.
Proof.
  intros Hr. unfold represents, at_slot. setoid_rewrite (find_handle_iff _ _ _ _ Hr). split; intros H h body; rewrite H; naive_solver.
Qed.

Lemma same_handle r id session id' session' : registry_good r -> at_slot r id session -> at_slot r id' session' ->
  s_handle session = s_handle session' -> id = id' /\ session = session'.
Proof.
  intros Hr (slot & Hslot & Hs) (slot' & Hslot' & Hs') Hh.
  destruct (rg_slots r Hr _ _ Hslot) as (Hid & Hg & Hses), (rg_slots r Hr _ _ Hslot') as (Hid' & Hg' & Hses').
  destruct (Hses _ Hs) as (? & _ & _ & Hm & _), (Hses' _ Hs') as (? & _ & _ & Hm' & _).
  destruct (handle_inj id (slot_generation slot) id' (slot_generation slot')) as [<- _]; [done|lia|done|lia|congruence|].
  split; [done|]. congruence.
Qed.

Lemma allocate_represents memory memory' body r t : registry_good r -> represents r t ->
  let '(result, r') := tcpcc_bridge_allocate_session idr_alloc memory memory' body r in
  match result with
  | inl _ => represents r' t
  | inr (_, session) => 0 < s_handle session < 2 ^ 31 /\ t !! s_handle session = None /\ represents r' (<[s_handle session := body]> t)
  end.
Proof.
  intros Hr Ht. pose proof (allocate_session_good memory memory' body r Hr) as H.
  destruct (tcpcc_bridge_allocate_session idr_alloc memory memory' body r) as [result r'] eqn:Ha. destruct H as [Hr' H].
  rewrite represents_iff in Ht by done. destruct result as [error|[id session]].
  - rewrite represents_iff by done. intros h body'. rewrite Ht.
    assert (forall id session, at_slot r' id session <-> at_slot r id session) as Hsame; [|by setoid_rewrite Hsame].
    intros id session. split; intros (slot & Hslot & Hs).
    + destruct (H id slot Hslot) as [Ho|(_ & Hn & _)]; [by exists slot|congruence].
    + destruct (step_ages r (Allocate memory memory' body) id slot Hr Hslot) as (slot' & Hslot' & _). cbn in Hslot'. rewrite Ha in Hslot'.
      cbn in Hslot'. destruct (H id slot' Hslot') as [Ho|(Ho & _)]; [|congruence]. exists slot'. split; [done|]. congruence.
  - destruct H as (Hlive & Hbody & g & Hg & Hmade & Hnew & Hothers).
    assert (at_slot r' id session) as Hat by by eexists.
    assert (forall id' s, at_slot r' id' s <-> (id' = id /\ s = session) \/ at_slot r id' s) as Hsame.
    { intros id' s. unfold at_slot. destruct (decide (id' = id)) as [->|Hne]; [rewrite Hnew|rewrite Hothers by done; naive_solver].
      split; [naive_solver|]. intros [[_ ->]|(slot & Hs & Hn)]; [by eexists|]. exfalso. apply Hlive. by do 2 eexists. }
    assert (t !! s_handle session = None) as Hfresh.
    { apply eq_None_not_Some. intros [b Hb]. apply Ht in Hb as (id' & s' & Hat' & Hh & _).
      destruct (same_handle r' id' s' id session Hr') as [-> ->]; [apply Hsame; by right|done|done|].
      apply Hlive. destruct Hat' as (slot & ? & ?). by do 2 eexists. }
    split; [|split; [done|]].
    + destruct (rg_slots r' Hr' _ _ Hnew) as (Hid & Hg' & Hses). cbn in *. destruct (Hses session eq_refl) as (Hg1 & _).
      rewrite Hmade. apply handle_digits; [done|lia].
    + rewrite represents_iff by done. intros h b. destruct (decide (h = s_handle session)) as [->|Hne].
      * rewrite lookup_insert_eq. split.
        -- intros [= <-]. exists id, session. done.
        -- intros (id' & s' & Hat' & Hh & <-). destruct (same_handle r' id' s' id session Hr' Hat' Hat Hh) as [_ ->]. by rewrite Hbody.
      * rewrite lookup_insert_ne by done. rewrite Ht. setoid_rewrite Hsame. naive_solver.
Qed.

Lemma release_represents h r t : registry_good r -> represents r t -> represents (registry_step r (Release h)) (delete h t).
Proof.
  intros Hr Ht. pose proof (registry_step_good r (Release h) Hr) as Hr'. cbn [registry_step] in *.
  destruct (tcpcc_bridge_find_handle h r) as [[id session]|] eqn:Hf.
  - pose proof (found_live _ _ _ _ Hr Hf) as Hlive. apply find_handle_iff in Hf as (slot & Hslot & Hs & Hh); [|done].
    assert (at_slot r id session) as Hat by by exists slot.
    destruct (release_slot_good id r Hr Hlive) as (_ & Hothers & slot0 & _ & Hfree).
    rewrite represents_iff in Ht |- * by done. intros h' body.
    assert (forall id' s, at_slot (release_slot id r) id' s <-> id' <> id /\ at_slot r id' s) as Hsame.
    { intros id' s. unfold at_slot. destruct (decide (id' = id)) as [->|Hne]; [rewrite Hfree|rewrite Hothers by done; naive_solver].
      split; [by intros (? & [= <-] & ?)|by intros [? _]]. }
    setoid_rewrite Hsame. destruct (decide (h' = h)) as [->|Hne].
    + rewrite lookup_delete_eq. split; [done|]. intros (id' & s' & [Hne Hat'] & Hh' & _). exfalso. apply Hne.
      by destruct (same_handle r id' s' id session Hr Hat' Hat) as [-> _]; [congruence|].
    + rewrite lookup_delete_ne by done. rewrite Ht. split; intros (id' & s' & H1 & Hh' & Hb); exists id', s'; [|naive_solver].
      split_and!; try done. intros ->. apply Hne. destruct H1 as (? & ? & ?). congruence.
  - intros h' body. destruct (decide (h' = h)) as [->|Hne]; [rewrite lookup_delete_eq|by rewrite lookup_delete_ne].
    split; [done|]. intros (? & ? & ? & _). congruence.
Qed.

Lemma step_refines r t op : registry_good r -> represents r t -> exists t', table_step t op t' /\ represents (registry_step r op) t'.
Proof.
  intros Hr Ht. destruct op as [memory memory' body|h].
  - pose proof (allocate_represents memory memory' body r t Hr Ht) as H. cbn [registry_step].
    destruct (tcpcc_bridge_allocate_session idr_alloc memory memory' body r) as [[error|[id session]] r'].
    + exists t. split; [constructor|done].
    + destruct H as (Hpos & Hfresh & Hrep). eexists. split; [by constructor|done].
  - eexists. split; [constructor|]. by apply release_represents.
Qed.

(** C17. The registry of slots and generations refines a table of sessions: over any sequence of starts and joins, whatever
    memory and identifiers are available, every start that succeeds has a positive handle that no live session has, and a
    session is found by its handle exactly while it is live. *)
Theorem registry_refines_table ops :
  exists t, table_run ∅ ops t /\ represents (registry_run ops new_registry) t /\ registry_good (registry_run ops new_registry).
Proof.
  assert (represents new_registry ∅) as H0.
  { rewrite represents_iff by apply new_registry_good. intros h body. rewrite lookup_empty. split; [done|].
    by intros (? & ? & (? & ? & _) & _). }
  revert H0. generalize (new_registry_good). generalize (∅ : gmap Z A) as t. generalize (new_registry : Registry A) as r.
  induction ops as [|op ops IH]; intros r t Hr Ht; [by exists t; split; [constructor|]|].
  destruct (step_refines r t op Hr Ht) as (t' & Hstep & Ht').
  destruct (IH (registry_step r op) t' ltac:(by apply registry_step_good) Ht') as (t'' & Hrun & Hrep & Hgood).
  exists t''. split; [by econstructor|done].
Qed.
End invariant.

(** ** The tokens of events *)

Lemma runtime_token_value id g : 1 <= id <= TCPCC_BRIDGE_SESSION_LIMIT -> 0 <= g <= 2047 ->
  runtime_token (TCPCC_BRIDGE_RUNTIME_SLOT_BASE + id - 1) g = 2 ^ 63 + g * 2 ^ 32 + (BRIDGE_RUNTIME_SLOT_BASE + (id - 1)).
Proof.
  unfold runtime_token, TCPCC_BRIDGE_RUNTIME_SLOT_BASE, BRIDGE_RUNTIME_SLOT_BASE, TCPCC_BRIDGE_SESSION_LIMIT, u32. intros Hid Hg.
  change (Z.land g 0x7fffffff) with (Z.land g (Z.ones 31)). rewrite Z.land_ones, !Z.shiftl_mul_pow2 by lia.
  rewrite (Z.mod_small g) by (change (2 ^ 31) with 2147483648; lia).
  rewrite (Z.mod_small (2 + id - 1)) by (change (2 ^ 32) with 4294967296; lia).
  rewrite <- Z.lor_assoc, (lor_low g _ 32), (lor_low 1 _ 63) by
    (try change (2 ^ 63) with 9223372036854775808; try change (2 ^ 32) with 4294967296; lia). lia.
Qed.
Lemma token_digits id g : 1 <= id <= TCPCC_BRIDGE_SESSION_LIMIT -> 0 <= g <= 2047 ->
  let token := runtime_token (TCPCC_BRIDGE_RUNTIME_SLOT_BASE + id - 1) g in
  token_marked token = true /\ token_slot token = BRIDGE_RUNTIME_SLOT_BASE + (id - 1) /\ token_generation token = g.
Proof.
  intros Hid Hg. cbv zeta. rewrite runtime_token_value by done. unfold BRIDGE_RUNTIME_SLOT_BASE, TCPCC_BRIDGE_SESSION_LIMIT in *.
  apply token_parts; [|split_and!; [| |lia|lia|done]];
    try change (2 ^ 63) with 9223372036854775808; try change (2 ^ 64) with 18446744073709551616;
    try change (2 ^ 32) with 4294967296; try change (2 ^ 31) with 2147483648; lia.
Qed.

(** An event goes to the live session whose token it carries, and to no other. *)
Lemma dispatch_session_iff {A} (r : Registry A) token id session : registry_good r ->
  dispatch_session token r = Some (id, session) <->
  exists slot, slots r !! id = Some slot /\ slot_session slot = Some session /\ s_token session = token.
Proof.
  intros Hr. unfold dispatch_session. split.
  - destruct (_ =? 0); [done|]. cbv zeta. destruct (_ || _); [done|]. intros H.
    destruct (slots r !! (u32 token - TCPCC_BRIDGE_RUNTIME_SLOT_BASE + 1)) as [slot|] eqn:Hslot; [|done]. cbn in H.
    destruct (slot_session slot) as [s|] eqn:Hs; [|done]. cbn in H. destruct (Z.eqb_spec (s_token s) token); [|done].
    injection H as <- <-. by exists slot.
  - intros (slot & Hslot & Hs & <-). destruct (rg_slots r Hr id slot Hslot) as (Hid & Hg & Hses).
    destruct (Hses session Hs) as (_ & _ & _ & _ & Htok).
    destruct (token_digits id (slot_generation slot) Hid Hg) as (Hm & Hsl & _). rewrite <- Htok in Hm, Hsl.
    unfold token_marked in Hm. apply negb_true_iff in Hm. rewrite Hm.
    assert (u32 (s_token session) = TCPCC_BRIDGE_RUNTIME_SLOT_BASE + (id - 1)) as Hu.
    { unfold u32. rewrite <- Z.land_ones by lia. exact Hsl. }
    cbv zeta. rewrite Hu. unfold TCPCC_BRIDGE_RUNTIME_SLOT_BASE, TCPCC_BRIDGE_SESSION_LIMIT in *.
    rewrite (proj2 (Z.ltb_ge _ _)), (proj2 (Z.leb_gt _ _)) by lia. cbn [orb].
    replace (2 + (id - 1) - 2 + 1) with id by lia. rewrite Hslot. cbn. rewrite Hs. cbn. by rewrite Z.eqb_refl.
Qed.

(** ** The test's reading of a handle *)

(** What [decode_bridge_handle] of the test program makes of the handle of a live session is its slot and generation, and the
    token of its events is the one the test expects of them. *)
Lemma live_handle_decodes {A} (r : Registry A) h id session label :
  registry_good r -> tcpcc_bridge_find_handle h r = Some (id, session) ->
  decode_bridge_handle h label = Ok (id - 1, s_generation session) /\
  token_marked (s_token session) = true /\ token_slot (s_token session) = BRIDGE_RUNTIME_SLOT_BASE + (id - 1) /\
  token_generation (s_token session) = s_generation session.
Proof.
  intros Hr Hf. apply find_handle_iff in Hf as (slot & Hslot & Hs & <-); [|done].
  destruct (rg_slots r Hr id slot Hslot) as (Hid & Hg & Hses). destruct (Hses session Hs) as (Hg1 & _ & -> & Hh & ->).
  destruct (handle_digits id (slot_generation slot) Hid ltac:(lia)) as (Hpos & _ & _).
  rewrite Hh, make_handle_value in * by lia. unfold TCPCC_BRIDGE_SESSION_LIMIT in Hid. split.
  - apply decode_bridge_handle_iff; [change (2 ^ 31) with 2147483648 in Hpos; change (2 ^ 32) with 4294967296; lia|].
    unfold BRIDGE_SESSION_LIMIT. lia.
  - apply token_digits; [done|lia].
Qed.

(** ** A registry in use *)

Definition idr_first {B} (m : gmap Z B) : Z :=
  match list_find (fun id => m !! id = None /\ id <= TCPCC_BRIDGE_SESSION_LIMIT) (seqZ 1 (Z.of_nat (size m) + 1)) with
  | Some (_, id) => id
  | None => -28
  end.
Lemma idr_first_fresh {B} (m : gmap Z B) : 0 <= idr_first m ->
  1 <= idr_first m <= TCPCC_BRIDGE_SESSION_LIMIT /\ m !! idr_first m = None.
Proof.
  unfold idr_first. destruct (list_find _ _) as [[i id]|] eqn:H; [|lia]. intros _.
  apply list_find_Some in H as (Hi & [Hn Hl] & _). apply list_elem_of_lookup_2, elem_of_seqZ in Hi. split; [lia|done].
Qed.

(** Three sessions, of which the second has been joined and its slot used again. *)
Definition sample_ops : list (Operation (A := string)) :=
  [Allocate true true "a"; Allocate true true "b"; Release (2 ^ 20 + 2); Allocate true true "c"].

Lemma registry_refines_witness :
  exists t, table_run ∅ sample_ops t /\ represents (registry_run idr_first sample_ops new_registry) t /\
    registry_good (registry_run idr_first sample_ops new_registry).
Proof. exact (registry_refines_table idr_first idr_first_fresh sample_ops). Defined.

Lemma stale_handle_witness :
  tcpcc_bridge_find_handle (2 ^ 20 + 2) (registry_run idr_first (take 2 sample_ops) new_registry) <> None /\
  tcpcc_bridge_find_handle (2 ^ 20 + 2)
    (registry_run idr_first [Release (2 ^ 20 + 2); Allocate true true "c"] (registry_run idr_first (take 2 sample_ops) new_registry)) = None.
Proof.
  split; [vm_compute; discriminate|].
  pose proof (registry_run_good idr_first idr_first_fresh (take 2 sample_ops) new_registry new_registry_good) as Hgood.
  eapply (stale_handle idr_first idr_first_fresh _ _ 2 _ [Allocate true true "c"] Hgood); [vm_compute; reflexivity|cbn; lia].
Defined.
