(* ===== verification/KernelService.v ===== *)
(** * The hosted kernel: the service

    [linux-overlay/arch/tcpcc/kernel/service.c] as a transition system.  The
    service thread, the control thread that calls [tcpcc_service_start],
    [tcpcc_service_drain], [tcpcc_service_stop] and [tcpcc_service_get_stats], the
    callback of a listener and the end of a bridge interleave; a step is a
    critical section, or one call that other threads see.  What the network
    stack and memory allocation answer is part of the label of a step, as is the
    handle of a new bridge, which is one that [Sessions] allows.  A completion that
    has been decided on and is not yet counted is counted in [posting], and
    a bridge that has ended and has not yet called the notifier in [notifying];
    that it loads the notifier and calls it is one step.
    The sessions are those the service starts, which is how [control.c] uses it:
    it refuses a bridge of its own while the service is allocated.  A listener is
    given to the service once, and [sk_user_data] of its socket is set by the
    service alone.  A connection that reaches a listener whose callback is
    installed is a socket that inherits the callback and [sk_user_data], and so
    the entry.  [children] has the entry of each such socket in the queue of its
    listener, where it is until it is accepted or the listener is released, and
    [taken] the entry of each accepted one that still points to it.  The
    connections without an entry to point to need no state.  A shutdown also
    empties the queue of a listener; that, and the messages to the log, are left
    out: the sockets that stay in [children] only add callbacks, and what else
    follows from a shutdown is an answer of [kernel_accept]. *)

From S2P Require Import Prelude PyStr Reports Py Effects Struct IpAddr Control Bridges Sessions.
From stdpp Require Import gmap.
From coqutil Require Import Datatypes.RecordSetters.
Import DoubleBraceUpdate.
Local Open Scope Z_scope.

(** ** Data *)

Definition TCPCC_SERVICE_HANDLE : Z := 1.
Definition TCPCC_SERVICE_MAX_ACCEPT_BATCH : Z := 64.
Definition TCPCC_SERVICE_MAX_LISTENERS : Z := 64.
Definition TCPCC_CONTROL_SERVICE_STOPPED : Z := 0.
Definition TCPCC_CONTROL_SERVICE_RUNNING : Z := 1.
Definition TCPCC_CONTROL_SERVICE_DRAINING : Z := 2.
Definition TCPCC_CONTROL_SERVICE_STOPPING : Z := 3.
Definition TCPCC_CONTROL_SERVICE_FAILED : Z := 4.
Definition INADDR_LOOPBACK : Z := 0x7f000001.
Definition ENOSPC : Z := 28.
Definition ETIMEDOUT : Z := 110.

(** [struct tcpcc_control_service_config] *)
Record Config := { backend_ipv4 : Z; backend_port : Z; reserved : Z; max_connections : Z; c_accept_batch : Z }.
(** [struct tcpcc_service_listener]; a listener is known by a number *)
Record Entry := { e_config : Config; callback_installed : bool; ready_queued : bool }.

(** What the control thread is asked for. *)
Inductive Call :=
  | Start (listener : Z) (config : Config)
  | GetStats (handle : Z)
  | Drain (handle timeout : Z)
  | Stop (handle timeout : Z).

(** Where the service thread is. *)
Inductive Thread :=
  | TWait
  | TReap (todo : list Z)
  | TJoined (handle : Z) (ret : sum Z BridgeResult) (todo : list Z)
  | TCheckDraining
  | TCheckStopping
  | TBudget
  | TLoop (budget : Z)
  | TPop (budget : Z)
  | TAdmit (entry budget : Z)
  | TAccept (entry budget : Z)
  | TEagain (budget : Z)
  | TFail (status : Z)
  | TFailClear
  | TFailSnapshot
  | TFailShutdown (snapshot : list Z)
  | TQueue (entry budget : Z) (inherits : bool)
  | TDetach (entry budget : Z) (inherits : bool)
  | TStart (entry budget : Z)
  | TReject (status budget : Z)
  | TAdd (handle budget : Z)
  | TCancel (handle budget : Z)
  | TPending (budget : Z)
  | TShouldStop
  | TKthread
  | TStopped
  | TExited.

(** Where the control thread is: before the lock of a call, between its sections, or about to return. *)
Inductive Control :=
  | CIdle
  | CStartLock (entry : Z)
  | CStartNotifier (entry : Z)
  | CStartInstall (entry : Z) (first : bool)
  | CStartThread (entry : Z)
  | CStartTask (entry : Z)
  | CStartQueue (entry : Z)
  | CFailRestore (entry ret : Z) (first notified : bool)
  | CFailRemove (entry ret : Z) (first notified : bool)
  | CFailUnlink (entry ret : Z) (first notified : bool)
  | CFailNotifier (entry ret : Z) (first notified : bool)
  | CFailReset (entry ret : Z) (first : bool)
  | CFailClear (entry ret : Z)
  | CFailFree (entry ret : Z)
  | CDrainClear
  | CDrainSnapshot
  | CDrainShutdown (snapshot : list Z)
  | CDrainPost
  | CDrainWait
  | CDrainStats
  | CStopClear (task : bool)
  | CStopSnapshot (task : bool)
  | CStopShutdown (task : bool) (snapshot : list Z)
  | CStopCancel (task : bool)
  | CStopPost (task : bool)
  | CStopWait (task : bool)
  | CStopThread (task : bool)
  | CStopReap
  | CStopNotifier
  | CStopRelease
  | CStopSplice
  | CStopFree (todo : list Z)
  | CStopFinal
  | CReturn (ret : Z) (snapshot : option ServiceStats).

Record World := {
  (* [struct tcpcc_service_manager] *)
  allocated : bool;
  draining : bool;
  stopping : bool;
  task : bool;
  work_ready : nat;
  drained : bool;
  stopped : bool;
  stats : ServiceStats;
  listeners : list Z;
  ready_list : list Z;
  bridges : list Z;
  listener_count : Z;
  (* the entries that are allocated, the bridge sessions and what was asked of them *)
  entries : gmap Z Entry;
  table : gmap Z (option BridgeResult);
  cancelled : gset Z;
  notifier : bool;
  (* the threads *)
  posting : nat;
  notifying : nat;
  thread : option Thread;
  kthread_stop : bool;
  control : Control;
  (* an entry was used after it was freed *)
  fault : bool;
  (* the connections that point to an entry: queued, accepted; and whether one of them used it after it was freed *)
  children : list Z;
  taken : list Z;
  child_fault : bool;
}.

Definition no_stats : ServiceStats := {|
  accepted_connections := 0; completed_connections := 0; rejected_connections := 0; ss_public_to_backend_bytes := 0;
  ss_backend_to_public_bytes := 0; active_connections := 0; peak_connections := 0; ss_max_connections := 0; accept_batch := 0;
  accept_eagain := 0; bridge_start_failures := 0; terminal_failures := 0; state := TCPCC_CONTROL_SERVICE_STOPPED; last_error := 0 |}.

Definition boot : World := {|
  allocated := false; draining := false; stopping := false; task := false; work_ready := 0; drained := false; stopped := false;
  stats := no_stats; listeners := []; ready_list := []; bridges := []; listener_count := 0; entries := ∅; table := ∅; cancelled := ∅;
  notifier := false; posting := 0; notifying := 0; thread := None; kthread_stop := false; control := CIdle; fault := false;
  children := []; taken := []; child_fault := false |}.

(** ** Listeners *)

Definition with_queued (v : bool) (e : Entry) : Entry := e{{ready_queued := v}}.
Definition with_installed (v : bool) (e : Entry) : Entry := e{{callback_installed := v}}.

Definition freed (e : Z) (w : World) : bool := negb (bool_decide (is_Some (entries w !! e))).

(** With the [complete] that follows the lock *)
Definition tcpcc_service_queue_listener (e : Z) (w : World) : World :=
  let queued :=
    match entries w !! e with
    | Some entry =>
        negb (ready_queued entry) && callback_installed entry && allocated w && negb (draining w) && negb (stopping w)
    | None => false
    end in
  w{{ready_list := if queued then ready_list w ++ [e] else ready_list w;
     entries := if queued then alter (with_queued true) e (entries w) else entries w;
     posting := if queued then S (posting w) else posting w;
     fault := fault w || freed e w}}.

Definition tcpcc_service_remove_ready_listener (e : Z) (w : World) : World :=
  w{{ready_list := if from_option ready_queued false (entries w !! e) then filter (fun other => other <> e) (ready_list w) else ready_list w;
     entries := alter (with_queued false) e (entries w);
     fault := fault w || freed e w}}.

Definition tcpcc_service_clear_ready (w : World) : World :=
  w{{entries := foldr (fun e => alter (with_queued false) e) (entries w) (ready_list w); ready_list := [];
     fault := fault w || existsb (fun e => freed e w) (ready_list w)}}.

(** [tcpcc_service_snapshot_listeners], and the listener that a turn of [tcpcc_service_shutdown_listeners] reads *)
Definition tcpcc_service_snapshot_listeners (w : World) : list Z := take (Z.to_nat TCPCC_SERVICE_MAX_LISTENERS) (listeners w).
Definition shutdown_listener (e : Z) (w : World) : World := w{{fault := fault w || freed e w}}.

(** Whether [sk_user_data] of a listener is set, to its entry: only the service sets it. *)
Definition listener_in_use (e : Z) (w : World) : bool := from_option callback_installed false (entries w !! e).
(** [tcpcc_service_listener_data_ready] *)
Definition tcpcc_service_listener_data_ready (e : Z) (w : World) : World :=
  if listener_in_use e w && allocated w then tcpcc_service_queue_listener e w else w.

(** The same callback, inherited by a connection that points to entry [e]: it reads the entry, whose listener is another socket *)
Definition child_data_ready (e : Z) (w : World) : World := w{{child_fault := child_fault w || freed e w}}.

(** [tcpcc_service_install_listener_callback] when the listener is not in use, and [tcpcc_service_restore_listener_callback] *)
Definition install_listener_callback (e : Z) (w : World) : World :=
  w{{entries := alter (with_installed true) e (entries w); fault := fault w || freed e w}}.
Definition tcpcc_service_restore_listener_callback (e : Z) (w : World) : World :=
  w{{entries := alter (with_installed false) e (entries w); fault := fault w || freed e w}}.

(** An accepted socket that points to the entry no longer does. *)
Fixpoint drop_one (e : Z) (l : list Z) : list Z :=
  match l with [] => [] | other :: l => if other =? e then l else other :: drop_one e l end.
Definition tcpcc_service_detach_accepted_callback (inherits : bool) (e : Z) (w : World) : World :=
  w{{taken := if inherits then drop_one e (taken w) else taken w; fault := fault w || inherits && freed e w}}.

(** [kernel_sock_shutdown] and [sock_release] of a listener: the connections in its queue are destroyed. *)
Definition release_listener (e : Z) (w : World) : World :=
  w{{children := filter (fun other => other <> e) (children w); fault := fault w || freed e w}}.

Definition tcpcc_service_wake (w : World) : World := w{{posting := if allocated w then S (posting w) else posting w}}.

(** ** The service thread *)

(** A session is found by its handle until it is joined. *)
Definition tcpcc_bridge_cancel_session (h : Z) (w : World) : World :=
  w{{cancelled := if bool_decide (is_Some (table w !! h)) then {[h]} ∪ cancelled w else cancelled w}}.

Definition tcpcc_service_admission_available (w : World) : bool :=
  negb (draining w) && negb (stopping w) &&
  ((ss_max_connections (stats w) =? 0) || (active_connections (stats w) <? ss_max_connections (stats w))).

(** The locked part of a turn of [tcpcc_service_reap] *)
Definition count_reaped (ret : sum Z BridgeResult) (s : ServiceStats) : ServiceStats :=
  let s := s{{active_connections := if active_connections s =? 0 then 0 else active_connections s - 1;
              completed_connections := u64 (completed_connections s + 1)}} in
  let failed status (s : ServiceStats) := s{{terminal_failures := u32 (terminal_failures s + 1); last_error := status}} in
  match ret with
  | inl error => failed error s
  | inr result =>
      let s := s{{ss_public_to_backend_bytes := u64 (ss_public_to_backend_bytes s + public_to_backend_bytes result);
                  ss_backend_to_public_bytes := u64 (ss_backend_to_public_bytes s + backend_to_public_bytes result)}} in
      if br_status result =? 0 then s else failed (br_status result) s
  end.

(** The locked part of [tcpcc_service_fail] *)
Definition service_failed (status : Z) (w : World) : World :=
  let s := stats w in
  w{{stats := s{{state := if draining w then state s else TCPCC_CONTROL_SERVICE_FAILED; last_error := status}}; draining := true}}.

(** The locked parts of [tcpcc_service_accept_one] *)
Definition count_rejected (status : Z) (s : ServiceStats) : ServiceStats :=
  s{{rejected_connections := u64 (rejected_connections s + 1); bridge_start_failures := u32 (bridge_start_failures s + 1);
     last_error := status}}.
Definition count_accepted (s : ServiceStats) : ServiceStats :=
  let active := u32 (active_connections s + 1) in
  s{{accepted_connections := u64 (accepted_connections s + 1); active_connections := active;
     peak_connections := if peak_connections s <? active then active else peak_connections s}}.

(** One step of the thread where nothing outside decides. *)
Definition thread_step (t : Thread) (w : World) : option World :=
  let go t' (w : World) := Some w{{thread := Some t'}} in
  match t with
  | TWait => match work_ready w with O => None | S n => go (TReap (bridges w)) w{{work_ready := n}} end
  | TReap [] => go TCheckDraining w
  | TReap (h :: todo) =>
      match table w !! h with
      | None => go (TJoined h (inl (- ENOENT)) todo) w
      | Some None => go (TReap todo) w
      | Some (Some result) =>
          go (TJoined h (inr result) todo) w{{table := delete h (table w); cancelled := cancelled w ∖ {[h]}}}
      end
  | TJoined h ret todo =>
      go (TReap todo) w{{bridges := filter (fun other => other <> h) (bridges w); stats := count_reaped ret (stats w)}}
  | TCheckDraining => if draining w then go TShouldStop w else go TCheckStopping w
  | TCheckStopping => if stopping w then go TShouldStop w else go TBudget w
  | TBudget => go (TLoop (accept_batch (stats w))) w
  | TLoop budget =>
      if negb (budget =? 0) && tcpcc_service_admission_available w then go (TPop budget) w else go (TPending budget) w
  | TPop budget =>
      match ready_list w with
      | [] => go (TPending budget) w
      | e :: rest =>
          go (TAdmit e budget)
             w{{ready_list := rest; entries := alter (with_queued false) e (entries w); fault := fault w || freed e w}}
      end
  | TAdmit e budget => if tcpcc_service_admission_available w then go (TAccept e budget) w else go (TLoop budget) w
  | TEagain budget => go (TLoop budget) w{{stats := (stats w){{accept_eagain := u32 (accept_eagain (stats w) + 1)}}}}
  | TFail status => go TFailClear (service_failed status w)
  | TFailClear => go TFailSnapshot (tcpcc_service_clear_ready w)
  | TFailSnapshot => go (TFailShutdown (tcpcc_service_snapshot_listeners w)) w
  | TFailShutdown [] => go TShouldStop w
  | TFailShutdown (e :: todo) => go (TFailShutdown todo) (shutdown_listener e w)
  | TQueue e budget inherits => go (TDetach e budget inherits) (tcpcc_service_queue_listener e w)
  | TDetach e budget inherits => go (TStart e budget) (tcpcc_service_detach_accepted_callback inherits e w)
  | TReject status budget => go (TLoop (budget - 1)) w{{stats := count_rejected status (stats w)}}
  | TAdd h budget =>
      let added := w{{bridges := bridges w ++ [h]; stats := count_accepted (stats w)}} in
      if stopping w then go (TCancel h budget) added else go (TLoop (budget - 1)) added
  | TCancel h budget => go (TLoop (budget - 1)) (tcpcc_bridge_cancel_session h w)
  | TPending budget =>
      go TShouldStop
         w{{posting := if (budget =? 0) && negb (bool_decide (ready_list w = [])) then S (posting w) else posting w}}
  | TShouldStop =>
      let idle := active_connections (stats w) =? 0 in
      let noted := w{{drained := drained w || (draining w && idle)}} in
      if stopping w && idle then go TStopped noted else go TKthread noted
  | TKthread => if kthread_stop w then go TStopped w else go TWait w
  | TStopped => go TExited w{{stopped := true}}
  | TAccept _ _ | TStart _ _ | TExited => None
  end.

(** What [kernel_accept] answers, with whether the socket inherits from the listener, and [kzalloc] with [tcpcc_bridge_start] *)
Inductive AcceptAnswer := AcceptAgain | AcceptError (status : Z) | Accepted (inherits : bool).
Inductive BridgeAnswer := BridgeNoMemory | BridgeError (status : Z) | Bridged (handle : Z).

(** An error of the kernel. *)
Definition errno (status : Z) : bool := (-4095 <=? status) && (status <? 0).

Definition accept_step (a : AcceptAnswer) (w : World) : option World :=
  match thread w with
  | Some (TAccept e budget) =>
      let w := w{{fault := fault w || freed e w}} in
      match a with
      | AcceptAgain => Some w{{thread := Some (TEagain budget)}}
      | AcceptError status => if errno status && negb (status =? - EAGAIN) then Some w{{thread := Some (TFail status)}} else None
      | Accepted inherits =>
          if negb inherits || bool_decide (e ∈ children w) then
            Some w{{children := if inherits then drop_one e (children w) else children w;
                    taken := if inherits then e :: taken w else taken w; thread := Some (TQueue e budget inherits)}}
          else None
      end
  | _ => None
  end.
Definition bridge_step (b : BridgeAnswer) (w : World) : option World :=
  match thread w with
  | Some (TStart e budget) =>
      let w := w{{fault := fault w || freed e w}} in
      match b with
      | BridgeNoMemory => Some w{{thread := Some (TReject (- ENOMEM) budget)}}
      | BridgeError status => if errno status then Some w{{thread := Some (TReject status budget)}} else None
      | Bridged h =>
          if bool_decide (table w !! h = None) && (0 <? h) && (h <? 2 ^ 31)
             && (Z.of_nat (size (table w)) <? TCPCC_BRIDGE_SESSION_LIMIT)
          then Some w{{table := <[h := None]> (table w); thread := Some (TAdd h budget)}}
          else None
      end
  | _ => None
  end.

(** ** The control thread *)

Definition valid_config (c : Config) : bool :=
  (backend_ipv4 c =? INADDR_LOOPBACK) && negb (backend_port c =? 0) && (reserved c =? 0)
  && (0 <=? max_connections c) && (max_connections c <=? TCPCC_BRIDGE_SESSION_LIMIT)
  && (1 <=? c_accept_batch c) && (c_accept_batch c <=? TCPCC_SERVICE_MAX_ACCEPT_BATCH).

Definition tcpcc_service_reset_start (c : Config) (w : World) : World :=
  w{{stats := no_stats{{ss_max_connections := max_connections c; accept_batch := c_accept_batch c;
                        state := TCPCC_CONTROL_SERVICE_RUNNING}};
     listeners := []; ready_list := []; bridges := []; work_ready := O; drained := false; stopped := false;
     task := false; listener_count := 0; draining := false; stopping := false; allocated := true}}.
Definition tcpcc_service_policy_matches (c : Config) (w : World) : bool :=
  (ss_max_connections (stats w) =? max_connections c) && (accept_batch (stats w) =? c_accept_batch c).

(** [kfree(entry)], a fault when the ready list or the socket still has it, and the entry at the end of the list of listeners *)
Definition referenced (entry : Entry) : bool := callback_installed entry || ready_queued entry.
Definition free_entry (e : Z) (w : World) : World :=
  w{{entries := delete e (entries w); fault := fault w || from_option referenced true (entries w !! e)}}.
Definition link_listener (e : Z) (w : World) : World :=
  w{{listeners := listeners w ++ [e]; listener_count := listener_count w + 1}}.
Definition unlink_listener (e : Z) (w : World) : World :=
  w{{listeners := filter (fun other => other <> e) (listeners w);
     listener_count := if bool_decide (e ∈ listeners w) && negb (listener_count w =? 0) then listener_count w - 1
                       else listener_count w}}.

(** The locked part of [tcpcc_service_start] *)
Definition start_locked (e : Z) (w : World) : option World :=
  match entries w !! e with
  | None => Some w{{fault := true; control := CIdle}}
  | Some entry =>
      let c := e_config entry in
      let refuse ret := Some (free_entry e w){{control := CReturn ret None}} in
      if negb (allocated w) then Some (link_listener e (tcpcc_service_reset_start c w)){{control := CStartNotifier e}}
      else if draining w || stopping w then refuse (- EBUSY)
      else if negb (tcpcc_service_policy_matches c w) then refuse (- EINVAL)
      else if TCPCC_SERVICE_MAX_LISTENERS <=? listener_count w then refuse (- ENOSPC)
      else Some (link_listener e w){{control := CStartInstall e false}}
  end.

Definition tcpcc_service_cancel_bridges (w : World) : World :=
  w{{cancelled := filter (fun h => is_Some (table w !! h)) (list_to_set (bridges w)) ∪ cancelled w}}.

(** [tcpcc_bridge_set_completion_notifier] and [tcpcc_bridge_clear_completion_notifier] *)
Definition notifier_free (w : World) : bool := (size (table w) =? 0)%nat && negb (notifier w).
Definition clear_notifier (w : World) : World := w{{notifier := if (size (table w) =? 0)%nat then false else notifier w}}.

(** A call, up to the end of its first section; [memory]: whether [kzalloc] finds some, [listening]: the state of the socket *)
Definition call_step (c : Call) (memory listening : bool) (w : World) : option World :=
  let return_ ret := Some w{{control := CReturn ret None}} in
  match control w with
  | CIdle =>
      match c with
      | Start e config =>
          if negb (valid_config config) || negb listening then return_ (- EINVAL)
          else if negb memory then return_ (- ENOMEM)
          else if bool_decide (is_Some (entries w !! e)) then None
          else Some w{{entries := <[e := {| e_config := config; callback_installed := false; ready_queued := false |}]> (entries w);
                       control := CStartLock e}}
      | GetStats handle =>
          if negb (handle =? TCPCC_SERVICE_HANDLE) then return_ (- EINVAL)
          else if negb (allocated w) then return_ (- ENOENT)
          else Some w{{control := CReturn 0 (Some (stats w))}}
      | Drain handle timeout =>
          if negb (handle =? TCPCC_SERVICE_HANDLE) || (timeout =? 0) then return_ (- EINVAL)
          else if negb (allocated w) then return_ (- ENOENT)
          else Some w{{draining := true; control := CDrainClear;
                       stats := (stats w){{state := if state (stats w) =? TCPCC_CONTROL_SERVICE_RUNNING
                                                    then TCPCC_CONTROL_SERVICE_DRAINING else state (stats w)}}}}
      | Stop handle timeout =>
          if negb (handle =? TCPCC_SERVICE_HANDLE) || (timeout =? 0) then return_ (- EINVAL)
          else if negb (allocated w) then return_ (- ENOENT)
          else Some w{{draining := true; stopping := true; control := CStopClear (task w);
                       stats := (stats w){{state := TCPCC_CONTROL_SERVICE_STOPPING}}}}
      end
  | _ => None
  end.

(** A further section of a call; [answer]: what starting the thread returns *)
Definition control_step (answer : Z) (w : World) : option World :=
  let go c (w : World) := Some w{{control := c}} in
  match control w with
  | CIdle => None
  | CStartLock e => start_locked e w
  | CStartNotifier e =>
      if notifier_free w then go (CStartInstall e true) w{{notifier := true}}
      else go (CFailRestore e (- EBUSY) true false) w
  | CStartInstall e first =>
      if listener_in_use e w then go (CFailRestore e (- EBUSY) first first) w
      else if first then go (CStartThread e) (install_listener_callback e w)
      else go (CStartQueue e) (install_listener_callback e w)
  | CStartThread e =>
      if answer =? 0 then go (CStartTask e) w{{thread := Some TWait}}
      else if errno answer then go (CFailRestore e answer true true) w
      else None
  | CStartTask e => go (CStartQueue e) w{{task := true}}
  | CStartQueue e => go (CReturn 0 None) (tcpcc_service_queue_listener e w)
  | CFailRestore e ret first notified => go (CFailRemove e ret first notified) (tcpcc_service_restore_listener_callback e w)
  | CFailRemove e ret first notified => go (CFailUnlink e ret first notified) (tcpcc_service_remove_ready_listener e w)
  | CFailUnlink e ret first notified => go (CFailNotifier e ret first notified) (unlink_listener e w)
  | CFailNotifier e ret first notified => if notified then go (CFailReset e ret first) (clear_notifier w) else go (CFailReset e ret first) w
  | CFailReset e ret first => if first then go (CFailClear e ret) w{{allocated := false; listener_count := 0}} else go (CFailFree e ret) w
  | CFailClear e ret => go (CFailFree e ret) (tcpcc_service_clear_ready w)
  | CFailFree e ret => go (CReturn ret None) (free_entry e w)
  | CDrainClear => go CDrainSnapshot (tcpcc_service_clear_ready w)
  | CDrainSnapshot => go (CDrainShutdown (tcpcc_service_snapshot_listeners w)) w
  | CDrainShutdown [] => go CDrainPost w
  | CDrainShutdown (e :: todo) => go (CDrainShutdown todo) (shutdown_listener e w)
  | CDrainPost => go CDrainWait w{{posting := S (posting w)}}
  | CDrainWait => if drained w then go CDrainStats w else None
  | CDrainStats => if allocated w then go (CReturn 0 (Some (stats w))) w else go (CReturn (- ENOENT) None) w
  | CStopClear t => go (CStopSnapshot t) (tcpcc_service_clear_ready w)
  | CStopSnapshot t => go (CStopShutdown t (tcpcc_service_snapshot_listeners w)) w
  | CStopShutdown t [] => go (CStopCancel t) w
  | CStopShutdown t (e :: todo) => go (CStopShutdown t todo) (shutdown_listener e w)
  | CStopCancel t => go (CStopPost t) (tcpcc_service_cancel_bridges w)
  | CStopPost t => go (CStopWait t) w{{posting := S (posting w)}}
  | CStopWait t => if stopped w then go (CStopThread t) w else None
  | CStopThread t => if t then go CStopReap w{{kthread_stop := true}} else go CStopNotifier w
  | CStopReap =>
      match thread w with
      | Some TExited => go CStopNotifier w{{thread := None; kthread_stop := false}}
      | _ => None
      end
  | CStopNotifier => go CStopRelease (clear_notifier w)
  | CStopRelease => go CStopSplice (tcpcc_service_clear_ready w)
  | CStopSplice => go (CStopFree (listeners w)) w{{listeners := []; listener_count := 0}}
  | CStopFree (e :: todo) =>
      go (CStopFree todo)
         (free_entry e (release_listener e (tcpcc_service_remove_ready_listener e (tcpcc_service_restore_listener_callback e w))))
  | CStopFree [] => go CStopFinal w
  | CStopFinal =>
      let s := (stats w){{state := TCPCC_CONTROL_SERVICE_STOPPED}} in
      go (CReturn 0 (Some s)) w{{task := false; stats := s; allocated := false}}
  | CReturn _ _ => go CIdle w
  end.

(** ** Interleavings *)

Inductive Label :=
  | LThread | LAccept (a : AcceptAnswer) | LBridge (b : BridgeAnswer)
  | LCall (c : Call) (memory listening : bool) | LControl (answer : Z) | LTimeout
  | LDataReady (listener : Z) | LConnect (listener : Z) | LChildReady (entry : Z) | LComplete | LFinish (handle : Z) (result : BridgeResult) | LNotify.

(** The result of a bridge: its counters, and an error or none. *)
Definition result_good (r : BridgeResult) : bool :=
  (0 <=? public_to_backend_bytes r) && (0 <=? backend_to_public_bytes r) && ((br_status r =? 0) || errno (br_status r)).

Definition step (l : Label) (w : World) : option World :=
  match l with
  | LThread => t ← thread w; thread_step t w
  | LAccept a => accept_step a w
  | LBridge b => bridge_step b w
  | LCall c memory listening => call_step c memory listening w
  | LControl answer => control_step answer w
  | LTimeout =>
      match control w with CDrainWait | CStopWait _ => Some w{{control := CReturn (- ETIMEDOUT) None}} | _ => None end
  | LDataReady e => Some (tcpcc_service_listener_data_ready e w)
  | LConnect e => if listener_in_use e w then Some w{{children := e :: children w}} else None
  | LChildReady e => if bool_decide (e ∈ children w ++ taken w) then Some (child_data_ready e w) else None
  | LComplete => match posting w with O => None | S n => Some w{{posting := n; work_ready := S (work_ready w)}} end
  | LFinish h r =>
      match table w !! h with
      | Some None =>
          if result_good r then Some w{{table := <[h := Some r]> (table w); notifying := S (notifying w)}} else None
      | _ => None
      end
  | LNotify =>
      match notifying w with
      | O => None
      | S n => if notifier w then Some (tcpcc_service_wake w{{notifying := n}}) else Some w{{notifying := n}}
      end
  end.

(** A start that fails and frees its entry, although a connection in the queue of its listener points to it. *)
Definition abandons (l : Label) (w : World) : bool :=
  match l, control w with LControl _, CFailFree e _ => bool_decide (e ∈ children w) | _, _ => false end.

Inductive reachable : World -> Prop :=
  | reachable_boot : reachable boot
  | reachable_step w l w' : reachable w -> step l w = Some w' -> reachable w'.

Fixpoint run_labels (ls : list Label) (w : World) : option World :=
  match ls with [] => Some w | l :: ls => w' ← step l w; run_labels ls w' end.

(** Whether a step of a run abandons a connection. *)
Fixpoint abandoned (ls : list Label) (w : World) : bool :=
  match ls with
  | [] => false
  | l :: ls => abandons l w || match step l w with Some w' => abandoned ls w' | None => false end
  end.

Lemma reachable_run ls w w' : reachable w -> run_labels ls w = Some w' -> reachable w'.
Proof.
  revert w. induction ls as [|l ls IH]; intros w Hw H; cbn in H; [by simplify_eq|].
  destruct (step l w) as [w1|] eqn:Hs; [|done]. apply (IH w1); [by econstructor|done].
Qed.
