(* ===== verification/ServiceInvariants.v ===== *)
(** * The hosted kernel: invariants of the service

    What holds in every state that [KernelService.reachable] reaches: [phase], how far the control thread and the service thread are
    in a start, a drain and a stop; [ledger], the bridges, the sessions and the counters; [listing], the entries, the list of
    listeners and the ready list; and [guarded], the entries that connections point to, which holds as long as no failed start
    abandons one.  Each has a lemma for a step that leaves what it reads alone, one for each step that does not,
    and its preservation by every label. *)

From S2P Require Import Prelude PyStr Reports Py Effects Struct IpAddr Control Bridges Sessions KernelService.
From Stdlib Require Import ZifyBool.
From stdpp Require Import gmap.
From coqutil Require Import Datatypes.RecordSetters.
Import DoubleBraceUpdate.
Local Open Scope Z_scope.


(** * Invariants *)

(** ** The phases of a service *)

(** Calls in a phase in which there is no service thread, although the service is allocated. *)
Definition threadless (c : Control) : bool :=
  match c with
  | CStartNotifier _ | CStartInstall _ true | CStartThread _ | CFailRestore _ _ true _ | CFailRemove _ _ true _
  | CFailUnlink _ _ true _ | CFailNotifier _ _ true _ | CFailReset _ _ true
  | CStopNotifier | CStopRelease | CStopSplice | CStopFree _ | CStopFinal => true
  | _ => false
  end.
(** Calls in the middle of using the service. *)
Definition in_drain (c : Control) : bool :=
  match c with CDrainClear | CDrainSnapshot | CDrainShutdown _ | CDrainPost | CDrainWait | CDrainStats => true | _ => false end.
Definition in_stop (c : Control) : bool :=
  match c with
  | CStopClear _ | CStopSnapshot _ | CStopShutdown _ _ | CStopCancel _ | CStopPost _ | CStopWait _ | CStopThread _ | CStopReap
  | CStopNotifier | CStopRelease | CStopSplice | CStopFree _ | CStopFinal => true
  | _ => false
  end.
Definition in_start (c : Control) : bool :=
  match c with
  | CStartNotifier _ | CStartInstall _ _ | CStartThread _ | CStartTask _ | CStartQueue _ | CFailRestore _ _ _ _
  | CFailRemove _ _ _ _ | CFailUnlink _ _ _ _ | CFailNotifier _ _ _ _ | CFailReset _ _ _ => true
  | _ => false
  end.
(** Past the wait of a stop. *)
Definition stop_heard (c : Control) : bool :=
  match c with CStopThread _ | CStopReap | CStopNotifier | CStopRelease | CStopSplice | CStopFree _ | CStopFinal => true | _ => false end.
Definition stop_task (c : Control) : bool :=
  match c with
  | CStopClear t | CStopSnapshot t | CStopShutdown t _ | CStopCancel t | CStopPost t | CStopWait t | CStopThread t => t
  | _ => true
  end.
Definition at_task (c : Control) : bool := match c with CStartTask _ => true | _ => false end.
Definition at_reap (c : Control) : bool := match c with CStopReap => true | _ => false end.

(** What a phase knows of the service thread: there is none, it is in its loop, it has left it, it has ended. *)
Inductive Progress := PNone | PLoop | PLeft | PEnded.
Definition progress (t : option Thread) : Progress :=
  match t with None => PNone | Some TStopped => PLeft | Some TExited => PEnded | Some _ => PLoop end.
Definition some_thread (p : Progress) : bool := match p with PNone => false | _ => true end.
Definition ended (p : Progress) : bool := match p with PNone | PEnded => true | _ => false end.
Definition has_left (p : Progress) : bool := match p with PLeft | PEnded => true | _ => false end.

(** There is a thread exactly while the service is allocated and no call is starting or releasing it; the control
    thread and the service thread agree on how far a drain and a stop are. *)
Definition phase_ok (a d s tk sd k : bool) (c : Control) (p : Progress) : bool :=
  Bool.eqb (some_thread p) (a && negb (threadless c))
  && implb (in_start c || in_drain c || in_stop c) a
  && implb (a && negb (threadless c) && negb (at_task c)) tk && stop_task c
  && implb (in_drain c) d && implb (in_stop c) s && implb (in_start c) (negb s) && implb s d
  && implb (stop_heard c) sd && implb sd (ended p && s) && implb (has_left p) s && Bool.eqb k (at_reap c).
Definition phase (w : World) : bool :=
  phase_ok (allocated w) (draining w) (stopping w) (task w) (stopped w) (kthread_stop w) (control w) (progress (thread w)).

(** The cases of a step: the label, where the threads are, and what decides. *)
Ltac step_cases H :=
  repeat match type of H with
         | Some _ = Some _ => apply (inj Some) in H; subst
         | None = Some _ => discriminate H
         | (if ?b then _ else _) = Some _ => destruct b eqn:?
         | (match ?x with _ => _ end) = Some _ => destruct x eqn:?
         | (_ ≫= _) = Some _ => cbn in H
         end.
Lemma reap_heard c : at_reap c = true -> stop_heard c = true.
Proof. by destruct c. Qed.
Ltac open_world w := destruct w as [a d s tk ? ? sd ? ? ? ? ? ? ? ? ? ? ? t k c ? ? ? ?]; unfold phase in *; simpl in *; subst.

Lemma phase_thread t w w' : phase w = true -> thread w = Some t -> thread_step t w = Some w' -> phase w' = true.
Proof.
  intros Hw Ht H. destruct t; cbn [thread_step] in H; step_cases H.
  all: try (rewrite <- Hw; unfold phase; rewrite Ht; reflexivity).
  all: open_world w; unfold phase_ok, constant in *; pose proof (reap_heard c) as Hr;
    rewrite !andb_true_iff in *; destruct_and!; repeat split; try assumption.
  all: repeat match goal with H : implb ?x _ = true |- implb ?x _ = true => destruct x; [|done]; simpl in * end; try done.
  destruct (at_reap c); [|done]. rewrite (Hr eq_refl) in *. by destruct sd.
Qed.
Ltac phase_flags :=
  repeat match goal with
         | H : phase_ok ?a ?d ?s ?tk ?sd ?k ?c ?p = true |- _ =>
             first [is_var a; destruct a | is_var d; destruct d | is_var s; destruct s | is_var tk; destruct tk
                   | is_var sd; destruct sd | is_var k; destruct k
                   | match c with context [?b] => is_var b; match type of b with bool => destruct b end end
                   | match p with progress ?t => is_var t; destruct (progress t) end];
             try discriminate; try reflexivity
         end.
Lemma phase_control answer w w' : phase w = true -> control_step answer w = Some w' -> phase w' = true.
Proof.
  intros Hw H. unfold control_step, start_locked in H. destruct (control w) eqn:Hc; step_cases H.
  all: try (rewrite <- Hw; unfold phase; rewrite Hc; reflexivity).
  all: open_world w.
  all: phase_flags.
Qed.

Lemma phase_step l w w' : phase w = true -> step l w = Some w' -> phase w' = true.
Proof.
  intros Hw H. destruct l; unfold step in H.
  - destruct (thread w) as [t|] eqn:Ht; [|done]. by apply (phase_thread t w).
  - unfold accept_step in H. step_cases H; (rewrite <- Hw; unfold phase; match goal with H : thread w = _ |- _ => rewrite H end; reflexivity).
  - unfold bridge_step in H. step_cases H; (rewrite <- Hw; unfold phase; match goal with H : thread w = _ |- _ => rewrite H end; reflexivity).
  - unfold call_step in H. step_cases H. all: open_world w. all: phase_flags.
  - by apply (phase_control answer w).
  - step_cases H; open_world w; phase_flags.
  - unfold tcpcc_service_listener_data_ready in H. apply (inj Some) in H; subst.
    by destruct (_ && _).
  - step_cases H; by rewrite <- Hw.
  - step_cases H; by rewrite <- Hw.
  - step_cases H; by rewrite <- Hw.
  - step_cases H; by rewrite <- Hw.
  - step_cases H; by rewrite <- Hw.
Qed.
Lemma phase_reachable w : reachable w -> phase w = true.
Proof. induction 1; [done|by eapply phase_step]. Qed.

Lemma phase_alive t w : phase w = true -> thread w = Some t -> allocated w = true /\ threadless (control w) = false.
Proof.
  unfold phase, phase_ok. intros H Ht. rewrite !andb_true_iff, Ht in H. destruct_and!.
  destruct (allocated w), (threadless (control w)); by destruct t.
Qed.
Lemma phase_dead w : phase w = true -> allocated w = false \/ threadless (control w) = true -> thread w = None.
Proof.
  intros H Ha. destruct (thread w) as [t|] eqn:Ht; [|done]. apply (phase_alive t) in H as [H1 H2]; [|done]. naive_solver congruence.
Qed.
Lemma phase_kthread w : phase w = true -> progress (thread w) = PLoop -> kthread_stop w = false.
Proof.
  unfold phase, phase_ok. intros H Ht. rewrite !andb_true_iff, Ht in H. destruct_and!. pose proof (reap_heard (control w)).
  destruct (kthread_stop w), (at_reap (control w)), (stop_heard (control w)), (stopped w); try done; naive_solver.
Qed.
Lemma phase_stopping w : phase w = true -> stopping w = true -> draining w = true.
Proof. unfold phase, phase_ok. intros H Hs. rewrite !andb_true_iff, Hs in H. destruct_and!. by destruct (draining w). Qed.
Lemma phase_busy w : phase w = true -> in_start (control w) || in_drain (control w) || in_stop (control w) = true -> allocated w = true.
Proof. unfold phase, phase_ok. intros H Hb. rewrite !andb_true_iff, Hb in H. by destruct_and!. Qed.

(** ** The counters *)

(** The counters of a service that owns [n] bridges. *)
Record counts_good (s : ServiceStats) (n : nat) : Prop := {
  cg_active : active_connections s = Z.of_nat n;
  cg_accepted : accepted_connections s = u64 (completed_connections s + Z.of_nat n);
  cg_completed : 0 <= completed_connections s < 2 ^ 64;
  cg_peak : Z.of_nat n <= peak_connections s <= TCPCC_BRIDGE_SESSION_LIMIT;
  cg_max : 0 <= ss_max_connections s <= TCPCC_BRIDGE_SESSION_LIMIT;
  cg_admitted : ss_max_connections s <> 0 -> peak_connections s <= ss_max_connections s;
  cg_batch : 0 <= accept_batch s <= TCPCC_SERVICE_MAX_ACCEPT_BATCH;
  cg_rejected : 0 <= rejected_connections s < 2 ^ 64;
  cg_bytes : 0 <= ss_public_to_backend_bytes s < 2 ^ 64 /\ 0 <= ss_backend_to_public_bytes s < 2 ^ 64;
  cg_events : 0 <= accept_eagain s < 2 ^ 32 /\ 0 <= bridge_start_failures s < 2 ^ 32 /\ 0 <= terminal_failures s < 2 ^ 32;
  cg_state : TCPCC_CONTROL_SERVICE_STOPPED <= state s <= TCPCC_CONTROL_SERVICE_FAILED;
  cg_error : -4095 <= last_error s <= 0;
}.

Lemma u64_range z : 0 <= u64 z < 2 ^ 64.
Proof. apply Z.mod_pos_bound. lia. Qed.
Lemma u32_range z : 0 <= u32 z < 2 ^ 32.
Proof. apply Z.mod_pos_bound. lia. Qed.
#[local] Hint Resolve u64_range u32_range : core.



Lemma errno_range status : errno status = true -> -4095 <= status <= 0.
Proof. unfold errno. lia. Qed.

(** The fields of updated counters. *)
Ltac fields := cbn -[Z.of_nat u64 u32 Z.pow Z.ltb Z.eqb] in *; unfold constant in *.

Lemma counts_accepted s n : counts_good s n -> Z.of_nat n < TCPCC_BRIDGE_SESSION_LIMIT ->
  (ss_max_connections s <> 0 -> active_connections s < ss_max_connections s) -> counts_good (count_accepted s) (S n).
Proof.
  intros [] Hn Hmax. unfold TCPCC_BRIDGE_SESSION_LIMIT in *.
  assert (u32 (active_connections s + 1) = Z.of_nat (S n)) as Hu
    by (unfold u32; rewrite Z.mod_small by (change (2 ^ 32) with 4294967296; lia); lia).
  destruct s. fields. subst.
  constructor; fields; rewrite ?Hu; try done; 
    try (unfold TCPCC_BRIDGE_SESSION_LIMIT; destruct (Z.ltb_spec peak_connections (Z.of_nat (S n))); lia).
  unfold u64. rewrite Zplus_mod_idemp_l. f_equal. lia.
Qed.

Lemma counts_reaped ret s n : counts_good s (S n) ->
  match ret with inl error => errno error = true | inr result => result_good result = true end ->
  counts_good (count_reaped ret s) n.
Proof.
  intros [] Hret.
  assert (u64 (u64 (completed_connections s + 1) + Z.of_nat n) = u64 (completed_connections s + Z.of_nat (S n))) as Hu
    by (unfold u64; rewrite Zplus_mod_idemp_l; f_equal; lia).
  assert ((active_connections s =? 0) = false) as Ha by lia.
  assert (match ret with inl error => -4095 <= error <= 0 | inr r => br_status r = 0 \/ -4095 <= br_status r <= 0 end) as Hr
    by (destruct ret; [by apply errno_range|]; unfold result_good, errno in Hret; lia).
  destruct s. fields. destruct ret as [error|r]; fields; [|destruct (Z.eqb_spec (br_status r) 0)].
  all: constructor; fields; rewrite ?Ha; try done; try lia; split_and!; try apply u32_range; try lia; naive_solver.
Qed.

Lemma counts_rejected status s n : counts_good s n -> errno status = true -> counts_good (count_rejected status s) n.
Proof.
  intros [] Hs%errno_range. pose proof (u32_range (bridge_start_failures s + 1)).
  destruct s. constructor; fields; try done; tauto.
Qed.
Lemma counts_eagain s n : counts_good s n -> counts_good s{{accept_eagain := u32 (accept_eagain s + 1)}} n.
Proof. intros []. pose proof (u32_range (accept_eagain s + 1)). destruct s. constructor; fields; try done; tauto. Qed.
Lemma counts_state st s n : TCPCC_CONTROL_SERVICE_STOPPED <= st <= TCPCC_CONTROL_SERVICE_FAILED ->
  counts_good s n -> counts_good s{{state := st}} n.
Proof. intros Hst []. by constructor. Qed.
Lemma counts_error status s n : errno status = true -> counts_good s n -> counts_good s{{last_error := status}} n.
Proof. intros Hs%errno_range []. by constructor. Qed.
Lemma counts_start c : valid_config c = true ->
  counts_good no_stats{{ss_max_connections := max_connections c; accept_batch := c_accept_batch c;
                        state := TCPCC_CONTROL_SERVICE_RUNNING}} 0.
Proof.
  unfold valid_config, TCPCC_BRIDGE_SESSION_LIMIT, TCPCC_SERVICE_MAX_ACCEPT_BATCH. intros H. destruct c.
  constructor; fields; unfold TCPCC_BRIDGE_SESSION_LIMIT, TCPCC_SERVICE_MAX_ACCEPT_BATCH; try done; lia.
Qed.

(** ** The bridges a service owns *)

(** The bridge that the thread has joined and not yet unlinked, the one it has started and not yet linked,
    those it has still to look at, and whether it is past the last test of admission. *)
Definition joining (t : option Thread) : option Z := match t with Some (TJoined h _ _) => Some h | _ => None end.
Definition adding (t : option Thread) : option Z := match t with Some (TAdd h _) => Some h | _ => None end.
Definition unseen (t : option Thread) : list Z :=
  match t with Some (TReap todo) => todo | Some (TJoined h _ todo) => h :: todo | _ => [] end.
Definition admitted (t : option Thread) : bool :=
  match t with Some (TAccept _ _ | TQueue _ _ _ | TDetach _ _ _ | TStart _ _ | TAdd _ _) => true | _ => false end.
(** What the thread is about to put in the counters. *)
Definition status_good (t : option Thread) : Prop :=
  match t with
  | Some (TFail status | TReject status _) => errno status = true
  | Some (TJoined _ (inl error) _) => errno error = true
  | Some (TJoined _ (inr result) _) => result_good result = true
  | _ => True
  end.

Record ledger (w : World) : Prop := {
  lg_counts : counts_good (stats w) (length (bridges w));
  lg_nodup : NoDup (bridges w);
  lg_table : forall h, is_Some (table w !! h) <-> (h ∈ bridges w /\ joining (thread w) <> Some h) \/ adding (thread w) = Some h;
  lg_adding : forall h, adding (thread w) = Some h -> h ∉ bridges w;
  lg_unseen : NoDup (unseen (thread w)) /\ unseen (thread w) ⊆ bridges w;
  lg_limit : Z.of_nat (size (table w)) <= TCPCC_BRIDGE_SESSION_LIMIT;
  lg_admitted : admitted (thread w) = true -> ss_max_connections (stats w) <> 0 ->
                active_connections (stats w) < ss_max_connections (stats w);
  lg_idle : progress (thread w) <> PLoop -> bridges w = [];
  lg_status : status_good (thread w);
  lg_results : forall h r, table w !! h = Some (Some r) -> result_good r = true;
}.

(** A step that leaves the bridges alone. *)
Lemma ledger_frame w w' : ledger w -> bridges w' = bridges w -> table w' = table w ->
  counts_good (stats w') (length (bridges w)) -> ss_max_connections (stats w') = ss_max_connections (stats w) ->
  joining (thread w') = joining (thread w) -> adding (thread w') = adding (thread w) ->
  (unseen (thread w') = unseen (thread w) \/ unseen (thread w') = [] \/ NoDup (unseen (thread w')) /\ unseen (thread w') ⊆ bridges w) ->
  (admitted (thread w') = true -> admitted (thread w) = true \/ tcpcc_service_admission_available w = true) ->
  (progress (thread w') <> PLoop -> bridges w = []) -> status_good (thread w') -> ledger w'.
Proof.
  intros [] Hb Ht Hc Hm Hj Ha Hu Had Hp Hs.
  constructor; rewrite ?Hb, ?Ht, ?Hj, ?Ha; try done.
  - destruct Hu as [->|[->|Hu]]; [done| |done]. split; [constructor|set_solver].
  - intros [Ha'|Ha']%Had Hmax; destruct Hc, lg_counts0; rewrite cg_active0, <- cg_active1, Hm in *; [auto|].
    unfold tcpcc_service_admission_available in Ha'. lia.
Qed.
#[local] Hint Resolve counts_rejected counts_eagain counts_state counts_error counts_start : core.

Lemma adding_bound w h : ledger w -> adding (thread w) = Some h -> (length (bridges w) < size (table w))%nat.
Proof.
  intros [] Ha. rewrite <- (size_list_to_set (C := gset Z)), <- size_dom by done.
  apply subset_size. split.
  - intros h' Hh%elem_of_list_to_set. apply elem_of_dom, lg_table0. left. split; [done|].
    destruct (thread w) as [[]|]; done.
  - intros H. apply (lg_adding0 h Ha). apply (elem_of_list_to_set (C := gset Z)), H. apply elem_of_dom, lg_table0. by right.
Qed.

Lemma ledger_reap_none h todo w : ledger w -> thread w = Some (TReap (h :: todo)) -> table w !! h <> None.
Proof.
  intros [] Ht Hn. destruct (lg_table0 h) as [_ H]. rewrite Hn, Ht in H. apply (is_Some_None (A := option BridgeResult)), H.
  left. split; [|done]. rewrite Ht in lg_unseen0. set_solver.
Qed.
Lemma ledger_joins h result todo w w' : ledger w -> thread w = Some (TReap (h :: todo)) -> table w !! h = Some (Some result) ->
  bridges w' = bridges w -> stats w' = stats w -> table w' = delete h (table w) ->
  thread w' = Some (TJoined h (inr result) todo) -> ledger w'.
Proof.
  intros Hw Ht Hh Hb Hs Htb Ht'. destruct Hw. rewrite Ht in *. cbn in lg_unseen0.
  constructor; rewrite ?Hb, ?Hs, ?Htb, ?Ht'; try done; cbn.
  - intros h'. destruct (decide (h' = h)) as [->|Hne].
    + rewrite lookup_delete_eq, is_Some_alt. naive_solver.
    + rewrite lookup_delete_ne, lg_table0 by done. cbn. naive_solver.
  - rewrite map_size_delete_Some by done. lia.
  - eauto.
  - intros h' r [_ H]%lookup_delete_Some. eauto.
Qed.
Lemma ledger_reaped h ret todo w w' : ledger w -> thread w = Some (TJoined h ret todo) ->
  bridges w' = filter (fun other => other <> h) (bridges w) -> stats w' = count_reaped ret (stats w) -> table w' = table w ->
  thread w' = Some (TReap todo) -> ledger w'.
Proof.
  intros Hw Ht Hb Hs Htb Ht'. destruct Hw. rewrite Ht in *. cbn in lg_unseen0. destruct lg_unseen0 as [Hnd Hsub].
  assert (h ∈ bridges w) as Hh by set_solver.
  assert (length (bridges w) = S (length (filter (fun other => other <> h) (bridges w)))) as Hl
    by (by rewrite (without_permutation h (bridges w)) at 1).
  constructor; rewrite ?Hb, ?Hs, ?Htb, ?Ht'; try done; cbn.
  - apply counts_reaped; [by rewrite <- Hl|]. by destruct ret.
  - by apply NoDup_filter.
  - intros h'. rewrite lg_table0, list_elem_of_filter. cbn. naive_solver.
  - apply NoDup_cons in Hnd as [Hn Hnd]. split; [done|]. intros h' Hh'. apply list_elem_of_filter. set_solver.
Qed.
Lemma ledger_started h budget entry w w' : ledger w -> thread w = Some (TStart entry budget) -> table w !! h = None ->
  Z.of_nat (size (table w)) < TCPCC_BRIDGE_SESSION_LIMIT ->
  bridges w' = bridges w -> stats w' = stats w -> table w' = <[h := None]> (table w) ->
  thread w' = Some (TAdd h budget) -> ledger w'.
Proof.
  intros Hw Ht Hh Hl Hb Hs Htb Ht'. destruct Hw. rewrite Ht in *.
  assert (h ∉ bridges w) as Hn.
  { intros H. apply (is_Some_None (A := option BridgeResult)). rewrite <- Hh. apply lg_table0. by left. }
  constructor; rewrite ?Hb, ?Hs, ?Htb, ?Ht'; try done; cbn.
  - intros h'. destruct (decide (h' = h)) as [->|Hne].
    + rewrite lookup_insert_eq. split; eauto.
    + rewrite lookup_insert_ne, lg_table0 by done. cbn. naive_solver.
  - by intros ? [= <-].
  - rewrite map_size_insert_None by done. lia.
  - intros h' r [[_ ?]|[_ ?]]%lookup_insert_Some; [done|eauto].
Qed.
Lemma ledger_added h budget w w' : ledger w -> thread w = Some (TAdd h budget) ->
  bridges w' = bridges w ++ [h] -> stats w' = count_accepted (stats w) -> table w' = table w ->
  thread w' = Some (TCancel h budget) \/ thread w' = Some (TLoop (budget - 1)) -> ledger w'.
Proof.
  intros Hw Ht Hb Hs Htb Ht'.
  pose proof (adding_bound w h Hw) as Hl. destruct Hw. rewrite Ht in *. specialize (Hl eq_refl).
  constructor; rewrite ?Hb, ?Hs, ?Htb; destruct Ht' as [Ht'|Ht']; rewrite ?Ht'; try done; cbn.
  1-2: rewrite length_app, Nat.add_1_r; apply counts_accepted; auto; lia.
  1-2: apply NoDup_app; split_and!; [done| |apply NoDup_singleton]; intros ? ? ->%list_elem_of_singleton; by apply (lg_adding0 h).
  1-2: intros h'; rewrite lg_table0, elem_of_app, list_elem_of_singleton; cbn; naive_solver.
  all: split; [constructor|set_solver].
Qed.
Lemma ledger_finished h r w w' : ledger w -> table w !! h = Some None -> result_good r = true ->
  bridges w' = bridges w -> stats w' = stats w -> table w' = <[h := Some r]> (table w) -> thread w' = thread w -> ledger w'.
Proof.
  intros [] Hh Hr Hb Hs Htb Ht.
  constructor; rewrite ?Hb, ?Hs, ?Htb, ?Ht; try done.
  - intros h'. rewrite <- lg_table0. destruct (decide (h' = h)) as [->|Hne].
    + rewrite lookup_insert_eq, Hh. split; eauto.
    + by rewrite lookup_insert_ne.
  - rewrite map_size_insert_Some; eauto.
  - intros h' r' [[_ [= <-]]|[_ ?]]%lookup_insert_Some; [done|eauto].
Qed.

(** ** The listeners *)

(** What the invariants read of the entries. *)
Definition queued (m : gmap Z Entry) (e : Z) : bool := from_option ready_queued false (m !! e).
Definition installed (m : gmap Z Entry) (e : Z) : bool := from_option callback_installed false (m !! e).
Definition config_of (m : gmap Z Entry) (e : Z) : option Config := e_config <$> m !! e.

(** The ready list holds the entries that are marked, once each. *)
Definition agrees (m : gmap Z Entry) (ready : list Z) : Prop := NoDup ready /\ forall e, e ∈ ready <-> queued m e = true.

Lemma queued_config m e : queued m e = true -> is_Some (config_of m e).
Proof. unfold queued, config_of. destruct (m !! e); [cbn; eauto|done]. Qed.
Lemma freed_config e w : freed e w = negb (bool_decide (is_Some (config_of (entries w) e))).
Proof. unfold freed, config_of. by destruct (entries w !! e). Qed.
Lemma not_freed e w : is_Some (config_of (entries w) e) -> freed e w = false.
Proof. intros H. rewrite freed_config. by rewrite bool_decide_eq_true_2. Qed.

Section Alter.
Context (m : gmap Z Entry) (e : Z).

Lemma queued_with_queued v e' : queued (alter (with_queued v) e m) e' =
  if bool_decide (e' = e) then v && bool_decide (is_Some (config_of m e)) else queued m e'.
Proof.
  unfold queued, config_of. case_bool_decide as He; [subst|by rewrite lookup_alter_ne].
  rewrite lookup_alter_eq. destruct (m !! e); cbn; by rewrite ?andb_true_r, ?andb_false_r.
Qed.
Lemma queued_with_installed v e' : queued (alter (with_installed v) e m) e' = queued m e'.
Proof. unfold queued. destruct (decide (e' = e)) as [->|]; [rewrite lookup_alter_eq; by destruct (m !! e)|by rewrite lookup_alter_ne]. Qed.
Lemma installed_with_queued v e' : installed (alter (with_queued v) e m) e' = installed m e'.
Proof. unfold installed. destruct (decide (e' = e)) as [->|]; [rewrite lookup_alter_eq; by destruct (m !! e)|by rewrite lookup_alter_ne]. Qed.
Lemma installed_with_installed v e' : installed (alter (with_installed v) e m) e' =
  if bool_decide (e' = e) then v && bool_decide (is_Some (config_of m e)) else installed m e'.
Proof.
  unfold installed, config_of. case_bool_decide as He; [subst|by rewrite lookup_alter_ne].
  rewrite lookup_alter_eq. destruct (m !! e); cbn; by rewrite ?andb_true_r, ?andb_false_r.
Qed.
Lemma config_with_queued v e' : config_of (alter (with_queued v) e m) e' = config_of m e'.
Proof. unfold config_of. destruct (decide (e' = e)) as [->|]; [rewrite lookup_alter_eq; by destruct (m !! e)|by rewrite lookup_alter_ne]. Qed.
Lemma config_with_installed v e' : config_of (alter (with_installed v) e m) e' = config_of m e'.
Proof. unfold config_of. destruct (decide (e' = e)) as [->|]; [rewrite lookup_alter_eq; by destruct (m !! e)|by rewrite lookup_alter_ne]. Qed.

Lemma agrees_installed v ready : agrees m ready -> agrees (alter (with_installed v) e m) ready.
Proof. intros [H1 H2]. split; [done|]. intros e'. by rewrite queued_with_installed. Qed.
Lemma agrees_queue ready : agrees m ready -> is_Some (config_of m e) -> queued m e = false ->
  agrees (alter (with_queued true) e m) (ready ++ [e]).
Proof.
  intros [H1 H2] He Hq. split.
  - apply NoDup_app. split_and!; [done| |apply NoDup_singleton]. intros ? Hx ->%list_elem_of_singleton. apply H2 in Hx. congruence.
  - intros e'. rewrite queued_with_queued, elem_of_app, list_elem_of_singleton, H2. case_bool_decide; subst; [|naive_solver].
    rewrite bool_decide_eq_true_2 by done. naive_solver.
Qed.
Lemma agrees_remove ready : agrees m ready ->
  agrees (alter (with_queued false) e m) (if queued m e then filter (fun other => other <> e) ready else ready).
Proof.
  intros [H1 H2]. split; [destruct (queued m e); [by apply NoDup_filter|done]|].
  intros e'. rewrite queued_with_queued. destruct (queued m e) eqn:Hq.
  - rewrite list_elem_of_filter, H2. case_bool_decide; naive_solver.
  - rewrite H2. case_bool_decide; naive_solver.
Qed.
Lemma agrees_pop rest : agrees m (e :: rest) -> agrees (alter (with_queued false) e m) rest.
Proof.
  intros [[Hn H1]%NoDup_cons H2]. split; [done|]. intros e'. rewrite queued_with_queued. specialize (H2 e'). rewrite elem_of_cons in H2.
  case_bool_decide; naive_solver.
Qed.
Lemma agrees_insert c ready : agrees m ready -> m !! e = None ->
  agrees (<[e := {| e_config := c; callback_installed := false; ready_queued := false |}]> m) ready.
Proof.
  intros [H1 H2] He. split; [done|]. intros e'. rewrite H2. unfold queued. destruct (decide (e' = e)) as [->|].
  - by rewrite lookup_insert_eq, He.
  - by rewrite lookup_insert_ne.
Qed.
Lemma agrees_delete ready : agrees m ready -> queued m e = false -> agrees (delete e m) ready.
Proof.
  intros [H1 H2] Hq. split; [done|]. intros e'. rewrite H2. unfold queued in *. destruct (decide (e' = e)) as [->|].
  - by rewrite lookup_delete_eq, Hq.
  - by rewrite lookup_delete_ne.
Qed.
End Alter.

Lemma clear_config m ready e : config_of (foldr (fun e => alter (with_queued false) e) m ready) e = config_of m e.
Proof. induction ready as [|x ready IH]; [done|]. cbn [foldr]. by rewrite config_with_queued. Qed.
Lemma clear_installed m ready e : installed (foldr (fun e => alter (with_queued false) e) m ready) e = installed m e.
Proof. induction ready as [|x ready IH]; [done|]. cbn [foldr]. by rewrite installed_with_queued. Qed.
Lemma clear_queued m ready e : queued (foldr (fun e => alter (with_queued false) e) m ready) e = queued m e && negb (bool_decide (e ∈ ready)).
Proof.
  induction ready as [|x ready IH]; [cbn; by rewrite andb_true_r|]. cbn [foldr]. rewrite queued_with_queued, IH.
  destruct (decide (e = x)) as [->|Hne].
  - rewrite bool_decide_eq_true_2 by done. rewrite (bool_decide_eq_true_2 (x ∈ x :: ready)) by apply list_elem_of_here.
    by rewrite andb_false_r.
  - rewrite (bool_decide_eq_false_2 (e = x)) by done. f_equal. f_equal. apply bool_decide_ext. rewrite elem_of_cons. naive_solver.
Qed.
Lemma agrees_clear m ready : agrees m ready -> agrees (foldr (fun e => alter (with_queued false) e) m ready) [].
Proof.
  intros [H1 H2]. split; [constructor|]. intros e. rewrite clear_queued. specialize (H2 e).
  destruct (queued m e); cbn; [rewrite bool_decide_eq_true_2 by naive_solver|]; (split; [by intros ?%elem_of_nil|done]).
Qed.

(** The entries that exist and are not in the list of listeners. *)
Definition loose (c : Control) : list Z :=
  match c with
  | CStartLock e | CFailNotifier e _ _ _ | CFailReset e _ _ | CFailClear e _ | CFailFree e _ => [e]
  | CStopFree todo => todo
  | _ => []
  end.
(** The entry that the thread is working on, and those it is shutting down. *)
Definition held (t : option Thread) : option Z :=
  match t with Some (TAdmit e _ | TAccept e _ | TQueue e _ _ | TDetach e _ _ | TStart e _) => Some e | _ => None end.
Definition shutting (t : option Thread) : list Z := match t with Some (TFailShutdown todo) => todo | _ => [] end.

Definition unused (m : gmap Z Entry) (e : Z) : Prop := installed m e = false /\ queued m e = false.
(** What the control thread relies on; a start fails only where it is the first, before there is a thread. *)
Definition control_good (c : Control) (m : gmap Z Entry) (l : list Z) : Prop :=
  match c with
  | CStartLock e => unused m e
  | CStartNotifier e | CStartInstall e true => l = [e] /\ unused m e
  | CStartInstall e false => e ∈ l /\ unused m e
  | CStartThread e => l = [e]
  | CStartTask e | CStartQueue e => e ∈ l
  | CFailRestore e _ first _ => first = true /\ l = [e]
  | CFailRemove e _ first _ => first = true /\ l = [e] /\ installed m e = false
  | CFailUnlink e _ first _ => first = true /\ l = [e] /\ unused m e
  | CFailNotifier e _ first _ | CFailReset e _ first => first = true /\ l = [] /\ unused m e
  | CFailClear e _ | CFailFree e _ => l = [] /\ unused m e
  | CDrainShutdown todo | CStopShutdown _ todo => todo ⊆ l
  | CStopFree _ | CStopFinal => l = []
  | _ => True
  end.

Record listing (w : World) : Prop := {
  ls_fault : fault w = false;
  ls_agrees : agrees (entries w) (ready_list w);
  ls_nodup : NoDup (listeners w ++ loose (control w));
  ls_entries : forall e, is_Some (config_of (entries w) e) <-> e ∈ listeners w ++ loose (control w);
  ls_valid : forall e c, config_of (entries w) e = Some c -> valid_config c = true;
  ls_count : listener_count w = Z.of_nat (length (listeners w));
  ls_bound : listener_count w <= TCPCC_SERVICE_MAX_LISTENERS;
  ls_control : control_good (control w) (entries w) (listeners w);
  ls_held : forall e, held (thread w) = Some e -> e ∈ listeners w;
  ls_shutting : shutting (thread w) ⊆ listeners w;
  ls_unallocated : allocated w = false -> listeners w = [];
}.

(** The entries after a step that frees and installs none: marks go, or come where the callback is installed. *)
Definition marked (m m' : gmap Z Entry) : Prop :=
  (forall e, installed m' e = installed m e) /\ (forall e, config_of m' e = config_of m e) /\
  (forall e, installed m e = false -> queued m e = false -> queued m' e = false).
Lemma marked_refl m : marked m m.
Proof. done. Qed.
Lemma marked_queued v m e : (v = true -> installed m e = true) -> marked m (alter (with_queued v) e m).
Proof.
  intros Hv. split_and!; intros e'; [apply installed_with_queued|apply config_with_queued|].
  rewrite queued_with_queued. case_bool_decide; [subst|done]. destruct v; [|done]. intros. by rewrite Hv in *.
Qed.
Lemma marked_clear m ready : marked m (foldr (fun e => alter (with_queued false) e) m ready).
Proof.
  split_and!; intros e; [apply clear_installed|apply clear_config|]. rewrite clear_queued. by intros _ ->.
Qed.
#[local] Hint Resolve marked_refl marked_queued marked_clear : core.

Lemma control_good_marked c m m' l : control_good c m l -> marked m m' -> control_good c m' l.
Proof.
  intros H (Hi & _ & Hq). assert (forall e, unused m e -> unused m' e) as Hu.
  { intros e [H1 H2]. split; [by rewrite Hi|auto]. }
  destruct c; cbn in *; repeat case_match; naive_solver.
Qed.

(** A step that adds no entry and frees none. *)
Lemma listing_frame w w' : listing w -> (forall e, config_of (entries w') e = config_of (entries w) e) -> agrees (entries w') (ready_list w') -> fault w' = false ->
  listeners w' = listeners w -> listener_count w' = listener_count w -> loose (control w') = loose (control w) ->
  control_good (control w') (entries w') (listeners w) ->
  (forall e, held (thread w') = Some e -> e ∈ listeners w) -> shutting (thread w') ⊆ listeners w ->
  (allocated w' = false -> listeners w = []) -> listing w'.
Proof.
  intros [] Hcf Ha Hf Hl Hn Hlo Hc Hh Hs Hal.
  constructor; rewrite ?Hl, ?Hn, ?Hlo; try done.
  - intros e. by rewrite Hcf.
  - intros e c. rewrite Hcf. apply ls_valid0.
Qed.

(** The operations on entries keep their agreement with the ready list. *)
Lemma queue_listing_config e w : listing w -> is_Some (config_of (entries w) e) ->
  let w' := tcpcc_service_queue_listener e w in
  marked (entries w) (entries w') /\ agrees (entries w') (ready_list w') /\ fault w' = false.
Proof.
  intros [] Hs. unfold tcpcc_service_queue_listener. cbv zeta.
  destruct (match entries w !! e with Some _ => _ | None => _ end) eqn:Hq; fields.
  - destruct (entries w !! e) as [x|] eqn:Hx; [|done]. rewrite !andb_true_iff, !negb_true_iff in Hq. destruct_and!.
    split_and!; [apply marked_queued; intros _; unfold installed; by rewrite Hx|apply agrees_queue; [done|done|]|].
    + unfold queued. by rewrite Hx.
    + by rewrite not_freed, ls_fault0.
  - split_and!; [done|done|]. by rewrite not_freed, ls_fault0.
Qed.
Lemma queue_listing e w : listing w -> e ∈ listeners w ->
  let w' := tcpcc_service_queue_listener e w in
  marked (entries w) (entries w') /\ agrees (entries w') (ready_list w') /\ fault w' = false.
Proof. intros Hw He. apply queue_listing_config; [done|]. apply (ls_entries w Hw), elem_of_app. by left. Qed.
Lemma queue_in_use e w : listing w -> listener_in_use e w = true ->
  let w' := tcpcc_service_queue_listener e w in
  marked (entries w) (entries w') /\ agrees (entries w') (ready_list w') /\ fault w' = false.
Proof.
  intros Hw He. apply queue_listing_config; [done|]. unfold config_of, listener_in_use in *. destruct (entries w !! e); [cbn; eauto|done].
Qed.
Lemma clear_listing w : listing w ->
  let w' := tcpcc_service_clear_ready w in
  marked (entries w) (entries w') /\ agrees (entries w') (ready_list w') /\ fault w' = false.
Proof.
  intros []. unfold tcpcc_service_clear_ready. fields. split_and!; [done|by apply agrees_clear|].
  rewrite ls_fault0. cbn. apply not_true_iff_false. intros (e & He & Hf)%existsb_exists.
  rewrite not_freed in Hf; [done|]. apply queued_config. apply ls_agrees0. by apply list_elem_of_In.
Qed.

Lemma ready_linked t e w : phase w = true -> listing w -> thread w = Some t -> e ∈ ready_list w -> e ∈ listeners w.
Proof.
  intros Hp [] Ht He. apply ls_agrees0 in He. pose proof (queued_config _ _ He) as Hc. apply ls_entries0, elem_of_app in Hc as [|Hl]; [done|].
  apply (phase_alive t) in Hp as [_ Hp]; [|done].
  destruct (control w); cbn in Hl, Hp, ls_control0; try (by apply elem_of_nil in Hl).
  all: try apply list_elem_of_singleton in Hl as ->; unfold unused in *; destruct_and?; congruence.
Qed.

(** Where a step leaves the entries as they are. *)
Lemma listing_same w w' : listing w -> entries w' = entries w -> ready_list w' = ready_list w -> fault w' = fault w ->
  listeners w' = listeners w -> listener_count w' = listener_count w -> loose (control w') = loose (control w) ->
  control_good (control w') (entries w) (listeners w) ->
  (forall e, held (thread w') = Some e -> e ∈ listeners w) -> shutting (thread w') ⊆ listeners w ->
  (allocated w' = false -> listeners w = []) -> listing w'.
Proof.
  intros Hw He Hr Hf. intros. apply (listing_frame w); rewrite ?He, ?Hr, ?Hf; try done; apply Hw.
Qed.

Lemma snapshot_listeners w : tcpcc_service_snapshot_listeners w ⊆ listeners w.
Proof. intros e (i & Hi & _)%elem_of_take. by apply list_elem_of_lookup_2 in Hi. Qed.

Lemma listing_thread t w w' : phase w = true -> listing w -> thread w = Some t -> thread_step t w = Some w' -> listing w'.
Proof.
  intros Hp Hw Ht H.
  pose proof (ls_held w Hw) as Hh. pose proof (ls_shutting w Hw) as Hs. pose proof (ls_control w Hw) as Hc.
  pose proof (ls_unallocated w Hw) as Hal. rewrite Ht in Hh, Hs.
  destruct t; cbn [thread_step] in H; step_cases H.
  all: try (apply (listing_same w); done).
  - assert (z ∈ listeners w) as Hz by (eapply ready_linked; [done..|]; rewrite Heql; apply list_elem_of_here).
    apply (listing_frame w); try done; fields.
    + intros e. apply config_with_queued.
    + apply agrees_pop. rewrite <- Heql. apply Hw.
    + rewrite (ls_fault w Hw). apply not_freed, (ls_entries w Hw), elem_of_app. by left.
    + by apply (control_good_marked _ (entries w)), marked_queued.
    + by intros ? [= <-].
  - destruct (clear_listing w Hw) as (Hm & Ha & Hf). apply (listing_frame w); try done; [apply Hm|].
    by apply (control_good_marked _ (entries w)).
  - apply (listing_same w); try done. apply snapshot_listeners.
  - apply (listing_frame w); try done; try apply Hw.
    + cbn in Hs. fields. rewrite (ls_fault w Hw). apply not_freed, (ls_entries w Hw), elem_of_app. left. set_solver.
    + cbn in Hs |- *. set_solver.
  - destruct (queue_listing entry w Hw) as (Hm & Ha & Hf); [by apply Hh|]. apply (listing_frame w); try done; [apply Hm|].
    by apply (control_good_marked _ (entries w)).
  - apply (listing_same w); try done. fields. rewrite (not_freed entry w), andb_false_r, orb_false_r; [done|].
    apply (ls_entries w Hw), elem_of_app. left. by apply Hh.
Qed.

(** An entry comes: the start of [tcpcc_service_start]. *)
Lemma listing_insert e c w w' : listing w -> control w = CIdle -> entries w !! e = None -> valid_config c = true ->
  entries w' = <[e := {| e_config := c; callback_installed := false; ready_queued := false |}]> (entries w) ->
  control w' = CStartLock e -> ready_list w' = ready_list w -> fault w' = fault w -> listeners w' = listeners w ->
  listener_count w' = listener_count w -> thread w' = thread w -> allocated w' = allocated w -> listing w'.
Proof.
  intros [] Hctl He Hc Hm Hctl' Hr Hf Hl Hn Ht Ha. rewrite Hctl in ls_nodup0, ls_entries0. cbn [loose] in ls_nodup0, ls_entries0.
  rewrite app_nil_r in ls_nodup0, ls_entries0.
  assert (e ∉ listeners w) as Hin.
  { intros H. apply ls_entries0 in H. unfold config_of in H. rewrite He in H. by destruct H. }
  constructor; rewrite ?Hm, ?Hctl', ?Hr, ?Hf, ?Hl, ?Hn, ?Ht, ?Ha; try done; cbn [loose control_good].
  - by apply agrees_insert.
  - apply NoDup_app. split_and!; [done| |apply NoDup_singleton]. intros ? ? ->%list_elem_of_singleton. done.
  - intros e'. rewrite elem_of_app, list_elem_of_singleton. unfold config_of in *. destruct (decide (e' = e)) as [->|].
    + rewrite lookup_insert_eq. split; [by right|eauto].
    + rewrite lookup_insert_ne, ls_entries0 by done. naive_solver.
  - intros e' c'. unfold config_of in *. destruct (decide (e' = e)) as [->|].
    + rewrite lookup_insert_eq. by intros [= <-].
    + rewrite lookup_insert_ne by done. apply ls_valid0.
  - unfold unused, installed, queued. by rewrite lookup_insert_eq.
Qed.

(** An entry goes, out of every list. *)
Lemma listing_free e m w w' : listing w -> (forall e, config_of m e = config_of (entries w) e) -> unused m e ->
  entries w' = delete e m -> agrees m (ready_list w') -> fault w' = false ->
  loose (control w) = e :: loose (control w') -> control_good (control w') (entries w') (listeners w) ->
  listeners w' = listeners w -> listener_count w' = listener_count w -> thread w' = thread w -> allocated w' = allocated w -> listing w'.
Proof.
  intros [] Hcf [_ Hu] Hm Hag Hf Hlo Hctl Hl Hn Ht Ha. rewrite Hlo in ls_nodup0, ls_entries0.
  assert (listeners w ++ e :: loose (control w') ≡ₚ e :: listeners w ++ loose (control w')) as Hperm by (by rewrite Permutation_middle).
  rewrite Hperm in ls_nodup0. apply NoDup_cons in ls_nodup0 as [Hne Hnd].
  constructor; rewrite ?Hm, ?Hf, ?Hl, ?Hn, ?Ht, ?Ha; try done.
  - by apply agrees_delete.
  - intros e'. specialize (ls_entries0 e'). rewrite Hperm, elem_of_cons, <- Hcf in ls_entries0. unfold config_of in *.
    destruct (decide (e' = e)) as [->|].
    + rewrite lookup_delete_eq. split; [by intros []|done].
    + rewrite lookup_delete_ne by done. naive_solver.
  - intros e' c'. specialize (ls_valid0 e' c'). rewrite <- Hcf in ls_valid0. unfold config_of in *.
    destruct (decide (e' = e)) as [->|]; [by rewrite lookup_delete_eq|by rewrite lookup_delete_ne].
  - by rewrite <- Hm.
Qed.

(** The lists change and the entries do not. *)
Lemma listing_move w w' : listing w -> entries w' = entries w -> ready_list w' = ready_list w -> fault w' = fault w ->
  listeners w' ++ loose (control w') ≡ₚ listeners w ++ loose (control w) ->
  listener_count w' = Z.of_nat (length (listeners w')) -> listener_count w' <= TCPCC_SERVICE_MAX_LISTENERS ->
  control_good (control w') (entries w) (listeners w') ->
  (forall e, held (thread w') = Some e -> e ∈ listeners w') -> shutting (thread w') ⊆ listeners w' ->
  (allocated w' = false -> listeners w' = []) -> listing w'.
Proof.
  intros [] He Hr Hf Hp Hn Hb Hc Hh Hs Ha.
  constructor; rewrite ?He, ?Hr, ?Hf; try done; [by rewrite Hp|]. intros e. by rewrite Hp.
Qed.
Lemma unlinked_ready w : listing w -> listeners w = [] -> (forall e, e ∈ loose (control w) -> queued (entries w) e = false) -> ready_list w = [].
Proof.
  intros [] Hl Hu. destruct (ready_list w) as [|e rest]; [done|]. destruct ls_agrees0 as [_ H]. specialize (H e).
  assert (queued (entries w) e = true) as Hq by (apply H, list_elem_of_here).
  pose proof (queued_config _ _ Hq) as Hc. apply ls_entries0 in Hc. rewrite Hl in Hc. apply Hu in Hc. congruence.
Qed.

(** The steps of the control thread, by what they do to the lists. *)
Section ListingControl.
Context (w : World).
Hypothesis Hw : listing w.

Lemma linked_config e : e ∈ listeners w -> is_Some (config_of (entries w) e).
Proof. intros H. apply (ls_entries w Hw), elem_of_app. by left. Qed.
Lemma loose_config e : e ∈ loose (control w) -> is_Some (config_of (entries w) e).
Proof. intros H. apply (ls_entries w Hw), elem_of_app. by right. Qed.

Lemma listing_link_first e c : control w = CStartLock e -> allocated w = false ->
  listing (link_listener e (tcpcc_service_reset_start c w)){{control := CStartNotifier e}}.
Proof.
  intros Hctl Ha. pose proof (ls_unallocated w Hw Ha) as Hl. pose proof (ls_control w Hw) as Hc. rewrite Hctl in Hc.
  pose proof (ls_held w Hw) as Hh. pose proof (ls_shutting w Hw) as Hs. rewrite Hl in Hh, Hs.
  apply (listing_move w); try done.
  - symmetry. apply (unlinked_ready w Hw Hl). rewrite Hctl. intros x ->%list_elem_of_singleton. apply Hc.
  - by rewrite Hctl, Hl.
  - intros x Hx. apply Hh in Hx. by apply elem_of_nil in Hx.
  - intros x Hx. apply Hs in Hx. by apply elem_of_nil in Hx.
Qed.
Lemma listing_link_next e : control w = CStartLock e -> listener_count w < TCPCC_SERVICE_MAX_LISTENERS -> allocated w = true ->
  listing (link_listener e w){{control := CStartInstall e false}}.
Proof.
  intros Hctl Hn Ha. pose proof (ls_control w Hw) as Hc. rewrite Hctl in Hc.
  apply (listing_move w); try done; fields; rewrite ?Hctl.
  - by rewrite app_nil_r.
  - rewrite length_app, (ls_count w Hw). cbn. lia.
  - lia.
  - split; [set_solver|done].
  - intros x Hx%(ls_held w Hw). set_solver.
  - pose proof (ls_shutting w Hw). set_solver.
  - intros H. change (allocated w = false) in H. congruence.
Qed.
Lemma unused_unreferenced m e : is_Some (config_of m e) -> unused m e -> from_option referenced true (m !! e) = false.
Proof.
  unfold unused, config_of, installed, queued, referenced. intros [c Hx] [Hi Hq]. destruct (m !! e); [|done]. cbn in *. by rewrite Hi, Hq.
Qed.
Lemma listing_refuse e ret : control w = CStartLock e \/ (exists r, control w = CFailFree e r) ->
  listing (free_entry e w){{control := CReturn ret None}}.
Proof.
  intros Hctl. assert (unused (entries w) e /\ loose (control w) = [e]) as [Hu Hlo].
  { pose proof (ls_control w Hw) as Hc. destruct Hctl as [Hctl|[r Hctl]]; rewrite Hctl in *; [done|by destruct Hc]. }
  apply (listing_free e (entries w) w); try done; [apply Hw|]. fields. rewrite (ls_fault w Hw).
  apply unused_unreferenced; [|done]. apply loose_config. rewrite Hlo. apply list_elem_of_here.
Qed.
Lemma listing_install e c : e ∈ listeners w -> loose c = loose (control w) ->
  (forall m, control_good c m (listeners w)) -> listing (install_listener_callback e w){{control := c}}.
Proof.
  intros He Hlo Hc. apply (listing_frame w); try done; try apply Hw; fields.
  - intros x. apply config_with_installed.
  - apply agrees_installed, Hw.
  - rewrite (ls_fault w Hw). by apply not_freed, linked_config.
Qed.
Lemma listing_restore e ret notified : control w = CFailRestore e ret true notified ->
  listing (tcpcc_service_restore_listener_callback e w){{control := CFailRemove e ret true notified}}.
Proof.
  intros Hctl. pose proof (ls_control w Hw) as Hc. rewrite Hctl in Hc. destruct Hc as [_ Hl].
  apply (listing_frame w); try done; try apply Hw; fields.
  - intros x. apply config_with_installed.
  - apply agrees_installed, Hw.
  - rewrite (ls_fault w Hw). apply not_freed, linked_config. rewrite Hl. apply list_elem_of_here.
  - by rewrite Hctl.
  - split_and!; [done|done|]. rewrite installed_with_installed. by rewrite bool_decide_eq_true_2.
Qed.
Lemma listing_remove e ret notified : control w = CFailRemove e ret true notified ->
  listing (tcpcc_service_remove_ready_listener e w){{control := CFailUnlink e ret true notified}}.
Proof.
  intros Hctl. pose proof (ls_control w Hw) as Hc. rewrite Hctl in Hc. destruct Hc as (_ & Hl & Hi).
  apply (listing_frame w); try done; try apply Hw; fields.
  - intros x. apply config_with_queued.
  - apply agrees_remove, Hw.
  - rewrite (ls_fault w Hw). apply not_freed, linked_config. rewrite Hl. apply list_elem_of_here.
  - by rewrite Hctl.
  - split_and!; [done|done|]. split; [by rewrite installed_with_queued|]. rewrite queued_with_queued. by rewrite bool_decide_eq_true_2.
Qed.
Lemma listing_unlink e ret notified : control w = CFailUnlink e ret true notified -> thread w = None ->
  listing (unlink_listener e w){{control := CFailNotifier e ret true notified}}.
Proof.
  intros Hctl Ht. pose proof (ls_control w Hw) as Hc. rewrite Hctl in Hc. destruct Hc as (_ & Hl & Hu).
  pose proof (ls_count w Hw) as Hn. rewrite Hl in Hn. cbn in Hn.
  assert (filter (fun other => other <> e) (listeners w) = []) as Hnil
    by (rewrite Hl; rewrite filter_cons_False by naive_solver; done).
  apply (listing_move w); try done; fields; fold (thread w); rewrite ?Hnil, ?Ht; try done.
  - by rewrite Hctl, Hl.
  - by rewrite Hl, Hn, bool_decide_eq_true_2 by set_solver.
  - rewrite Hl, Hn. by rewrite bool_decide_eq_true_2 by set_solver.
Qed.
Lemma listing_clear c : loose c = loose (control w) -> control_good c (entries w) (listeners w) ->
  listing (tcpcc_service_clear_ready w){{control := c}}.
Proof.
  intros Hlo Hc. destruct (clear_listing w Hw) as (Hm & Ha & Hf).
  apply (listing_frame w); try done; try apply Hw; [apply Hm|]. by apply (control_good_marked _ (entries w)).
Qed.
Lemma listing_shutdown e c : e ∈ listeners w -> loose c = loose (control w) -> control_good c (entries w) (listeners w) ->
  listing (shutdown_listener e w){{control := c}}.
Proof.
  intros He Hlo Hc. apply (listing_frame w); try done; try apply Hw. fields. rewrite (ls_fault w Hw). by apply not_freed, linked_config.
Qed.
Lemma listing_splice : control w = CStopSplice -> thread w = None ->
  listing w{{listeners := []; listener_count := 0; control := CStopFree (listeners w)}}.
Proof.
  intros Hctl Ht. apply (listing_move w); try done; fields; fold (thread w); rewrite ?Hctl, ?Ht; try done. by rewrite app_nil_r.
Qed.
Lemma listing_release e todo : control w = CStopFree (e :: todo) ->
  listing (free_entry e (release_listener e (tcpcc_service_remove_ready_listener e
    (tcpcc_service_restore_listener_callback e w)))){{control := CStopFree todo}}.
Proof.
  intros Hctl. pose proof (ls_control w Hw) as Hc. rewrite Hctl in Hc.
  assert (is_Some (config_of (entries w) e)) as Hs by (apply loose_config; rewrite Hctl; apply list_elem_of_here).
  set (m1 := alter (with_installed false) e (entries w)). set (m2 := alter (with_queued false) e m1).
  assert (unused m2 e) as Hu.
  { unfold unused, m2, m1. rewrite queued_with_queued, installed_with_queued, installed_with_installed. by rewrite bool_decide_eq_true_2. }
  assert (forall x, config_of m2 x = config_of (entries w) x) as Hcf
    by (intros x; unfold m2, m1; by rewrite config_with_queued, config_with_installed).
  apply (listing_free e m2 w); try done.
  - apply agrees_remove, agrees_installed, Hw.
  - set (w1 := tcpcc_service_restore_listener_callback e w). set (w2 := tcpcc_service_remove_ready_listener e w1).
    change (fault w || freed e w || freed e w1 || freed e w2 || from_option referenced true (m2 !! e) = false).
    rewrite (ls_fault w Hw), (not_freed e w), (not_freed e w1), (not_freed e w2).
    + apply unused_unreferenced; [by rewrite Hcf|done].
    + change (is_Some (config_of m2 e)). by rewrite Hcf.
    + change (is_Some (config_of m1 e)). unfold m1. by rewrite config_with_installed.
    + done.
  - by rewrite Hctl.
Qed.
End ListingControl.

Lemma listing_control answer w w' : phase w = true -> listing w -> control_step answer w = Some w' -> listing w'.
Proof.
  intros Hp Hw H. pose proof (ls_control w Hw) as Hc. pose proof (ls_unallocated w Hw) as Hal.
  pose proof (phase_dead w Hp) as Hd.
  unfold control_step, start_locked in H. destruct (control w) eqn:Hctl; step_cases H.
  all: try (apply (listing_same w); try done; try apply Hw; by rewrite Hctl).
  all: try (eauto using listing_link_first, listing_refuse, listing_splice, listing_release; fail).
  - apply (listing_link_first w Hw); [done|]. by destruct (allocated w).
  - apply (listing_link_next w Hw); [done|by apply Z.leb_gt|by destruct (allocated w)].
  - destruct (loose_config w Hw entry) as [c Hx]; [rewrite Hctl; apply list_elem_of_here|]. unfold config_of in Hx. by rewrite Heqo in Hx.
  - apply (listing_same w); try done; try apply Hw; [by rewrite Hctl|]. by destruct Hc.
  - assert (listener_in_use entry w = false); [|congruence]. destruct first; by destruct Hc as [_ [? _]].
  - destruct Hc as [Hl _]. apply (listing_install w Hw); [rewrite Hl; apply list_elem_of_here|by rewrite Hctl|done].
  - destruct Hc as [Hl _]. apply (listing_install w Hw); [done|by rewrite Hctl|done].
  - apply (listing_same w); try done; [by rewrite Hctl| |apply list_subseteq_nil]. cbn in *. rewrite Hc. apply list_elem_of_here.
  - destruct (queue_listing entry w Hw Hc) as (Hm & Ha & Hf).
    apply (listing_frame w); try done; try apply Hw; [apply Hm|by rewrite Hctl].
  - destruct first; [by apply (listing_restore w Hw)|by destruct Hc].
  - destruct first; [by apply (listing_remove w Hw)|by destruct Hc].
  - destruct first; [apply (listing_unlink w Hw); [done|]; apply Hd; by right|by destruct Hc].
  - destruct Hc as (_ & Hl & Hu). apply (listing_move w); try done; try apply Hw; fields; fold (listeners w); rewrite ?Hctl; try done.
    by rewrite Hl.
  - by destruct Hc.
  - apply (listing_clear w Hw); [by rewrite Hctl|done].
  - apply (listing_clear w Hw); [by rewrite Hctl|done].
  - apply (listing_same w); try done; try apply Hw; [by rewrite Hctl|]. apply snapshot_listeners.
  - apply (listing_shutdown w Hw); [|by rewrite Hctl|]; cbn in *; set_solver.
  - apply (listing_clear w Hw); [by rewrite Hctl|done].
  - apply (listing_same w); try done; try apply Hw; [by rewrite Hctl|]. apply snapshot_listeners.
  - apply (listing_shutdown w Hw); [|by rewrite Hctl|]; cbn in *; set_solver.
  - apply (listing_same w); try done; [by rewrite Hctl|apply list_subseteq_nil].
  - apply (listing_clear w Hw); [by rewrite Hctl|done].
Qed.

Lemma listing_step l w w' : phase w = true -> listing w -> step l w = Some w' -> listing w'.
Proof.
  intros Hp Hw H. pose proof (ls_control w Hw) as Hc. pose proof (ls_held w Hw) as Hh.
  assert (forall e, e ∈ listeners w -> freed e w = false) as Hf by (intros; by apply not_freed, linked_config).
  destruct l; unfold step in H.
  - destruct (thread w) as [t|] eqn:Ht; [|done]. by apply (listing_thread t w).
  - unfold accept_step in H. step_cases H; apply (listing_same w); try done; try apply Hw.
    all: first [apply list_subseteq_nil|change (fault w || freed entry w = fault w); by rewrite Hf, orb_false_r by (by apply Hh)].
  - unfold bridge_step in H. step_cases H; apply (listing_same w); try done; try apply Hw.
    all: first [apply list_subseteq_nil|change (fault w || freed entry w = fault w); by rewrite Hf, orb_false_r by (by apply Hh)].
  - unfold call_step in H. step_cases H.
    all: try (apply (listing_same w); try done; try apply Hw; by rewrite Heqc0).
    apply bool_decide_eq_false, eq_None_not_Some in Heqb1. apply orb_false_iff in Heqb as [?%negb_false_iff _].
    by apply (listing_insert listener config w).
  - by apply (listing_control answer w).
  - step_cases H; apply (listing_same w); try done; try apply Hw; by rewrite Heqc.
  - unfold tcpcc_service_listener_data_ready in H. apply (inj Some) in H; subst.
    destruct (listener_in_use _ _ && _) eqn:Hu; [|done]. apply andb_true_iff in Hu as [Hu _].
    destruct (queue_in_use listener w Hw Hu) as (Hm & Ha & Hfa).
    apply (listing_frame w); try done; try apply Hw; [apply Hm|]. by apply (control_good_marked _ (entries w)).
  - step_cases H; apply (listing_same w); try done; apply Hw.
  - step_cases H; apply (listing_same w); try done; apply Hw.
  - step_cases H; apply (listing_same w); try done; apply Hw.
  - step_cases H; apply (listing_same w); try done; apply Hw.
  - step_cases H; apply (listing_same w); try done; apply Hw.
Qed.
Lemma listing_reachable w : reachable w -> listing w.
Proof.
  induction 1 as [|w l w' Hr Hw Hs]; [|by eapply listing_step; [apply phase_reachable|..]].
  constructor; try done; [split; [constructor|]|constructor|].
  - intros e. split; [by intros ?%elem_of_nil|done].
  - intros e. split; [by intros []|by intros ?%elem_of_nil].
Qed.

(** ** The steps and the counters *)

(** A step that leaves the bridges and the counters. *)
Lemma ledger_same w w' : ledger w -> bridges w' = bridges w -> table w' = table w -> stats w' = stats w ->
  joining (thread w') = joining (thread w) -> adding (thread w') = adding (thread w) ->
  (unseen (thread w') = unseen (thread w) \/ unseen (thread w') = [] \/ NoDup (unseen (thread w')) /\ unseen (thread w') ⊆ bridges w) ->
  (admitted (thread w') = true -> admitted (thread w) = true \/ tcpcc_service_admission_available w = true) ->
  (progress (thread w') <> PLoop -> bridges w = []) -> status_good (thread w') -> ledger w'.
Proof. intros Hw Hb Ht Hs. intros. apply (ledger_frame w); try done; rewrite Hs; [apply Hw|done]. Qed.

Lemma idle_bridges w : ledger w -> (active_connections (stats w) =? 0) = true -> bridges w = [].
Proof. intros Hw. rewrite (cg_active _ _ (lg_counts w Hw)), Z.eqb_eq. intros H. apply length_zero_iff_nil. lia. Qed.
Lemma ledger_thread t w w' : phase w = true -> ledger w -> thread w = Some t -> thread_step t w = Some w' -> ledger w'.
Proof.
  intros Hp Hw Ht H. pose proof (lg_counts w Hw) as Hc. pose proof (lg_status w Hw) as Hs.
  destruct t; cbn [thread_step] in H; step_cases H.
  all: try (apply (ledger_same w); rewrite ?Ht; try done; auto; fail).
  - apply (ledger_same w); rewrite ?Ht; try done. right; right. split; [apply Hw|done].
  - by apply (ledger_joins z b l w).
  - pose proof (lg_unseen w Hw) as [Hn Hu]. rewrite Ht in Hn, Hu. cbn in Hn, Hu. apply NoDup_cons in Hn as [_ Hn].
    apply (ledger_same w); rewrite ?Ht; try done. right; right. split; [done|]. cbn. set_solver.
  - by apply (ledger_reap_none z l w) in Heqo.
  - by apply (ledger_reaped handle ret todo w).
  - apply (ledger_frame w); rewrite ?Ht; try done; auto. by apply counts_eagain.
  - rewrite Ht in Hs. apply (ledger_frame w); rewrite ?Ht; try done; auto.
    apply counts_error, counts_state; [done| |done]. destruct (draining w); [apply Hc|done].
  - rewrite Ht in Hs. apply (ledger_frame w); rewrite ?Ht; try done; auto. by apply counts_rejected.
  - apply (ledger_added handle budget w); auto.
  - apply (ledger_added handle budget w); auto.
  - apply (ledger_same w); rewrite ?Ht; try done; auto. intros _. apply andb_true_iff in Heqb as [_ Hz].
    by apply idle_bridges.
  - rewrite (phase_kthread w) in Heqb; [done..|]. by rewrite Ht.
  - apply (ledger_same w); rewrite ?Ht; try done; auto. intros _. apply (lg_idle w Hw). by rewrite Ht.
Qed.

Lemma ledger_reset c w w' : ledger w -> thread w = None -> valid_config c = true ->
  stats w' = no_stats{{ss_max_connections := max_connections c; accept_batch := c_accept_batch c; state := TCPCC_CONTROL_SERVICE_RUNNING}} ->
  bridges w' = [] -> table w' = table w -> thread w' = None -> ledger w'.
Proof.
  intros Hw Ht Hv Hs Hb Htb Ht'. assert (bridges w = []) as Hn by (apply (lg_idle w Hw); by rewrite Ht). destruct Hw. rewrite Ht, Hn in *.
  constructor; rewrite ?Hs, ?Hb, ?Htb, ?Ht'; try done. by apply counts_start.
Qed.

Lemma ledger_control answer w w' : phase w = true -> listing w -> ledger w -> control_step answer w = Some w' -> ledger w'.
Proof.
  intros Hp Hl Hw H. pose proof (lg_counts w Hw) as Hc. pose proof (lg_idle w Hw) as Hi. pose proof (lg_status w Hw) as Hs.
  pose proof (phase_dead w Hp) as Hd.
  unfold control_step, start_locked in H. destruct (control w) eqn:Hctl; step_cases H.
  all: try (apply (ledger_same w); try done; auto; fail).
  - apply negb_true_iff in Heqb. apply (ledger_reset (e_config e) w); try done; [by apply Hd; left| |by apply Hd; left].
    apply (ls_valid w Hl entry). unfold config_of. by rewrite Heqo.
  - rewrite Hd in * by (by right). apply (ledger_same w); rewrite ?Hd by (by right); try done; auto.
  - apply (ledger_same w); rewrite ?Heqo; try done; auto.
  - apply (ledger_frame w); try done; auto. by apply counts_state.
Qed.

Lemma ledger_step l w w' : phase w = true -> listing w -> ledger w -> step l w = Some w' -> ledger w'.
Proof.
  intros Hp Hl Hw H. pose proof (lg_counts w Hw) as Hc. pose proof (lg_idle w Hw) as Hi. pose proof (lg_status w Hw) as Hs.
  destruct l; unfold step in H.
  - destruct (thread w) as [t|] eqn:Ht; [|done]. by apply (ledger_thread t w).
  - unfold accept_step in H. destruct (thread w) as [t|] eqn:Ht; step_cases H; apply (ledger_same w); rewrite ?Ht; try done; auto.
    cbn. by apply andb_true_iff in Heqb as [? _].
  - unfold bridge_step in H. destruct (thread w) as [t|] eqn:Ht; step_cases H.
    + by apply (ledger_same w); rewrite ?Ht; try done; auto.
    + by apply (ledger_same w); rewrite ?Ht; try done; auto.
    + rewrite !andb_true_iff, bool_decide_eq_true, !Z.ltb_lt in Heqb1. destruct_and!.
      by apply (ledger_started handle budget entry w).
  - unfold call_step in H. step_cases H; apply (ledger_frame w); try done; auto; apply counts_state; try done.
    destruct (state (stats w) =? TCPCC_CONTROL_SERVICE_RUNNING); [done|apply Hc].
  - by apply (ledger_control answer w).
  - step_cases H; by apply (ledger_same w); auto.
  - unfold tcpcc_service_listener_data_ready in H. apply (inj Some) in H; subst.
    destruct (_ && _); [|done]. by apply (ledger_same w); auto.
  - step_cases H; by apply (ledger_same w); auto.
  - step_cases H; by apply (ledger_same w); auto.
  - step_cases H; by apply (ledger_same w); auto.
  - step_cases H; by apply (ledger_finished handle result w).
  - step_cases H; by apply (ledger_same w); auto.
Qed.
Lemma ledger_reachable w : reachable w -> ledger w.
Proof.
  induction 1 as [|w l w' Hr Hw Hs]; [|by eapply ledger_step; [apply phase_reachable|apply listing_reachable|..]].
  constructor; try done; try constructor; try done; [by intros []| |constructor]. intros [[?%elem_of_nil _]|?]; done.
Qed.

(** ** The connections that point to an entry *)

(** The entry that a failing start has taken from its socket, and the one the accepted socket points to. *)
Definition failing (c : Control) : list Z :=
  match c with
  | CFailRemove e _ _ _ | CFailUnlink e _ _ _ | CFailNotifier e _ _ _ | CFailReset e _ _ | CFailClear e _ | CFailFree e _ => [e]
  | _ => []
  end.
Definition inheriting (t : option Thread) : list Z :=
  match t with Some (TQueue e _ true | TDetach e _ true) => [e] | _ => [] end.

Record guarded (w : World) : Prop := {
  gd_fault : child_fault w = false;
  gd_taken : taken w = inheriting (thread w);
  gd_children : forall e, e ∈ children w -> installed (entries w) e = true \/ e ∈ failing (control w);
}.

Lemma drop_one_subseteq e l : drop_one e l ⊆ l.
Proof. induction l as [|x l IH]; cbn; [done|]. destruct (x =? e); set_solver. Qed.

(** Every connection points to an entry that exists. *)
Lemma guarded_entry w e : listing w -> guarded w -> e ∈ children w ++ taken w -> is_Some (config_of (entries w) e).
Proof.
  intros Hl [_ Ht Hc] [He|He]%elem_of_app.
  - destruct (Hc e He) as [Hi|Hf].
    + unfold installed, config_of in *. destruct (entries w !! e); [cbn; eauto|done].
    + apply (ls_entries w Hl), elem_of_app. pose proof (ls_control w Hl) as Hg.
      destruct (control w); cbn in *; try (by apply elem_of_nil in Hf); apply list_elem_of_singleton in Hf as ->.
      all: first [right; apply list_elem_of_here|left; destruct Hg as (_ & -> & _); apply list_elem_of_here].
  - apply (linked_config w Hl), (ls_held w Hl). rewrite Ht in He. unfold inheriting in He.
    destruct (thread w) as [[]|]; try (by apply elem_of_nil in He); destruct inherits; try (by apply elem_of_nil in He);
      by apply list_elem_of_singleton in He as ->.
Qed.

Lemma guarded_frame w w' : guarded w -> child_fault w' = child_fault w -> taken w' = inheriting (thread w') -> children w' ⊆ children w ->
  (forall e, installed (entries w) e = true -> installed (entries w') e = true) -> failing (control w') = failing (control w) -> guarded w'.
Proof.
  intros [Hf Ht Hc] Hf' Ht' Hc' He Hl. split; [congruence|done|]. rewrite Hl. intros e H%Hc'. destruct (Hc e H); auto.
Qed.
(** Where an entry goes, no connection points to it. *)
Lemma guarded_without e w w' : guarded w -> child_fault w' = child_fault w -> taken w' = inheriting (thread w') ->
  children w' ⊆ children w -> e ∉ children w' ->
  (forall x, x <> e -> installed (entries w) x = true -> installed (entries w') x = true) -> failing (control w) ⊆ [e] -> guarded w'.
Proof.
  intros [Hf Ht Hc] Hf' Ht' Hc' He Hi Hl. split; [congruence|done|]. intros x Hx. assert (x <> e) by set_solver.
  destruct (Hc x (Hc' x Hx)) as [|Hin]; [auto|]. apply Hl, list_elem_of_singleton in Hin. done.
Qed.

Lemma guarded_thread t w w' : guarded w -> thread w = Some t -> thread_step t w = Some w' -> guarded w'.
Proof.
  intros Hw Ht H. pose proof (gd_taken w Hw) as Hk. rewrite Ht in Hk.
  destruct t; cbn [thread_step] in H; step_cases H.
  all: try (apply (guarded_frame w); auto; fail).
  - apply (guarded_frame w); auto. intros e He. fields. by rewrite installed_with_queued.
  - apply (guarded_frame w); auto. intros e He. fields. by rewrite clear_installed.
  - apply (guarded_frame w); auto. intros e He. fields. destruct (match entries w !! entry with Some _ => _ | None => _ end); [|done].
    by rewrite installed_with_queued.
  - apply (guarded_frame w); auto. fields. destruct inherits; [|done]. rewrite Hk. cbn. by rewrite Z.eqb_refl.
Qed.

Lemma guarded_freed e c w : guarded w -> e ∉ children w -> failing (control w) ⊆ [e] -> guarded (free_entry e w){{control := c}}.
Proof.
  intros Hw He Hf. apply (guarded_without e w); try done; [apply Hw|]. intros x Hx Hi. fields. unfold installed in *.
  by rewrite lookup_delete_ne.
Qed.
Lemma guarded_clear c w : guarded w -> failing c = failing (control w) -> guarded (tcpcc_service_clear_ready w){{control := c}}.
Proof. intros Hw Hc. apply (guarded_frame w); try done; [apply Hw|]. intros e He. fields. by rewrite clear_installed. Qed.
Lemma guarded_install e c w : listing w -> guarded w -> e ∈ listeners w -> failing c = failing (control w) ->
  guarded (install_listener_callback e w){{control := c}}.
Proof.
  intros Hl Hw He Hc. apply (guarded_frame w); try done; [apply Hw|]. intros x Hi. fields. rewrite installed_with_installed.
  case_bool_decide; [|done]. by rewrite bool_decide_eq_true_2 by (by apply linked_config).
Qed.
(** From here on the connections in the queue of the listener are the failing start's. *)
Lemma guarded_restore e ret first notified w : guarded w -> failing (control w) = [] ->
  guarded (tcpcc_service_restore_listener_callback e w){{control := CFailRemove e ret first notified}}.
Proof.
  intros [Hf Ht Hc] Hn. split; [done|done|]. intros x Hx. fields. rewrite installed_with_installed.
  destruct (Hc x Hx) as [Hi|Hi]; [|rewrite Hn in Hi; by apply elem_of_nil in Hi].
  case_bool_decide as He; [right; subst; apply list_elem_of_here|by left].
Qed.
Lemma guarded_release e todo w : guarded w -> control w = CStopFree (e :: todo) ->
  guarded (free_entry e (release_listener e (tcpcc_service_remove_ready_listener e
    (tcpcc_service_restore_listener_callback e w)))){{control := CStopFree todo}}.
Proof.
  intros Hw Hc. apply (guarded_without e w); try done; [apply Hw|..].
  - intros x [_ Hx]%list_elem_of_filter. done.
  - by intros [? _]%list_elem_of_filter.
  - intros x Hx Hi. fields. unfold installed in *. rewrite lookup_delete_ne, !lookup_alter_ne by done. done.
  - rewrite Hc. apply list_subseteq_nil.
Qed.

Lemma guarded_control answer w w' : phase w = true -> listing w -> guarded w -> control_step answer w = Some w' ->
  abandons (LControl answer) w = false -> guarded w'.
Proof.
  intros Hp Hl Hw H Hab. pose proof (gd_taken w Hw) as Hk. pose proof (ls_control w Hl) as Hc. pose proof (phase_dead w Hp) as Hd.
  assert (forall e, control w = CStartLock e -> e ∉ children w) as Hlock.
  { intros e He Hin. rewrite He in Hc. destruct (gd_children w Hw e Hin) as [Hi|Hi]; [by destruct Hc; congruence|].
    rewrite He in Hi. by apply elem_of_nil in Hi. }
  unfold control_step, start_locked in H. unfold abandons in Hab. destruct (control w) eqn:Hctl; step_cases H.
  all: try (apply (guarded_frame w); rewrite ?Hctl; auto; fail).
  1-3: apply (guarded_freed entry); [done|by apply Hlock|rewrite Hctl; apply list_subseteq_nil].
  - destruct Hc as [Hls _]. apply guarded_install; rewrite ?Hctl, ?Hls; try done. apply list_elem_of_here.
  - destruct Hc as [Hls _]. apply guarded_install; rewrite ?Hctl; done.
  - apply (guarded_frame w); rewrite ?Hctl; try done. change (taken w = []). by rewrite Hk, Hd by auto.
  - apply (guarded_frame w); rewrite ?Hctl; auto. intros e He. fields.
    destruct (match entries w !! entry with Some _ => _ | None => _ end); [|done]. by rewrite installed_with_queued.
  - apply guarded_restore; [done|by rewrite Hctl].
  - apply (guarded_frame w); rewrite ?Hctl; auto. intros e He. fields. by rewrite installed_with_queued.
  - apply guarded_clear; [done|by rewrite Hctl].
  - apply (guarded_freed entry); [done|by apply bool_decide_eq_false in Hab|by rewrite Hctl].
  - apply guarded_clear; [done|by rewrite Hctl].
  - apply guarded_clear; [done|by rewrite Hctl].
  - apply guarded_clear; [done|by rewrite Hctl].
  - by apply guarded_release.
Qed.

Lemma guarded_step l w w' : phase w = true -> listing w -> guarded w -> step l w = Some w' -> abandons l w = false -> guarded w'.
Proof.
  intros Hp Hl Hw H Hab. pose proof (gd_taken w Hw) as Hk. destruct l; unfold step in H.
  - destruct (thread w) as [t|] eqn:Ht; [|done]. by apply (guarded_thread t w).
  - unfold accept_step in H. destruct (thread w) as [t|] eqn:Ht; step_cases H; (apply (guarded_frame w); auto); (destruct inherits; [|done]).
    + change (entry :: taken w = [entry]). by rewrite Hk.
    + apply drop_one_subseteq.
  - unfold bridge_step in H. destruct (thread w) as [t|] eqn:Ht; step_cases H; by apply (guarded_frame w).
  - unfold call_step in H. destruct (control w) eqn:Hctl; step_cases H; apply (guarded_frame w); rewrite ?Hctl; auto.
    apply bool_decide_eq_false, eq_None_not_Some in Heqb1. intros e He. fields. unfold installed in *.
    destruct (decide (e = listener)) as [->|]; [by rewrite Heqb1 in He|by rewrite lookup_insert_ne].
  - by apply (guarded_control answer w).
  - destruct (control w) eqn:Hctl; step_cases H; apply (guarded_frame w); rewrite ?Hctl; auto.
  - unfold tcpcc_service_listener_data_ready in H. apply (inj Some) in H; subst. destruct (_ && _); [|done].
    apply (guarded_frame w); auto. intros e He. fields.
    destruct (match entries w !! listener with Some _ => _ | None => _ end); [|done]. by rewrite installed_with_queued.
  - step_cases H. destruct Hw as [Hf _ Hc]. split; [done|done|]. intros e [->|He]%elem_of_cons; [by left|by apply Hc].
  - step_cases H. apply bool_decide_eq_true, (guarded_entry w _ Hl Hw) in Heqb. apply (guarded_frame w); auto. fields.
    by rewrite not_freed, orb_false_r.
  - step_cases H; by apply (guarded_frame w).
  - step_cases H; by apply (guarded_frame w).
  - step_cases H; by apply (guarded_frame w).
Qed.
Lemma guarded_run ls w : run_labels ls boot = Some w -> abandoned ls boot = false -> guarded w.
Proof.
  assert (forall ls w0, reachable w0 -> guarded w0 -> run_labels ls w0 = Some w -> abandoned ls w0 = false -> guarded w) as Hall.
  { clear ls. intros ls. induction ls as [|l ls IH]; intros w0 Hr Hg H Hab; cbn in H, Hab; [by simplify_eq|].
    destruct (step l w0) as [w1|] eqn:Hs; [|done]. cbn in H. apply orb_false_iff in Hab as [Hl Hab].
    apply (IH w1); [by econstructor| |done|done].
    by eapply guarded_step; [apply phase_reachable|apply listing_reachable|..]. }
  intros H Hab. apply (Hall ls boot); [constructor| |done|done]. split; [done|done|]. intros e He. by apply elem_of_nil in He.
Qed.
