(* ===== verification/ServiceWakeups.v ===== *)
(** * The hosted kernel: what the service guarantees

    The invariants behind a drain, a stop and the wake-ups of the service thread, on those of [ServiceInvariants], and the theorems:
    the counters, the life of the listeners, what a drain and a stop have done when they return, the sessions that a stop
    cancels, that the thread does not wait while there is something for it to do, and that the host reads the counters back. *)

From S2P Require Import Prelude PyStr Reports Py Effects Struct IpAddr Control Bridges Sessions KernelService ServiceInvariants.
From Stdlib Require Import ZifyBool.
From stdpp Require Import gmap.
From coqutil Require Import Datatypes.RecordSetters.
Import DoubleBraceUpdate.
Local Open Scope Z_scope.


(** ** Drains *)

Definition accepting (t : option Thread) : bool :=
  match t with
  | Some (TCheckStopping | TBudget | TLoop _ | TPop _ | TAdmit _ _ | TAccept _ _ | TEagain _ | TFail _ | TFailClear | TFailSnapshot
         | TFailShutdown _ | TQueue _ _ _ | TDetach _ _ _ | TStart _ _ | TReject _ _ | TAdd _ _ | TCancel _ _ | TPending _) => true
  | _ => false
  end.
Definition drain_good (w : World) : Prop := drained w = true -> draining w = true /\ bridges w = [] /\ accepting (thread w) = false.

Lemma drain_frame w w' : drain_good w -> drained w' = drained w -> (draining w = true -> draining w' = true) ->
  (bridges w = [] -> accepting (thread w) = false -> bridges w' = []) -> (accepting (thread w') = true -> accepting (thread w) = true) -> drain_good w'.
Proof.
  intros Hw Hd Hdr Hb Ha. unfold drain_good. rewrite Hd. intros H. destruct (Hw H) as (H1 & H2 & H3). split_and!; auto.
  destruct (accepting (thread w')); naive_solver.
Qed.
Lemma drain_noted w w' : ledger w -> drain_good w -> drained w' = drained w || draining w && (active_connections (stats w) =? 0) ->
  draining w' = draining w -> bridges w' = bridges w -> accepting (thread w') = false -> drain_good w'.
Proof.
  intros Hl Hw Hd Hdr Hb Ha H. rewrite Hdr, Hb. rewrite Hd in H. apply orb_true_iff in H as [H|H].
  - by destruct (Hw H) as (H1 & H2 & _).
  - apply andb_true_iff in H as [H1 H2%idle_bridges]; [|done]. done.
Qed.
Lemma drain_thread t w w' : ledger w -> drain_good w -> thread w = Some t -> thread_step t w = Some w' -> drain_good w'.
Proof.
  intros Hl Hw Ht H. destruct t; cbn [thread_step] in H; step_cases H.
  all: try (apply (drain_frame w); rewrite ?Ht; try done; fail).
  - apply (drain_frame w); rewrite ?Ht; try done. intros Hb _.
    transitivity (filter (fun other => other <> handle) (bridges w)); [reflexivity|by rewrite Hb].
  - intros Hd. destruct (Hw Hd) as [? _]. congruence.
  - by apply (drain_noted w).
  - by apply (drain_noted w).
Qed.
Lemma drain_step l w w' : phase w = true -> ledger w -> drain_good w -> step l w = Some w' -> drain_good w'.
Proof.
  intros Hp Hl Hw H. destruct l; unfold step in H.
  - destruct (thread w) as [t|] eqn:Ht; [|done]. by apply (drain_thread t w).
  - unfold accept_step in H. destruct (thread w) as [t|] eqn:Ht; step_cases H; by apply (drain_frame w); rewrite ?Ht.
  - unfold bridge_step in H. destruct (thread w) as [t|] eqn:Ht; step_cases H; by apply (drain_frame w); rewrite ?Ht.
  - unfold call_step in H. step_cases H; by apply (drain_frame w).
  - unfold control_step, start_locked in H. destruct (control w) eqn:Hctl; step_cases H.
    all: first [by apply (drain_frame w)|done].
  - step_cases H; by apply (drain_frame w).
  - unfold tcpcc_service_listener_data_ready in H. apply (inj Some) in H; subst.
    destruct (_ && _); [|done]. by apply (drain_frame w).
  - step_cases H; by apply (drain_frame w).
  - step_cases H; by apply (drain_frame w).
  - step_cases H; by apply (drain_frame w).
  - step_cases H; by apply (drain_frame w).
  - step_cases H; by apply (drain_frame w).
Qed.
Lemma drain_reachable w : reachable w -> drain_good w.
Proof.
  induction 1 as [|w l w' Hr Hw Hs]; [done|]. by eapply drain_step; [apply phase_reachable|apply ledger_reachable|..].
Qed.

(** ** Stops *)

Definition before_cancel (c : Control) : bool :=
  match c with CStopClear _ | CStopSnapshot _ | CStopShutdown _ _ | CStopCancel _ => true | _ => false end.
Definition cancelling (t : option Thread) : option Z := match t with Some (TAdd h _ | TCancel h _) => Some h | _ => None end.
(** Once a stop has cancelled the bridges it found, every session is cancelled, or about to be. *)
Definition cancel_good (w : World) : Prop :=
  stopping w = true -> before_cancel (control w) = false ->
  forall h, is_Some (table w !! h) -> h ∈ cancelled w \/ cancelling (thread w) = Some h.

Lemma cancel_frame w w' : cancel_good w -> (stopping w' = true -> stopping w = true) ->
  (before_cancel (control w') = false -> before_cancel (control w) = false) -> (forall h, is_Some (table w' !! h) -> is_Some (table w !! h)) ->
  cancelled w' = cancelled w -> (cancelling (thread w') = cancelling (thread w) \/ cancelling (thread w) = None) -> cancel_good w'.
Proof.
  intros Hw Hs Hc Ht Hcn Hth H1 H2 h Hh. rewrite Hcn. destruct (Hw (Hs H1) (Hc H2) h (Ht h Hh)) as [H|H]; [by left|].
  destruct Hth as [->|Hth]; [by right|congruence].
Qed.
Lemma cancel_thread t w w' : ledger w -> cancel_good w -> thread w = Some t -> thread_step t w = Some w' -> cancel_good w'.
Proof.
  intros Hl Hw Ht H. destruct t; cbn [thread_step] in H; step_cases H.
  all: try (apply (cancel_frame w); rewrite ?Ht; try done; auto; fail).
  - intros H1 H2 h Hh. change (is_Some (delete z (table w) !! h)) in Hh.
    destruct (decide (h = z)) as [->|Hne]; [rewrite lookup_delete_eq in Hh; by destruct Hh|].
    rewrite lookup_delete_ne in Hh by done. destruct (Hw H1 H2 h Hh) as [Hin|Hin]; [|by rewrite Ht in Hin].
    left. change (h ∈ cancelled w ∖ {[z]}). set_solver.
  - intros H1. change (stopping w = true) in H1. congruence.
  - intros H1 H2 h Hh. left. change (h ∈ cancelled (tcpcc_bridge_cancel_session handle w)). cbn. unfold constant.
    change (is_Some (table w !! h)) in Hh. destruct (Hw H1 H2 h Hh) as [Hin|Hin]; [case_bool_decide; set_solver|].
    rewrite Ht in Hin. injection Hin as ->. rewrite bool_decide_eq_true_2 by done. set_solver.
Qed.
Lemma cancel_step l w w' : phase w = true -> ledger w -> cancel_good w -> step l w = Some w' -> cancel_good w'.
Proof.
  intros Hp Hl Hw H. destruct l; unfold step in H.
  - destruct (thread w) as [t|] eqn:Ht; [|done]. by apply (cancel_thread t w).
  - unfold accept_step in H. destruct (thread w) as [t|] eqn:Ht; step_cases H; apply (cancel_frame w); rewrite ?Ht; try done; auto.
  - unfold bridge_step in H. destruct (thread w) as [t|] eqn:Ht; step_cases H.
    1-2: apply (cancel_frame w); rewrite ?Ht; try done; auto.
    intros H1 H2 h Hh. destruct (decide (h = handle)) as [->|Hne]; [by right|].
    change (is_Some (<[handle := None]> (table w) !! h)) in Hh. rewrite lookup_insert_ne in Hh by done.
    destruct (Hw H1 H2 h Hh) as [Hin|Hin]; [by left|by rewrite Ht in Hin].
  - unfold call_step in H. step_cases H; first [by apply (cancel_frame w); rewrite ?Heqc0; auto|done].
  - unfold control_step, start_locked in H. destruct (control w) eqn:Hctl; step_cases H.
    all: try (first [apply (cancel_frame w); rewrite ?Hctl; try done; auto; fail|done]).
    + assert (thread w = None) as Ht by (apply phase_dead; [done|right; by rewrite Hctl]).
      apply (cancel_frame w); rewrite ?Ht, ?Hctl; try done; auto.
    + intros H1 H2 h Hh. change (is_Some (table w !! h)) in Hh. pose proof Hh as Hin. apply (lg_table w Hl) in Hin as [[Hin _]|Hin].
      * left. change (h ∈ cancelled (tcpcc_service_cancel_bridges w)). apply elem_of_union_l, elem_of_filter. set_solver.
      * right. change (cancelling (thread w) = Some h). by destruct (thread w) as [[]|].
    + apply (cancel_frame w); rewrite ?Heqo, ?Hctl; try done; auto.
  - step_cases H; apply (cancel_frame w); rewrite ?Heqc; try done; auto.
  - unfold tcpcc_service_listener_data_ready in H. apply (inj Some) in H; subst.
    destruct (_ && _); [|done]. by apply (cancel_frame w); auto.
  - step_cases H; by apply (cancel_frame w); auto.
  - step_cases H; by apply (cancel_frame w); auto.
  - step_cases H; by apply (cancel_frame w); auto.
  - step_cases H; apply (cancel_frame w); auto. intros h Hh.
    change (is_Some (<[handle := Some result]> (table w) !! h)) in Hh. destruct (decide (h = handle)) as [->|Hne]; [by rewrite Heqo|].
    by rewrite lookup_insert_ne in Hh.
  - step_cases H; by apply (cancel_frame w); auto.
Qed.
Lemma cancel_reachable w : reachable w -> cancel_good w.
Proof.
  induction 1 as [|w l w' Hr Hw Hs]; [done|]. by eapply cancel_step; [apply phase_reachable|apply ledger_reachable|..].
Qed.

(** ** Wake-ups *)

(** The control thread will post, or a completion is on its way to the thread or there. *)
Definition will_post (c : Control) : bool :=
  match c with
  | CDrainClear | CDrainSnapshot | CDrainShutdown _ | CDrainPost | CStopClear _ | CStopSnapshot _ | CStopShutdown _ _ | CStopCancel _
  | CStopPost _ => true
  | _ => false
  end.
Definition signal (w : World) : Prop := (0 < work_ready w + posting w)%nat \/ will_post (control w) = true.
(** The thread will test whether to stop, and it will look at the ready list, before it waits. *)
Definition awake (t : option Thread) : bool :=
  match t with None | Some (TWait | TKthread | TStopped | TExited) => false | Some _ => true end.
Definition looking (t : option Thread) : bool :=
  match t with
  | Some (TReap _ | TJoined _ _ _ | TCheckDraining | TCheckStopping | TBudget | TLoop _ | TPop _ | TAdmit _ _ | TAccept _ _ | TEagain _
         | TFail _ | TQueue _ _ _ | TDetach _ _ _ | TStart _ _ | TReject _ _ | TAdd _ _ | TCancel _ _) => true
  | Some (TPending budget) => budget =? 0
  | _ => false
  end.
Definition full (w : World) : Prop := ss_max_connections (stats w) <> 0 /\ ss_max_connections (stats w) <= active_connections (stats w).
(** A first start before its thread, and once the notifier is set. *)
Definition first_start (c : Control) : bool :=
  match c with CStartNotifier _ | CStartInstall _ true | CStartThread _ => true | _ => false end.
Definition notified (c : Control) : bool := match c with CStartInstall _ true | CStartThread _ => true | _ => false end.

Record attentive (w : World) : Prop := {
  at_notifier : thread w <> None \/ notified (control w) = true -> notifier w = true;
  at_finished : forall h r, table w !! h = Some (Some r) -> signal w \/ (0 < notifying w)%nat \/ h ∈ unseen (thread w);
  at_drain : thread w <> None -> draining w = true -> drained w = true \/ bridges w <> [] \/ signal w \/ awake (thread w) = true;
  at_stop : thread w <> None -> stopping w = true ->
            has_left (progress (thread w)) = true \/ bridges w <> [] \/ signal w \/ awake (thread w) = true;
  at_ready : draining w = false -> ready_list w <> [] -> full w \/ signal w \/ looking (thread w) = true;
  at_first : first_start (control w) = true -> draining w = false;
}.

(** A step that keeps what is to be heard, where it changes neither the sessions nor what is asked of the service. *)
Lemma attentive_frame w w' : attentive w -> notifier w' = notifier w -> table w' = table w -> draining w' = draining w ->
  drained w' = drained w -> bridges w' = bridges w -> stopping w' = stopping w -> notifying w' = notifying w ->
  (thread w' <> None -> thread w <> None) -> (notified (control w') = true -> notified (control w) = true) ->
  (first_start (control w') = true -> first_start (control w) = true) -> (signal w -> signal w') ->
  (forall h r, table w !! h = Some (Some r) -> h ∈ unseen (thread w) -> h ∈ unseen (thread w')) ->
  (awake (thread w) = true -> awake (thread w') = true) -> (has_left (progress (thread w)) = true -> has_left (progress (thread w')) = true) ->
  (draining w = false -> ready_list w' <> [] -> full w' \/ signal w' \/ looking (thread w') = true) -> attentive w'.
Proof.
  intros [] Hn Ht Hd Hdd Hb Hs Hny Hth Hno Hf Hsig Hun Haw Hl Hr.
  constructor; rewrite ?Hn, ?Ht, ?Hd, ?Hdd, ?Hb, ?Hs, ?Hny; try done.
  - intros [H|H]; apply at_notifier0; auto.
  - intros h r Hh. destruct (at_finished0 h r Hh) as [|[|]]; eauto.
  - intros H1 H2. destruct (at_drain0 (Hth H1) H2) as [|[|[|]]]; auto.
  - intros H1 H2. destruct (at_stop0 (Hth H1) H2) as [|[|[|]]]; auto.
  - auto.
Qed.
(** Where the ready list and the room for connections stay, too. *)
Lemma attentive_same w w' : attentive w -> notifier w' = notifier w -> table w' = table w -> draining w' = draining w ->
  drained w' = drained w -> bridges w' = bridges w -> stopping w' = stopping w -> notifying w' = notifying w ->
  (thread w' <> None -> thread w <> None) -> (notified (control w') = true -> notified (control w) = true) ->
  (first_start (control w') = true -> first_start (control w) = true) -> (signal w -> signal w') ->
  (forall h r, table w !! h = Some (Some r) -> h ∈ unseen (thread w) -> h ∈ unseen (thread w')) ->
  (awake (thread w) = true -> awake (thread w') = true) -> (has_left (progress (thread w)) = true -> has_left (progress (thread w')) = true) ->
  (ready_list w' <> [] -> ready_list w <> []) -> (full w -> full w') ->
  (draining w = false -> ready_list w <> [] -> looking (thread w) = true -> full w' \/ signal w' \/ looking (thread w') = true) -> attentive w'.
Proof.
  intros Hw. intros. apply (attentive_frame w); try done. intros Hd Hr. destruct (at_ready w Hw Hd) as [|[|]]; auto.
Qed.
(** Where the thread has everything ahead of it. *)
Lemma first_threadless c : first_start c = true -> threadless c = true.
Proof. by destruct c. Qed.
Lemma attentive_busy t w w' : phase w = true -> attentive w -> thread w = Some t -> notifier w' = notifier w -> control w' = control w ->
  awake (thread w') = true -> looking (thread w') = true \/ draining w' = true ->
  (forall h r, table w' !! h = Some (Some r) -> signal w' \/ (0 < notifying w')%nat \/ h ∈ unseen (thread w')) -> attentive w'.
Proof.
  intros Hp [] Ht Hn Hc Ha Hl Hf. apply (phase_alive t) in Hp as [_ Hp]; [|done].
  constructor; rewrite ?Hn, ?Hc, ?Ha; try done; auto.
  - intros _. apply at_notifier0. left. by rewrite Ht.
  - intros Hd _. destruct Hl; [by auto|congruence].
  - intros H%first_threadless. congruence.
Qed.
(** The finished sessions of a step that neither consumes a completion nor passes over a finished bridge. *)
Lemma finished_kept w w' : attentive w -> (forall h r, table w' !! h = Some (Some r) -> table w !! h = Some (Some r)) -> (signal w -> signal w') ->
  notifying w' = notifying w ->
  (forall h r, table w' !! h = Some (Some r) -> h ∈ unseen (thread w) -> h ∈ unseen (thread w')) ->
  forall h r, table w' !! h = Some (Some r) -> signal w' \/ (0 < notifying w')%nat \/ h ∈ unseen (thread w').
Proof.
  intros Hw Ht Hs Hn Hu h r H. rewrite Hn. destruct (at_finished w Hw h r) as [|[|]]; eauto.
Qed.

Lemma attentive_reap w w' n : phase w = true -> ledger w -> attentive w -> thread w = Some TWait -> notifier w' = notifier w -> control w' = control w ->
  table w' = table w -> thread w' = Some (TReap (bridges w)) -> work_ready w = S n -> attentive w'.
Proof.
  intros Hp Hl Hw Ht Hn Hc Htb Ht' _. apply (attentive_busy TWait w); rewrite ?Ht'; auto.
  rewrite Htb. intros h r Hh. right; right. assert (is_Some (table w !! h)) as Hs by eauto.
  apply (lg_table w Hl) in Hs as [[Hs _]|Hs]; [done|by rewrite Ht in Hs].
Qed.

Lemma not_admitted budget w : phase w = true -> draining w = false -> negb (budget =? 0) && tcpcc_service_admission_available w = false ->
  full w \/ signal w \/ (budget =? 0) = true.
Proof.
  intros Hp Hd H. destruct (budget =? 0); [by right; right|]. left. unfold tcpcc_service_admission_available in H. rewrite Hd in H.
  destruct (stopping w) eqn:Hs; [rewrite (phase_stopping w) in Hd; done|]. unfold full. cbn in H. lia.
Qed.
Lemma signal_mono w w' : work_ready w' = work_ready w -> (posting w <= posting w')%nat -> control w' = control w -> signal w -> signal w'.
Proof. unfold signal. intros -> Hp -> [H|H]; [left; lia|by right]. Qed.
Lemma posting_bound (b : bool) n : (n <= if b then S n else n)%nat.
Proof. destruct b; lia. Qed.
Lemma queue_signal e w : signal w -> signal (tcpcc_service_queue_listener e w).
Proof. apply signal_mono; [done|apply posting_bound|done]. Qed.
(** The end of a turn: a drain is noted where no bridge is left. *)
Lemma attentive_noted w w' : phase w = true -> ledger w -> attentive w -> thread w = Some TShouldStop ->
  drained w' = drained w || draining w && (active_connections (stats w) =? 0) ->
  notifier w' = notifier w -> table w' = table w -> draining w' = draining w -> bridges w' = bridges w -> stopping w' = stopping w ->
  notifying w' = notifying w -> control w' = control w -> work_ready w' = work_ready w -> posting w' = posting w -> stats w' = stats w ->
  ready_list w' = ready_list w -> unseen (thread w') = [] ->
  has_left (progress (thread w')) = true \/ (stopping w = false \/ bridges w <> []) /\ has_left (progress (thread w')) = false -> attentive w'.
Proof.
  intros Hp Hl [] Ht Hdd Hn Htb Hd Hb Hs Hny Hc Hwr Hpo Hst Hr Hu Hleft.
  assert (signal w' <-> signal w) as Hsig by (unfold signal; by rewrite Hwr, Hpo, Hc). rewrite Ht in *.
  constructor; rewrite ?Hn, ?Htb, ?Hd, ?Hb, ?Hs, ?Hny, ?Hc, ?Hdd, ?Hr, ?Hu, ?Hsig; try done.
  - intros _. apply at_notifier0. by left.
  - intros h r Hh. rewrite Hsig. by apply (at_finished0 h r).
  - intros _ ->. destruct (active_connections (stats w) =? 0) eqn:Ha; [left; by rewrite orb_true_r|]. right; left. intros Hnil.
    rewrite (cg_active _ _ (lg_counts w Hl)), Hnil in Ha. done.
  - intros _ Hst'. destruct Hleft as [->|[[|] _]]; [by left|congruence|by right; left].
  - intros Hd' Hr'. destruct (at_ready0 Hd' Hr') as [Hf|[|]]; [left|by right; left|done]. unfold full. by rewrite Hst.
Qed.
Lemma attentive_thread t w w' : phase w = true -> ledger w -> attentive w -> thread w = Some t -> thread_step t w = Some w' -> attentive w'.
Proof.
  intros Hp Hl Hw Ht H. destruct t; cbn [thread_step] in H; step_cases H.
  all: try (apply (attentive_same w); rewrite ?Ht; try done; auto; fail).
  - by apply (attentive_reap w _ n).
  - apply (attentive_busy (TReap (z :: l)) w); auto. apply (finished_kept w); try done.
    + intros h r Hh. change (delete z (table w) !! h = Some (Some r)) in Hh. by apply lookup_delete_Some in Hh as [_ ?].
    + by rewrite Ht.
  - apply (attentive_busy (TReap (z :: l)) w); auto. apply (finished_kept w); try done.
    intros h r Hh. rewrite Ht. cbn. intros [->|]%elem_of_cons; [|done]. change (table w !! z = Some (Some r)) in Hh. congruence.
  - apply (attentive_busy (TJoined handle ret todo) w); auto. apply (finished_kept w); try done.
    intros h r Hh. rewrite Ht. cbn. intros [->|]%elem_of_cons; [|done]. change (table w !! handle = Some (Some r)) in Hh.
    assert (is_Some (table w !! handle)) as Hs by eauto. apply (lg_table w Hl) in Hs. rewrite Ht in Hs. naive_solver.
  - apply (attentive_busy TCheckDraining w); auto. by apply (finished_kept w); rewrite ?Ht.
  - apply (attentive_busy TCheckStopping w); auto; [right; exact (phase_stopping w Hp Heqb)|]. by apply (finished_kept w); rewrite ?Ht.
  - apply (attentive_frame w); rewrite ?Ht; try done; auto. intros Hd _. exact (not_admitted budget w Hp Hd Heqb).
  - apply (attentive_busy (TPop budget) w); auto. by apply (finished_kept w); rewrite ?Ht.
  - apply (attentive_busy (TFail status) w); auto. by apply (finished_kept w); rewrite ?Ht.
  - apply (attentive_busy (TQueue entry budget inherits) w); auto. apply (finished_kept w); rewrite ?Ht; try done. exact (queue_signal entry w).
  - apply (attentive_busy (TAdd handle budget) w); auto. by apply (finished_kept w); rewrite ?Ht.
  - apply (attentive_busy (TAdd handle budget) w); auto. by apply (finished_kept w); rewrite ?Ht.
  - apply (attentive_frame w); rewrite ?Ht; try done.
    + apply signal_mono; [done|apply posting_bound|done].
    + intros Hd Hr. change (ready_list w <> []) in Hr. destruct (at_ready w Hw Hd Hr) as [|[Hs|Hs]]; [by left|right; left|right; left].
      * revert Hs. apply signal_mono; [done|apply posting_bound|done].
      * rewrite Ht in Hs. cbn in Hs. left. rewrite Hs, bool_decide_eq_false_2 by done. fields. lia.
  - apply (attentive_noted w); rewrite ?Ht; try done. by left.
  - apply (attentive_noted w); rewrite ?Ht; try done. right. split; [|done]. destruct (stopping w); [right|by left].
    intros Hb. rewrite (cg_active _ _ (lg_counts w Hl)), Hb in Heqb. done.
Qed.

Lemma signal_moves w w' : work_ready w' = work_ready w -> (posting w <= posting w')%nat ->
  (will_post (control w) = true -> will_post (control w') = true) -> signal w -> signal w'.
Proof. unfold signal. intros -> Hp Hc [H|H]; [left; lia|by right; auto]. Qed.
Lemma removed_ready (b : bool) (e : Z) l : (if b then filter (fun other => other <> e) l else l) <> [] -> l <> [].
Proof. by intros H ->; destruct b. Qed.

(** Without a thread there are no sessions. *)
Lemma dead_table w h : ledger w -> progress (thread w) <> PLoop -> table w !! h = None.
Proof.
  intros Hl Ht. apply eq_None_not_Some. intros Hs. apply (lg_table w Hl) in Hs.
  rewrite (lg_idle w Hl Ht) in Hs. destruct Hs as [[?%elem_of_nil _]|Hs]; [done|]. by destruct (thread w) as [[]|].
Qed.
Lemma attentive_dead w w' : ledger w -> progress (thread w) <> PLoop -> table w' = table w -> thread w' = None ->
  (notified (control w') = true -> notifier w' = true) ->
  (draining w' = false -> ready_list w' <> [] -> full w' \/ signal w') ->
  (first_start (control w') = true -> draining w' = false) -> attentive w'.
Proof.
  intros Hl Hp Htb Ht Hn Hr Hf. constructor; rewrite ?Ht, ?Htb; try done; [naive_solver| |naive_solver].
  intros h r. by rewrite dead_table.
Qed.
(** A listener that is queued is signalled. *)
Lemma queue_ready e w : ready_list (tcpcc_service_queue_listener e w) <> [] ->
  ready_list w <> [] \/ (0 < posting (tcpcc_service_queue_listener e w))%nat.
Proof.
  unfold tcpcc_service_queue_listener. cbv zeta. destruct (match entries w !! e with Some _ => _ | None => _ end).
  - intros _. right. change (0 < S (posting w))%nat. lia.
  - intros H. by left.
Qed.
Lemma attentive_queue e w w' : attentive w -> let q := tcpcc_service_queue_listener e w in
  ready_list w' = ready_list q -> posting w' = posting q -> work_ready w' = work_ready w -> stats w' = stats w ->
  notifier w' = notifier w -> table w' = table w -> draining w' = draining w -> drained w' = drained w -> bridges w' = bridges w ->
  stopping w' = stopping w -> notifying w' = notifying w -> thread w' = thread w ->
  (will_post (control w) = true -> will_post (control w') = true) -> (notified (control w') = true -> notified (control w) = true) ->
  (first_start (control w') = true -> first_start (control w) = true) -> attentive w'.
Proof.
  cbv zeta. intros Hw Hr Hp Hwr Hst Hn Htb Hd Hdd Hb Hs Hny Ht Hwp Hno Hf.
  assert (signal w -> signal w') as Hsig by (apply signal_moves; rewrite ?Hp; try done; apply posting_bound).
  apply (attentive_frame w); rewrite ?Ht; try done. rewrite Hr. intros Hd' Hq.
  destruct (queue_ready e w Hq) as [Hr'|Hpo]; [|right; left; left; rewrite Hp; clear -Hpo; lia].
  destruct (at_ready w Hw Hd' Hr') as [Hfu|[|]]; [left|by right; left; auto|by right; right]. unfold full. by rewrite Hst.
Qed.

Lemma dead_ready w w' : attentive w -> looking (thread w) = false -> draining w' = draining w -> (ready_list w' <> [] -> ready_list w <> []) ->
  stats w' = stats w -> (signal w -> signal w') -> draining w' = false -> ready_list w' <> [] -> full w' \/ signal w'.
Proof.
  intros Hw Ht Hd Hr Hst Hs H1 H2. rewrite Hd in H1. destruct (at_ready w Hw H1 (Hr H2)) as [Hf|[|]]; [left|by right; auto|congruence].
  unfold full. by rewrite Hst.
Qed.
Lemma attentive_thread_starts e w w' : phase w = true -> ledger w -> attentive w -> control w = CStartThread e -> control w' = CStartTask e ->
  thread w' = Some TWait -> notifier w' = notifier w -> table w' = table w -> draining w' = draining w -> stopping w' = stopping w ->
  ready_list w' = ready_list w -> stats w' = stats w -> work_ready w' = work_ready w -> posting w' = posting w -> attentive w'.
Proof.
  intros Hp Hl Hw Hc Hc' Ht' Hn Htb Hd Hs Hr Hst Hwr Hpo.
  assert (thread w = None) as Ht by (apply phase_dead; [done|right; by rewrite Hc]).
  assert (draining w = false) as Hdr by (apply (at_first w Hw); by rewrite Hc).
  constructor; rewrite ?Hc', ?Ht', ?Hn, ?Htb, ?Hd, ?Hs; try done.
  - intros _. apply (at_notifier w Hw). right. by rewrite Hc.
  - intros h r. rewrite dead_table; [done..|by rewrite Ht].
  - congruence.
  - intros _ Hs'%phase_stopping; [congruence|done].
  - intros _ Hr'. destruct (dead_ready w w') as [|]; try done; [by rewrite Ht|by rewrite Hr| |congruence|by left|by right; left].
    apply signal_moves; rewrite ?Hc, ?Hpo; done.
Qed.

Lemma attentive_control answer w w' : phase w = true -> listing w -> ledger w -> attentive w -> control_step answer w = Some w' -> attentive w'.
Proof.
  intros Hp Hls Hl Hw H. pose proof (ls_control w Hls) as Hc. pose proof (phase_dead w Hp) as Hd. pose proof (at_first w Hw) as Hf.
  unfold control_step, start_locked in H. destruct (control w) eqn:Hctl; step_cases H.
  all: try (apply (attentive_same w); rewrite ?Hctl; try done; auto; apply signal_moves; rewrite ?Hctl; done).
  - apply negb_true_iff in Heqb. assert (thread w = None) as Ht by auto. apply (attentive_dead w); rewrite ?Ht; try done.
  - assert (thread w = None) as Ht by auto. apply (attentive_dead w); rewrite ?Ht; try done; auto.
    apply (dead_ready w); rewrite ?Ht; try done. apply signal_moves; by rewrite ?Hctl.
  - by apply (attentive_thread_starts entry w).
  - apply (attentive_queue entry w); try done; by rewrite Hctl.
  - apply (attentive_same w); rewrite ?Hctl; try done; auto; [apply signal_moves; by rewrite ?Hctl|apply removed_ready].
  - assert (first = true) as -> by apply Hc. assert (thread w = None) as Ht by auto. apply (attentive_dead w); rewrite ?Ht; try done.
    apply (dead_ready w); rewrite ?Ht; try done. apply signal_moves; by rewrite ?Hctl.
  - apply (attentive_same w); rewrite ?Hctl; try done; auto. intros _. left. change (0 < work_ready w + S (posting w))%nat. lia.
  - apply (attentive_same w); rewrite ?Hctl; try done; auto. intros _. left. change (0 < work_ready w + S (posting w))%nat. lia.
  - apply (attentive_dead w); rewrite ?Heqo; try done.
    apply (dead_ready w); rewrite ?Heqo; try done. apply signal_moves; by rewrite ?Hctl.
  - assert (thread w = None) as Ht by auto. apply (attentive_dead w); rewrite ?Ht; try done.
    apply (dead_ready w); rewrite ?Ht; try done. apply signal_moves; by rewrite ?Hctl.
  - apply (attentive_same w); rewrite ?Hctl; try done; auto; [apply signal_moves; by rewrite ?Hctl|apply removed_ready].
Qed.

(** A drain or a stop is asked for: the call posts. *)
Lemma attentive_asked w w' : attentive w -> control w = CIdle -> notifier w' = notifier w -> thread w' = thread w -> draining w' = true ->
  will_post (control w') = true -> attentive w'.
Proof.
  intros Hw Hc Hn Ht Hd Hp. assert (signal w') as Hs by (by right).
  constructor; rewrite ?Hn, ?Ht, ?Hd; auto; try done.
  - intros [H|H]; [by apply (at_notifier w Hw); left|]. by destruct (control w').
  - intros H. by destruct (control w').
Qed.
Lemma attentive_finish h r w w' : attentive w -> table w !! h = Some None -> table w' = <[h := Some r]> (table w) ->
  notifying w' = S (notifying w) -> notifier w' = notifier w -> thread w' = thread w -> draining w' = draining w -> drained w' = drained w ->
  stopping w' = stopping w -> bridges w' = bridges w -> ready_list w' = ready_list w -> stats w' = stats w -> work_ready w' = work_ready w ->
  posting w' = posting w -> control w' = control w -> attentive w'.
Proof.
  intros [] Hh Htb Hny Hn Ht Hd Hdd Hs Hb Hr Hst Hwr Hpo Hc.
  constructor; unfold signal, full; rewrite ?Htb, ?Hny, ?Hn, ?Ht, ?Hd, ?Hdd, ?Hs, ?Hb, ?Hr, ?Hst, ?Hwr, ?Hpo, ?Hc; try done.
  intros ? ? _. right; left. apply Nat.lt_0_succ.
Qed.
(** A bridge notifies: the thread that there is then hears of it. *)
Lemma attentive_notify w w' : ledger w -> attentive w -> (posting w <= posting w')%nat -> (thread w <> None -> (0 < posting w')%nat) ->
  table w' = table w -> notifier w' = notifier w -> thread w' = thread w -> draining w' = draining w -> drained w' = drained w ->
  stopping w' = stopping w -> bridges w' = bridges w -> ready_list w' = ready_list w -> stats w' = stats w -> work_ready w' = work_ready w ->
  control w' = control w -> attentive w'.
Proof.
  intros Hl Hw Hle Hpo Htb Hn Ht Hd Hdd Hs Hb Hr Hst Hwr Hc.
  assert (signal w -> signal w') as Hsig by (apply signal_mono; done).
  assert (thread w <> None -> signal w') as Hsig' by (intros H; specialize (Hpo H); left; clear -Hpo; lia).
  destruct Hw. constructor; rewrite ?Htb, ?Hn, ?Ht, ?Hd, ?Hdd, ?Hs, ?Hb, ?Hr, ?Hc; auto.
  - intros h r Hh. left. apply Hsig'. intros Hth. by rewrite dead_table in Hh by (rewrite ?Hth; done).
  - intros H1 H2. destruct (at_ready0 H1 H2) as [Hf|[|]]; [left|by auto|by auto]. unfold full. by rewrite Hst.
Qed.
Lemma notifier_heard w t : phase w = true -> attentive w -> thread w = Some t -> notifier w = true /\ allocated w = true.
Proof.
  intros Hp Hw Ht. split; [apply (at_notifier w Hw); left; by rewrite Ht|]. by destruct (phase_alive t w Hp Ht).
Qed.

Lemma attentive_step l w w' : phase w = true -> listing w -> ledger w -> attentive w -> step l w = Some w' -> attentive w'.
Proof.
  intros Hp Hls Hl Hw H. destruct l; unfold step in H.
  - destruct (thread w) as [t|] eqn:Ht; [|done]. by apply (attentive_thread t w).
  - unfold accept_step in H. destruct (thread w) as [t|] eqn:Ht; step_cases H.
    all: apply (attentive_same w); rewrite ?Ht; try done; auto.
  - unfold bridge_step in H. destruct (thread w) as [t|] eqn:Ht; step_cases H.
    1-2: apply (attentive_same w); rewrite ?Ht; try done; auto.
    apply (attentive_busy (TStart entry budget) w); auto. apply (finished_kept w); try done; [|by rewrite Ht].
    intros h r Hh. change (<[handle := None]> (table w) !! h = Some (Some r)) in Hh. by apply lookup_insert_Some in Hh as [[_ ?]|[_ ?]].
  - unfold call_step in H. step_cases H.
    all: try (apply (attentive_same w); rewrite ?Heqc0; try done; auto; apply signal_moves; rewrite ?Heqc0; done).
    all: by apply (attentive_asked w).
  - by apply (attentive_control answer w).
  - step_cases H; apply (attentive_same w); rewrite ?Heqc; try done; auto; apply signal_moves; by rewrite ?Heqc.
  - apply (inj Some) in H; subst. unfold tcpcc_service_listener_data_ready.
    destruct (listener_in_use listener w && allocated w); [|done]. by apply (attentive_queue listener w).
  - step_cases H. by apply (attentive_same w); auto.
  - step_cases H. by apply (attentive_same w); auto.
  - step_cases H. apply (attentive_same w); try done; auto. intros [Hs|Hs]; [left|by right].
    change (0 < S (work_ready w) + n)%nat. lia.
  - step_cases H. by apply (attentive_finish handle result w).
  - assert (thread w <> None -> notifier w = true /\ allocated w = true) as Hn.
    { intros Ht. destruct (thread w) as [t|] eqn:Hth; [|done]. by apply (notifier_heard w t). }
    step_cases H; apply (attentive_notify w); try done.
    + apply posting_bound.
    + intros [_ Ha]%Hn. change (0 < if allocated w then S (posting w) else posting w)%nat. rewrite Ha. lia.
    + intros [? _]%Hn. congruence.
Qed.
Lemma attentive_reachable w : reachable w -> attentive w.
Proof.
  induction 1 as [|w l w' Hr Hw Hs]; [|by eapply attentive_step; [apply phase_reachable|apply listing_reachable|apply ledger_reachable|..]].
  constructor; try done. by intros [?|?].
Qed.

(** ** The notifier *)

(** The completion notifier is there from the first start on until the thread has ended. *)
Definition notifier_good (w : World) : Prop :=
  (allocated w = false -> notifier w = false) /\
  match control w with
  | CStartNotifier _ | CFailReset _ _ _ | CStopRelease | CStopSplice | CStopFree _ | CStopFinal => notifier w = false
  | CFailRestore _ _ first notified | CFailRemove _ _ first notified | CFailUnlink _ _ first notified
  | CFailNotifier _ _ first notified => first = true -> notifier w = notified
  | _ => True
  end.

Lemma no_sessions w : ledger w -> progress (thread w) <> PLoop -> table w = ∅.
Proof. intros Hl Ht. apply map_eq. intros h. by rewrite lookup_empty, dead_table. Qed.
Lemma notifier_frame w w' : notifier_good w -> notifier w' = notifier w -> allocated w' = allocated w -> control w' = control w -> notifier_good w'.
Proof. unfold notifier_good. by intros [H1 H2] -> -> ->. Qed.
Lemma notifier_cleared w : table w = ∅ -> notifier (clear_notifier w) = false.
Proof. intros H. change ((if (size (table w) =? 0)%nat then false else notifier w) = false). by rewrite H, map_size_empty. Qed.

Lemma notifier_control answer w w' : phase w = true -> listing w -> ledger w -> attentive w -> notifier_good w ->
  control_step answer w = Some w' -> notifier_good w'.
Proof.
  intros Hp Hls Hl Ha [Hn1 Hn2] H. pose proof (phase_dead w Hp) as Hd. pose proof (at_notifier w Ha) as Han. pose proof (ls_control w Hls) as Hc.
  unfold control_step, start_locked in H. destruct (control w) eqn:Hctl; step_cases H.
  all: try (split; [exact Hn1|done]).
  - apply negb_true_iff in Heqb. split; [done|]. exact (Hn1 Heqb).
  - split; [|done]. intros Hal. change (allocated w = false) in Hal. rewrite phase_busy in Hal; [done..|by rewrite Hctl].
  - split; [done|]. intros _. exact Hn2.
  - split; [done|]. intros ->. change (notifier w = true). auto.
  - split; [done|]. intros _. change (notifier w = true). auto.
  - destruct Hc as [-> _]. assert (notifier (clear_notifier w) = false) as Hno by (apply notifier_cleared, no_sessions; [done|]; by rewrite Hd by auto).
    by split.
  - destruct Hc as [-> _]. split; [done|]. exact (Hn2 eq_refl).
  - split; [|done]. intros _. exact Hn2.
  - split; [|done]. intros Hal. change (allocated w = false) in Hal. congruence.
  - split; [|done]. intros _. exact (Hn1 eq_refl).
  - assert (notifier (clear_notifier w) = false) as Hno by (apply notifier_cleared, no_sessions; [done|]; by rewrite Hd by auto).
    by split.
  - split; [|done]. intros _. exact Hn2.
Qed.
Lemma notifier_step l w w' : phase w = true -> listing w -> ledger w -> attentive w -> notifier_good w ->
  step l w = Some w' -> notifier_good w'.
Proof.
  intros Hp Hls Hl Ha Hw H. destruct l; unfold step in H.
  - destruct (thread w) as [t|] eqn:Ht; [|done]. destruct t; cbn [thread_step] in H; step_cases H; by apply (notifier_frame w).
  - unfold accept_step in H. step_cases H; by apply (notifier_frame w).
  - unfold bridge_step in H. step_cases H; by apply (notifier_frame w).
  - unfold call_step in H. destruct (control w) eqn:Hctl; step_cases H; (split; [apply Hw|done]).
  - by apply (notifier_control answer w).
  - step_cases H; (split; [apply Hw|done]).
  - apply (inj Some) in H; subst. unfold tcpcc_service_listener_data_ready. destruct (_ && _); [|done]. by apply (notifier_frame w).
  - step_cases H; by apply (notifier_frame w).
  - step_cases H; by apply (notifier_frame w).
  - step_cases H; by apply (notifier_frame w).
  - step_cases H; by apply (notifier_frame w).
  - step_cases H; by apply (notifier_frame w).
Qed.
Lemma notifier_reachable w : reachable w -> notifier_good w.
Proof.
  induction 1 as [|w l w' Hr Hw Hs]; [done|].
  by eapply notifier_step; [apply phase_reachable|apply listing_reachable|apply ledger_reachable|apply attentive_reachable|..].
Qed.

(** * Theorems *)

Lemma drain_heard w : reachable w -> control w = CDrainStats -> drained w = true.
Proof.
  induction 1 as [|w l w' Hr Hw Hs]; [done|]. destruct l; unfold step in Hs.
  - destruct (thread w) as [t|]; [|done]. destruct t; cbn [thread_step] in Hs; step_cases Hs; try exact Hw.
    all: intros Hc; change (drained w || draining w && (active_connections (stats w) =? 0) = true); by rewrite Hw.
  - unfold accept_step in Hs. step_cases Hs; exact Hw.
  - unfold bridge_step in Hs. step_cases Hs; exact Hw.
  - unfold call_step in Hs. step_cases Hs; done.
  - unfold control_step, start_locked in Hs. step_cases Hs; done.
  - step_cases Hs; done.
  - apply (inj Some) in Hs; subst. unfold tcpcc_service_listener_data_ready. by destruct (_ && _).
  - step_cases Hs; exact Hw.
  - step_cases Hs; exact Hw.
  - step_cases Hs; exact Hw.
  - step_cases Hs; exact Hw.
  - step_cases Hs; exact Hw.
Qed.
Lemma drain_returned w : reachable w -> control w = CDrainStats -> bridges w = [] /\ allocated w = true /\ table w = ∅.
Proof.
  intros Hr Hc. destruct (drain_reachable w Hr) as (_ & Hb & Ha); [by apply drain_heard|]. split_and!; [done| |].
  - apply phase_busy; [by apply phase_reachable|by rewrite Hc].
  - apply map_eq. intros h. rewrite lookup_empty. apply eq_None_not_Some. rewrite (lg_table w (ledger_reachable w Hr)), Hb.
    intros [[?%elem_of_nil _]|H]; [done|]. by destruct (thread w) as [[]|].
Qed.
Lemma released_listing w : listing w -> control w = CStopFinal -> entries w = ∅ /\ listeners w = [] /\ ready_list w = [].
Proof.
  intros Hw Hc. pose proof (ls_control w Hw) as Hl. rewrite Hc in Hl. cbn in Hl. split_and!; [|done|].
  - apply map_eq. intros e. rewrite lookup_empty. apply eq_None_not_Some. intros [x Hx].
    assert (is_Some (config_of (entries w) e)) as Hs by (unfold config_of; rewrite Hx; cbn; eauto).
    apply (ls_entries w Hw) in Hs. rewrite Hl, Hc in Hs. by apply elem_of_nil in Hs.
  - apply unlinked_ready; [done|done|]. rewrite Hc. by intros e ?%elem_of_nil.
Qed.

Lemma fits_u64 z : 0 <= z < 2 ^ 64 -> uint_fits 8 z = true.
Proof. unfold uint_fits. change (2 ^ (8 * Z.of_nat 8)) with (2 ^ 64). lia. Qed.
Lemma fits_u32 z : 0 <= z < 4294967296 -> uint_fits 4 z = true.
Proof. unfold uint_fits. change (2 ^ (8 * Z.of_nat 4)) with 4294967296. lia. Qed.
Lemma fits_s32 z : -4095 <= z <= 0 -> int_fits 4 z = true.
Proof. unfold int_fits. change (2 ^ (8 * Z.of_nat 4 - 1)) with 2147483648. lia. Qed.
Lemma counts_fit s n : counts_good s n -> values_fit SERVICE_STATS (service_values s) = true.
Proof.
  intros []. unfold TCPCC_BRIDGE_SESSION_LIMIT, TCPCC_SERVICE_MAX_ACCEPT_BATCH, TCPCC_CONTROL_SERVICE_STOPPED, TCPCC_CONTROL_SERVICE_FAILED in *.
  assert (0 <= accepted_connections s < 2 ^ 64) by (rewrite cg_accepted; apply u64_range).
  change (2 ^ 32) with 4294967296 in *. cbn [values_fit SERVICE_STATS]. unfold service_values. cbn [fst snd].
  rewrite !andb_true_iff. split_and!; try done; first [apply fits_u64; lia|apply fits_u32; lia|apply fits_s32; lia].
Qed.

(** C11. The counters of the service are right in every interleaving of its thread, the calls of the control thread, the callbacks of
    the listeners and the ends of the bridges.  The active connections are the bridges on the list; each has its own handle; the
    connections that were accepted are those that have completed and those that are active, to the width of the counter; there
    are never more at a time than the peak says, nor than the configuration allows; and the sessions that exist are the bridges on
    the list, apart from one that has been joined and one that has just been started. *)
Theorem service_accounts w : reachable w ->
  NoDup (bridges w) /\
  active_connections (stats w) = Z.of_nat (length (bridges w)) /\
  accepted_connections (stats w) = u64 (completed_connections (stats w) + active_connections (stats w)) /\
  active_connections (stats w) <= peak_connections (stats w) <= TCPCC_BRIDGE_SESSION_LIMIT /\
  (ss_max_connections (stats w) <> 0 -> peak_connections (stats w) <= ss_max_connections (stats w)) /\
  forall h, is_Some (table w !! h) <-> (h ∈ bridges w /\ joining (thread w) <> Some h) \/ adding (thread w) = Some h.
Proof.
  intros Hw%ledger_reachable. pose proof (lg_counts w Hw) as Hc. rewrite (cg_active _ _ Hc).
  split_and!; try apply Hw; try apply Hc. done.
Qed.

(** C13. No listener entry is used after it was freed.  Whatever interleaving led here, neither thread and no callback of a listener
    has read an entry that is gone, and no entry was freed that its socket or the ready list still referred to.  A connection
    inherits its callback and the pointer to the entry from the listener: every one that points to an entry, in the queue or
    just accepted, points to one that exists, and none has read one that was freed, with one exception: a start that fails
    and frees its entry while a connection is in the queue of its listener.  The entries that exist are those on the list of
    listeners and those a call is adding or removing; the ready list holds the entries that are marked as queued, once each;
    there are at most 64 listeners. *)
Theorem service_memory_safe ls w : run_labels ls boot = Some w ->
  fault w = false /\
  (abandoned ls boot = false -> child_fault w = false /\ forall e, e ∈ children w ++ taken w -> is_Some (entries w !! e)) /\
  (forall e, is_Some (entries w !! e) <-> e ∈ listeners w ++ loose (control w)) /\
  NoDup (ready_list w) /\
  (forall e, e ∈ ready_list w <-> exists entry, entries w !! e = Some entry /\ ready_queued entry = true) /\
  listener_count w = Z.of_nat (length (listeners w)) /\ listener_count w <= TCPCC_SERVICE_MAX_LISTENERS.
Proof.
  intros Hrun. pose proof (listing_reachable w (reachable_run ls boot w reachable_boot Hrun)) as Hw.
  assert (forall e, is_Some (config_of (entries w) e) <-> is_Some (entries w !! e)) as Hs
    by (intros e; unfold config_of; by rewrite fmap_is_Some).
  destruct (ls_agrees w Hw) as [Hn Hq]. split_and!; try apply Hw; try done.
  - intros Hab. pose proof (guarded_run ls w Hrun Hab) as Hg. split; [apply Hg|]. intros e He. by apply Hs, guarded_entry.
  - intros e. by rewrite <- (ls_entries w Hw), Hs.
  - intros e. rewrite Hq. unfold queued. destruct (entries w !! e); cbn; naive_solver.
Qed.

(** The counters of a service without bridges. *)
Lemma idle_counts w : ledger w -> bridges w = [] ->
  active_connections (stats w) = 0 /\ completed_connections (stats w) = accepted_connections (stats w).
Proof.
  intros Hl Hb. pose proof (lg_counts w Hl) as Hc. rewrite Hb in Hc. split; [apply Hc|].
  rewrite (cg_accepted _ _ Hc). cbn. rewrite Z.add_0_r. symmetry. apply Z.mod_small, Hc.
Qed.

(** C15. A drain that returns 0 reports a service without connections: no session is left, nothing is active, and every connection
    that was accepted has completed. *)
Theorem drain_returns_idle answer w w' : reachable w -> control w = CDrainStats -> step (LControl answer) w = Some w' ->
  control w' = CReturn 0 (Some (stats w)) /\ active_connections (stats w) = 0 /\
  completed_connections (stats w) = accepted_connections (stats w) /\ bridges w = [] /\ table w = ∅.
Proof.
  intros Hr Hc H. pose proof (ledger_reachable w Hr) as Hl. pose proof (phase_reachable w Hr) as Hp.
  destruct (drain_returned w Hr Hc) as (Hb & Ha & Ht). destruct (idle_counts w Hl Hb) as [H1 H2].
  cbn in H. unfold control_step in H. rewrite Hc, Ha in H. apply (inj Some) in H as <-. done.
Qed.

(** C14. A stop that returns 0 has taken the service down: the thread has ended, no session and no listener is left, the completion
    notifier is withdrawn, the service can be started again, and what it reports is that every connection it accepted has
    completed. *)
Theorem stop_returns_released answer w w' : reachable w -> control w = CStopFinal -> step (LControl answer) w = Some w' ->
  exists final, control w' = CReturn 0 (Some final) /\
    state final = TCPCC_CONTROL_SERVICE_STOPPED /\ active_connections final = 0 /\
    completed_connections final = accepted_connections final /\
    allocated w' = false /\ thread w' = None /\ notifier w' = false /\
    table w' = ∅ /\ entries w' = ∅ /\ listeners w' = [] /\ ready_list w' = [].
Proof.
  intros Hr Hc H. pose proof (ledger_reachable w Hr) as Hl. pose proof (listing_reachable w Hr) as Hls.
  assert (thread w = None) as Ht by (apply phase_dead; [by apply phase_reachable|right; by rewrite Hc]).
  assert (bridges w = []) as Hb by (apply (lg_idle w Hl); by rewrite Ht). destruct (idle_counts w Hl Hb) as [H1 H2].
  assert (table w = ∅) as Htb by (apply no_sessions; [done|by rewrite Ht]).
  destruct (notifier_reachable w Hr) as [_ Hn]. rewrite Hc in Hn.
  destruct (released_listing w Hls Hc) as (He & Hli & Hre).
  cbn in H. unfold control_step in H. rewrite Hc in H. apply (inj Some) in H as <-. eexists. split_and!; [reflexivity|..]; done.
Qed.

(** Only the control thread takes a start to its failing path. *)
Lemma fails_by_control l w w' e ret first notified : step l w = Some w' -> control w' = CFailRestore e ret first notified ->
  control w' <> control w -> exists answer, l = LControl answer.
Proof.
  intros H Hc Hne. destruct l; unfold step in H.
  - destruct (thread w) as [t|]; [|done]. destruct t; cbn [thread_step] in H; step_cases H; done.
  - unfold accept_step in H. step_cases H; done.
  - unfold bridge_step in H. step_cases H; done.
  - unfold call_step in H. step_cases H; done.
  - eauto.
  - step_cases H; done.
  - apply (inj Some) in H; subst. unfold tcpcc_service_listener_data_ready in *. by destruct (_ && _).
  - step_cases H; done.
  - step_cases H; done.
  - step_cases H; done.
  - step_cases H; done.
  - step_cases H; done.
Qed.

(** A start fails after it has been admitted only where the thread cannot be started: whatever ran before, and however often the
    service was stopped, it finds the completion notifier free and the socket of its listener unused, and it is then the first
    start, so that there is no service thread to see the entry that it frees. *)
Theorem start_fails_without_thread l w w' e ret first notified : reachable w -> step l w = Some w' ->
  control w' = CFailRestore e ret first notified -> control w' <> control w ->
  l = LControl ret /\ control w = CStartThread e /\ errno ret = true /\ first = true /\ thread w = None.
Proof.
  intros Hr H Hc Hne. destruct (fails_by_control l w w' e ret first notified) as [answer ->]; [done..|].
  pose proof (phase_dead w (phase_reachable w Hr)) as Hd.
  pose proof (notifier_reachable w Hr) as [_ Hn]. pose proof (ls_control w (listing_reachable w Hr)) as Hls.
  cbn in H. unfold control_step, start_locked in H. destruct (control w) eqn:Hctl; step_cases H; try done.
  - apply not_true_iff_false in Heqb. destruct Heqb. unfold notifier_free.
    rewrite no_sessions by (apply ledger_reachable || rewrite Hd by auto; done). by rewrite Hn, map_size_empty.
  - assert (listener_in_use entry w = false); [|congruence]. destruct first0; by destruct Hls as [_ [? _]].
  - injection Hc as <- <- <- _. split_and!; auto.
Qed.

(** C16. A stop leaves no session alone: once it has gone through the bridges, every session that exists has been cancelled, or
    is one that the service thread has just started and is about to cancel. *)
Theorem stop_cancels_sessions w h : reachable w -> stopping w = true -> before_cancel (control w) = false -> is_Some (table w !! h) ->
  h ∈ cancelled w \/ cancelling (thread w) = Some h.
Proof. intros Hr Hs Hc. exact (cancel_reachable w Hr Hs Hc h). Qed.

(** C12. No wake-up is lost.  Where the service thread waits, its completion is not counted, none is on its way and the control thread is not
    about to post one, there is nothing for it to do: no session has ended and is to be joined; a drain that is asked for is
    noted, or a bridge is running; a stop waits for a bridge; and a listener that is ready waits for room. *)
Theorem no_wakeup_lost w : reachable w -> thread w = Some TWait -> work_ready w = O -> posting w = O -> notifying w = O ->
  will_post (control w) = false ->
  (forall h result, table w !! h = Some result -> result = None) /\
  (draining w = true -> drained w = true \/ bridges w <> []) /\
  (stopping w = true -> bridges w <> []) /\
  (draining w = false -> ready_list w <> [] ->
   ss_max_connections (stats w) <> 0 /\ ss_max_connections (stats w) <= active_connections (stats w)).
Proof.
  intros Hr Ht Hwr Hpo Hn Hc. pose proof (attentive_reachable w Hr) as Hw.
  assert (~ signal w) as Hs by (unfold signal; rewrite Hwr, Hpo, Hc; intros [?|?]; [lia|done]).
  assert (thread w <> None) as Hth by (by rewrite Ht). split_and!.
  - intros h [r|] Hh; [|done]. destruct (at_finished w Hw h r Hh) as [|[|Hu]]; [done|lia|]. rewrite Ht in Hu. by apply elem_of_nil in Hu.
  - intros Hd. destruct (at_drain w Hw Hth Hd) as [|[|[|H]]]; [by left|by right|done|by rewrite Ht in H].
  - intros Hd. destruct (at_stop w Hw Hth Hd) as [H|[|[|H]]]; [by rewrite Ht in H|done|done|by rewrite Ht in H].
  - intros Hd Hre. destruct (at_ready w Hw Hd Hre) as [|[|H]]; [done|done|by rewrite Ht in H].
Qed.

(** C19. The counters the kernel reports are read back by the supervisor: whatever they are when a call copies them, they fit the
    fields of the message, and decoding the message gives the same counters. *)
Theorem service_stats_decode w : reachable w ->
  exists message, pack SERVICE_STATS (service_values (stats w)) = Ok message /\ decode_service_stats (VBytes message) = Ok (stats w).
Proof.
  intros Hr. pose proof (lg_counts w (ledger_reachable w Hr)) as Hc.
  destruct (pack_fit SERVICE_STATS (service_values (stats w))) as [b Hb]; [by eapply counts_fit|].
  exists b. split; [done|]. apply decode_service_stats_iff. split; [done|]. apply Hc.
Qed.

(** * Runs *)

(** A service with one listener: it is started and accepts a connection, which inherits the callback and ends; it is drained,
    and stopped. *)
Definition sample_config : Config :=
  {| backend_ipv4 := INADDR_LOOPBACK; backend_port := 8080; reserved := 0; max_connections := 2; c_accept_batch := 4 |}.
Definition sample_result : BridgeResult :=
  {| token := 0; public_to_backend_bytes := 5; backend_to_public_bytes := 7; buffer_limit := 0; total_buffer_limit := 0; terminal_events := 0;
     host_send_eagain := 0; host_partial_writes := 0; host_recv_eagain := 0; session_limit := 0; br_status := 0 |}.
Definition sample_start : list Label := LCall (Start 5 sample_config) true true :: repeat (LControl 0) 7.
Definition sample_accept : list Label :=
  LConnect 5 :: LComplete :: repeat LThread 8 ++ [LAccept (Accepted true); LThread; LThread; LBridge (Bridged 1048577)] ++ repeat LThread 4 ++
  [LAccept AcceptAgain] ++ repeat LThread 6.
Definition sample_end : list Label := [LFinish 1048577 sample_result; LNotify; LComplete; LComplete].
Definition sample_reap : list Label := sample_end ++ repeat LThread 12.
Definition sample_drain : list Label := LCall (Drain 1 100) true true :: repeat (LControl 0) 5 ++ repeat LThread 4 ++ [LControl 0].
Definition sample_stop : list Label :=
  [LControl 0; LControl 0; LThread; LCall (Stop 1 100) true true] ++ repeat (LControl 0) 6 ++ [LComplete; LComplete] ++
  repeat LThread 5 ++ repeat (LControl 0) 8.

(** What a run leaves, where it can be read off. *)
Lemma run_reaches {A} (observe : World -> A) ls x : observe <$> run_labels ls boot = Some x -> exists w, reachable w /\ observe w = x.
Proof.
  destruct (run_labels ls boot) as [w|] eqn:Hrun; [|done]. intros [= <-]. exists w. split; [|done]. apply (reachable_run ls boot w reachable_boot Hrun).
Qed.

Lemma service_accounts_witness : exists w, reachable w /\ length (bridges w) = 1%nat /\
  accepted_connections (stats w) = u64 (completed_connections (stats w) + active_connections (stats w)).
Proof.
  destruct (run_reaches (fun w => length (bridges w)) (sample_start ++ sample_accept) 1%nat) as (w & Hr & Hb); [vm_compute; reflexivity|].
  exists w. split; [exact Hr|]. split; [exact Hb|]. apply (service_accounts w Hr).
Defined.
(** Up to the accept, where the connection still points to the entry. *)
Definition sample_taken : list Label := sample_start ++ take 11 sample_accept ++ [LChildReady 5].
Lemma service_memory_safe_witness : exists w, run_labels sample_taken boot = Some w /\ taken w = [5] /\
  fault w = false /\ child_fault w = false /\ is_Some (entries w !! 5).
Proof.
  destruct (run_labels sample_taken boot) as [w|] eqn:Hrun; [|by vm_compute in Hrun].
  assert (taken w = [5]) as Ht by (vm_compute in Hrun; by injection Hrun as <-).
  destruct (service_memory_safe sample_taken w Hrun) as (Hf & Hc & _). destruct Hc as [Hcf He]; [vm_compute; reflexivity|].
  exists w. split; [reflexivity|]. split; [exact Ht|]. split; [exact Hf|]. split; [exact Hcf|].
  apply He. rewrite Ht. apply elem_of_app. right. apply list_elem_of_here.
Defined.
(** The exception is real: [kthread_run] fails while a connection is in the queue; the start takes the entry from its listener and
    frees it, and the next data on that connection reads it. *)
Definition sample_failed_start : list Label :=
  take 4 sample_start ++ [LConnect 5; LControl (- ENOMEM)] ++ repeat (LControl 0) 7 ++ [LChildReady 5].
Lemma failed_start_dangles : exists w, run_labels sample_failed_start boot = Some w /\
  control w = CReturn (- ENOMEM) None /\ entries w = ∅ /\ children w = [5] /\ child_fault w = true.
Proof. eexists. split; [vm_compute; reflexivity|]. done. Qed.
Lemma drain_returns_idle_witness : exists w, reachable w /\ accepted_connections (stats w) = 1 /\ completed_connections (stats w) = 1 /\ table w = ∅.
Proof.
  destruct (run_reaches (fun w => (control w, accepted_connections (stats w), completed_connections (stats w)))
              (sample_start ++ sample_accept ++ sample_reap ++ sample_drain) (CDrainStats, 1, 1)) as (w & Hr & Hw); [vm_compute; reflexivity|].
  injection Hw as Hc Ha Hd. destruct (step (LControl 0) w) as [w'|] eqn:Hs.
  - exists w. split; [exact Hr|]. split; [exact Ha|]. split; [exact Hd|]. apply (drain_returns_idle 0 w w' Hr Hc Hs).
  - exfalso. cbn in Hs. unfold control_step in Hs. rewrite Hc in Hs. by destruct (allocated w).
Defined.
Lemma stop_returns_released_witness : exists w', reachable w' /\ allocated w' = false /\ entries w' = ∅ /\ table w' = ∅ /\ notifier w' = false.
Proof.
  destruct (run_reaches control (sample_start ++ sample_accept ++ sample_reap ++ sample_drain ++ sample_stop) CStopFinal)
    as (w & Hr & Hc); [vm_compute; reflexivity|].
  destruct (step (LControl 0) w) as [w'|] eqn:Hs.
  - exists w'. split; [by apply (reachable_step w (LControl 0))|].
    destruct (stop_returns_released 0 w w' Hr Hc Hs) as (final & _ & _ & _ & _ & Ha & _ & Hn & Ht & He & _). auto.
  - exfalso. cbn in Hs. unfold control_step in Hs. by rewrite Hc in Hs.
Defined.
Lemma start_fails_without_thread_witness : exists w, reachable w /\ control w = CStartThread 5 /\ errno (-12) = true /\ thread w = None.
Proof.
  destruct (run_reaches control (take 4 sample_start) (CStartThread 5)) as (w & Hr & Hc); [vm_compute; reflexivity|].
  exists w. split; [exact Hr|]. split; [exact Hc|]. split; [reflexivity|].
  apply (start_fails_without_thread (LControl (-12)) w w{{control := CFailRestore 5 (-12) true true}} 5 (-12) true true Hr).
  - cbn. unfold control_step. by rewrite Hc.
  - reflexivity.
  - rewrite Hc. discriminate.
Defined.
Lemma stop_cancels_sessions_witness : exists w, reachable w /\ stopping w = true /\ is_Some (table w !! 1048577) /\ 1048577 ∈ cancelled w.
Proof.
  destruct (run_reaches (fun w => (stopping w, control w, table w !! 1048577, thread w))
              (sample_start ++ sample_accept ++ LCall (Stop 1 100) true true :: repeat (LControl 0) 6)
              (true, CStopWait true, Some None, Some TWait)) as (w & Hr & Hw); [vm_compute; reflexivity|].
  injection Hw as Hs Hc Ht Hth. exists w. split; [exact Hr|]. split; [exact Hs|]. split; [by rewrite Ht|].
  destruct (stop_cancels_sessions w 1048577 Hr Hs) as [H|H]; [by rewrite Hc|by rewrite Ht|exact H|by rewrite Hth in H].
Defined.
Lemma no_wakeup_lost_witness : exists w, reachable w /\ thread w = Some TWait /\ length (bridges w) = 1%nat /\
  forall h result, table w !! h = Some result -> result = None.
Proof.
  destruct (run_reaches (fun w => (thread w, work_ready w, posting w, notifying w, will_post (control w), length (bridges w)))
              (sample_start ++ sample_accept ++ LComplete :: repeat LThread 11) (Some TWait, O, O, O, false, 1%nat))
    as (w & Hr & Hw); [vm_compute; reflexivity|].
  injection Hw as Ht Hwr Hpo Hn Hc Hb. exists w. split; [exact Hr|]. split; [exact Ht|]. split; [exact Hb|].
  apply (no_wakeup_lost w Hr Ht Hwr Hpo Hn Hc).
Defined.
Lemma service_stats_decode_witness : exists w message, reachable w /\ accepted_connections (stats w) = 1 /\
  decode_service_stats (VBytes message) = Ok (stats w).
Proof.
  destruct (run_reaches (fun w => accepted_connections (stats w)) (sample_start ++ sample_accept) 1) as (w & Hr & Ha); [vm_compute; reflexivity|].
  destruct (service_stats_decode w Hr) as (message & _ & Hd). exists w, message. split; [exact Hr|]. split; [exact Ha|exact Hd].
Defined.
